(** * Generation queue and execution engine: a shallow embedding

    This development embeds the core of the studio's main process --
    [config.ts], [gemini-client.ts], [image-store.ts], [paths.ts], the
    queue and image parts of [db.ts], and [queue.ts] -- as Rocq functions
    and proves the behaviour that the specification states about them.

    Conventions of the embedding.
    - A finite JavaScript number is written as a rational ([Q]); where
      the source tests for it, the not-a-number value is the constructor
      [NaN] of [number].  The machine holds the double nearest to the
      rational, [binary64]: the source's [toFixed], [Number.isFinite] and
      comparisons with zero are taken on that double.
    - The amounts of money are thousandths of a dollar and their sums are
      exact.  The double sum of the machine is within a rounding error of
      the exact one, so that the two can disagree about a ceiling only
      when the exact sum equals it; whether the double sum then comes out
      above the ceiling is the platform's answer, [sum_rounds_up].
    - A string is the UTF-8 text of the JavaScript string; white space is
      what [String.prototype.trim] and the [\s] of a regular expression
      take for it, the no-break space and the byte-order mark among it.
    - [null] and [undefined] are both [None].
    - The tables [queue_jobs] and [usage_log] are lists of rows in row
      order; [images] and [reference_images] are finite maps keyed by
      their primary key, [image_tags] is a list of pairs.  A primary-key
      conflict makes an insert throw and a foreign key makes a [DELETE]
      of a row that is pointed to throw, as SQLite does.
    - What the platform decides -- the identifiers of [uuidv4], the answers
      of the network, the I/O errors of the disk and how much of a file a
      failed write leaves behind, the clock -- is an argument of the
      model, and the theorems hold for every choice of it.
    - An [async] function is split where it first suspends: the part that
      runs in the caller's turn, and the part that runs when the awaited
      work settles. *)

From Stdlib Require Import Ascii String QArith Qround Qabs Lqa.
From Stdlib.Strings Require Byte.
From stdpp Require Import gmap strings list pretty sorting.

Local Open Scope Z_scope.

(** ** JavaScript numbers and strings *)

Inductive number : Type :=
| NaN
| Num (q : Q).

(** *** Binary floating point

    The machine holds a number as a double.  [binary64 q] is the double
    nearest to [q], the one with the even significand on a tie, as the
    rational that it is exactly: 53 bits of significand, the smallest
    exponent that of the subnormal numbers.  The exponent is not bounded
    from above here; [isFinite] is the test for that. *)

(** The [e] with [2 ^ e <= num / den < 2 ^ (e + 1)], for a positive
    [num]. *)
Definition binade (num : Z) (den : positive) : Z :=
  let e := Z.log2 num - Z.log2 (Z.pos den) in
  if (if 0 <=? e then Z.pos den * 2 ^ e <=? num else Z.pos den <=? num * 2 ^ (- e))
  then e else e - 1.

(** The integer nearest to [n / d], the even one on a tie. *)
Definition roundHalfEven (n d : Z) : Z :=
  let q := n / d in
  let r := n mod d in
  if 2 * r <? d then q
  else if d <? 2 * r then q + 1
  else if Z.even q then q else q + 1.

Definition binary64_magnitude (num : Z) (den : positive) : Q :=
  let k := Z.max (binade num den - 52) (- 1074) in
  if 0 <=? k
  then inject_Z (roundHalfEven num (Z.pos den * 2 ^ k) * 2 ^ k)
  else Qmake (roundHalfEven (num * 2 ^ (- k)) (Z.pos den)) (Z.to_pos (2 ^ (- k))).

Definition binary64 (q : Q) : Q :=
  match Qnum q with
  | Z0 => 0
  | Z.pos n => binary64_magnitude (Z.pos n) (Qden q)
  | Z.neg n => - binary64_magnitude (Z.pos n) (Qden q)
  end.

(** [Number.isFinite] of the double for [q]: a magnitude that rounds to
    [2 ^ 1024] is an infinity. *)
Definition isFinite (q : Q) : bool :=
  negb (Qle_bool (inject_Z (2 ^ 1024)) (Qabs (binary64 q))).

(** [value.toFixed(3)] works on the magnitude of the double: the number
    of thousandths nearest to it, the larger one on a tie. *)
Definition thousandths (magnitude : Q) : Z :=
  Qfloor (magnitude * 1000 + (1 # 2)).

Definition is_negative (value : Q) : bool := negb (Qle_bool 0 value).

(** [Number(value.toFixed(3))], for the double that [value] is held as. *)
Definition toFixed3 (value : Q) : Q :=
  let held := binary64 value in
  if is_negative held then - Qmake (thousandths (- held)) 1000
  else Qmake (thousandths held) 1000.

Definition pad3 (n : Z) : string :=
  if n <? 10 then "00" +:+ pretty n
  else if n <? 100 then "0" +:+ pretty n
  else pretty n.

Definition digits3 (n : Z) : string :=
  pretty (n / 1000) +:+ "." +:+ pad3 (n mod 1000).

(** The text of [value.toFixed(3)] (below 1e21, where JavaScript switches
    to exponent notation). *)
Definition toFixed3_text (value : Q) : string :=
  let held := binary64 value in
  if is_negative held then "-" +:+ digits3 (thousandths (- held))
  else digits3 (thousandths held).

(** The white space of [trim] and of [\s] in a regular expression: tab,
    line feed, vertical tab, form feed, carriage return and space, and
    beyond ASCII the characters U+00A0, U+1680, U+2000 to U+200A, U+2028,
    U+2029, U+202F, U+205F, U+3000 and U+FEFF, which UTF-8 writes in two
    or three bytes.  [is_whitespace1] has the ones of one byte,
    [is_whitespace2] the one of two and [is_whitespace3] those of
    three. *)
Definition is_whitespace1 (c : ascii) : bool :=
  match c with
  | " "%char | "009"%char | "010"%char | "011"%char | "012"%char | "013"%char => true
  | _ => false
  end.

(** U+00A0 is C2 A0. *)
Definition is_whitespace2 (a b : ascii) : bool :=
  (nat_of_ascii a =? 194)%nat && (nat_of_ascii b =? 160)%nat.

(** U+1680 is E1 9A 80; U+2000 to U+200A, U+2028, U+2029 and U+202F are
    E2 80 followed by 80 to 8A, A8, A9 and AF; U+205F is E2 81 9F; U+3000
    is E3 80 80; U+FEFF is EF BB BF. *)
Definition is_whitespace3 (a b c : ascii) : bool :=
  let x := nat_of_ascii a in
  let y := nat_of_ascii b in
  let z := nat_of_ascii c in
  ((x =? 225) && (y =? 154) && (z =? 128)
   || (x =? 226) && (y =? 128)
      && ((128 <=? z) && (z <=? 138) || (z =? 168) || (z =? 169) || (z =? 175))
   || (x =? 226) && (y =? 129) && (z =? 159)
   || (x =? 227) && (y =? 128) && (z =? 128)
   || (x =? 239) && (y =? 187) && (z =? 191))%nat.

(** Drops the white space that [s] begins with.  With [backwards] the
    bytes of [s] are read in reverse, as they are when the end of a string
    is trimmed: the last byte of a character comes first. *)
Fixpoint dropWhitespace (backwards : bool) (s : string) : string :=
  match s with
  | EmptyString => EmptyString
  | String a rest =>
      if is_whitespace1 a then dropWhitespace backwards rest
      else
        match rest with
        | String b rest2 =>
            if (if backwards then is_whitespace2 b a else is_whitespace2 a b)
            then dropWhitespace backwards rest2
            else
              match rest2 with
              | String c rest3 =>
                  if (if backwards then is_whitespace3 c b a else is_whitespace3 a b c)
                  then dropWhitespace backwards rest3
                  else s
              | EmptyString => s
              end
        | EmptyString => s
        end
  end.

Definition trimStart (s : string) : string := dropWhitespace false s.

Definition trimEnd (s : string) : string :=
  String.rev (dropWhitespace true (String.rev s)).

Definition trim (s : string) : string := trimEnd (trimStart s).

(** Truthiness of a string. *)
Definition truthy (s : string) : bool :=
  match s with EmptyString => false | _ => true end.

(** ** shared/types.ts and the request validation of ipc.ts *)

Definition ALLOWED_MODELS : list string :=
  [ "gemini-3.1-flash-image-preview"; "gemini-3-pro-image-preview";
    "gemini-2.5-flash-image"; "gemini-2.5-flash-image-preview" ].

Definition ALLOWED_RESOLUTIONS : list string := [ "512px"; "1K"; "2K"; "4K" ].

Record ReferenceImagePayload : Type := {
  ref_id : option string;
  ref_name : string;
  ref_mimeType : string;
  ref_dataBase64 : string;
  ref_label : option string
}.

Record GenerationRequest : Type := {
  model : string;
  prompt : string;
  systemPrompt : option string;
  referenceImages : option (list ReferenceImagePayload);
  aspectRatio : option string;
  resolution : option string;
  thinkingLevel : option string;
  useGoogleSearch : option bool;
  responseModalities : option (list string);
  batchCount : option Z;
  parentId : option string;
  projectId : option string
}.

(** [{ ...request, batchCount: 1 }] *)
Definition with_batchCount (request : GenerationRequest) (n : Z) : GenerationRequest :=
  {| model := model request;
     prompt := prompt request;
     systemPrompt := systemPrompt request;
     referenceImages := referenceImages request;
     aspectRatio := aspectRatio request;
     resolution := resolution request;
     thinkingLevel := thinkingLevel request;
     useGoogleSearch := useGoogleSearch request;
     responseModalities := responseModalities request;
     batchCount := Some n;
     parentId := parentId request;
     projectId := projectId request |}.

(** ** config.ts *)

Module Config.

Record StudioConfigFile : Type := {
  encryptedApiKey : option string;
  queueConcurrency : option number;
  monthlySpendLimitUsd : option number;
  totalSpendLimitUsd : option number
}.

Record StudioConfigPublic : Type := {
  hasApiKey : bool;
  publicQueueConcurrency : Z;
  publicMonthlySpendLimitUsd : option Q;
  publicTotalSpendLimitUsd : option Q
}.

Definition DEFAULT_queueConcurrency : Z := 2.

Definition normalizeConcurrency (value : option number) : Z :=
  match value with
  | None | Some NaN => DEFAULT_queueConcurrency
  | Some (Num v) =>
      if Qeq_bool v 0 then DEFAULT_queueConcurrency
      else Z.min 8 (Z.max 1 (Qfloor v))
  end.

Definition normalizeSpendLimit (value : option number) : option Q :=
  match value with
  | None | Some NaN => None
  | Some (Num v) =>
      if Qle_bool (binary64 v) 0 then None else Some (toFixed3 v)
  end.

Definition limit_to_number (l : option Q) : option number := Num <$> l.

(** [readConfigFile] on the parsed content of the configuration file:
    the store only ever holds normalised values. *)
Definition readConfigFile (parsed : StudioConfigFile) : StudioConfigFile :=
  {| encryptedApiKey := encryptedApiKey parsed;
     queueConcurrency :=
       Some (Num (inject_Z (normalizeConcurrency (queueConcurrency parsed))));
     monthlySpendLimitUsd :=
       limit_to_number (normalizeSpendLimit (monthlySpendLimitUsd parsed));
     totalSpendLimitUsd :=
       limit_to_number (normalizeSpendLimit (totalSpendLimitUsd parsed)) |}.

Section WithKeyStore.
(** [decodeApiKey] decrypts through the operating system's key store;
    it is a parameter of the model. *)
Variable decodeApiKey : string -> option string.

Definition getApiKey (config : StudioConfigFile) : option string :=
  match encryptedApiKey config with
  | None => None
  | Some value => if truthy value then decodeApiKey value else None
  end.

Definition getPublicConfig (config : StudioConfigFile) : StudioConfigPublic :=
  {| hasApiKey :=
       match getApiKey config with Some k => truthy k | None => false end;
     publicQueueConcurrency := normalizeConcurrency (queueConcurrency config);
     publicMonthlySpendLimitUsd := normalizeSpendLimit (monthlySpendLimitUsd config);
     publicTotalSpendLimitUsd := normalizeSpendLimit (totalSpendLimitUsd config) |}.

(** The patch of [updateConfig]: an outer [None] is a key that the
    patch does not own; [Some None] is an explicit [null]. *)
Record ConfigPatch : Type := {
  patch_queueConcurrency : option number;
  patch_monthlySpendLimitUsd : option (option number);
  patch_totalSpendLimitUsd : option (option number)
}.

Definition updateConfig (config : StudioConfigFile) (patch : ConfigPatch)
  : StudioConfigFile :=
  {| encryptedApiKey := encryptedApiKey config;
     queueConcurrency :=
       Some (Num (inject_Z (normalizeConcurrency
         (match patch_queueConcurrency patch with
          | Some v => Some v
          | None => queueConcurrency config
          end))));
     monthlySpendLimitUsd :=
       limit_to_number (normalizeSpendLimit
         (match patch_monthlySpendLimitUsd patch with
          | Some v => v
          | None => monthlySpendLimitUsd config
          end));
     totalSpendLimitUsd :=
       limit_to_number (normalizeSpendLimit
         (match patch_totalSpendLimitUsd patch with
          | Some v => v
          | None => totalSpendLimitUsd config
          end)) |}.
End WithKeyStore.

End Config.

(** ** ipc.ts: the validation of what the renderer sends

    The handler of [studio:queue:enqueue] passes what the renderer sent
    through [parseGenerationRequestInput] before it reaches the queue, and
    the handler of [studio:config:update] passes it through
    [parseConfigPatch] before it reaches the configuration store. *)

Module Ipc.

(** A value as it arrives over the channel.  [VInfinity] is either
    infinity; [VOther] is a value of a type that none of the checks
    accepts (a bigint).  Objects other than records and arrays (a date, a
    map) have none of the properties that are read and behave as the
    empty record. *)
#[warnings="-register-all"]
Inductive value : Type :=
| VUndefined
| VNull
| VBool (b : bool)
| VNumber (n : number)
| VInfinity
| VString (s : string)
| VArray (items : list value)
| VObject (fields : list (string * value))
| VOther.

Definition MAX_REFERENCE_IMAGES : Z := 14.

Definition ALLOWED_ASPECT_RATIOS : list string :=
  [ "1:1"; "2:3"; "3:2"; "3:4"; "4:3"; "4:5"; "5:4"; "1:4"; "1:8"; "4:1"; "8:1";
    "9:16"; "16:9"; "21:9" ].

Definition ALLOWED_THINKING_LEVELS : list string := [ "none"; "low"; "medium"; "high" ].
Definition ALLOWED_REFERENCE_LABELS : list string := [ "person"; "object"; "style" ].
Definition ALLOWED_RESPONSE_MODALITIES : list string := [ "TEXT"; "IMAGE" ].

(** [set.has(x)] *)
Definition has (set : list string) (x : string) : bool := existsb (String.eqb x) set.

(** [typeof value === 'object' && value !== null && !Array.isArray(value)] *)
Definition isRecord (v : value) : bool :=
  match v with VObject _ => true | _ => false end.

Definition hasOwnProperty (v : value) (key : string) : bool :=
  match v with
  | VObject fields => existsb (fun kv => String.eqb (fst kv) key) fields
  | _ => false
  end.

(** Property access [value.key] on a record. *)
Definition prop (v : value) (key : string) : value :=
  match v with
  | VObject fields =>
      match List.find (fun kv => String.eqb (fst kv) key) fields with
      | Some kv => snd kv
      | None => VUndefined
      end
  | _ => VUndefined
  end.

(** [value == null] *)
Definition nullish (v : value) : bool :=
  match v with VUndefined | VNull => true | _ => false end.

(** [Number.isInteger] of a finite number *)
Definition isInteger (q : Q) : bool := Qeq_bool (inject_Z (Qfloor q)) q.

(** [Array.from(new Set(items))]: the first occurrence of each item, in
    order. *)
Definition dedupe (items : list string) : list string :=
  List.fold_left (fun seen x => if has seen x then seen else seen ++ [x]) items [].

(** A parse that may throw: [inl message] is the error. *)
Definition bind {A B} (m : string + A) (k : A -> string + B) : string + B :=
  match m with
  | inl message => inl message
  | inr a => k a
  end.

Declare Scope parse_scope.
Delimit Scope parse_scope with parse.
Notation "x <- m ;; k" := (bind m (fun x => k))
  (at level 100, m at next level, right associativity) : parse_scope.

Definition parseReferenceImagePayload (v : value) (index : nat)
  : string + ReferenceImagePayload :=
  let number := "Referenzbild " +:+ pretty (Z.of_nat index + 1) in
  if negb (isRecord v) then inl (number +:+ " ist ungueltig.")
  else
    (name <- match prop v "name" with
             | VString name =>
                 if truthy (trim name) then inr name
                 else inl (number +:+ " braucht einen Namen.")
             | _ => inl (number +:+ " braucht einen Namen.")
             end ;;
     mimeType <- match prop v "mimeType" with
                 | VString mimeType =>
                     if truthy (trim mimeType) then inr mimeType
                     else inl (number +:+ " hat keinen gueltigen MIME-Typ.")
                 | _ => inl (number +:+ " hat keinen gueltigen MIME-Typ.")
                 end ;;
     dataBase64 <- match prop v "dataBase64" with
                   | VString dataBase64 =>
                       if truthy (trim dataBase64) then inr dataBase64
                       else inl (number +:+ " enthaelt keine Daten.")
                   | _ => inl (number +:+ " enthaelt keine Daten.")
                   end ;;
     if hasOwnProperty v "label" && negb (nullish (prop v "label"))
        && negb match prop v "label" with
                | VString label => has ALLOWED_REFERENCE_LABELS label
                | _ => false
                end
     then inl (number +:+ " hat ein ungueltiges Label.")
     else
       inr {| ref_id := match prop v "id" with VString id => Some id | _ => None end;
              ref_name := name;
              ref_mimeType := mimeType;
              ref_dataBase64 := dataBase64;
              ref_label := match prop v "label" with
                           | VString label => Some label
                           | _ => None
                           end |})%parse.

(** [items.map((item, index) => parseReferenceImagePayload(item, index))]
    from [index] on: the first item that is rejected throws. *)
Fixpoint parseReferenceImages (items : list value) (index : nat)
  : string + list ReferenceImagePayload :=
  match items with
  | [] => inr []
  | item :: rest =>
      (ref <- parseReferenceImagePayload item index ;;
       refs <- parseReferenceImages rest (S index) ;;
       inr (ref :: refs))%parse
  end.

(** The callback of [responseModalities.map] on every item in turn. *)
Fixpoint parseModalities (items : list value) : string + list string :=
  match items with
  | [] => inr []
  | item :: rest =>
      match item with
      | VString modality =>
          if has ALLOWED_RESPONSE_MODALITIES modality
          then (modalities <- parseModalities rest ;; inr (modality :: modalities))%parse
          else inl "Ungueltige responseModalities."
      | _ => inl "Ungueltige responseModalities."
      end
  end.

Definition parseGenerationRequestInput (v : value) : string + GenerationRequest :=
  if negb (isRecord v) then inl "Generierungsanfrage muss ein Objekt sein."
  else
    (model <- match prop v "model" with
              | VString model =>
                  if has ALLOWED_MODELS model then inr model else inl "Ungueltiges Modell."
              | _ => inl "Ungueltiges Modell."
              end ;;
     prompt <- match prop v "prompt" with
               | VString prompt =>
                   if truthy (trim prompt) then inr prompt
                   else inl "Prompt ist erforderlich."
               | _ => inl "Prompt ist erforderlich."
               end ;;
     systemPrompt <-
       (if hasOwnProperty v "systemPrompt" then
          match prop v "systemPrompt" with
          | VUndefined | VNull => inr None
          | VString text => inr (Some text)
          | _ => inl "Ungueltiger System-Prompt."
          end
        else inr None) ;;
     referenceImages <-
       (if hasOwnProperty v "referenceImages" then
          match prop v "referenceImages" with
          | VArray items =>
              if MAX_REFERENCE_IMAGES <? Z.of_nat (length items)
              then inl ("Maximal " +:+ pretty MAX_REFERENCE_IMAGES
                        +:+ " Referenzbilder erlaubt.")
              else (refs <- parseReferenceImages items 0 ;; inr (Some refs))
          | _ => inl "referenceImages muss ein Array sein."
          end
        else inr None) ;;
     aspectRatio <-
       (if hasOwnProperty v "aspectRatio" then
          match prop v "aspectRatio" with
          | VUndefined | VNull => inr None
          | VString ratio =>
              if has ALLOWED_ASPECT_RATIOS ratio then inr (Some ratio)
              else inl "Ungueltiges Seitenverhaeltnis."
          | _ => inl "Ungueltiges Seitenverhaeltnis."
          end
        else inr None) ;;
     resolution <-
       (if hasOwnProperty v "resolution" then
          match prop v "resolution" with
          | VUndefined | VNull => inr None
          | VString tier =>
              if has ALLOWED_RESOLUTIONS tier then inr (Some tier)
              else inl "Ungueltige Aufloesung."
          | _ => inl "Ungueltige Aufloesung."
          end
        else inr None) ;;
     thinkingLevel <-
       (if hasOwnProperty v "thinkingLevel" then
          match prop v "thinkingLevel" with
          | VUndefined | VNull => inr None
          | VString level =>
              if has ALLOWED_THINKING_LEVELS level then inr (Some level)
              else inl "Ungueltiges Thinking-Level."
          | _ => inl "Ungueltiges Thinking-Level."
          end
        else inr None) ;;
     useGoogleSearch <-
       (if hasOwnProperty v "useGoogleSearch" then
          match prop v "useGoogleSearch" with
          | VUndefined | VNull => inr None
          | VBool flag => inr (Some flag)
          | _ => inl "Ungueltiger useGoogleSearch-Wert."
          end
        else inr None) ;;
     responseModalities <-
       (if hasOwnProperty v "responseModalities" then
          match prop v "responseModalities" with
          | VArray [] => inl "responseModalities muss ein nicht-leeres Array sein."
          | VArray items =>
              (modalities <- parseModalities items ;; inr (Some (dedupe modalities)))
          | _ => inl "responseModalities muss ein nicht-leeres Array sein."
          end
        else inr None) ;;
     batchCount <-
       (if hasOwnProperty v "batchCount" then
          match prop v "batchCount" with
          | VUndefined | VNull => inr None
          | VNumber (Num count) =>
              if isInteger count && Qle_bool 1 count && Qle_bool count 4
              then inr (Some (Qfloor count))
              else inl "batchCount muss zwischen 1 und 4 liegen."
          | _ => inl "batchCount muss zwischen 1 und 4 liegen."
          end
        else inr None) ;;
     parentId <-
       (if hasOwnProperty v "parentId" then
          match prop v "parentId" with
          | VUndefined | VNull => inr None
          | VString parent => inr (Some parent)
          | _ => inl "Ungueltiger parentId-Wert."
          end
        else inr None) ;;
     projectId <-
       (if hasOwnProperty v "projectId" then
          match prop v "projectId" with
          | VUndefined | VNull => inr None
          | VString project => inr (Some project)
          | _ => inl "Ungueltiger projectId-Wert."
          end
        else inr None) ;;
     inr {| model := model; prompt := prompt; systemPrompt := systemPrompt;
            referenceImages := referenceImages; aspectRatio := aspectRatio;
            resolution := resolution; thinkingLevel := thinkingLevel;
            useGoogleSearch := useGoogleSearch; responseModalities := responseModalities;
            batchCount := batchCount; parentId := parentId; projectId := projectId |})%parse.

(** The patch of [studio:config:update].  The keys [defaultModel],
    [theme] and [onboardingCompleted] are checked like the others; their
    values are no part of the configuration that the queue reads. *)
Definition ALLOWED_CONFIG_PATCH_KEYS : list string :=
  [ "defaultModel"; "theme"; "onboardingCompleted"; "queueConcurrency";
    "monthlySpendLimitUsd"; "totalSpendLimitUsd" ].

Definition parseConfigPatch (v : value) : string + Config.ConfigPatch :=
  match v with
  | VObject fields =>
      match List.find (fun kv => negb (has ALLOWED_CONFIG_PATCH_KEYS (fst kv))) fields with
      | Some kv => inl ("Unbekanntes Konfigurationsfeld: " +:+ fst kv)
      | None =>
          if hasOwnProperty v "defaultModel"
             && negb match prop v "defaultModel" with
                     | VString defaultModel => has ALLOWED_MODELS defaultModel
                     | _ => false
                     end
          then inl "Ungueltiges Standardmodell."
          else if hasOwnProperty v "theme"
                  && negb match prop v "theme" with
                          | VString theme =>
                              String.eqb theme "dark" || String.eqb theme "light"
                              || String.eqb theme "system"
                          | _ => false
                          end
          then inl "Ungueltiges Theme."
          else if hasOwnProperty v "onboardingCompleted"
                  && negb match prop v "onboardingCompleted" with
                          | VBool _ => true
                          | _ => false
                          end
          then inl "Ungueltiger Wert fuer onboardingCompleted."
          else
            (queueConcurrency <-
               (if hasOwnProperty v "queueConcurrency"
                then match prop v "queueConcurrency" with
                     | VNumber (Num n) =>
                         if isFinite n && isInteger n then inr (Some (Num n))
                         else inl "Ungueltiger Wert fuer queueConcurrency."
                     | _ => inl "Ungueltiger Wert fuer queueConcurrency."
                     end
                else inr None) ;;
             monthlySpendLimitUsd <-
               (if hasOwnProperty v "monthlySpendLimitUsd"
                then match prop v "monthlySpendLimitUsd" with
                     | VNull => inr (Some None)
                     | VNumber (Num n) =>
                         if isFinite n then inr (Some (Some (Num n)))
                         else inl "Ungueltiger Wert fuer monthlySpendLimitUsd."
                     | _ => inl "Ungueltiger Wert fuer monthlySpendLimitUsd."
                     end
                else inr None) ;;
             totalSpendLimitUsd <-
               (if hasOwnProperty v "totalSpendLimitUsd"
                then match prop v "totalSpendLimitUsd" with
                     | VNull => inr (Some None)
                     | VNumber (Num n) =>
                         if isFinite n then inr (Some (Some (Num n)))
                         else inl "Ungueltiger Wert fuer totalSpendLimitUsd."
                     | _ => inl "Ungueltiger Wert fuer totalSpendLimitUsd."
                     end
                else inr None) ;;
             inr {| Config.patch_queueConcurrency := queueConcurrency;
                    Config.patch_monthlySpendLimitUsd := monthlySpendLimitUsd;
                    Config.patch_totalSpendLimitUsd := totalSpendLimitUsd |})%parse
      end
  | _ => inl "Konfigurations-Patch muss ein Objekt sein."
  end.

End Ipc.

(** ** gemini-client.ts *)

Module Gemini.

(** A parsed JSON document.  Object keys are unique after [JSON.parse];
    a number is held as the numeral of the text. *)
#[warnings="-register-all"]
Inductive json : Type :=
| JNull
| JBool (b : bool)
| JNumber (n : Q)
| JString (s : string)
| JArray (items : list json)
| JObject (fields : list (string * json)).

(** Property access [value.key]; [None] is [undefined].  An array has none
    of the named properties that the client reads. *)
Definition get (value : json) (key : string) : option json :=
  match value with
  | JObject fields => snd <$> List.find (fun kv => String.eqb (fst kv) key) fields
  | _ => None
  end.

Definition asRecord (value : option json) : option json :=
  match value with
  | Some (JObject fields) => Some (JObject fields)
  | Some (JArray items) => Some (JArray items)
  | _ => None
  end.

Definition asRecordArray (value : option json) : list json :=
  match value with
  | Some (JArray items) => omap (fun entry => asRecord (Some entry)) items
  | _ => []
  end.

Record GeminiImagePart : Type := {
  mimeType : string;
  dataBase64 : string
}.

Record TokenUsage : Type := {
  inputTokens : number;
  outputTokens : number
}.

Record GeminiGenerationResult : Type := {
  images : list GeminiImagePart;
  modelText : option string;
  tokenUsage : option TokenUsage;
  attempts : Z
}.

Inductive JsError : Type :=
| GeminiHttpError (message : string) (status : Z)
| GeminiTimeoutError (message : string)
| Error (message : string).

(** [this.isRetryable = status === 429 || status >= 500] *)
Definition isRetryable (status : Z) : bool :=
  (status =? 429) || (500 <=? status).

Definition MAX_RETRIES : Z := 3.
Definition RETRY_BASE_DELAY_MS : Z := 800.
Definition GENERATE_REQUEST_TIMEOUT_MS : Z := 120000.

Definition normalizeResolutionForModel (model : string) (resolution : option string)
  : option string :=
  match resolution with
  | None => None
  | Some r =>
      if negb (truthy r) then None
      else if String.eqb model "gemini-2.5-flash-image"
              || String.eqb model "gemini-2.5-flash-image-preview"
      then Some "1K"
      else Some r
  end.

Definition truthy_opt (value : option string) : bool :=
  match value with Some s => truthy s | None => false end.

Definition buildGeminiPayload (request : GenerationRequest) : json :=
  let parts :=
    JObject [("text", JString (trim (prompt request)))]
    :: List.map
         (fun ref => JObject [("inlineData",
            JObject [("mimeType", JString (ref_mimeType ref));
                     ("data", JString (ref_dataBase64 ref))])])
         (default [] (referenceImages request)) in
  let normalizedResolution :=
    normalizeResolutionForModel (model request) (resolution request) in
  let generationConfig :=
    ("responseModalities",
      JArray (JString <$> default ["IMAGE"; "TEXT"] (responseModalities request)))
    :: (if truthy_opt (aspectRatio request) || truthy_opt normalizedResolution
        then [("imageConfig", JObject (
                (if truthy_opt (aspectRatio request)
                 then [("aspectRatio", JString (default "" (aspectRatio request)))]
                 else [])
                ++ (if truthy_opt normalizedResolution
                    then [("imageSize", JString (default "" normalizedResolution))]
                    else [])))]
        else []) in
  let systemPrompt := trim <$> systemPrompt request in
  JObject (
    [("contents", JArray [JObject [("role", JString "user"); ("parts", JArray parts)]]);
     ("generationConfig", JObject generationConfig)]
    ++ (if truthy_opt systemPrompt
        then [("systemInstruction",
               JObject [("parts",
                 JArray [JObject [("text", JString (default "" systemPrompt))]])])]
        else [])
    ++ (if default false (useGoogleSearch request)
        then [("tools", JArray [JObject [("googleSearch", JObject [])]])]
        else [])).

(** The resolution that travels to the remote service:
    [generationConfig.imageConfig.imageSize] of the payload. *)
Definition sentImageSize (payload : json) : option json :=
  generationConfig ← get payload "generationConfig";
  imageConfig ← get generationConfig "imageConfig";
  get imageConfig "imageSize".

Definition extractCandidateParts (body : json) : list json :=
  match asRecordArray (get body "candidates") with
  | [] => []
  | firstCandidate :: _ =>
      match asRecord (get firstCandidate "content") with
      | None => []
      | Some content => asRecordArray (get content "parts")
      end
  end.

Definition orElse {A} (a b : option A) : option A :=
  match a with Some _ => a | None => b end.

Definition extractInlineData (part : json) : option GeminiImagePart :=
  match orElse (asRecord (get part "inlineData")) (asRecord (get part "inline_data")) with
  | None => None
  | Some inlineData =>
      match get inlineData "data" with
      | Some (JString data) =>
          if negb (truthy (trim data)) then None
          else
            Some {| dataBase64 := data;
                    mimeType :=
                      match get inlineData "mimeType" with
                      | Some (JString m) => m
                      | _ =>
                          match get inlineData "mime_type" with
                          | Some (JString m) => m
                          | _ => "image/png"
                          end
                      end |}
      | _ => None
      end
  end.

Definition extractUsageMetadata (body : json) : option json :=
  orElse (asRecord (get body "usageMetadata")) (asRecord (get body "usage_metadata")).

Definition readErrorMessage (status : Z) (body : option json) : string :=
  let fallback := "Gemini API request failed with " +:+ pretty status in
  match body with
  | None => fallback
  | Some b =>
      match asRecord (Some b) with
      | None => fallback
      | Some rec =>
          match asRecord (get rec "error") with
          | None => fallback
          | Some err =>
              match get err "message" with
              | Some (JString m) => m
              | _ => fallback
              end
          end
      end
  end.

(** What one network exchange can come to: the abort of the timeout
    controller, a transport failure, or a response with a status and a
    body ([None] when the body is not JSON). *)
Inductive NetOutcome : Type :=
| NetAbort
| NetFailure (message : string)
| NetResponse (status : Z) (body : option json).

Definition fetchWithTimeout (o : NetOutcome) : JsError + (Z * option json) :=
  match o with
  | NetAbort => inl (GeminiTimeoutError "Request timed out.")
  | NetFailure m => inl (Error m)
  | NetResponse status body => inr (status, body)
  end.

Definition response_ok (status : Z) : bool := (200 <=? status) && (status <=? 299).

Section Client.
(** [Number(text)], used for token counts that arrive as strings: the
    number that the text holds, [NaN] when it holds none. *)
Variable Number_of_string : string -> number.

(** A number of the response is the numeral that [JSON.parse] read; one
    beyond the range of a double is read as an infinity, which
    [Number.isFinite] refuses. *)

Fixpoint numberFromRecord (record : json) (keys : list string) : number :=
  match keys with
  | [] => Num 0
  | key :: rest =>
      match get record key with
      | Some (JNumber n) =>
          if isFinite n then Num n else numberFromRecord record rest
      | Some (JString s) =>
          if truthy (trim s)
          then match Number_of_string s with
               | NaN => numberFromRecord record rest
               | parsed => parsed
               end
          else numberFromRecord record rest
      | _ => numberFromRecord record rest
      end
  end.

(** The result of [generateOnce]; [generate] adds [attempts]. *)
Definition generateOnce (o : NetOutcome) : JsError + GeminiGenerationResult :=
  match fetchWithTimeout o with
  | inl (GeminiTimeoutError _) =>
      inl (GeminiHttpError
             ("Gemini API request timed out after "
              +:+ pretty (GENERATE_REQUEST_TIMEOUT_MS / 1000) +:+ " seconds.")
             504)
  | inl error => inl error
  | inr (status, body) =>
      if negb (response_ok status)
      then inl (GeminiHttpError (readErrorMessage status body) status)
      else
        match body with
        | None => inl (Error "Unexpected token in JSON")
        | Some parsed =>
            let body := default (JObject []) (asRecord (Some parsed)) in
            let parts := extractCandidateParts body in
            let images := omap extractInlineData parts in
            let textParts :=
              omap (fun part =>
                      match get part "text" with
                      | Some (JString t) =>
                          if truthy (trim t) then Some (trim t) else None
                      | _ => None
                      end) parts in
            match images with
            | [] => inl (Error "Gemini hat fuer diese Anfrage keine Bild-Payload geliefert.")
            | _ =>
                inr {| images := images;
                       modelText :=
                         match textParts with
                         | [] => None
                         | _ => Some (String.concat (String "010" (String "010" "")) textParts)
                         end;
                       tokenUsage :=
                         match extractUsageMetadata body with
                         | None => None
                         | Some usage =>
                             Some {| inputTokens :=
                                       numberFromRecord usage
                                         ["promptTokenCount"; "prompt_token_count"];
                                     outputTokens :=
                                       numberFromRecord usage
                                         ["candidatesTokenCount"; "candidates_token_count"] |}
                         end;
                       attempts := 0 |}
            end
        end
  end.

(** The effects of [generate]: how many requests went out and which
    delays were slept, oldest first. *)
Record Trace : Type := {
  requests : nat;
  sleeps : list Z
}.

Definition with_attempts (r : GeminiGenerationResult) (n : Z) : GeminiGenerationResult :=
  {| images := images r; modelText := modelText r;
     tokenUsage := tokenUsage r; attempts := n |}.

(** The network answers the [n]-th request of a call with [network n],
    whatever the payload. *)
Variable network : nat -> json -> NetOutcome.

Definition generateOnce_io (request : GenerationRequest) (t : Trace)
  : (JsError + GeminiGenerationResult) * Trace :=
  (generateOnce (network (requests t) (buildGeminiPayload request)),
   {| requests := S (requests t); sleeps := sleeps t |}).

Definition wait (ms : Z) (t : Trace) : Trace :=
  {| requests := requests t; sleeps := sleeps t ++ [ms] |}.

(** The [while (attempts < MAX_RETRIES)] loop; [fuel] bounds the number
    of iterations and the loop never needs more than [MAX_RETRIES]. *)
Fixpoint generate_loop (fuel : nat) (request : GenerationRequest)
    (attempts : Z) (lastError : option JsError) (t : Trace)
  : (JsError + GeminiGenerationResult) * Trace :=
  match fuel with
  | O => (inl (default (Error "Generierung fehlgeschlagen (ohne Details).") lastError), t)
  | S fuel' =>
      if attempts <? MAX_RETRIES then
        let attempts := attempts + 1 in
        match generateOnce_io request t with
        | (inr result, t1) => (inr (with_attempts result attempts), t1)
        | (inl error, t1) =>
            let retryable :=
              match error with
              | GeminiHttpError _ status => isRetryable status
              | _ => false
              end in
            if negb retryable || (MAX_RETRIES <=? attempts)
            then (inl error, t1)
            else
              let delayMs := RETRY_BASE_DELAY_MS * 2 ^ (attempts - 1) in
              generate_loop fuel' request attempts (Some error) (wait delayMs t1)
        end
      else
        (inl (default (Error "Generierung fehlgeschlagen (ohne Details).") lastError), t)
  end.

Definition generate (request : GenerationRequest)
  : (JsError + GeminiGenerationResult) * Trace :=
  generate_loop (Z.to_nat MAX_RETRIES) request 0 None {| requests := 0; sleeps := [] |}.
End Client.

End Gemini.

(** ** db.ts: the queue_jobs and usage_log tables

    Timestamps ([CURRENT_TIMESTAMP], [datetime('now', ...)]) are seconds on
    one clock; the caller passes the current time [now]. *)

Inductive QueueStatus : Type :=
| pending
| running
| completed
| failed
| cancelled.

#[global] Instance QueueStatus_eq_dec : EqDecision QueueStatus.
Proof. solve_decision. Defined.

Inductive CostWindow : Type :=
| day
| month
| all.

Module Db.

(** A row of [queue_jobs], as [mapQueueJobRow] returns it.  The request
    is stored as JSON text and parsed back; the round trip is the
    identity on the fields of the model. *)
Record QueueJob : Type := {
  id : string;
  status : QueueStatus;
  request : GenerationRequest;
  resultId : option string;
  error : option string;
  priority : Z;
  createdAt : Z;
  startedAt : option Z;
  completedAt : option Z
}.

(** A row of [usage_log]. *)
Record UsageLog : Type := {
  log_id : string;
  log_model : string;
  log_resolution : option string;
  cost_estimate : Q;
  tokens_in : option number;
  tokens_out : option number;
  created_at : Z
}.

Record StudioDatabase : Type := {
  queue_jobs : list QueueJob;
  usage_log : list UsageLog
}.

Definition with_queue_jobs (rows : list QueueJob) (db : StudioDatabase) : StudioDatabase :=
  {| queue_jobs := rows; usage_log := usage_log db |}.

(** [UPDATE queue_jobs SET ... WHERE matches] *)
Definition update_queue_jobs (matches : QueueJob -> bool) (set : QueueJob -> QueueJob)
    (db : StudioDatabase) : StudioDatabase :=
  with_queue_jobs
    (List.map (fun row => if matches row then set row else row) (queue_jobs db)) db.

Definition has_id (jobId : string) (row : QueueJob) : bool := String.eqb (id row) jobId.

Definition insertQueueJob (now : Z) (jobId : string) (st : QueueStatus)
    (req : GenerationRequest) (prio : Z) (db : StudioDatabase)
  : string + StudioDatabase :=
  if existsb (has_id jobId) (queue_jobs db)
  then inl "UNIQUE constraint failed: queue_jobs.id"
  else inr (with_queue_jobs
              (queue_jobs db ++
                 [{| id := jobId; status := st; request := req; resultId := None;
                     error := None; priority := prio; createdAt := now;
                     startedAt := None; completedAt := None |}]) db).

Definition is_open (row : QueueJob) : bool :=
  match status row with pending | running => true | _ => false end.

Definition is_pending (row : QueueJob) : bool :=
  match status row with pending => true | _ => false end.

Definition is_running (row : QueueJob) : bool :=
  match status row with running => true | _ => false end.

(** [ORDER BY created_at DESC] *)
Definition newest_first (a b : QueueJob) : Prop := createdAt b <= createdAt a.

(** [ORDER BY priority DESC, created_at ASC] *)
Definition dispatch_order (a b : QueueJob) : Prop :=
  priority b < priority a \/ (priority a = priority b /\ createdAt a <= createdAt b).

#[global] Instance newest_first_dec a b : Decision (newest_first a b).
Proof. unfold newest_first. apply _. Defined.

#[global] Instance dispatch_order_dec a b : Decision (dispatch_order a b).
Proof. unfold dispatch_order. apply _. Defined.

Definition listOpenQueueJobs (db : StudioDatabase) : list QueueJob :=
  merge_sort newest_first (List.filter is_open (queue_jobs db)).

Definition getNextPendingJob (db : StudioDatabase) : option QueueJob :=
  head (merge_sort dispatch_order (List.filter is_pending (queue_jobs db))).

Definition getQueueJobById (jobId : string) (db : StudioDatabase) : option QueueJob :=
  List.find (has_id jobId) (queue_jobs db).

Definition markQueueJobRunning (now : Z) (jobId : string) : StudioDatabase -> StudioDatabase :=
  update_queue_jobs (has_id jobId)
    (fun row =>
       {| id := id row; status := running; request := request row;
          resultId := resultId row; error := error row; priority := priority row;
          createdAt := createdAt row; startedAt := Some now;
          completedAt := completedAt row |}).

Definition markQueueJobCompleted (now : Z) (jobId result : string)
  : StudioDatabase -> StudioDatabase :=
  update_queue_jobs (has_id jobId)
    (fun row =>
       {| id := id row; status := completed; request := request row;
          resultId := Some result; error := error row; priority := priority row;
          createdAt := createdAt row; startedAt := startedAt row;
          completedAt := Some now |}).

Definition markQueueJobFailed (now : Z) (jobId message : string)
  : StudioDatabase -> StudioDatabase :=
  update_queue_jobs (has_id jobId)
    (fun row =>
       {| id := id row; status := failed; request := request row;
          resultId := resultId row; error := Some message; priority := priority row;
          createdAt := createdAt row; startedAt := startedAt row;
          completedAt := Some now |}).

Definition markQueueJobCancelled (now : Z) (jobId : string)
  : StudioDatabase -> StudioDatabase :=
  update_queue_jobs (fun row => has_id jobId row && is_pending row)
    (fun row =>
       {| id := id row; status := cancelled; request := request row;
          resultId := resultId row; error := error row; priority := priority row;
          createdAt := createdAt row; startedAt := startedAt row;
          completedAt := Some now |}).

Definition requeued (row : QueueJob) : QueueJob :=
  {| id := id row; status := pending; request := request row;
     resultId := resultId row; error := None; priority := priority row;
     createdAt := createdAt row; startedAt := None; completedAt := None |}.

(** Returns [result.changes] and the updated database. *)
Definition requeueRunningJobs (db : StudioDatabase) : nat * StudioDatabase :=
  (length (List.filter is_running (queue_jobs db)),
   update_queue_jobs is_running requeued db).

Definition insertUsageLog (now : Z) (logId model : string) (res : option string)
    (costEstimate : Q) (tokensIn tokensOut : option number) (db : StudioDatabase)
  : string + StudioDatabase :=
  if existsb (fun row => String.eqb (log_id row) logId) (usage_log db)
  then inl "UNIQUE constraint failed: usage_log.id"
  else inr {| queue_jobs := queue_jobs db;
              usage_log := usage_log db ++
                [{| log_id := logId; log_model := model; log_resolution := res;
                    cost_estimate := costEstimate; tokens_in := tokensIn;
                    tokens_out := tokensOut; created_at := now |}] |}.

Definition SECONDS_PER_DAY : Z := 86400.

Section Clock.
(** [datetime('now', '-1 month')]: the same time of day one calendar
    month earlier, computed by SQLite. *)
Variable one_month_before : Z -> Z.

Definition in_window (window : CostWindow) (now : Z) (row : UsageLog) : bool :=
  match window with
  | day => now - SECONDS_PER_DAY <=? created_at row
  | month => one_month_before now <=? created_at row
  | all => true
  end.

(** [SELECT COALESCE(SUM(cost_estimate), 0) FROM usage_log WHERE ...] *)
Definition getSessionCost (window : CostWindow) (now : Z) (db : StudioDatabase) : Q :=
  List.fold_right Qplus 0%Q
    (List.map cost_estimate (List.filter (in_window window now) (usage_log db))).
End Clock.

End Db.

(** ** queue.ts *)

(** What the platform supplies: the [n]-th identifier that [uuidv4]
    returns, SQLite's calendar arithmetic, the key store, and the
    rounding of a sum of amounts (see [withinLimit] below). *)
Record Platform : Type := {
  uuidv4 : nat -> string;
  one_month_before : Z -> Z;
  decodeApiKey : string -> option string;
  sum_rounds_up : Q -> Q -> Q -> bool
}.

Module Queue.

Definition MAX_BATCH_COUNT : Z := 4.

Inductive Emitted : Type :=
| QueueChanged
| JobCompleted (jobId imageId : string)
| JobFailed (jobId message : string).

(** The scheduler with its collaborators: the database, the configuration
    store, the events emitted so far (oldest first), the current time and
    the number of identifiers drawn so far. *)
Record GenerationQueue : Type := {
  database : Db.StudioDatabase;
  configStore : Config.StudioConfigFile;
  activeRuns : Z;
  paused : bool;
  concurrency : Z;
  emitted : list Emitted;
  clock : Z;
  drawn : nat
}.

Definition with_database (db : Db.StudioDatabase) (q : GenerationQueue) : GenerationQueue :=
  {| database := db; configStore := configStore q; activeRuns := activeRuns q;
     paused := paused q; concurrency := concurrency q; emitted := emitted q;
     clock := clock q; drawn := drawn q |}.

Definition with_configStore (c : Config.StudioConfigFile) (q : GenerationQueue)
  : GenerationQueue :=
  {| database := database q; configStore := c; activeRuns := activeRuns q;
     paused := paused q; concurrency := concurrency q; emitted := emitted q;
     clock := clock q; drawn := drawn q |}.

Definition with_activeRuns (n : Z) (q : GenerationQueue) : GenerationQueue :=
  {| database := database q; configStore := configStore q; activeRuns := n;
     paused := paused q; concurrency := concurrency q; emitted := emitted q;
     clock := clock q; drawn := drawn q |}.

Definition with_paused (b : bool) (q : GenerationQueue) : GenerationQueue :=
  {| database := database q; configStore := configStore q; activeRuns := activeRuns q;
     paused := b; concurrency := concurrency q; emitted := emitted q;
     clock := clock q; drawn := drawn q |}.

Definition with_concurrency (n : Z) (q : GenerationQueue) : GenerationQueue :=
  {| database := database q; configStore := configStore q; activeRuns := activeRuns q;
     paused := paused q; concurrency := n; emitted := emitted q;
     clock := clock q; drawn := drawn q |}.

Definition with_clock (t : Z) (q : GenerationQueue) : GenerationQueue :=
  {| database := database q; configStore := configStore q; activeRuns := activeRuns q;
     paused := paused q; concurrency := concurrency q; emitted := emitted q;
     clock := t; drawn := drawn q |}.

Definition emit (e : Emitted) (q : GenerationQueue) : GenerationQueue :=
  {| database := database q; configStore := configStore q; activeRuns := activeRuns q;
     paused := paused q; concurrency := concurrency q; emitted := emitted q ++ [e];
     clock := clock q; drawn := drawn q |}.

(** One more identifier has been drawn. *)
Definition draw (q : GenerationQueue) : GenerationQueue :=
  {| database := database q; configStore := configStore q; activeRuns := activeRuns q;
     paused := paused q; concurrency := concurrency q; emitted := emitted q;
     clock := clock q; drawn := S (drawn q) |}.

(** [value] is finite: both callers pass the concurrency of
    [getPublicConfig], an integer between 1 and 8. *)
Definition clampConcurrency (value : Q) : Z :=
  Z.min 8 (Z.max 1 (Qfloor value)).

Definition estimateCost (resolution : option string) : Q :=
  match resolution with
  | Some r => if String.eqb r "4K" then 0.24%Q else 0.134%Q
  | None => 0.134%Q
  end.

Definition formatUsd (value : Q) : string := "$" +:+ toFixed3_text value.

Definition spendLimitMessage (label : string)
    (configuredLimit currentSpent reservedQueueCost additionalCost : Q) : string :=
  label +:+ " erreicht: Aktuell " +:+ formatUsd currentSpent
  +:+ ", reserviert " +:+ formatUsd reservedQueueCost
  +:+ ", geplanter Auftrag " +:+ formatUsd additionalCost
  +:+ ", Limit " +:+ formatUsd configuredLimit
  +:+ ". Passe das Limit in den Einstellungen an.".

Section WithPlatform.
Variable P : Platform.

(** [projected <= configuredLimit], where [projected] is
    [currentSpent + reservedQueueCost + additionalCost].

    The amounts are decimals of three places: estimates of 0.134 and
    0.24, sums of them, and ceilings that went through [toFixed(3)].  The
    machine holds each as a double and rounds after each addition, so its
    [projected] is off the exact sum by a rounding error, which is many
    orders of magnitude below the thousandth that separates two amounts.
    Its comparison therefore comes out as the exact one whenever the exact
    sum is not the ceiling itself.  When it is, the rounding decides:
    [sum_rounds_up] says whether the machine's sum came out above the
    double of the ceiling. *)
Definition withinLimit (configuredLimit currentSpent reservedQueueCost additionalCost : Q)
  : bool :=
  let projected := (currentSpent + reservedQueueCost + additionalCost)%Q in
  if Qeq_bool projected configuredLimit
  then negb (sum_rounds_up P currentSpent reservedQueueCost additionalCost)
  else Qle_bool projected configuredLimit.

(** [inl message] is the thrown error. *)
Definition assertSingleLimit (label : string) (configuredLimit : option Q)
    (currentSpent reservedQueueCost additionalCost : Q) : string + unit :=
  match configuredLimit with
  | None => inr tt
  | Some limit =>
      if withinLimit limit currentSpent reservedQueueCost additionalCost then inr tt
      else inl (spendLimitMessage label limit currentSpent reservedQueueCost additionalCost)
  end.

Definition getReservedQueueCost (excludeQueueJobId : option string) (q : GenerationQueue) : Q :=
  List.fold_left
    (fun sum job =>
       if match excludeQueueJobId with
          | Some x => truthy x && String.eqb (Db.id job) x
          | None => false
          end
       then sum
       else (sum + estimateCost (resolution (Db.request job)))%Q)
    (Db.listOpenQueueJobs (database q)) 0%Q.

Definition assertSpendWithinLimits (estimatedAdditionalCost : Q)
    (excludeQueueJobId : option string) (q : GenerationQueue) : string + unit :=
  if Qle_bool estimatedAdditionalCost 0 then inr tt
  else
    let reservedQueueCost := getReservedQueueCost excludeQueueJobId q in
    let config := Config.getPublicConfig (decodeApiKey P) (configStore q) in
    match assertSingleLimit "Monatslimit" (Config.publicMonthlySpendLimitUsd config)
            (Db.getSessionCost (one_month_before P) month (clock q) (database q))
            reservedQueueCost estimatedAdditionalCost with
    | inl message => inl message
    | inr _ =>
        assertSingleLimit "Gesamtlimit" (Config.publicTotalSpendLimitUsd config)
          (Db.getSessionCost (one_month_before P) all (clock q) (database q))
          reservedQueueCost estimatedAdditionalCost
    end.

(** The checks of [runJob] that run before it first suspends; the result
    is the cost estimate of the job. *)
Definition runJob_checks (job : Db.QueueJob) (q : GenerationQueue) : string + Q :=
  match Config.getApiKey (decodeApiKey P) (configStore q) with
  | Some (String _ _) =>
      let costEstimate := estimateCost (resolution (Db.request job)) in
      match assertSpendWithinLimits costEstimate (Some (Db.id job)) q with
      | inl message => inl message
      | inr _ => inr costEstimate
      end
  | _ => inl "Kein API-Schluessel konfiguriert. Oeffne die Einstellungen und hinterlege einen Schluessel."
  end.

(** The [finally] block of [runJob]. *)
Definition runJob_finally (kick : GenerationQueue -> GenerationQueue)
    (q : GenerationQueue) : GenerationQueue :=
  kick (emit QueueChanged (with_activeRuns (Z.max 0 (activeRuns q - 1)) q)).

(** The [catch] block of [runJob]. *)
Definition runJob_catch (job : Db.QueueJob) (message : string)
    (q : GenerationQueue) : GenerationQueue :=
  emit (JobFailed (Db.id job) message)
    (with_database (Db.markQueueJobFailed (clock q) (Db.id job) message (database q)) q).

(** [runJob] up to its first [await].  When a check throws, the [catch]
    and [finally] blocks run in the same turn, and [finally] calls [kick]
    again; otherwise the job stays in flight. *)
Definition runJob (kick : GenerationQueue -> GenerationQueue) (job : Db.QueueJob)
    (q : GenerationQueue) : GenerationQueue :=
  let q1 := with_activeRuns (activeRuns q + 1) q in
  let q2 := with_database (Db.markQueueJobRunning (clock q1) (Db.id job) (database q1)) q1 in
  let q3 := emit QueueChanged q2 in
  match runJob_checks job q3 with
  | inl message => runJob_finally kick (runJob_catch job message q3)
  | inr _ => q3
  end.

(** [kick]; [fuel] bounds the number of jobs it may start, nested calls
    included.  The paused flag does not change inside the loop, so one
    iteration of [while] that starts a job is followed by [kick] again.
    The rejection handler that [kick] attaches to [runJob] never runs:
    [runJob] catches every error of its body. *)
Fixpoint kick_fuel (fuel : nat) (q : GenerationQueue) : GenerationQueue :=
  match fuel with
  | O => q
  | S fuel' =>
      if paused q then q
      else if activeRuns q <? concurrency q then
        match Db.getNextPendingJob (database q) with
        | None => q
        | Some nextJob => kick_fuel fuel' (runJob (kick_fuel fuel') nextJob q)
        end
      else q
  end.

(** Every job that [kick] starts leaves the pending state, so the number
    of rows is fuel enough. *)
Definition kick (q : GenerationQueue) : GenerationQueue :=
  kick_fuel (S (length (Db.queue_jobs (database q)))) q.

(** How the awaited part of [runJob] ends: the client and the image store
    delivered an image, or one of them threw. *)
Inductive Outcome : Type :=
| Generated (imageId : string) (tokenUsage : option Gemini.TokenUsage)
| Thrown (message : string).

(** [runJob] from the point where the awaited work has settled. *)
Definition runJob_resume (job : Db.QueueJob) (outcome : Outcome)
    (q : GenerationQueue) : GenerationQueue :=
  let costEstimate := estimateCost (resolution (Db.request job)) in
  runJob_finally kick
    match outcome with
    | Thrown message => runJob_catch job message q
    | Generated imageId usage =>
        let q1 := with_database
                    (Db.markQueueJobCompleted (clock q) (Db.id job) imageId (database q)) q in
        let logId := uuidv4 P (drawn q1) in
        let q2 := draw q1 in
        match Db.insertUsageLog (clock q2) logId (model (Db.request job))
                (resolution (Db.request job)) costEstimate
                (Gemini.inputTokens <$> usage) (Gemini.outputTokens <$> usage)
                (database q2) with
        | inl message => runJob_catch job message q2
        | inr db => emit (JobCompleted (Db.id job) imageId) (with_database db q2)
        end
    end.

(** The continuation of a job exists while the job is running: [runJob]
    marks the job running before it suspends, and nothing but its own
    continuation takes a job out of that state. *)
Definition settle (jobId : string) (outcome : Outcome) (q : GenerationQueue)
  : GenerationQueue :=
  match Db.getQueueJobById jobId (database q) with
  | Some job => if Db.is_running job then runJob_resume job outcome q else q
  | None => q
  end.

(** [new GenerationQueue(database, configStore, ..., concurrency)] at time
    [now]. *)
Definition constructor (db : Db.StudioDatabase) (config : Config.StudioConfigFile)
    (value : Q) (now : Z) : GenerationQueue :=
  kick {| database := snd (Db.requeueRunningJobs db);
          configStore := config;
          activeRuns := 0;
          paused := false;
          concurrency := clampConcurrency value;
          emitted := [];
          clock := now;
          drawn := 0 |}.

Definition setConcurrency (value : Q) (q : GenerationQueue) : GenerationQueue :=
  kick (with_concurrency (clampConcurrency value) q).

Fixpoint enqueue_loop (n : nat) (request : GenerationRequest) (queuedJobIds : list string)
    (q : GenerationQueue) : (string + list string) * GenerationQueue :=
  match n with
  | O => (inr queuedJobIds, q)
  | S n' =>
      let jobId := uuidv4 P (drawn q) in
      let q1 := draw q in
      match Db.insertQueueJob (clock q1) jobId pending (with_batchCount request 1) 0
              (database q1) with
      | inl message => (inl message, q1)
      | inr db => enqueue_loop n' request (queuedJobIds ++ [jobId]) (with_database db q1)
      end
  end.

(** [inl message] is the thrown error, [inr queuedJobIds] the result. *)
Definition enqueue (request : GenerationRequest) (q : GenerationQueue)
  : (string + list string) * GenerationQueue :=
  let requestedBatchCount := default 1 (batchCount request) in
  let batchCount := Z.min MAX_BATCH_COUNT (Z.max 1 requestedBatchCount) in
  let estimatedBatchCost := (estimateCost (resolution request) * inject_Z batchCount)%Q in
  match assertSpendWithinLimits estimatedBatchCost None q with
  | inl message => (inl message, q)
  | inr _ =>
      match enqueue_loop (Z.to_nat batchCount) request [] q with
      | (inl message, q1) => (inl message, q1)
      | (inr queuedJobIds, q1) => (inr queuedJobIds, kick (emit QueueChanged q1))
      end
  end.

Definition pause (q : GenerationQueue) : GenerationQueue :=
  emit QueueChanged (with_paused true q).

Definition resume (q : GenerationQueue) : GenerationQueue :=
  kick (emit QueueChanged (with_paused false q)).

Definition cancel (jobId : string) (q : GenerationQueue) : bool * GenerationQueue :=
  match Db.getQueueJobById jobId (database q) with
  | Some job =>
      if Db.is_pending job
      then (true,
            emit QueueChanged
              (with_database (Db.markQueueJobCancelled (clock q) jobId (database q)) q))
      else (false, q)
  | None => (false, q)
  end.

(** What can happen to a queue between two turns of the event loop. *)
Inductive Event : Type :=
| Enqueue (request : GenerationRequest)
| Pause
| Resume
| Cancel (jobId : string)
| SetConcurrency (value : Q)
| Settle (jobId : string) (outcome : Outcome)
| ConfigUpdate (patch : Ipc.value)
| StoreApiKey (encrypted : option string)
| Elapse (seconds : Z).

Definition step (e : Event) (q : GenerationQueue) : GenerationQueue :=
  match e with
  | Enqueue request => snd (enqueue request q)
  | Pause => pause q
  | Resume => resume q
  | Cancel jobId => snd (cancel jobId q)
  | SetConcurrency value => setConcurrency value q
  | Settle jobId outcome => settle jobId outcome q
  | ConfigUpdate patch =>
      (* the handler of [studio:config:update]: a patch that
         [parseConfigPatch] refuses makes the handler throw before
         anything is changed *)
      match Ipc.parseConfigPatch patch with
      | inl _ => q
      | inr validatedPatch =>
          let updated := Config.updateConfig (configStore q) validatedPatch in
          setConcurrency
            (inject_Z (Config.publicQueueConcurrency
                         (Config.getPublicConfig (decodeApiKey P) updated)))
            (with_configStore updated q)
      end
  | StoreApiKey encrypted =>
      with_configStore
        {| Config.encryptedApiKey := encrypted;
           Config.queueConcurrency := Config.queueConcurrency (configStore q);
           Config.monthlySpendLimitUsd := Config.monthlySpendLimitUsd (configStore q);
           Config.totalSpendLimitUsd := Config.totalSpendLimitUsd (configStore q) |} q
  | Elapse seconds => with_clock (clock q + Z.max 0 seconds) q
  end.

Definition run (events : list Event) (q : GenerationQueue) : GenerationQueue :=
  List.fold_left (fun q e => step e q) events q.
End WithPlatform.

End Queue.

(** ** image-store.ts with the image tables of db.ts and paths.ts *)

(** What Node and the sharp library supply.  [sharp_metadata] and
    [sharp_webp_thumbnail] are [None] when sharp rejects the bytes. *)
Record Node : Type := {
  path_join : string -> string -> string;
  path_dirname : string -> string;
  path_isAbsolute : string -> bool;
  path_resolve : string -> string;
  path_relative : string -> string -> string;
  Buffer_from_base64 : string -> list Byte.byte;
  sharp_metadata : list Byte.byte -> option (option Z * option Z);
  sharp_webp_thumbnail : list Byte.byte -> option (list Byte.byte)
}.

Fixpoint includes (haystack needle : string) : bool :=
  String.prefix needle haystack
  || match haystack with
     | EmptyString => false
     | String _ rest => includes rest needle
     end.

Definition endsWith (s suffix : string) : bool :=
  String.prefix (String.rev suffix) (String.rev s).

Definition toLowerCase_ascii (c : ascii) : ascii :=
  let n := nat_of_ascii c in
  if (65 <=? n)%nat && (n <=? 90)%nat then ascii_of_nat (n + 32) else c.

Fixpoint toLowerCase (s : string) : string :=
  match s with
  | EmptyString => EmptyString
  | String c rest => String (toLowerCase_ascii c) (toLowerCase rest)
  end.

(** [s.replace(/\s+/g, '')] *)
Fixpoint removeWhitespace (s : string) : string :=
  match s with
  | EmptyString => EmptyString
  | String a rest =>
      if is_whitespace1 a then removeWhitespace rest
      else
        match rest with
        | String b rest2 =>
            if is_whitespace2 a b then removeWhitespace rest2
            else
              match rest2 with
              | String c rest3 =>
                  if is_whitespace3 a b c then removeWhitespace rest3
                  else String a (removeWhitespace rest)
              | EmptyString => String a (removeWhitespace rest)
              end
        | EmptyString => String a (removeWhitespace rest)
        end
  end.

Fixpoint stripLeadingSlashes (s : string) : string :=
  match s with
  | String "/" rest => stripLeadingSlashes rest
  | _ => s
  end.

Fixpoint backslashesToSlashes (s : string) : string :=
  match s with
  | EmptyString => EmptyString
  | String c rest =>
      String (if Ascii.eqb c "\" then "/"%char else c) (backslashesToSlashes rest)
  end.

(** A row of [images]. *)
Module Images.
Record Row : Type := {
  id : string;
  projectId : option string;
  prompt : string;
  model : string;
  aspectRatio : option string;
  resolution : option string;
  thinkingLevel : option string;
  usedSearch : bool;
  modelText : option string;
  filePath : string;
  thumbPath : option string;
  width : option Z;
  height : option Z;
  fileSize : Z;
  parentId : option string;
  generationMs : Z;
  costEstimate : Q;
  deletedAt : option Z
}.
End Images.

(** A row of [reference_images]. *)
Module ReferenceImages.
Record Row : Type := {
  id : string;
  imageId : string;
  filePath : string;
  label : option string;
  position : Z
}.
End ReferenceImages.

Module ImageStore.

Definition MAX_REFERENCE_IMAGE_BYTES : Z := 20 * 1024 * 1024.

Record StudioPaths : Type := {
  root : string;
  imagesOriginals : string
}.

(** The files on disk, the directories made, the [images] and
    [reference_images] tables keyed by their primary key, the rows of
    [image_tags] as pairs of an image and a tag, the output directory that
    each project configures, and the number of identifiers drawn so
    far. *)
Record World : Type := {
  files : gmap string (list Byte.byte);
  directories : gset string;
  images : gmap string Images.Row;
  reference_images : gmap string ReferenceImages.Row;
  image_tags : list (string * string);
  imageOutputDir : gmap string (option string);
  drawn : nat
}.

Definition with_files (f : gmap string (list Byte.byte)) (w : World) : World :=
  {| files := f; directories := directories w; images := images w;
     reference_images := reference_images w; image_tags := image_tags w;
     imageOutputDir := imageOutputDir w; drawn := drawn w |}.

Definition with_directories (d : gset string) (w : World) : World :=
  {| files := files w; directories := d; images := images w;
     reference_images := reference_images w; image_tags := image_tags w;
     imageOutputDir := imageOutputDir w; drawn := drawn w |}.

Definition with_images (t : gmap string Images.Row) (w : World) : World :=
  {| files := files w; directories := directories w; images := t;
     reference_images := reference_images w; image_tags := image_tags w;
     imageOutputDir := imageOutputDir w; drawn := drawn w |}.

Definition with_reference_images (t : gmap string ReferenceImages.Row) (w : World) : World :=
  {| files := files w; directories := directories w; images := images w;
     reference_images := t; image_tags := image_tags w;
     imageOutputDir := imageOutputDir w; drawn := drawn w |}.

Definition draw (w : World) : World :=
  {| files := files w; directories := directories w; images := images w;
     reference_images := reference_images w; image_tags := image_tags w;
     imageOutputDir := imageOutputDir w; drawn := S (drawn w) |}.

(** The calls that can fail for reasons outside the program: an I/O error
    of the file system or of SQLite. *)
Inductive IoCall : Type :=
| Mkdir (dir : string)
| WriteFile (path : string)
| ThumbnailToFile (path : string)
| InsertImage (imageId : string)
| InsertReferenceImage (referenceId : string).

(** A computation that may throw: [inl message] is the error; the world
    it leaves behind is returned in both cases. *)
Definition IO (A : Type) : Type := World -> (string + A) * World.

Definition ret {A} (a : A) : IO A := fun w => (inr a, w).

Definition throw {A} (message : string) : IO A := fun w => (inl message, w).

Definition bind {A B} (m : IO A) (k : A -> IO B) : IO B :=
  fun w =>
    match m w with
    | (inl message, w1) => (inl message, w1)
    | (inr a, w1) => k a w1
    end.

Definition modify (f : World -> World) : IO unit := fun w => (inr tt, f w).

Declare Scope io_scope.
Delimit Scope io_scope with io.
Notation "x <- m ;; k" := (bind m (fun x => k))
  (at level 100, m at next level, right associativity) : io_scope.
Notation "m ;; k" := (bind m (fun _ => k))
  (at level 100, right associativity) : io_scope.

(** *** paths.ts *)

Section Paths.
Variable N : Node.

Definition isAbsoluteStudioPath (filePath : string) : bool :=
  path_isAbsolute N filePath
  || match filePath with
     | String drive (String ":" (String sep _)) =>
         let n := nat_of_ascii (toLowerCase_ascii drive) in
         (97 <=? n)%nat && (n <=? 122)%nat
         && (Ascii.eqb sep "/" || Ascii.eqb sep "\")
     | _ => false
     end
  || String.prefix "\\" filePath
  || String.prefix "//" filePath.

Definition normalizeStudioPath (filePath : string) : string :=
  let normalized := backslashesToSlashes (trim filePath) in
  if isAbsoluteStudioPath normalized then normalized
  else stripLeadingSlashes normalized.

Definition normalizeRelativePath (filePath : string) : string :=
  stripLeadingSlashes (normalizeStudioPath filePath).

(** [buildRelativePath(a, b, c)] of db.ts *)
Definition buildRelativePath (a b c : string) : string :=
  normalizeRelativePath (path_join N (path_join N a b) c).

Definition isPathInsideRoot (targetPath rootPath : string) : bool :=
  let relative := path_relative N (path_resolve N rootPath) (path_resolve N targetPath) in
  negb (truthy relative)
  || (negb (String.prefix ".." relative) && negb (path_isAbsolute N relative)).
End Paths.

(** *** The image tables of db.ts *)

Section Store.
Variable P : Platform.
Variable N : Node.
Variable paths : StudioPaths.
(** Which calls meet an I/O error. *)
Variable fails : IoCall -> bool.
(** What a write that meets an I/O error leaves at its path: nothing
    ([None]: the file could not be opened, and what was there is as it
    was), or a file with the bytes that were written before the error,
    this many of them. *)
Variable torn : string -> option nat.

Definition io_error (c : IoCall) : string :=
  match c with
  | Mkdir _ => "EACCES: permission denied, mkdir"
  | WriteFile _ => "ENOSPC: no space left on device, write"
  | ThumbnailToFile _ => "ENOSPC: no space left on device, write"
  | InsertImage _ => "SQLITE_IOERR: disk I/O error"
  | InsertReferenceImage _ => "SQLITE_IOERR: disk I/O error"
  end.

Definition getImageById (imageId : string) (w : World) : option Images.Row :=
  match images w !! imageId with
  | Some row => match Images.deletedAt row with None => Some row | Some _ => None end
  | None => None
  end.

(** The row that [insertImage] stores for its input. *)
Definition storedImage (input : Images.Row) : Images.Row :=
  {| Images.id := Images.id input; Images.projectId := Images.projectId input;
     Images.prompt := Images.prompt input; Images.model := Images.model input;
     Images.aspectRatio := Images.aspectRatio input;
     Images.resolution := Images.resolution input;
     Images.thinkingLevel := Images.thinkingLevel input;
     Images.usedSearch := Images.usedSearch input;
     Images.modelText := Images.modelText input;
     Images.filePath := normalizeStudioPath N (Images.filePath input);
     Images.thumbPath :=
       match Images.thumbPath input with
       | Some t => if truthy t then Some (normalizeStudioPath N t) else None
       | None => None
       end;
     Images.width := Images.width input; Images.height := Images.height input;
     Images.fileSize := Images.fileSize input; Images.parentId := Images.parentId input;
     Images.generationMs := Images.generationMs input;
     Images.costEstimate := Images.costEstimate input; Images.deletedAt := None |}.

Definition insertImage (input : Images.Row) : IO unit :=
  fun w =>
    if fails (InsertImage (Images.id input))
    then (inl (io_error (InsertImage (Images.id input))), w)
    else
      match images w !! Images.id input with
      | Some _ => (inl "UNIQUE constraint failed: images.id", w)
      | None => (inr tt, with_images (<[Images.id input := storedImage input]> (images w)) w)
      end.

Definition insertReferenceImage (input : ReferenceImages.Row) : IO unit :=
  fun w =>
    if fails (InsertReferenceImage (ReferenceImages.id input))
    then (inl (io_error (InsertReferenceImage (ReferenceImages.id input))), w)
    else
      match reference_images w !! ReferenceImages.id input with
      | Some _ => (inl "UNIQUE constraint failed: reference_images.id", w)
      | None =>
          match images w !! ReferenceImages.imageId input with
          | None => (inl "FOREIGN KEY constraint failed", w)
          | Some _ =>
              (inr tt,
               with_reference_images
                 (<[ReferenceImages.id input :=
                      {| ReferenceImages.id := ReferenceImages.id input;
                         ReferenceImages.imageId := ReferenceImages.imageId input;
                         ReferenceImages.filePath :=
                           normalizeRelativePath N (ReferenceImages.filePath input);
                         ReferenceImages.label := ReferenceImages.label input;
                         ReferenceImages.position := ReferenceImages.position input |}]>
                    (reference_images w)) w)
          end
      end.

(** The rows of [reference_images] and of [image_tags] that point to an
    image. *)
Definition referencesOf (imageId : string) (w : World) : gmap string ReferenceImages.Row :=
  filter (fun kv => ReferenceImages.imageId (snd kv) = imageId) (reference_images w).

Definition tagsOf (imageId : string) (w : World) : list (string * string) :=
  List.filter (fun tag => String.eqb (fst tag) imageId) (image_tags w).

(** [DELETE FROM images WHERE id = ?].  The foreign keys are enforced:
    SQLite refuses to delete a row that a row of [reference_images] or of
    [image_tags] points to, and the statement throws. *)
Definition deleteImageHard (imageId : string) : IO unit :=
  fun w =>
    match images w !! imageId with
    | None => (inr tt, w)
    | Some _ =>
        if bool_decide (referencesOf imageId w = ∅)
           && bool_decide (tagsOf imageId w = [])
        then (inr tt, with_images (delete imageId (images w)) w)
        else (inl "FOREIGN KEY constraint failed", w)
    end.

Definition deleteReferenceImageById (referenceId : string) (w : World) : World :=
  with_reference_images (delete referenceId (reference_images w)) w.

Definition deleteReferenceImagesByImageId (imageId : string) (w : World) : World :=
  with_reference_images
    (filter (fun kv => ReferenceImages.imageId (snd kv) <> imageId) (reference_images w)) w.

(** *** The file system

    The calls of the rollback itself ([fs.rm] with [force], the [DELETE]
    statements) meet no I/O error; a [DELETE] can still be refused by a
    foreign key. *)

Definition mkdir (dir : string) : IO unit :=
  fun w =>
    if fails (Mkdir dir) then (inl (io_error (Mkdir dir)), w)
    else (inr tt, with_directories ({[dir]} ∪ directories w) w).

(** What a write of [bytes] to [path] that met an I/O error leaves
    behind. *)
Definition tornWrite (path : string) (bytes : list Byte.byte) (w : World) : World :=
  match torn path with
  | None => w
  | Some written => with_files (<[path := take written bytes]> (files w)) w
  end.

(** [fs.writeFile(path, bytes)] creates or truncates the file and then
    writes; it removes nothing when the writing fails. *)
Definition writeFile (path : string) (bytes : list Byte.byte) : IO unit :=
  fun w =>
    if fails (WriteFile path)
    then (inl (io_error (WriteFile path)), tornWrite path bytes w)
    else (inr tt, with_files (<[path := bytes]> (files w)) w).

(** [sharp(buffer).resize(...).webp(...).toFile(path)] *)
Definition thumbnailToFile (buffer : list Byte.byte) (path : string) : IO unit :=
  fun w =>
    match sharp_webp_thumbnail N buffer with
    | None => (inl "Input buffer contains unsupported image format", w)
    | Some thumb =>
        if fails (ThumbnailToFile path)
        then (inl (io_error (ThumbnailToFile path)), tornWrite path thumb w)
        else (inr tt, with_files (<[path := thumb]> (files w)) w)
    end.

(** [fs.rm(targetPath, { force: true })] *)
Definition removeFileIfExists (targetPath : string) (w : World) : World :=
  with_files (delete targetPath (files w)) w.

(** *** image-store.ts *)

Definition extensionFromMimeType (mimeType : string) : string :=
  let lower := toLowerCase mimeType in
  if includes lower "jpeg" || includes lower "jpg" then "jpg"
  else if includes lower "webp" then "webp"
  else if includes lower "gif" then "gif"
  else "png".

Definition is_base64_char (c : ascii) : bool :=
  let n := nat_of_ascii c in
  ((65 <=? n) && (n <=? 90) || (97 <=? n) && (n <=? 122) || (48 <=? n) && (n <=? 57)
   || (n =? 43) || (n =? 47))%nat.

Fixpoint dropBase64Chars (s : string) : string :=
  match s with
  | String c rest => if is_base64_char c then dropBase64Chars rest else s
  | EmptyString => s
  end.

(** [/^[A-Za-z0-9+/]+={0,2}$/] on a length that is a multiple of four *)
Definition isLikelyBase64 (value : string) : bool :=
  (String.length value mod 4 =? 0)%nat
  && match value with
     | String c _ => is_base64_char c
     | EmptyString => false
     end
  && (let padding := dropBase64Chars value in
      String.eqb padding "" || String.eqb padding "=" || String.eqb padding "==").

Definition estimateBase64Bytes (value : string) : Z :=
  let padding := if endsWith value "==" then 2 else if endsWith value "=" then 1 else 0 in
  Z.max 0 (Z.of_nat (String.length value) * 3 / 4 - padding).

Definition formatBytes (value : Z) : string :=
  let tenths := Qfloor (inject_Z value / inject_Z (1024 * 1024) * 10 + (1 # 2)) in
  pretty (tenths / 10) +:+ "." +:+ pretty (tenths mod 10) +:+ " MB".

Definition decodeBase64Payload (value label : string) (maxBytes : option Z)
  : string + list Byte.byte :=
  let normalized := removeWhitespace value in
  if negb (truthy normalized) then inl (label +:+ " ist leer.")
  else if negb (isLikelyBase64 normalized)
  then inl (label +:+ " hat kein gueltiges Base64-Format.")
  else
    let tooLarge size :=
      match maxBytes with Some limit => limit <? size | None => false end in
    if tooLarge (estimateBase64Bytes normalized)
    then inl (label +:+ " ist groesser als " +:+ formatBytes (default 0 maxBytes) +:+ ".")
    else
      let bytes := Buffer_from_base64 N normalized in
      match bytes with
      | [] => inl (label +:+ " konnte nicht dekodiert werden.")
      | _ =>
          if tooLarge (Z.of_nat (length bytes))
          then inl (label +:+ " ist groesser als "
                    +:+ formatBytes (default 0 maxBytes) +:+ ".")
          else inr bytes
      end.

Definition resolveOriginalOutputDirectory (project : option string) (w : World) : string :=
  match trim <$> project with
  | Some (String c rest) =>
      match imageOutputDir w !! String c rest with
      | Some (Some dir) =>
          let configuredOutputDir := trim dir in
          if negb (truthy configuredOutputDir) || negb (path_isAbsolute N configuredOutputDir)
          then imagesOriginals paths
          else path_resolve N configuredOutputDir
      | _ => imagesOriginals paths
      end
  | _ => imagesOriginals paths
  end.

(** The body of the [for] loop of [persistReferenceImages], from
    [refs[index]] on.  Besides the outcome it returns the two rollback
    lists, [insertedReferenceIds] and [writtenPaths]. *)
Fixpoint persistReferenceImages_loop (imageId : string)
    (refs : list ReferenceImagePayload) (index : nat)
    (insertedReferenceIds writtenPaths : list string) (w : World)
  : (string + unit) * (list string * list string * World) :=
  match refs with
  | [] => (inr tt, (insertedReferenceIds, writtenPaths, w))
  | ref :: rest =>
      let refId := uuidv4 P (drawn w) in
      let w := draw w in
      let extension := extensionFromMimeType (ref_mimeType ref) in
      let relativePath :=
        buildRelativePath N "images" "references" (refId +:+ "." +:+ extension) in
      let absolutePath := path_join N (root paths) relativePath in
      if negb (isPathInsideRoot N absolutePath (root paths))
      then (inl "Ungueltiger Referenzbild-Pfad.", (insertedReferenceIds, writtenPaths, w))
      else
        match decodeBase64Payload (ref_dataBase64 ref)
                ("Referenzbild " +:+ pretty (Z.of_nat index + 1))
                (Some MAX_REFERENCE_IMAGE_BYTES) with
        | inl message => (inl message, (insertedReferenceIds, writtenPaths, w))
        | inr bytes =>
            match writeFile absolutePath bytes w with
            | (inl message, w1) => (inl message, (insertedReferenceIds, writtenPaths, w1))
            | (inr _, w1) =>
                let writtenPaths := writtenPaths ++ [absolutePath] in
                match insertReferenceImage
                        {| ReferenceImages.id := refId; ReferenceImages.imageId := imageId;
                           ReferenceImages.filePath := relativePath;
                           ReferenceImages.label := ref_label ref;
                           ReferenceImages.position := Z.of_nat index |} w1 with
                | (inl message, w2) =>
                    (inl message, (insertedReferenceIds, writtenPaths, w2))
                | (inr _, w2) =>
                    persistReferenceImages_loop imageId rest (S index)
                      (insertedReferenceIds ++ [refId]) writtenPaths w2
                end
            end
        end
  end.

Definition persistReferenceImages (imageId : string) (request : GenerationRequest)
  : IO unit :=
  fun w =>
    match default [] (referenceImages request) with
    | [] => (inr tt, w)
    | refs =>
        match persistReferenceImages_loop imageId refs 0 [] [] w with
        | (inr _, (_, _, w1)) => (inr tt, w1)
        | (inl message, (insertedReferenceIds, writtenPaths, w1)) =>
            (* catch *)
            let w2 := List.fold_left (fun w referenceId =>
                                        deleteReferenceImageById referenceId w)
                        insertedReferenceIds w1 in
            let w3 := List.fold_left (fun w writtenPath => removeFileIfExists writtenPath w)
                        writtenPaths w2 in
            (inl message, w3)
        end
    end.

Record PersistGeneratedImageInput : Type := {
  request : GenerationRequest;
  generated : Gemini.GeminiImagePart;
  inputModelText : option string;
  inputGenerationMs : Z;
  inputCostEstimate : Q
}.

(** The [catch] block of [persistGeneratedImage], which ends by throwing
    [error] again.  When a [DELETE] of the block throws, that error leaves
    the block instead and the two files are not removed. *)
Definition persistGeneratedImage_catch (imageInserted : bool)
    (imageId absoluteOriginalPath absoluteThumbPath error : string) : IO string :=
  ((if imageInserted
    then (modify (deleteReferenceImagesByImageId imageId) ;;
          deleteImageHard imageId)
    else ret tt) ;;
   modify (removeFileIfExists absoluteOriginalPath) ;;
   modify (removeFileIfExists absoluteThumbPath) ;;
   throw error)%io.

Definition metadata (buffer : list Byte.byte) : IO (option Z * option Z) :=
  match sharp_metadata N buffer with
  | Some dimensions => ret dimensions
  | None => throw "Input buffer contains unsupported image format"
  end.

(** The [try] block of [persistGeneratedImage] up to [imageInserted = true]. *)
Definition persistGeneratedImage_insert (input : PersistGeneratedImageInput)
    (imageId absoluteOriginalPath relativeThumbPath absoluteThumbPath : string)
    (imageBuffer : list Byte.byte) : IO unit :=
  (mkdir (path_dirname N absoluteOriginalPath) ;;
   mkdir (path_dirname N absoluteThumbPath) ;;
   writeFile absoluteOriginalPath imageBuffer ;;
   dimensions <- metadata imageBuffer ;;
   thumbnailToFile imageBuffer absoluteThumbPath ;;
   insertImage
     {| Images.id := imageId;
        Images.projectId := projectId (request input);
        Images.prompt := prompt (request input);
        Images.model := model (request input);
        Images.aspectRatio := aspectRatio (request input);
        Images.resolution := resolution (request input);
        Images.thinkingLevel := thinkingLevel (request input);
        Images.usedSearch := default false (useGoogleSearch (request input));
        Images.modelText := inputModelText input;
        Images.filePath := absoluteOriginalPath;
        Images.thumbPath := Some relativeThumbPath;
        Images.width := fst dimensions;
        Images.height := snd dimensions;
        Images.fileSize := Z.of_nat (length imageBuffer);
        Images.parentId := parentId (request input);
        Images.generationMs := inputGenerationMs input;
        Images.costEstimate := inputCostEstimate input;
        Images.deletedAt := None |})%io.

Definition persistGeneratedImage (input : PersistGeneratedImageInput) : IO string :=
  fun w =>
    let imageId := uuidv4 P (drawn w) in
    let w := draw w in
    let extension := extensionFromMimeType (Gemini.mimeType (generated input)) in
    let outputDirectory :=
      resolveOriginalOutputDirectory (projectId (request input)) w in
    let absoluteOriginalPath :=
      path_join N outputDirectory (imageId +:+ "." +:+ extension) in
    let relativeThumbPath :=
      buildRelativePath N "images" "thumbnails" (imageId +:+ ".webp") in
    let absoluteThumbPath := path_join N (root paths) relativeThumbPath in
    match decodeBase64Payload (Gemini.dataBase64 (generated input))
            "Generiertes Bild" None with
    | inl message => (inl message, w)
    | inr imageBuffer =>
        match persistGeneratedImage_insert input imageId absoluteOriginalPath
                relativeThumbPath absoluteThumbPath imageBuffer w with
        | (inl message, w1) =>
            persistGeneratedImage_catch false imageId absoluteOriginalPath
              absoluteThumbPath message w1
        | (inr _, w1) =>
            match persistReferenceImages imageId (request input) w1 with
            | (inl message, w2) =>
                persistGeneratedImage_catch true imageId absoluteOriginalPath
                  absoluteThumbPath message w2
            | (inr _, w2) => (inr imageId, w2)
            end
        end
    end.
End Store.

End ImageStore.

(** ** db.ts: soft deletion of an image *)

Module ImageTable.

(** [UPDATE images SET deleted_at = CURRENT_TIMESTAMP WHERE id = ?] at
    time [now]. *)
Definition softDeleteImage (now : Z) (imageId : string) (w : ImageStore.World)
  : ImageStore.World :=
  ImageStore.with_images
    (alter (fun row =>
              {| Images.id := Images.id row; Images.projectId := Images.projectId row;
                 Images.prompt := Images.prompt row; Images.model := Images.model row;
                 Images.aspectRatio := Images.aspectRatio row;
                 Images.resolution := Images.resolution row;
                 Images.thinkingLevel := Images.thinkingLevel row;
                 Images.usedSearch := Images.usedSearch row;
                 Images.modelText := Images.modelText row;
                 Images.filePath := Images.filePath row;
                 Images.thumbPath := Images.thumbPath row;
                 Images.width := Images.width row; Images.height := Images.height row;
                 Images.fileSize := Images.fileSize row;
                 Images.parentId := Images.parentId row;
                 Images.generationMs := Images.generationMs row;
                 Images.costEstimate := Images.costEstimate row;
                 Images.deletedAt := Some now |})
       imageId (ImageStore.images w)) w.

End ImageTable.

(** ** db.ts: projects and their brand assets *)

Module Projects.

(** The columns of [projects] that the queue and the image store read. *)
Record Row : Type := {
  system_prompt : option string;
  brand_guidelines : option string;
  brand_strict_mode : option Z;
  image_output_dir : option string
}.

Record StudioProject : Type := {
  systemPrompt : option string;
  brandGuidelines : option string;
  brandStrictMode : bool;
  imageOutputDir : option string
}.

(** A row of [project_brand_assets]. *)
Record BrandAssetRow : Type := {
  id : string;
  project_id : string;
  name : string;
  mime_type : string;
  file_path : string;
  created_at : Z
}.

Record ProjectBrandAsset : Type := {
  assetId : string;
  assetProjectId : string;
  assetName : string;
  mimeType : string;
  filePath : string;
  createdAt : Z
}.

(** [projects] keyed by its primary key, [project_brand_assets] in row
    order. *)
Record Tables : Type := {
  projects : gmap string Row;
  project_brand_assets : list BrandAssetRow
}.

Section WithNode.
Variable N : Node.

Definition mapProjectRow (row : Row) : StudioProject :=
  {| systemPrompt := system_prompt row;
     brandGuidelines := brand_guidelines row;
     brandStrictMode := match brand_strict_mode row with Some 1 => true | _ => false end;
     imageOutputDir :=
       match image_output_dir row with
       | Some dir => if truthy dir then Some (ImageStore.normalizeStudioPath N dir) else None
       | None => None
       end |}.

Definition mapProjectBrandAssetRow (row : BrandAssetRow) : ProjectBrandAsset :=
  {| assetId := id row; assetProjectId := project_id row; assetName := name row;
     mimeType := mime_type row;
     filePath := ImageStore.normalizeRelativePath N (file_path row);
     createdAt := created_at row |}.

Definition getProjectById (projectId : string) (t : Tables) : option StudioProject :=
  mapProjectRow <$> projects t !! projectId.

(** [ORDER BY created_at DESC] *)
Definition newest_first (a b : BrandAssetRow) : Prop := created_at b <= created_at a.

#[global] Instance newest_first_dec : RelDecision newest_first.
Proof. intros a b. unfold newest_first. apply _. Defined.

Definition listProjectBrandAssets (projectId : string) (t : Tables)
  : list ProjectBrandAsset :=
  mapProjectBrandAssetRow
    <$> merge_sort newest_first
          (List.filter (fun row => String.eqb (project_id row) projectId)
             (project_brand_assets t)).
End WithNode.

End Projects.

(** ** queue.ts and image-store.ts: the context of a job

    What [runJob] resolves between its checks and the call of the
    client: the system prompt and the reference images of the request
    that is sent. *)

Module JobContext.

Definition MAX_REFERENCE_IMAGES : Z := 14.

Definition STRICT_MODE_FRAGMENT : string :=
  "Strikter On-Brand-Modus: Halte Ausgabe strikt innerhalb der Markenidentitaet. "
  +:+ "Keine Abweichungen bei Stil, Farben, Tone-of-Voice oder visueller Sprache "
  +:+ "ohne explizite Nutzeranweisung.".

Definition pushProjectContextFragments (fragments : list string)
    (project : option Projects.StudioProject) (directPrompt : option string)
  : list string :=
  match project with
  | None => fragments
  | Some project =>
      let projectPrompt := trim <$> Projects.systemPrompt project in
      let fragments :=
        match projectPrompt with
        | Some text =>
            if truthy text && negb (bool_decide (projectPrompt = directPrompt))
            then fragments ++ [text] else fragments
        | None => fragments
        end in
      let guidelines := trim <$> Projects.brandGuidelines project in
      let fragments :=
        match guidelines with
        | Some text =>
            if truthy text
            then fragments
                 ++ ["Markenidentitaet und Brand-Richtlinien:" +:+ String "010" text]
            else fragments
        | None => fragments
        end in
      if Projects.brandStrictMode project then fragments ++ [STRICT_MODE_FRAGMENT]
      else fragments
  end.

Section WithStore.
Variable N : Node.
Variable paths : ImageStore.StudioPaths.
(** [bytes.toString('base64')] *)
Variable Buffer_toString_base64 : list Byte.byte -> string.
Variable tables : Projects.Tables.
(** The files that [fs.readFile] can read. *)
Variable files : gmap string (list Byte.byte).

Definition resolveSystemPrompt (request : GenerationRequest) : option string :=
  let direct := trim <$> systemPrompt request in
  let fragments :=
    match direct with
    | Some text => if truthy text then [text] else []
    | None => []
    end in
  let project :=
    match trim <$> projectId request with
    | Some projectId =>
        if truthy projectId then Projects.getProjectById N projectId tables else None
    | None => None
    end in
  match pushProjectContextFragments fragments project direct with
  | [] => None
  | fragments => Some (String.concat (String "010" (String "010" "")) fragments)
  end.

(** The [for] loop of [loadProjectBrandReferences]: an asset outside the
    root is skipped, and so is one whose file cannot be read. *)
Definition loadProjectBrandReferences (projectId : string) (limit : Z)
  : list ReferenceImagePayload :=
  if limit <=? 0 then []
  else
    omap (fun asset =>
            let absolutePath :=
              path_join N (ImageStore.root paths) (Projects.filePath asset) in
            if negb (ImageStore.isPathInsideRoot N absolutePath (ImageStore.root paths))
            then None
            else
              match files !! absolutePath with
              | Some bytes =>
                  Some {| ref_id := Some (Projects.assetId asset);
                          ref_name := Projects.assetName asset;
                          ref_mimeType := Projects.mimeType asset;
                          ref_dataBase64 := Buffer_toString_base64 bytes;
                          ref_label := Some "style" |}
              | None => None
              end)
         (take (Z.to_nat limit) (Projects.listProjectBrandAssets N projectId tables)).

Definition resolveReferenceImages (request : GenerationRequest)
  : list ReferenceImagePayload :=
  let explicitReferences :=
    take (Z.to_nat MAX_REFERENCE_IMAGES) (default [] (referenceImages request)) in
  match projectId request with
  | Some (String c rest) =>
      let remainingSlots :=
        Z.max 0 (MAX_REFERENCE_IMAGES - Z.of_nat (length explicitReferences)) in
      if remainingSlots =? 0 then explicitReferences
      else explicitReferences ++ loadProjectBrandReferences (String c rest) remainingSlots
  | _ => explicitReferences
  end.

(** The request that [runJob] sends to the client. *)
Definition requestForGeneration (request : GenerationRequest) : GenerationRequest :=
  {| model := model request;
     prompt := prompt request;
     systemPrompt :=
       match resolveSystemPrompt request with
       | Some text => if truthy text then Some text else systemPrompt request
       | None => systemPrompt request
       end;
     referenceImages := Some (resolveReferenceImages request);
     aspectRatio := aspectRatio request;
     resolution := resolution request;
     thinkingLevel := thinkingLevel request;
     useGoogleSearch := useGoogleSearch request;
     responseModalities := responseModalities request;
     batchCount := batchCount request;
     parentId := parentId request;
     projectId := projectId request |}.
End WithStore.

End JobContext.

(** ** Vocabulary of the statements *)

Definition rows (q : Queue.GenerationQueue) : list Db.QueueJob :=
  Db.queue_jobs (Queue.database q).

Definition countRows (f : Db.QueueJob -> bool) (l : list Db.QueueJob) : Z :=
  Z.of_nat (length (List.filter f l)).

(** The number of jobs in the running state. *)
Definition runningCount (q : Queue.GenerationQueue) : Z := countRows Db.is_running (rows q).

Definition pendingCount (q : Queue.GenerationQueue) : nat :=
  length (List.filter Db.is_pending (rows q)).

(** What no update of a job row changes. *)
Definition rowKey (row : Db.QueueJob) : string * GenerationRequest * Z * Z :=
  (Db.id row, Db.request row, Db.priority row, Db.createdAt row).

(** The primary key holds, and the in-flight counter agrees with the
    table: it counts the running rows. *)
Definition wellFormed (q : Queue.GenerationQueue) : Prop :=
  NoDup (Db.id <$> rows q) /\ runningCount q = Queue.activeRuns q.

(** No event of the run sets a limit below the one in force before it. *)
Fixpoint limitNeverLowered (P : Platform) (events : list Queue.Event)
    (q : Queue.GenerationQueue) : Prop :=
  match events with
  | [] => True
  | e :: rest =>
      Queue.concurrency q <= Queue.concurrency (Queue.step P e q)
      /\ limitNeverLowered P rest (Queue.step P e q)
  end.

(** The dispatch loop has nothing left to do. *)
Definition quiescent (q : Queue.GenerationQueue) : Prop :=
  Queue.paused q = true
  \/ Queue.concurrency q <= Queue.activeRuns q
  \/ Db.getNextPendingJob (Queue.database q) = None.

(** [kick] and [runJob] touch the rows' status columns, the in-flight
    counter and the emitted events, and nothing else. *)
Definition sameFrame (q q' : Queue.GenerationQueue) : Prop :=
  rowKey <$> rows q' = rowKey <$> rows q
  /\ Db.usage_log (Queue.database q') = Db.usage_log (Queue.database q)
  /\ Queue.configStore q' = Queue.configStore q
  /\ Queue.paused q' = Queue.paused q
  /\ Queue.concurrency q' = Queue.concurrency q
  /\ Queue.clock q' = Queue.clock q
  /\ Queue.drawn q' = Queue.drawn q.

(** The row that [enqueue] inserts for one unit of a batch. *)
Definition pendingJob (now : Z) (request : GenerationRequest) (jobId : string)
  : Db.QueueJob :=
  {| Db.id := jobId; Db.status := pending; Db.request := with_batchCount request 1;
     Db.resultId := None; Db.error := None; Db.priority := 0; Db.createdAt := now;
     Db.startedAt := None; Db.completedAt := None |}.

(** The next [n] identifiers that [uuidv4] will return. *)
Definition nextIds (P : Platform) (q : Queue.GenerationQueue) (n : nat) : list string :=
  uuidv4 P <$> seq (Queue.drawn q) n.

(** The identifier and the paths that one call of [persistGeneratedImage]
    in world [w] will use. *)
Definition attemptedImageId (P : Platform) (w : ImageStore.World) : string :=
  uuidv4 P (ImageStore.drawn w).

Definition attemptedOriginalPath (P : Platform) (N : Node) (paths : ImageStore.StudioPaths)
    (input : ImageStore.PersistGeneratedImageInput) (w : ImageStore.World) : string :=
  path_join N
    (ImageStore.resolveOriginalOutputDirectory N paths
       (projectId (ImageStore.request input)) (ImageStore.draw w))
    (attemptedImageId P w +:+ "."
     +:+ ImageStore.extensionFromMimeType
           (Gemini.mimeType (ImageStore.generated input))).

Definition attemptedRelativeThumbPath (P : Platform) (N : Node) (w : ImageStore.World)
  : string :=
  ImageStore.buildRelativePath N "images" "thumbnails" (attemptedImageId P w +:+ ".webp").

Definition attemptedThumbPath (P : Platform) (N : Node) (paths : ImageStore.StudioPaths)
    (w : ImageStore.World) : string :=
  path_join N (ImageStore.root paths) (attemptedRelativeThumbPath P N w).

Definition referencePath (N : Node) (paths : ImageStore.StudioPaths)
    (refId : string) (ref : ReferenceImagePayload) : string :=
  path_join N (ImageStore.root paths)
    (ImageStore.buildRelativePath N "images" "references"
       (refId +:+ "." +:+ ImageStore.extensionFromMimeType (ref_mimeType ref))).

(** The path of the [k]-th reference image of a call of
    [persistGeneratedImage] in world [w]. *)
Definition attemptedReferencePath (P : Platform) (N : Node) (paths : ImageStore.StudioPaths)
    (input : ImageStore.PersistGeneratedImageInput) (w : ImageStore.World)
    (path : string) : Prop :=
  exists (k : nat) ref,
    default [] (referenceImages (ImageStore.request input)) !! k = Some ref
    /\ path = referencePath N paths (uuidv4 P (S (ImageStore.drawn w) + k)) ref.

(** The identifiers that the call draws are new: no image row, reference
    row, tag or file bears them yet. *)
Definition freshIdentifiers (P : Platform) (N : Node) (paths : ImageStore.StudioPaths)
    (input : ImageStore.PersistGeneratedImageInput) (w : ImageStore.World) : Prop :=
  ImageStore.images w !! attemptedImageId P w = None
  /\ (forall k row, ImageStore.reference_images w !! k = Some row ->
        ReferenceImages.imageId row <> attemptedImageId P w)
  /\ ImageStore.tagsOf (attemptedImageId P w) w = []
  /\ ImageStore.files w !! attemptedOriginalPath P N paths input w = None
  /\ ImageStore.files w !! attemptedThumbPath P N paths w = None
  /\ (forall (k : nat) ref,
        default [] (referenceImages (ImageStore.request input)) !! k = Some ref ->
        ImageStore.reference_images w !! uuidv4 P (S (ImageStore.drawn w) + k) = None
        /\ ImageStore.files w
             !! referencePath N paths (uuidv4 P (S (ImageStore.drawn w) + k)) ref = None).

(** Edge length in pixels of a resolution tier of the request domain. *)
Definition tierPixels (r : string) : Z :=
  if String.eqb r "512px" then 512
  else if String.eqb r "1K" then 1024
  else if String.eqb r "2K" then 2048
  else if String.eqb r "4K" then 4096
  else 0.

(** The tier of the request domain with the fewest pixels. *)
Definition lowestTier (domain : list string) : option string :=
  List.fold_right
    (fun r acc =>
       match acc with
       | Some best => if tierPixels r <=? tierPixels best then Some r else Some best
       | None => Some r
       end)
    None domain.

Definition fastTier (model : string) : Prop :=
  model = "gemini-2.5-flash-image" \/ model = "gemini-2.5-flash-image-preview".

(** What the [k]-th attempt of this call comes to. *)
Definition attempt (Number_of_string : string -> number)
    (network : nat -> Gemini.json -> Gemini.NetOutcome) (request : GenerationRequest)
    (k : nat) : Gemini.JsError + Gemini.GeminiGenerationResult :=
  Gemini.generateOnce Number_of_string (network k (Gemini.buildGeminiPayload request)).

Definition retryable (r : Gemini.JsError + Gemini.GeminiGenerationResult) : bool :=
  match r with
  | inl (Gemini.GeminiHttpError _ status) => Gemini.isRetryable status
  | _ => false
  end.

(** The result that [generate] returns when attempt number [n] settles it. *)
Definition finishWith (r : Gemini.JsError + Gemini.GeminiGenerationResult) (n : Z)
  : Gemini.JsError + Gemini.GeminiGenerationResult :=
  match r with
  | inr result => inr (Gemini.with_attempts result n)
  | inl error => inl error
  end.

(** The image parts that a successful response carries. *)
Definition responseImages (parsed : Gemini.json) : list Gemini.GeminiImagePart :=
  omap Gemini.extractInlineData
    (Gemini.extractCandidateParts
       (default (Gemini.JObject []) (Gemini.asRecord (Some parsed)))).

Definition zeroImageError : Gemini.JsError :=
  Gemini.Error "Gemini hat fuer diese Anfrage keine Bild-Payload geliefert.".

(** The sum of a list of amounts. *)
Definition sumQ (l : list Q) : Q := List.fold_right Qplus 0%Q l.

(** The estimated cost of the open rows of a table. *)
Definition openJobCosts (rows : list Db.QueueJob) : list Q :=
  List.map (fun job => Queue.estimateCost (resolution (Db.request job)))
    (List.filter Db.is_open rows).

(** What [kick] guarantees about the state it returns. *)
Definition dispatched (q q' : Queue.GenerationQueue) : Prop :=
  wellFormed q' /\ sameFrame q q'
  /\ Queue.activeRuns q' <= Z.max (Queue.activeRuns q) (Queue.concurrency q)
  /\ (pendingCount q' <= pendingCount q)%nat.

(** The order in which a job passes through its states. *)
Definition forward (s s' : QueueStatus) : bool :=
  match s, s' with
  | pending, _ => true
  | running, (running | completed | failed) => true
  | completed, completed | failed, failed | cancelled, cancelled => true
  | _, _ => false
  end.

(** A row moved forward, or did not change at all. *)
Definition advances (row row' : Db.QueueJob) : Prop :=
  rowKey row' = rowKey row
  /\ forward (Db.status row) (Db.status row') = true
  /\ (Db.status row' = Db.status row -> row' = row).

(** Every row of [l] is still at its place in [l'] and has at most
    advanced. *)
Definition advancesRows (l l' : list Db.QueueJob) : Prop :=
  forall (i : nat) row, l !! i = Some row ->
    exists row', l' !! i = Some row' /\ advances row row'.

(** Every running row of [l'] is a row of [l], unchanged and at the same
    place. *)
Definition startsNothing (l l' : list Db.QueueJob) : Prop :=
  forall (i : nat) row', l' !! i = Some row' -> Db.status row' = running ->
    l !! i = Some row'.

(** The path has no backslash in it. *)
Definition slashesOnly (path : string) : Prop :=
  ~ In "\"%char (list_ascii_of_string path).

(** What the validation guarantees of a reference image and of a
    request. *)
Definition validReference (ref : ReferenceImagePayload) : Prop :=
  truthy (trim (ref_name ref)) = true
  /\ truthy (trim (ref_mimeType ref)) = true
  /\ truthy (trim (ref_dataBase64 ref)) = true
  /\ (forall label, ref_label ref = Some label -> In label Ipc.ALLOWED_REFERENCE_LABELS).

Definition validRequest (request : GenerationRequest) : Prop :=
  In (model request) ALLOWED_MODELS
  /\ truthy (trim (prompt request)) = true
  /\ (forall refs, referenceImages request = Some refs ->
        Z.of_nat (length refs) <= Ipc.MAX_REFERENCE_IMAGES /\ Forall validReference refs)
  /\ (forall ratio, aspectRatio request = Some ratio -> In ratio Ipc.ALLOWED_ASPECT_RATIOS)
  /\ (forall tier, resolution request = Some tier -> In tier ALLOWED_RESOLUTIONS)
  /\ (forall level, thinkingLevel request = Some level ->
        In level Ipc.ALLOWED_THINKING_LEVELS)
  /\ (forall modalities, responseModalities request = Some modalities ->
        modalities <> [] /\ NoDup modalities
        /\ Forall (fun m => In m Ipc.ALLOWED_RESPONSE_MODALITIES) modalities)
  /\ (forall count, batchCount request = Some count -> 1 <= count <= 4).

(** The record that a renderer sends for a request: an absent text, flag
    or count travels as [null], an absent list as a missing key. *)
Definition encodeOption {A} (item : A -> Ipc.value) (o : option A) : Ipc.value :=
  match o with Some a => item a | None => Ipc.VNull end.

Definition encodeReference (ref : ReferenceImagePayload) : Ipc.value :=
  Ipc.VObject
    [ ("id", encodeOption Ipc.VString (ref_id ref));
      ("name", Ipc.VString (ref_name ref));
      ("mimeType", Ipc.VString (ref_mimeType ref));
      ("dataBase64", Ipc.VString (ref_dataBase64 ref));
      ("label", encodeOption Ipc.VString (ref_label ref)) ].

Definition encodeRequest (request : GenerationRequest) : Ipc.value :=
  Ipc.VObject
    ([ ("model", Ipc.VString (model request));
       ("prompt", Ipc.VString (prompt request));
       ("systemPrompt", encodeOption Ipc.VString (systemPrompt request));
       ("aspectRatio", encodeOption Ipc.VString (aspectRatio request));
       ("resolution", encodeOption Ipc.VString (resolution request));
       ("thinkingLevel", encodeOption Ipc.VString (thinkingLevel request));
       ("useGoogleSearch", encodeOption Ipc.VBool (useGoogleSearch request));
       ("batchCount",
        encodeOption (fun n => Ipc.VNumber (Num (inject_Z n))) (batchCount request));
       ("parentId", encodeOption Ipc.VString (parentId request));
       ("projectId", encodeOption Ipc.VString (projectId request)) ]
     ++ match referenceImages request with
        | Some refs => [("referenceImages", Ipc.VArray (encodeReference <$> refs))]
        | None => []
        end
     ++ match responseModalities request with
        | Some modalities =>
            [("responseModalities", Ipc.VArray (Ipc.VString <$> modalities))]
        | None => []
        end).

(** The project whose context [resolveSystemPrompt] adds to a request. *)
Definition projectOf (N : Node) (tables : Projects.Tables) (request : GenerationRequest)
  : option Projects.StudioProject :=
  match trim <$> projectId request with
  | Some projectId =>
      if truthy projectId then Projects.getProjectById N projectId tables else None
  | None => None
  end.

(** The system prompt of the request itself, when it is not blank. *)
Definition directPrompt (request : GenerationRequest) : option string :=
  match trim <$> systemPrompt request with
  | Some text => if truthy text then Some text else None
  | None => None
  end.


(** What a table will have cost once its open jobs are done: the cost of
    the generations logged so far and the estimates of the open jobs. *)
Definition projectedSpend (db : Db.StudioDatabase) : Q :=
  (sumQ (List.map Db.cost_estimate (Db.usage_log db))
   + sumQ (openJobCosts (Db.queue_jobs db)))%Q.

(** The total spend limit in force. *)
Definition totalLimit (P : Platform) (q : Queue.GenerationQueue) : option Q :=
  Config.publicTotalSpendLimitUsd
    (Config.getPublicConfig (decodeApiKey P) (Queue.configStore q)).

(** What [kick] may do to a row: nothing, or start it, which leaves it
    running, or failed when a check of [runJob] threw. *)
Definition starts (row row' : Db.QueueJob) : Prop :=
  row' = row
  \/ (Db.status row = pending
      /\ (Db.status row' = running \/ Db.status row' = failed)
      /\ rowKey row' = rowKey row).

Definition startsRows (l l' : list Db.QueueJob) : Prop :=
  forall (i : nat) row, l !! i = Some row -> exists row', l' !! i = Some row' /\ starts row row'.

(** The events of [q] are still there in [q'], followed by [more]. *)
Definition emits (q q' : Queue.GenerationQueue) (more : list Queue.Emitted) : Prop :=
  Queue.emitted q' = Queue.emitted q ++ more.

(** ** Sample inputs *)

(** The rounding of IEEE 754 arithmetic when the machine holds each
    amount as its nearest double: every addition is rounded to the nearest
    double, and the sum is compared with the double of the exact sum. *)
Definition ieee_sum_rounds_up (spent reserved added : Q) : bool :=
  negb (Qle_bool
          (binary64 (binary64 (binary64 spent + binary64 reserved) + binary64 added))
          (binary64 (spent + reserved + added))).

Definition samplePlatform : Platform :=
  {| uuidv4 := fun n => "uuid-" +:+ pretty n;
     one_month_before := fun t => t - 2592000;
     decodeApiKey := fun encrypted => Some encrypted;
     sum_rounds_up := ieee_sum_rounds_up |}.

Definition sampleConfig (monthly total : option number) : Config.StudioConfigFile :=
  {| Config.encryptedApiKey := Some "v1:secret";
     Config.queueConcurrency := Some (Num 2);
     Config.monthlySpendLimitUsd := monthly;
     Config.totalSpendLimitUsd := total |}.

Definition sampleRequest (res : option string) (batch : option Z) : GenerationRequest :=
  {| model := "gemini-3-pro-image-preview"; prompt := "a banana"; systemPrompt := None;
     referenceImages := None; aspectRatio := None; resolution := res;
     thinkingLevel := None; useGoogleSearch := None; responseModalities := None;
     batchCount := batch; parentId := None; projectId := None |}.

Definition sampleJob (jobId : string) (st : QueueStatus) (created : Z) : Db.QueueJob :=
  {| Db.id := jobId; Db.status := st; Db.request := sampleRequest (Some "1K") (Some 1);
     Db.resultId := None;
     Db.error := match st with running => Some "stale" | _ => None end;
     Db.priority := 0; Db.createdAt := created;
     Db.startedAt := match st with running => Some created | _ => None end;
     Db.completedAt := None |}.

Definition sampleLog (n : nat) (created : Z) : Db.UsageLog :=
  {| Db.log_id := "log-" +:+ pretty n; Db.log_model := "gemini-3-pro-image-preview";
     Db.log_resolution := Some "1K"; Db.cost_estimate := 0.134%Q;
     Db.tokens_in := None; Db.tokens_out := None; Db.created_at := created |}.

(** Two jobs wait; a third was left running by a crash. *)
Definition sampleDatabase : Db.StudioDatabase :=
  {| Db.queue_jobs := [sampleJob "a" pending 10; sampleJob "b" pending 11;
                       sampleJob "c" running 5];
     Db.usage_log := [] |}.

(** Three generations logged (0.402 in total) and an empty queue. *)
Definition ceilingDatabase : Db.StudioDatabase :=
  {| Db.queue_jobs := [];
     Db.usage_log := (fun n => sampleLog n 100) <$> seq 0 3 |}.

(** Six generations logged (0.804 in total) and one job waiting. *)
Definition spentDatabase : Db.StudioDatabase :=
  {| Db.queue_jobs := [sampleJob "a" pending 10];
     Db.usage_log := (fun n => sampleLog n 100) <$> seq 0 6 |}.

(** The same six generations, and the one job started. *)
Definition startedDatabase : Db.StudioDatabase :=
  {| Db.queue_jobs := [sampleJob "a" running 10];
     Db.usage_log := Db.usage_log spentDatabase |}.

Definition sampleQueue (db : Db.StudioDatabase) (config : Config.StudioConfigFile)
  : Queue.GenerationQueue :=
  {| Queue.database := db; Queue.configStore := config; Queue.activeRuns := 0;
     Queue.paused := true; Queue.concurrency := 2; Queue.emitted := [];
     Queue.clock := 1000; Queue.drawn := 0 |}.

Definition sampleNode : Node :=
  {| path_join := fun a b => a +:+ "/" +:+ b;
     path_dirname := fun p => p +:+ "/..";
     path_isAbsolute := String.prefix "/";
     path_resolve := fun p => p;
     path_relative := fun from to => if String.prefix from to then "inside" else "../outside";
     Buffer_from_base64 := fun s => [Byte.x68; Byte.x69];
     sharp_metadata := fun _ => Some (Some 640, Some 480);
     sharp_webp_thumbnail := fun bytes => Some bytes |}.

Definition samplePaths : ImageStore.StudioPaths :=
  {| ImageStore.root := "/home/u/.benana";
     ImageStore.imagesOriginals := "/home/u/.benana/images/originals" |}.

Definition emptyWorld : ImageStore.World :=
  {| ImageStore.files := ∅; ImageStore.directories := ∅; ImageStore.images := ∅;
     ImageStore.reference_images := ∅; ImageStore.image_tags := [];
     ImageStore.imageOutputDir := ∅; ImageStore.drawn := 0 |}.

(** A request with one reference image. *)
Definition sampleInput : ImageStore.PersistGeneratedImageInput :=
  {| ImageStore.request :=
       {| model := "gemini-3-pro-image-preview"; prompt := "a banana";
          systemPrompt := None;
          referenceImages :=
            Some [{| ref_id := None; ref_name := "style.png"; ref_mimeType := "image/png";
                     ref_dataBase64 := "aGk="; ref_label := Some "style" |}];
          aspectRatio := None; resolution := Some "1K"; thinkingLevel := None;
          useGoogleSearch := None; responseModalities := None; batchCount := Some 1;
          parentId := None; projectId := None |};
     ImageStore.generated :=
       {| Gemini.mimeType := "image/png"; Gemini.dataBase64 := "aGk=" |};
     ImageStore.inputModelText := None;
     ImageStore.inputGenerationMs := 1200;
     ImageStore.inputCostEstimate := 0.134%Q |}.

(** The insert of the reference row meets an I/O error. *)
Definition referenceInsertFails (c : ImageStore.IoCall) : bool :=
  match c with
  | ImageStore.InsertReferenceImage _ => true
  | _ => false
  end.

Definition nothingFails (c : ImageStore.IoCall) : bool := false.

(** The write of a reference image runs out of space. *)
Definition referenceWriteFails (c : ImageStore.IoCall) : bool :=
  match c with
  | ImageStore.WriteFile path => includes path "/references/"
  | _ => false
  end.

(** A failed write leaves nothing behind. *)
Definition wholeWrites (path : string) : option nat := None.

(** A failed write leaves the first byte behind. *)
Definition oneByteWritten (path : string) : option nat := Some 1%nat.

(** U+00A0, the no-break space, as UTF-8 writes it. *)
Definition nbsp : string := String "194" (String "160" EmptyString).

Definition request_4K (m : string) : GenerationRequest :=
  {| model := m; prompt := "a banana"; systemPrompt := None;
     referenceImages := None; aspectRatio := None; resolution := Some "4K";
     thinkingLevel := None; useGoogleSearch := None; responseModalities := None;
     batchCount := Some 3; parentId := None; projectId := None |}.

(** A request whose prompt is a no-break space and nothing else. *)
Definition blankRequest : GenerationRequest :=
  {| model := "gemini-3-pro-image-preview"; prompt := nbsp; systemPrompt := None;
     referenceImages := None; aspectRatio := None; resolution := Some "1K";
     thinkingLevel := None; useGoogleSearch := None; responseModalities := None;
     batchCount := None; parentId := None; projectId := None |}.

(** A response body with one inline image and one text part. *)
Definition body_one_image : Gemini.json :=
  Gemini.JObject [("candidates", Gemini.JArray [
    Gemini.JObject [("content", Gemini.JObject [("parts", Gemini.JArray [
      Gemini.JObject [("text", Gemini.JString " ripe ")];
      Gemini.JObject [("inlineData", Gemini.JObject [
        ("mimeType", Gemini.JString "image/png");
        ("data", Gemini.JString "aGVsbG8=")])]])])]])].

(** The same parts with usage metadata: the prompt count is a text that
    is no number under its first key, and the candidates count is a
    numeral beyond the range of a double under its first key. *)
Definition body_with_usage : Gemini.json :=
  Gemini.JObject [
    ("candidates", Gemini.JArray [
      Gemini.JObject [("content", Gemini.JObject [("parts", Gemini.JArray [
        Gemini.JObject [("inlineData", Gemini.JObject [
          ("mimeType", Gemini.JString "image/png");
          ("data", Gemini.JString "aGVsbG8=")])]])])]]);
    ("usageMetadata", Gemini.JObject [
      ("promptTokenCount", Gemini.JString "n/a");
      ("prompt_token_count", Gemini.JNumber 12);
      ("candidatesTokenCount", Gemini.JNumber (inject_Z (10 ^ 400)));
      ("candidates_token_count", Gemini.JNumber 7)])].

(** A response body that carries text only. *)
Definition body_text_only : Gemini.json :=
  Gemini.JObject [("candidates", Gemini.JArray [
    Gemini.JObject [("content", Gemini.JObject [("parts", Gemini.JArray [
      Gemini.JObject [("text", Gemini.JString "no picture today")]])])]])].

(** Status 503 twice, then status 200 with an image. *)
Definition network_503_503_200 (k : nat) (_ : Gemini.json) : Gemini.NetOutcome :=
  match k with
  | 0%nat | 1%nat => Gemini.NetResponse 503 None
  | _ => Gemini.NetResponse 200 (Some body_one_image)
  end.

(** Status 200 with text only, then status 200 with an image. *)
Definition network_text_then_image (k : nat) (_ : Gemini.json) : Gemini.NetOutcome :=
  match k with
  | 0%nat => Gemini.NetResponse 200 (Some body_text_only)
  | _ => Gemini.NetResponse 200 (Some body_one_image)
  end.

Definition no_Number (_ : string) : number := NaN.

(** The three jobs of the ordering example: A (priority 0, created at 1),
    B (priority 5, created at 2) and C (priority 5, created at 0). *)
Definition orderingDatabase : Db.StudioDatabase :=
  {| Db.queue_jobs :=
       [ {| Db.id := "A"; Db.status := pending;
            Db.request := sampleRequest None None; Db.resultId := None;
            Db.error := None; Db.priority := 0; Db.createdAt := 1;
            Db.startedAt := None; Db.completedAt := None |};
         {| Db.id := "B"; Db.status := pending;
            Db.request := sampleRequest None None; Db.resultId := None;
            Db.error := None; Db.priority := 5; Db.createdAt := 2;
            Db.startedAt := None; Db.completedAt := None |};
         {| Db.id := "C"; Db.status := pending;
            Db.request := sampleRequest None None; Db.resultId := None;
            Db.error := None; Db.priority := 5; Db.createdAt := 0;
            Db.startedAt := None; Db.completedAt := None |} ];
     Db.usage_log := [] |}.

(** An image that was written on a Windows machine. *)
Definition sampleImage : Images.Row :=
  {| Images.id := "img-1"; Images.projectId := None; Images.prompt := "a banana";
     Images.model := "gemini-3-pro-image-preview"; Images.aspectRatio := None;
     Images.resolution := Some "1K"; Images.thinkingLevel := None;
     Images.usedSearch := false; Images.modelText := None;
     Images.filePath := "C:\Users\u\banana.png"; Images.thumbPath := None;
     Images.width := Some 640; Images.height := Some 480; Images.fileSize := 2;
     Images.parentId := None; Images.generationMs := 1200;
     Images.costEstimate := 0.134%Q; Images.deletedAt := None |}.

(** A project with a prompt of its own, guidelines and strict mode, and
    two brand assets, of which only the logo is on disk. *)
Definition sampleTables : Projects.Tables :=
  {| Projects.projects :=
       {[ "p1" := {| Projects.system_prompt := Some " Use the brand palette. ";
                     Projects.brand_guidelines := Some "Yellow on black.";
                     Projects.brand_strict_mode := Some 1;
                     Projects.image_output_dir := None |} ]};
     Projects.project_brand_assets :=
       [ {| Projects.id := "asset-1"; Projects.project_id := "p1";
            Projects.name := "logo.png"; Projects.mime_type := "image/png";
            Projects.file_path := "brand-assets/logo.png"; Projects.created_at := 5 |};
         {| Projects.id := "asset-2"; Projects.project_id := "p1";
            Projects.name := "lost.png"; Projects.mime_type := "image/png";
            Projects.file_path := "brand-assets/lost.png"; Projects.created_at := 7 |} ] |}.


(** A request of project p1 with a system prompt of its own. *)
Definition projectRequest : GenerationRequest :=
  {| model := "gemini-3-pro-image-preview"; prompt := "a banana";
     systemPrompt := Some "Flat illustration.";
     referenceImages := None; aspectRatio := None; resolution := Some "1K";
     thinkingLevel := None; useGoogleSearch := None; responseModalities := None;
     batchCount := None; parentId := None; projectId := Some "p1" |}.

(** A request without a project whose system prompt begins with a
    no-break space. *)
Definition paddedRequest : GenerationRequest :=
  {| model := "gemini-3-pro-image-preview"; prompt := "a banana";
     systemPrompt := Some (nbsp +:+ "Flat illustration. ");
     referenceImages := None; aspectRatio := None; resolution := Some "1K";
     thinkingLevel := None; useGoogleSearch := None; responseModalities := None;
     batchCount := None; parentId := None; projectId := None |}.

(** * Properties *)

(** ** Spend-limit normalisation *)

Section SpendLimitFacts.
Local Open Scope Q_scope.

Lemma Qle_bool_false (a b : Q) : Qle_bool a b = false <-> b < a.
Proof.
  split.
  - intros H. apply Qnot_le_lt. intros Hle. apply Qle_bool_iff in Hle. congruence.
  - intros H. destruct (Qle_bool a b) eqn:E; [|reflexivity].
    apply Qle_bool_iff in E. lra.
Qed.

Lemma roundHalfEven_nonneg (n d : Z) : (0 <= n)%Z -> (0 < d)%Z -> (0 <= roundHalfEven n d)%Z.
Proof.
  intros Hn Hd. unfold roundHalfEven.
  pose proof (Z.div_pos n d Hn Hd).
  destruct (2 * (n mod d) <? d)%Z; [assumption |].
  destruct (d <? 2 * (n mod d))%Z; [lia |].
  destruct (Z.even (n / d)); lia.
Qed.

Lemma binary64_magnitude_nonneg (n den : positive) :
  0 <= binary64_magnitude (Z.pos n) den.
Proof.
  unfold binary64_magnitude.
  set (k := Z.max (binade (Z.pos n) den - 52) (- 1074)).
  destruct (0 <=? k)%Z eqn:Hk.
  - apply Z.leb_le in Hk. change 0 with (inject_Z 0). rewrite <- Zle_Qle.
    apply Z.mul_nonneg_nonneg; [| apply Z.pow_nonneg; lia].
    apply roundHalfEven_nonneg; [lia |].
    apply Z.mul_pos_pos; [lia | apply Z.pow_pos_nonneg; lia].
  - unfold Qle. cbn [Qnum Qden]. rewrite Z.mul_1_r.
    apply roundHalfEven_nonneg; [| lia].
    apply Z.mul_nonneg_nonneg; [lia | apply Z.pow_nonneg; lia].
Qed.

(** Rounding to a double keeps the sign. *)
Lemma binary64_nonneg (v : Q) : 0 <= v -> 0 <= binary64 v.
Proof.
  destruct v as [[| n | n] den]; unfold binary64; cbn [Qnum Qden].
  - intros _. apply Qle_refl.
  - intros _. apply binary64_magnitude_nonneg.
  - intros H. unfold Qle in H. cbn in H. lia.
Qed.

Lemma binary64_nonpos (v : Q) : v <= 0 -> binary64 v <= 0.
Proof.
  destruct v as [[| n | n] den]; unfold binary64; cbn [Qnum Qden].
  - intros _. apply Qle_refl.
  - intros H. unfold Qle in H. cbn in H. lia.
  - intros _. pose proof (binary64_magnitude_nonneg n den). lra.
Qed.

Lemma toFixed3_nonneg (v : Q) :
  0 <= binary64 v -> toFixed3 v = Qmake (thousandths (binary64 v)) 1000.
Proof.
  intros Hv. unfold toFixed3, is_negative. cbv zeta.
  apply Qle_bool_iff in Hv. now rewrite Hv.
Qed.

Lemma toFixed3_thousandths (v : Q) :
  0 <= binary64 v -> toFixed3 v * 1000 == inject_Z (thousandths (binary64 v)).
Proof.
  intros Hv. rewrite (toFixed3_nonneg v Hv), Qmake_Qdiv.
  change (inject_Z (Z.pos 1000)) with 1000. field.
Qed.

Lemma toFixed3_close (v : Q) :
  0 <= binary64 v ->
  binary64 v - (1 # 2000) < toFixed3 v /\ toFixed3 v <= binary64 v + (1 # 2000).
Proof.
  intros Hv.
  pose proof (toFixed3_thousandths v Hv) as Hn.
  pose proof (Qfloor_le (binary64 v * 1000 + (1 # 2))) as Hle.
  pose proof (Qlt_floor (binary64 v * 1000 + (1 # 2))) as Hlt.
  rewrite inject_Z_plus in Hlt. change (inject_Z 1) with 1 in Hlt.
  unfold thousandths in Hn. rewrite <- Hn in Hle, Hlt. split; lra.
Qed.
End SpendLimitFacts.

(** ** Resolution sent to the remote service *)

Lemma fastTier_eqb (model : string) :
  fastTier model <->
  String.eqb model "gemini-2.5-flash-image"
  || String.eqb model "gemini-2.5-flash-image-preview" = true.
Proof.
  unfold fastTier. rewrite orb_true_iff, !String.eqb_eq. tauto.
Qed.

Lemma allowed_resolution_truthy (r : string) :
  In r ALLOWED_RESOLUTIONS -> truthy r = true.
Proof.
  cbn. intros [<- | [<- | [<- | [<- | []]]]]; reflexivity.
Qed.

Lemma sentImageSize_payload (request : GenerationRequest) :
  Gemini.sentImageSize (Gemini.buildGeminiPayload request) =
  match Gemini.normalizeResolutionForModel (model request) (resolution request) with
  | Some r => if truthy r then Some (Gemini.JString r) else None
  | None => None
  end.
Proof.
  unfold Gemini.buildGeminiPayload, Gemini.sentImageSize.
  destruct (Gemini.normalizeResolutionForModel (model request) (resolution request))
    as [r|]; cbn.
  - destruct (Gemini.truthy_opt (aspectRatio request)), (truthy r); reflexivity.
  - destruct (Gemini.truthy_opt (aspectRatio request)); reflexivity.
Qed.

(** C9, as stated, fails: the lowest tier of the request domain is 512px,
    but a fast model is sent 1K, also when 512px itself was asked for. *)
Lemma fast_model_not_lowest_tier :
  lowestTier ALLOWED_RESOLUTIONS = Some "512px"
  /\ fastTier "gemini-2.5-flash-image"
  /\ In "2K" ALLOWED_RESOLUTIONS
  /\ Gemini.normalizeResolutionForModel "gemini-2.5-flash-image" (Some "2K")
     <> lowestTier ALLOWED_RESOLUTIONS
  /\ Gemini.normalizeResolutionForModel "gemini-2.5-flash-image" (Some "512px")
     = Some "1K"
  /\ tierPixels "512px" < tierPixels "1K".
Proof.
  repeat split; try reflexivity.
  - now left.
  - cbn. tauto.
  - discriminate.
Qed.

(** C9, amended.  For a fast model every resolution of the request domain
    is replaced by 1K in the payload; for any other model the requested
    resolution is sent as it is; an absent resolution stays absent. *)
Theorem normalizeResolutionForModel_spec (request : GenerationRequest) :
  (resolution request = None ->
     Gemini.normalizeResolutionForModel (model request) None = None
     /\ Gemini.sentImageSize (Gemini.buildGeminiPayload request) = None)
  /\ (forall r, resolution request = Some r -> In r ALLOWED_RESOLUTIONS ->
        fastTier (model request) ->
        Gemini.normalizeResolutionForModel (model request) (Some r) = Some "1K"
        /\ Gemini.sentImageSize (Gemini.buildGeminiPayload request)
           = Some (Gemini.JString "1K"))
  /\ (forall r, resolution request = Some r -> In r ALLOWED_RESOLUTIONS ->
        ~ fastTier (model request) ->
        Gemini.normalizeResolutionForModel (model request) (Some r) = Some r
        /\ Gemini.sentImageSize (Gemini.buildGeminiPayload request)
           = Some (Gemini.JString r)).
Proof.
  split; [| split].
  - intros Hres. split; [reflexivity |].
    rewrite sentImageSize_payload, Hres. reflexivity.
  - intros r Hres Hin Hfast.
    assert (Hn : Gemini.normalizeResolutionForModel (model request) (Some r) = Some "1K").
    { unfold Gemini.normalizeResolutionForModel.
      rewrite (allowed_resolution_truthy r Hin). cbn.
      apply fastTier_eqb in Hfast. now rewrite Hfast. }
    split; [exact Hn |].
    rewrite sentImageSize_payload, Hres, Hn. reflexivity.
  - intros r Hres Hin Hslow.
    assert (Hn : Gemini.normalizeResolutionForModel (model request) (Some r) = Some r).
    { unfold Gemini.normalizeResolutionForModel.
      rewrite (allowed_resolution_truthy r Hin). cbn.
      destruct (String.eqb (model request) "gemini-2.5-flash-image"
                || String.eqb (model request) "gemini-2.5-flash-image-preview") eqn:E;
        [| reflexivity].
      exfalso. apply Hslow. now apply fastTier_eqb. }
    split; [exact Hn |].
    rewrite sentImageSize_payload, Hres, Hn, (allowed_resolution_truthy r Hin).
    reflexivity.
Qed.

Lemma normalizeResolutionForModel_spec_witness :
  Gemini.sentImageSize (Gemini.buildGeminiPayload (request_4K "gemini-2.5-flash-image"))
    = Some (Gemini.JString "1K")
  /\ Gemini.sentImageSize (Gemini.buildGeminiPayload (request_4K "gemini-3-pro-image-preview"))
    = Some (Gemini.JString "4K").
Proof.
  split.
  - destruct (normalizeResolutionForModel_spec (request_4K "gemini-2.5-flash-image"))
      as (_ & Hfast & _).
    apply (Hfast "4K"); [reflexivity | cbn; tauto | now left].
  - destruct (normalizeResolutionForModel_spec (request_4K "gemini-3-pro-image-preview"))
      as (_ & _ & Hslow).
    apply (Hslow "4K"); [reflexivity | cbn; tauto |].
    intros [H | H]; discriminate H.
Defined.

(** ** Retry policy of the remote client *)

Section GenerateFacts.
Variable Number_of_string : string -> number.
Variable network : nat -> Gemini.json -> Gemini.NetOutcome.
Variable request : GenerationRequest.

Let run := Gemini.generate Number_of_string network request.
Let tried := attempt Number_of_string network request.

Lemma generate_cases :
  (retryable (tried 0) = false
   /\ run = (finishWith (tried 0) 1, {| Gemini.requests := 1; Gemini.sleeps := [] |}))
  \/ (retryable (tried 0) = true /\ retryable (tried 1) = false
      /\ run = (finishWith (tried 1) 2,
                {| Gemini.requests := 2; Gemini.sleeps := [800] |}))
  \/ (retryable (tried 0) = true /\ retryable (tried 1) = true
      /\ run = (finishWith (tried 2) 3,
                {| Gemini.requests := 3; Gemini.sleeps := [800; 1600] |})).
Proof.
  subst run tried. unfold Gemini.generate, attempt.
  change (Z.to_nat Gemini.MAX_RETRIES) with 3%nat.
  cbn [Gemini.generate_loop Gemini.generateOnce_io Gemini.requests Gemini.sleeps].
  change (0 <? Gemini.MAX_RETRIES) with true. cbn match.
  set (p := Gemini.buildGeminiPayload request).
  destruct (Gemini.generateOnce Number_of_string (network 0 p)) as [e0 | r0] eqn:E0;
    [| left; now split].
  destruct (retryable (inl e0)) eqn:R0; cycle 1.
  { left. split; [reflexivity |]. cbn in R0.
    destruct e0; cbn; try reflexivity. now rewrite R0. }
  right. destruct e0 as [m0 s0 | |]; try discriminate R0. cbn in R0. rewrite R0.
  cbn [negb orb]. change (Gemini.MAX_RETRIES <=? 0 + 1) with false. cbn match.
  change (0 + 1 <? Gemini.MAX_RETRIES) with true. cbn match.
  cbn [Gemini.wait Gemini.requests Gemini.sleeps app].
  destruct (Gemini.generateOnce Number_of_string (network 1%nat p)) as [e1 | r1] eqn:E1;
    [| left; now repeat split].
  destruct (retryable (inl e1)) eqn:R1; cycle 1.
  { left. repeat split. cbn in R1.
    destruct e1; cbn; try reflexivity. now rewrite R1. }
  right. destruct e1 as [m1 s1 | |]; try discriminate R1. cbn in R1. rewrite R1.
  cbn [negb orb]. change (Gemini.MAX_RETRIES <=? 0 + 1 + 1) with false. cbn match.
  change (0 + 1 + 1 <? Gemini.MAX_RETRIES) with true. cbn match.
  cbn [Gemini.wait Gemini.requests Gemini.sleeps app].
  repeat split.
  destruct (Gemini.generateOnce Number_of_string (network 2%nat p)) as [e2 | r2] eqn:E2;
    [| reflexivity].
  change (Gemini.MAX_RETRIES <=? 0 + 1 + 1 + 1) with true.
  rewrite orb_true_r. reflexivity.
Qed.

End GenerateFacts.

Lemma generateOnce_images Number_of_string (o : Gemini.NetOutcome) result :
  Gemini.generateOnce Number_of_string o = inr result ->
  Gemini.images result <> [].
Proof.
  unfold Gemini.generateOnce.
  destruct (Gemini.fetchWithTimeout o) as [[| |] | [status body]]; try discriminate.
  destruct (negb (Gemini.response_ok status)); try discriminate.
  destruct body as [parsed |]; try discriminate.
  destruct (omap Gemini.extractInlineData _) as [| img rest] eqn:E; try discriminate.
  intros [= <-]. cbn. discriminate.
Qed.

Lemma generateOnce_zero_images Number_of_string status parsed :
  Gemini.response_ok status = true ->
  responseImages parsed = [] ->
  Gemini.generateOnce Number_of_string (Gemini.NetResponse status (Some parsed))
  = inl zeroImageError.
Proof.
  intros Hok Hzero. unfold Gemini.generateOnce. cbn [Gemini.fetchWithTimeout].
  rewrite Hok. cbn [negb]. unfold responseImages in Hzero. rewrite Hzero. reflexivity.
Qed.

(** The attempt that ends a call of [generate] decides its result, and an
    attempt that does not fail retryably ends the call. *)
Lemma generate_stops
    (Number_of_string : string -> number)
    (network : nat -> Gemini.json -> Gemini.NetOutcome)
    (request : GenerationRequest) :
  let result := fst (Gemini.generate Number_of_string network request) in
  let t := snd (Gemini.generate Number_of_string network request) in
  let attempt := attempt Number_of_string network request in
  result = finishWith (attempt (Gemini.requests t - 1)%nat) (Z.of_nat (Gemini.requests t))
  /\ (forall k, (k < Gemini.requests t)%nat -> retryable (attempt k) = false ->
        Gemini.requests t = S k /\ result = finishWith (attempt k) (Z.of_nat (S k))).
Proof.
  cbv zeta.
  destruct (generate_cases Number_of_string network request)
    as [[R0 ->] | [(R0 & R1 & ->) | (R0 & R1 & ->)]];
    cbn [fst snd Gemini.requests Gemini.sleeps]; (split; [reflexivity |]).
  - intros k Hk Hr. assert (k = 0)%nat as -> by lia. now split.
  - intros k Hk Hr. assert (k = 0 \/ k = 1)%nat as [-> | ->] by lia;
      [congruence | now split].
  - intros k Hk Hr. assert (k = 0 \/ k = 1 \/ k = 2)%nat as [-> | [-> | ->]] by lia;
      [congruence | congruence | now split].
Qed.



(** C5.  A response of a success status without any image part makes
    [generateOnce] throw a plain error, which [generate] does not retry:
    the call ends at that attempt with that error.  Hence every result
    that [generate] returns has at least one image. *)
Theorem zero_image_response_is_fatal
    (Number_of_string : string -> number)
    (network : nat -> Gemini.json -> Gemini.NetOutcome)
    (request : GenerationRequest) :
  let result := fst (Gemini.generate Number_of_string network request) in
  let t := snd (Gemini.generate Number_of_string network request) in
  (forall status parsed,
      Gemini.response_ok status = true -> responseImages parsed = [] ->
      Gemini.generateOnce Number_of_string (Gemini.NetResponse status (Some parsed))
      = inl zeroImageError
      /\ retryable (inl zeroImageError) = false)
  /\ (forall k status parsed,
        (k < Gemini.requests t)%nat ->
        network k (Gemini.buildGeminiPayload request)
        = Gemini.NetResponse status (Some parsed) ->
        Gemini.response_ok status = true -> responseImages parsed = [] ->
        Gemini.requests t = S k /\ result = inl zeroImageError)
  /\ (forall r, result = inr r -> Gemini.images r <> []).
Proof.
  intros result t. subst result t.
  pose proof (generate_stops Number_of_string network request) as H.
  cbv zeta in H. destruct H as (Hlast & Hstop).
  split; [| split].
  - intros status parsed Hok Hzero. split; [| reflexivity].
    now apply generateOnce_zero_images.
  - intros k status parsed Hk Hnet Hok Hzero.
    assert (Hatt : attempt Number_of_string network request k = inl zeroImageError).
    { unfold attempt. rewrite Hnet. now apply generateOnce_zero_images. }
    destruct (Hstop k Hk) as [Hn Hres]; [now rewrite Hatt |].
    split; [exact Hn |]. now rewrite Hres, Hatt.
  - intros r Hr. rewrite Hlast in Hr.
    destruct (attempt Number_of_string network request _) as [e | r0] eqn:E;
      [discriminate |].
    cbn in Hr. injection Hr as <-. cbn.
    unfold attempt in E. now apply generateOnce_images in E.
Qed.

Lemma zero_image_response_is_fatal_witness :
  Gemini.requests (snd (Gemini.generate no_Number network_text_then_image
                          (request_4K "gemini-3-pro-image-preview"))) = 1%nat
  /\ fst (Gemini.generate no_Number network_text_then_image
            (request_4K "gemini-3-pro-image-preview")) = inl zeroImageError
  /\ (forall r, fst (Gemini.generate no_Number network_503_503_200
                       (request_4K "gemini-3-pro-image-preview")) = inr r ->
                Gemini.images r <> []).
Proof.
  pose proof (zero_image_response_is_fatal no_Number network_text_then_image
                (request_4K "gemini-3-pro-image-preview")) as H.
  cbv zeta in H. destruct H as (_ & Hfatal & _).
  destruct (Hfatal 0%nat 200 body_text_only) as [Hn Hres];
    [vm_compute; lia | reflexivity | reflexivity | reflexivity |].
  split; [exact Hn |]. split; [exact Hres |].
  pose proof (zero_image_response_is_fatal no_Number network_503_503_200
                (request_4K "gemini-3-pro-image-preview")) as H.
  cbv zeta in H. destruct H as (_ & _ & Himg). exact Himg.
Defined.

(** ** Rows of queue_jobs under the updates of db.ts *)

Section TableFacts.
Implicit Types (db : Db.StudioDatabase) (row : Db.QueueJob).

Lemma update_queue_jobs_lookup matches set db (i : nat) row :
  Db.queue_jobs db !! i = Some row ->
  Db.queue_jobs (Db.update_queue_jobs matches set db) !! i
  = Some (if matches row then set row else row).
Proof.
  intros H. cbn. change (@List.map) with (@fmap list _).
  rewrite list_lookup_fmap, H. reflexivity.
Qed.

Lemma update_queue_jobs_length matches set db :
  length (Db.queue_jobs (Db.update_queue_jobs matches set db))
  = length (Db.queue_jobs db).
Proof. cbn. apply length_map. Qed.

Lemma update_queue_jobs_usage_log matches set db :
  Db.usage_log (Db.update_queue_jobs matches set db) = Db.usage_log db.
Proof. reflexivity. Qed.

Lemma find_update_keeps_id jobId (matches : Db.QueueJob -> bool)
    (set : Db.QueueJob -> Db.QueueJob) (rows : list Db.QueueJob) row :
  (forall r, Db.id (set r) = Db.id r) ->
  List.find (Db.has_id jobId) rows = Some row ->
  List.find (Db.has_id jobId) (List.map (fun r => if matches r then set r else r) rows)
  = Some (if matches row then set row else row).
Proof.
  intros Hid. induction rows as [| r rows IH]; cbn; [discriminate |].
  assert (Hsame : Db.has_id jobId (if matches r then set r else r) = Db.has_id jobId r).
  { unfold Db.has_id. destruct (matches r); [now rewrite Hid | reflexivity]. }
  rewrite Hsame. destruct (Db.has_id jobId r); [now intros [= ->] | exact IH].
Qed.

Lemma find_update_none jobId (matches : Db.QueueJob -> bool)
    (set : Db.QueueJob -> Db.QueueJob) (rows : list Db.QueueJob) :
  (forall r, Db.id (set r) = Db.id r) ->
  List.find (Db.has_id jobId) rows = None ->
  List.find (Db.has_id jobId) (List.map (fun r => if matches r then set r else r) rows)
  = None.
Proof.
  intros Hid. induction rows as [| r rows IH]; cbn; [reflexivity |].
  assert (Hsame : Db.has_id jobId (if matches r then set r else r) = Db.has_id jobId r).
  { unfold Db.has_id. destruct (matches r); [now rewrite Hid | reflexivity]. }
  rewrite Hsame. destruct (Db.has_id jobId r); [discriminate | exact IH].
Qed.

Lemma is_running_iff row : Db.is_running row = true <-> Db.status row = running.
Proof. unfold Db.is_running. destruct (Db.status row); split; congruence. Qed.

Lemma is_pending_iff row : Db.is_pending row = true <-> Db.status row = pending.
Proof. unfold Db.is_pending. destruct (Db.status row); split; congruence. Qed.
End TableFacts.

(** C6.  [requeueRunningJobs] rewrites the rows in place: a row that is
    running becomes pending with [startedAt], [completedAt] and [error]
    cleared and everything else kept; every other row is left as it is;
    so no row is running afterwards, and the count returned is the number
    of rows that were running.  The constructor runs it on the database
    before its first [kick]. *)
Theorem requeueRunningJobs_spec (db : Db.StudioDatabase) :
  let db' := snd (Db.requeueRunningJobs db) in
  length (Db.queue_jobs db') = length (Db.queue_jobs db)
  /\ Db.usage_log db' = Db.usage_log db
  /\ (forall (i : nat) row, Db.queue_jobs db !! i = Some row ->
        exists row', Db.queue_jobs db' !! i = Some row'
          /\ (Db.status row = running ->
                Db.status row' = pending /\ Db.startedAt row' = None
                /\ Db.completedAt row' = None /\ Db.error row' = None
                /\ Db.id row' = Db.id row /\ Db.request row' = Db.request row
                /\ Db.resultId row' = Db.resultId row
                /\ Db.priority row' = Db.priority row
                /\ Db.createdAt row' = Db.createdAt row)
          /\ (Db.status row <> running -> row' = row))
  /\ (forall row', In row' (Db.queue_jobs db') -> Db.status row' <> running)
  /\ fst (Db.requeueRunningJobs db)
     = length (List.filter Db.is_running (Db.queue_jobs db))
  /\ (forall P config value now,
        Queue.constructor P db config value now
        = Queue.kick P
            {| Queue.database := db'; Queue.configStore := config;
               Queue.activeRuns := 0; Queue.paused := false;
               Queue.concurrency := Queue.clampConcurrency value;
               Queue.emitted := []; Queue.clock := now; Queue.drawn := 0 |}).
Proof.
  cbn zeta. split; [apply update_queue_jobs_length |].
  split; [reflexivity |]. split; [| split; [| split; reflexivity]].
  - intros i row Hrow. eexists. split.
    + unfold Db.requeueRunningJobs. cbn [snd].
      apply update_queue_jobs_lookup, Hrow.
    + split.
      * intros Hrun. apply is_running_iff in Hrun. rewrite Hrun. cbn. tauto.
      * intros Hrun. destruct (Db.is_running row) eqn:E; [| reflexivity].
        apply is_running_iff in E. contradiction.
  - intros row' Hin. cbn in Hin. apply in_map_iff in Hin as (row & <- & _).
    destruct (Db.is_running row) eqn:E; cbn; [discriminate |].
    intros Hrun. apply is_running_iff in Hrun. congruence.
Qed.

(** C8.  [cancel] returns true exactly for a job that exists and is
    pending; it then marks that job cancelled (stamping [completedAt])
    and leaves every other field, every other row and the scheduler's
    counters as they are.  In every other case it returns false and the
    whole state is unchanged. *)
Theorem cancel_spec (jobId : string) (q : Queue.GenerationQueue) :
  let result := fst (Queue.cancel jobId q) in
  let q' := snd (Queue.cancel jobId q) in
  (result = true <->
     exists job, Db.getQueueJobById jobId (Queue.database q) = Some job
                 /\ Db.status job = pending)
  /\ (result = false -> q' = q)
  /\ (forall job, Db.getQueueJobById jobId (Queue.database q) = Some job ->
        Db.status job = pending ->
        exists job', Db.getQueueJobById jobId (Queue.database q') = Some job'
          /\ Db.status job' = cancelled
          /\ Db.completedAt job' = Some (Queue.clock q)
          /\ Db.id job' = Db.id job /\ Db.request job' = Db.request job
          /\ Db.resultId job' = Db.resultId job /\ Db.error job' = Db.error job
          /\ Db.priority job' = Db.priority job
          /\ Db.createdAt job' = Db.createdAt job
          /\ Db.startedAt job' = Db.startedAt job)
  /\ (forall (i : nat) row, Db.queue_jobs (Queue.database q) !! i = Some row ->
        Db.id row <> jobId \/ Db.status row <> pending ->
        Db.queue_jobs (Queue.database q') !! i = Some row)
  /\ length (Db.queue_jobs (Queue.database q')) = length (Db.queue_jobs (Queue.database q))
  /\ Queue.activeRuns q' = Queue.activeRuns q
  /\ Queue.concurrency q' = Queue.concurrency q
  /\ Queue.paused q' = Queue.paused q.
Proof.
  cbn zeta. unfold Queue.cancel.
  destruct (Db.getQueueJobById jobId (Queue.database q)) as [job |] eqn:Hfind.
  2: { cbn. repeat split; try congruence; try reflexivity.
       intros (job & [=] & _). }
  destruct (Db.is_pending job) eqn:Hpend; cbn [fst snd].
  - apply is_pending_iff in Hpend as Hstatus.
    split; [split; [eauto | reflexivity] |].
    split; [discriminate |]. split; [| split; [| split; [| repeat split]]].
    + intros job0 [= <-] _. eexists. split.
      * cbn. unfold Db.getQueueJobById in Hfind.
        apply (find_update_keeps_id jobId); [reflexivity | exact Hfind].
      * assert (Hid : Db.has_id jobId job = true)
          by (apply List.find_some in Hfind; tauto).
        rewrite Hid, Hpend. cbn. tauto.
    + intros i row Hrow Hother. cbn [Queue.database Queue.emit Queue.with_database].
      unfold Db.markQueueJobCancelled.
      rewrite (update_queue_jobs_lookup _ _ _ i row Hrow).
      destruct (Db.has_id jobId row && Db.is_pending row) eqn:E; [| reflexivity].
      apply andb_true_iff in E as [E1 E2]. unfold Db.has_id in E1.
      apply String.eqb_eq in E1. apply is_pending_iff in E2.
      destruct Hother; contradiction.
    + cbn. apply length_map.
  - split.
    + split; [discriminate |]. intros (job0 & [= <-] & Hs).
      apply is_pending_iff in Hs. congruence.
    + repeat split; try reflexivity.
      * intros job0 [= <-] Hs. apply is_pending_iff in Hs. congruence.
      * intros i row Hrow _. exact Hrow.
Qed.

(** ** Admission control *)

Section AdmissionFacts.
Local Open Scope Q_scope.

Lemma sumQ_Permutation (l1 l2 : list Q) : l1 ≡ₚ l2 -> sumQ l1 == sumQ l2.
Proof.
  induction 1 as [| x l1 l2 _ IH | x y l | l1 l2 l3 _ IH1 _ IH2];
    cbn [sumQ List.fold_right] in *.
  - reflexivity.
  - now rewrite IH.
  - ring.
  - now rewrite IH1.
Qed.

Lemma fold_left_cost (f : Db.QueueJob -> Q) (l : list Db.QueueJob) (acc : Q) :
  List.fold_left (fun sum job => sum + f job) l acc == acc + sumQ (List.map f l).
Proof.
  revert acc. induction l as [| x l IH]; intros acc;
    cbn [sumQ List.fold_right List.fold_left List.map].
  - ring.
  - rewrite IH. unfold sumQ. ring.
Qed.

Lemma getReservedQueueCost_all (q : Queue.GenerationQueue) :
  Queue.getReservedQueueCost None q
  == sumQ (openJobCosts (Db.queue_jobs (Queue.database q))).
Proof.
  unfold Queue.getReservedQueueCost, openJobCosts, Db.listOpenQueueJobs.
  rewrite fold_left_cost, Qplus_0_l.
  apply sumQ_Permutation.
  change (@List.map) with (@fmap list _).
  apply fmap_Permutation, merge_sort_Permutation.
Qed.

Lemma estimateCost_pos (r : option string) : 0 < Queue.estimateCost r.
Proof.
  unfold Queue.estimateCost. destruct r as [r |]; [destruct (String.eqb r "4K") |];
    reflexivity.
Qed.

Lemma estimatedBatchCost_pos (r : option string) (n : Z) :
  0 < Queue.estimateCost r * inject_Z (Z.min Queue.MAX_BATCH_COUNT (Z.max 1 n)).
Proof.
  apply Qmult_lt_0_compat; [apply estimateCost_pos |].
  change 0 with (inject_Z 0). rewrite <- Zlt_Qlt.
  unfold Queue.MAX_BATCH_COUNT. lia.
Qed.

Lemma withinLimit_spec P l spent reserved added :
  Queue.withinLimit P l spent reserved added = true <->
  spent + reserved + added < l
  \/ (spent + reserved + added == l /\ sum_rounds_up P spent reserved added = false).
Proof.
  unfold Queue.withinLimit. cbv zeta.
  destruct (Qeq_bool (spent + reserved + added) l) eqn:E.
  - apply Qeq_bool_iff in E.
    destruct (sum_rounds_up P spent reserved added); cbn [negb]; split.
    + discriminate.
    + intros [H | [_ H]]; [lra | discriminate].
    + intros _. right. now split.
    + reflexivity.
  - apply Qeq_bool_neq in E. rewrite Qle_bool_iff. split.
    + intros H. apply Qle_lt_or_eq in H as [H | H]; [now left | contradiction].
    + intros [H | [H _]]; [lra | contradiction].
Qed.

Lemma withinLimit_false P l spent reserved added :
  Queue.withinLimit P l spent reserved added = false <->
  l < spent + reserved + added
  \/ (spent + reserved + added == l /\ sum_rounds_up P spent reserved added = true).
Proof.
  unfold Queue.withinLimit. cbv zeta.
  destruct (Qeq_bool (spent + reserved + added) l) eqn:E.
  - apply Qeq_bool_iff in E.
    destruct (sum_rounds_up P spent reserved added); cbn [negb]; split.
    + intros _. right. now split.
    + reflexivity.
    + discriminate.
    + intros [H | [_ H]]; [lra | discriminate].
  - apply Qeq_bool_neq in E. rewrite Qle_bool_false. split.
    + now left.
    + intros [H | [H _]]; [exact H | contradiction].
Qed.

Lemma assertSingleLimit_throws P label limit spent reserved added message :
  Queue.assertSingleLimit P label limit spent reserved added = inl message <->
  exists l, limit = Some l
            /\ (l < spent + reserved + added
                \/ (spent + reserved + added == l
                    /\ sum_rounds_up P spent reserved added = true))
            /\ message = Queue.spendLimitMessage label l spent reserved added.
Proof.
  unfold Queue.assertSingleLimit. destruct limit as [l |].
  - destruct (Queue.withinLimit P l spent reserved added) eqn:E.
    + split; [discriminate |]. intros (l' & [= <-] & H & _).
      apply withinLimit_false in H. congruence.
    + apply withinLimit_false in E. split.
      * intros [= <-]. eauto.
      * intros (l' & [= <-] & _ & ->). reflexivity.
  - split; [discriminate |]. intros (l & [=] & _).
Qed.

Lemma assertSingleLimit_passes P label limit spent reserved added :
  Queue.assertSingleLimit P label limit spent reserved added = inr tt <->
  (forall l, limit = Some l ->
     spent + reserved + added < l
     \/ (spent + reserved + added == l /\ sum_rounds_up P spent reserved added = false)).
Proof.
  unfold Queue.assertSingleLimit. destruct limit as [l |].
  - destruct (Queue.withinLimit P l spent reserved added) eqn:E.
    + apply withinLimit_spec in E. split; [| reflexivity]. now intros _ l' [= <-].
    + split; [discriminate |]. intros H. specialize (H l eq_refl).
      apply withinLimit_spec in H. congruence.
  - split; [| reflexivity]. intros _ l [=].
Qed.

(** What passes the check is within the ceiling. *)
Lemma assertSingleLimit_within P label limit spent reserved added :
  Queue.assertSingleLimit P label limit spent reserved added = inr tt ->
  forall l, limit = Some l -> spent + reserved + added <= l.
Proof.
  intros H l Hl.
  destruct (proj1 (assertSingleLimit_passes _ _ _ _ _ _) H l Hl) as [Hlt | [Heq _]]; lra.
Qed.

Lemma assertSpendWithinLimits_unfold P (added : Q) excluded q :
  0 < added ->
  Queue.assertSpendWithinLimits P added excluded q
  = match Queue.assertSingleLimit P "Monatslimit"
            (Config.publicMonthlySpendLimitUsd
               (Config.getPublicConfig (decodeApiKey P) (Queue.configStore q)))
            (Db.getSessionCost (one_month_before P) month (Queue.clock q) (Queue.database q))
            (Queue.getReservedQueueCost excluded q) added with
    | inl message => inl message
    | inr _ =>
        Queue.assertSingleLimit P "Gesamtlimit"
          (Config.publicTotalSpendLimitUsd
             (Config.getPublicConfig (decodeApiKey P) (Queue.configStore q)))
          (Db.getSessionCost (one_month_before P) all (Queue.clock q) (Queue.database q))
          (Queue.getReservedQueueCost excluded q) added
    end.
Proof.
  intros Hpos. unfold Queue.assertSpendWithinLimits.
  apply Qle_bool_false in Hpos. now rewrite Hpos.
Qed.
End AdmissionFacts.

(** C1.  Admission control of [enqueue].  With [added] the estimated cost
    of the batch, [reserved] the summed estimate of all pending and
    running jobs and [spent w] the logged spend of window [w] (for the
    monthly ceiling the entries of the usage log that are at most one
    calendar month old, for the total one all entries): the batch is
    rejected when [spent + reserved + added] exceeds a configured ceiling
    and admitted when the sum is below every configured ceiling; a
    ceiling that is unset imposes no limit.  A sum that equals a ceiling
    exactly does not exceed it, yet the batch is rejected when the
    floating-point sum of the machine comes out above the ceiling.  When
    the batch is rejected, [enqueue] throws the message of the check,
    which spells out the limit's label, [spent], [reserved], [added] and
    the limit, and the state is exactly the state before the call. *)
Theorem enqueue_admission (P : Platform) (request : GenerationRequest)
    (q : Queue.GenerationQueue) :
  let batch := Z.min Queue.MAX_BATCH_COUNT (Z.max 1 (default 1 (batchCount request))) in
  let added := (Queue.estimateCost (resolution request) * inject_Z batch)%Q in
  let reserved := Queue.getReservedQueueCost None q in
  let config := Config.getPublicConfig (decodeApiKey P) (Queue.configStore q) in
  let spent w := Db.getSessionCost (one_month_before P) w (Queue.clock q) (Queue.database q) in
  let projected w := (spent w + reserved + added)%Q in
  let roundsUp w := sum_rounds_up P (spent w) reserved added in
  let refused limit w :=
    exists l, limit = Some l
              /\ ((l < projected w)%Q \/ ((projected w == l)%Q /\ roundsUp w = true)) in
  let monthly := Config.publicMonthlySpendLimitUsd config in
  let total := Config.publicTotalSpendLimitUsd config in
  (reserved == sumQ (openJobCosts (Db.queue_jobs (Queue.database q))))%Q
  /\ ((exists message, Queue.assertSpendWithinLimits P added None q = inl message)
      <-> refused monthly month \/ refused total all)
  /\ ((exists l, monthly = Some l /\ (l < projected month)%Q)
      \/ (exists l, total = Some l /\ (l < projected all)%Q) ->
      exists message, Queue.enqueue P request q = (inl message, q))
  /\ ((forall l, monthly = Some l -> (projected month < l)%Q) ->
      (forall l, total = Some l -> (projected all < l)%Q) ->
      Queue.assertSpendWithinLimits P added None q = inr tt)
  /\ (forall message,
        Queue.assertSpendWithinLimits P added None q = inl message ->
        Queue.enqueue P request q = (inl message, q)
        /\ exists label l w,
             message = Queue.spendLimitMessage label l (spent w) reserved added
             /\ (l <= projected w)%Q
             /\ ((label = "Monatslimit" /\ w = month /\ monthly = Some l)
                 \/ (label = "Gesamtlimit" /\ w = all /\ total = Some l)))
  /\ (Queue.assertSpendWithinLimits P added None q = inr tt ->
        Queue.enqueue P request q
        = match Queue.enqueue_loop P (Z.to_nat batch) request [] q with
          | (inl message, q1) => (inl message, q1)
          | (inr queuedJobIds, q1) =>
              (inr queuedJobIds, Queue.kick P (Queue.emit Queue.QueueChanged q1))
          end)
  /\ (monthly = None -> total = None ->
        Queue.assertSpendWithinLimits P added None q = inr tt)
  /\ spent all = sumQ (List.map Db.cost_estimate (Db.usage_log (Queue.database q)))
  /\ spent month
     = sumQ (List.map Db.cost_estimate
               (List.filter
                  (fun entry => one_month_before P (Queue.clock q) <=? Db.created_at entry)
                  (Db.usage_log (Queue.database q)))).
Proof.
  cbv zeta.
  set (batch := Z.min Queue.MAX_BATCH_COUNT (Z.max 1 (default 1 (batchCount request)))).
  set (added := (Queue.estimateCost (resolution request) * inject_Z batch)%Q).
  assert (Hpos : (0 < added)%Q) by apply estimatedBatchCost_pos.
  set (spent := fun w => Db.getSessionCost (one_month_before P) w
                           (Queue.clock q) (Queue.database q)).
  set (reserved := Queue.getReservedQueueCost None q).
  set (config := Config.getPublicConfig (decodeApiKey P) (Queue.configStore q)).
  pose proof (assertSpendWithinLimits_unfold P added None q Hpos) as Hassert.
  fold reserved config in Hassert. fold (spent month) (spent all) in Hassert.
  assert (Hiff : (exists message, Queue.assertSpendWithinLimits P added None q = inl message)
                 <-> (exists l, Config.publicMonthlySpendLimitUsd config = Some l
                        /\ ((l < spent month + reserved + added)%Q
                            \/ ((spent month + reserved + added == l)%Q
                                /\ sum_rounds_up P (spent month) reserved added = true)))
                     \/ (exists l, Config.publicTotalSpendLimitUsd config = Some l
                           /\ ((l < spent all + reserved + added)%Q
                               \/ ((spent all + reserved + added == l)%Q
                                   /\ sum_rounds_up P (spent all) reserved added = true)))).
  { rewrite Hassert. split.
    - intros [message Hm].
      destruct (Queue.assertSingleLimit P "Monatslimit" _ _ _ _) as [m |] eqn:Em.
      + apply assertSingleLimit_throws in Em as (l & Hl & Hcase & _). left. eauto.
      + apply assertSingleLimit_throws in Hm as (l & Hl & Hcase & _). right. eauto.
    - intros [(l & Hl & Hcase) | (l & Hl & Hcase)].
      + destruct (Queue.assertSingleLimit P "Monatslimit" _ _ _ _) as [m | []] eqn:Em;
          [eauto |].
        exfalso. destruct (proj1 (assertSingleLimit_passes _ _ _ _ _ _) Em l Hl)
          as [H | [H H']]; destruct Hcase as [Hc | [Hc Hc']]; try lra; congruence.
      + destruct (Queue.assertSingleLimit P "Monatslimit" _ _ _ _) as [m | []] eqn:Em;
          [eauto |].
        destruct (Queue.assertSingleLimit P "Gesamtlimit" _ _ _ _) as [m | []] eqn:Et;
          [eauto |].
        exfalso. destruct (proj1 (assertSingleLimit_passes _ _ _ _ _ _) Et l Hl)
          as [H | [H H']]; destruct Hcase as [Hc | [Hc Hc']]; try lra; congruence. }
  assert (Hthrown : forall message,
            Queue.assertSpendWithinLimits P added None q = inl message ->
            Queue.enqueue P request q = (inl message, q)
            /\ exists label l w,
                 message = Queue.spendLimitMessage label l (spent w) reserved added
                 /\ (l <= spent w + reserved + added)%Q
                 /\ ((label = "Monatslimit" /\ w = month
                      /\ Config.publicMonthlySpendLimitUsd config = Some l)
                     \/ (label = "Gesamtlimit" /\ w = all
                         /\ Config.publicTotalSpendLimitUsd config = Some l))).
  { intros message Hm. split.
    { unfold Queue.enqueue. fold batch. fold added. now rewrite Hm. }
    rewrite Hassert in Hm.
    destruct (Queue.assertSingleLimit P "Monatslimit" _ _ _ _) as [m |] eqn:Em.
    - injection Hm as <-. apply assertSingleLimit_throws in Em as (l & Hl & Hcase & ->).
      exists "Monatslimit", l, month. split; [reflexivity |].
      split; [destruct Hcase as [H | [H _]]; lra | tauto].
    - apply assertSingleLimit_throws in Hm as (l & Hl & Hcase & ->).
      exists "Gesamtlimit", l, all. split; [reflexivity |].
      split; [destruct Hcase as [H | [H _]]; lra | tauto]. }
  split; [apply getReservedQueueCost_all |]. split; [exact Hiff |].
  split; [| split; [| split; [exact Hthrown | split; [| split; [| split]]]]].
  - intros Habove.
    assert (Hex : exists message, Queue.assertSpendWithinLimits P added None q = inl message).
    { apply Hiff. destruct Habove as [(l & Hl & H) | (l & Hl & H)]; [left | right]; eauto. }
    destruct Hex as [message Hm]. exists message. now apply Hthrown.
  - intros Hmonth Htotal. rewrite Hassert.
    destruct (Queue.assertSingleLimit P "Monatslimit" _ _ _ _) as [m | []] eqn:Em.
    + apply assertSingleLimit_throws in Em as (l & Hl & Hcase & _).
      specialize (Hmonth l Hl). destruct Hcase as [H | [H _]]; lra.
    + apply assertSingleLimit_passes. intros l Hl. left. now apply Htotal.
  - intros Hok. unfold Queue.enqueue. fold batch. fold added. now rewrite Hok.
  - intros Hm Ht. rewrite Hassert, Hm, Ht. reflexivity.
  - subst spent. unfold Db.getSessionCost, sumQ.
    rewrite (List.filter_ext _ (fun _ => true)) by reflexivity.
    now rewrite List.filter_true.
  - reflexivity.
Qed.

(** ** Spend ceilings in the configuration *)

(** C10.  The normalisation of a configured spend ceiling.  Absent,
    [NaN], zero and negative values (and a value so small that the
    machine holds it as zero) become [null]: no limit, also in the
    configuration that the queue reads, whose check then passes whatever
    has been spent.  A positive value becomes the multiple of 0.001
    nearest to the double it is held as, the larger one on a tie; this is
    the ceiling that [getPublicConfig] publishes and that the check of
    the queue compares with: spending above it is refused, spending below
    it is admitted. *)
Theorem normalizeSpendLimit_spec :
  Config.normalizeSpendLimit None = None
  /\ Config.normalizeSpendLimit (Some NaN) = None
  /\ (forall v : Q, (v <= 0)%Q -> Config.normalizeSpendLimit (Some (Num v)) = None)
  /\ (forall v : Q, (0 < binary64 v)%Q ->
        Config.normalizeSpendLimit (Some (Num v)) = Some (toFixed3 v)
        /\ (toFixed3 v * 1000 == inject_Z (thousandths (binary64 v)))%Q
        /\ (binary64 v - (1 # 2000) < toFixed3 v)%Q
        /\ (toFixed3 v <= binary64 v + (1 # 2000))%Q)
  /\ (forall decodeApiKey config,
        let published := Config.getPublicConfig decodeApiKey config in
        (forall v, Config.monthlySpendLimitUsd config = Some (Num v) ->
           ((v <= 0)%Q -> Config.publicMonthlySpendLimitUsd published = None)
           /\ ((0 < binary64 v)%Q ->
               Config.publicMonthlySpendLimitUsd published = Some (toFixed3 v)))
        /\ (forall v, Config.totalSpendLimitUsd config = Some (Num v) ->
              ((v <= 0)%Q -> Config.publicTotalSpendLimitUsd published = None)
              /\ ((0 < binary64 v)%Q ->
                  Config.publicTotalSpendLimitUsd published = Some (toFixed3 v))))
  /\ (forall P q added v,
        (0 < added)%Q ->
        Config.monthlySpendLimitUsd (Queue.configStore q) = None ->
        Config.totalSpendLimitUsd (Queue.configStore q) = Some (Num v) ->
        let projected :=
          (Db.getSessionCost (one_month_before P) all (Queue.clock q) (Queue.database q)
           + Queue.getReservedQueueCost None q + added)%Q in
        ((v <= 0)%Q -> Queue.assertSpendWithinLimits P added None q = inr tt)
        /\ ((0 < binary64 v)%Q ->
            ((toFixed3 v < projected)%Q ->
               exists message, Queue.assertSpendWithinLimits P added None q = inl message)
            /\ ((projected < toFixed3 v)%Q ->
                  Queue.assertSpendWithinLimits P added None q = inr tt)))
  /\ (forall v : Q, (binary64 v <= 0)%Q ->
        Config.normalizeSpendLimit (Some (Num v)) = None).
Proof.
  assert (Hneg : forall v : Q, (v <= 0)%Q -> Config.normalizeSpendLimit (Some (Num v)) = None).
  { intros v Hv. unfold Config.normalizeSpendLimit.
    apply binary64_nonpos, Qle_bool_iff in Hv. now rewrite Hv. }
  assert (Hpos : forall v : Q, (0 < binary64 v)%Q ->
                   Config.normalizeSpendLimit (Some (Num v)) = Some (toFixed3 v)).
  { intros v Hv. unfold Config.normalizeSpendLimit.
    apply Qle_bool_false in Hv. now rewrite Hv. }
  split; [reflexivity |]. split; [reflexivity |]. split; [exact Hneg |].
  split; [| split; [| split]]; cycle 3.
  { intros v Hv. unfold Config.normalizeSpendLimit.
    apply Qle_bool_iff in Hv. now rewrite Hv. }
  - intros v Hv. split; [now apply Hpos |].
    split; [apply toFixed3_thousandths; lra | apply toFixed3_close; lra].
  - intros decodeApiKey config published. subst published.
    cbn [Config.getPublicConfig Config.publicMonthlySpendLimitUsd
           Config.publicTotalSpendLimitUsd].
    split; intros v ->; split; auto.
  - intros P q added v Hadded Hmonth Htotal projected. subst projected.
    rewrite (assertSpendWithinLimits_unfold P added None q Hadded).
    cbn [Config.getPublicConfig Config.publicMonthlySpendLimitUsd
           Config.publicTotalSpendLimitUsd].
    rewrite Hmonth, Htotal. cbn [Config.normalizeSpendLimit Queue.assertSingleLimit].
    split.
    + intros Hv. fold (Config.normalizeSpendLimit (Some (Num v))).
      now rewrite (Hneg v Hv).
    + intros Hv. fold (Config.normalizeSpendLimit (Some (Num v))).
      rewrite (Hpos v Hv). split.
      * intros Habove.
        destruct (Queue.assertSingleLimit P "Gesamtlimit" _ _ _ _) as [m | []] eqn:E;
          [eauto |].
        pose proof (assertSingleLimit_within _ _ _ _ _ _ E _ eq_refl). lra.
      * intros Hbelow. apply assertSingleLimit_passes. intros l [= <-]. now left.
Qed.

(** ** Counting rows under an update by primary key *)

Section CountFacts.
Implicit Types (l : list Db.QueueJob) (row job : Db.QueueJob).

Lemma has_id_true jobId row : Db.has_id jobId row = true <-> Db.id row = jobId.
Proof. unfold Db.has_id. apply String.eqb_eq. Qed.

Lemma has_id_false jobId row : Db.has_id jobId row = false <-> Db.id row <> jobId.
Proof. unfold Db.has_id. apply String.eqb_neq. Qed.

Lemma countRows_cons f row l :
  countRows f (row :: l) = (if f row then 1 else 0) + countRows f l.
Proof.
  unfold countRows. cbn. destruct (f row); cbn [length]; lia.
Qed.

Lemma countRows_nonneg f l : 0 <= countRows f l.
Proof. unfold countRows. lia. Qed.

Lemma countRows_app f l1 l2 :
  countRows f (l1 ++ l2) = countRows f l1 + countRows f l2.
Proof.
  unfold countRows. rewrite List.filter_app, length_app. lia.
Qed.

Lemma update_absent jobId (set : Db.QueueJob -> Db.QueueJob) l :
  jobId ∉ (Db.id <$> l) ->
  List.map (fun r => if Db.has_id jobId r then set r else r) l = l.
Proof.
  induction l as [| r l IH]; cbn; [reflexivity |].
  rewrite not_elem_of_cons. intros [Hne Hl].
  destruct (Db.has_id jobId r) eqn:E.
  - apply has_id_true in E. congruence.
  - now rewrite IH.
Qed.

(** Updating the one row with a given key changes a count by that row. *)
Lemma countRows_update f jobId (set : Db.QueueJob -> Db.QueueJob) l job :
  NoDup (Db.id <$> l) -> In job l -> Db.id job = jobId ->
  countRows f (List.map (fun r => if Db.has_id jobId r then set r else r) l)
  + (if f job then 1 else 0)
  = countRows f l + (if f (set job) then 1 else 0).
Proof.
  intros Hnodup Hin Hid. induction l as [| r l IH]; [destruct Hin |].
  cbn [fmap list_fmap] in Hnodup. apply NoDup_cons in Hnodup as [Hr Hl].
  cbn [List.map]. destruct Hin as [-> | Hin].
  - assert (E : Db.has_id jobId job = true) by now apply has_id_true.
    rewrite E, update_absent by now rewrite <- Hid.
    rewrite !countRows_cons. lia.
  - assert (E : Db.has_id jobId r = false).
    { apply has_id_false. intros Heq. apply Hr. rewrite Heq, <- Hid.
      apply list_elem_of_fmap. exists job. split; [reflexivity |].
      now apply list_elem_of_In. }
    rewrite E, !countRows_cons. specialize (IH Hl Hin). lia.
Qed.

Lemma rowKey_update (matches : Db.QueueJob -> bool) (set : Db.QueueJob -> Db.QueueJob) l :
  (forall r, rowKey (set r) = rowKey r) ->
  rowKey <$> List.map (fun r => if matches r then set r else r) l = rowKey <$> l.
Proof.
  intros Hset. induction l as [| r l IH]; cbn; [reflexivity |].
  f_equal; [| exact IH]. destruct (matches r); [apply Hset | reflexivity].
Qed.

Lemma ids_of_rowKeys l1 l2 :
  rowKey <$> l1 = rowKey <$> l2 -> Db.id <$> l1 = Db.id <$> l2.
Proof.
  intros H.
  assert (Hid : forall l, Db.id <$> l = (fun k => fst (fst (fst k))) <$> (rowKey <$> l)).
  { intros l. rewrite <- list_fmap_compose. reflexivity. }
  now rewrite (Hid l1), (Hid l2), H.
Qed.

Lemma getNextPendingJob_In db job :
  Db.getNextPendingJob db = Some job ->
  In job (Db.queue_jobs db) /\ Db.status job = pending.
Proof.
  unfold Db.getNextPendingJob. intros H.
  assert (Hel : job ∈ merge_sort Db.dispatch_order
                        (List.filter Db.is_pending (Db.queue_jobs db))).
  { destruct (merge_sort _ _) as [| x l]; [discriminate |].
    injection H as ->. apply list_elem_of_here. }
  rewrite merge_sort_Permutation in Hel. apply list_elem_of_In in Hel.
  apply List.filter_In in Hel as [Hin Hp]. split; [exact Hin |].
  now apply is_pending_iff.
Qed.

Lemma getNextPendingJob_None db :
  Db.getNextPendingJob db = None <->
  List.filter Db.is_pending (Db.queue_jobs db) = [].
Proof.
  unfold Db.getNextPendingJob. split.
  - intros H. destruct (merge_sort _ _) as [| x l] eqn:E; [| discriminate].
    apply Permutation_nil_r. rewrite <- E. symmetry. apply merge_sort_Permutation.
  - intros ->. reflexivity.
Qed.

Lemma getQueueJobById_In jobId db job :
  Db.getQueueJobById jobId db = Some job ->
  In job (Db.queue_jobs db) /\ Db.id job = jobId.
Proof.
  unfold Db.getQueueJobById. intros H. apply List.find_some in H as [Hin Hid].
  split; [exact Hin | now apply has_id_true].
Qed.
End CountFacts.

(** ** The dispatch loop *)

Section KickFacts.
Variable P : Platform.
Implicit Types (q : Queue.GenerationQueue) (job : Db.QueueJob).

Lemma sameFrame_refl q : sameFrame q q.
Proof. unfold sameFrame. tauto. Qed.

Lemma sameFrame_trans q1 q2 q3 : sameFrame q1 q2 -> sameFrame q2 q3 -> sameFrame q1 q3.
Proof.
  unfold sameFrame. intros (H1 & H2 & H3 & H4 & H5 & H6 & H7) (G1 & G2 & G3 & G4 & G5 & G6 & G7).
  repeat split; congruence.
Qed.

Lemma pendingCount_countRows q :
  Z.of_nat (pendingCount q) = countRows Db.is_pending (rows q).
Proof. reflexivity. Qed.

Lemma wellFormed_activeRuns_nonneg q : wellFormed q -> 0 <= Queue.activeRuns q.
Proof. intros [_ <-]. apply countRows_nonneg. Qed.

Lemma mark_rows (set : Db.QueueJob -> Db.QueueJob) jobId (l : list Db.QueueJob) job :
  (forall r, rowKey (set r) = rowKey r) ->
  NoDup (Db.id <$> l) -> In job l -> Db.id job = jobId ->
  let l' := List.map (fun r => if Db.has_id jobId r then set r else r) l in
  NoDup (Db.id <$> l') /\ rowKey <$> l' = rowKey <$> l /\ In (set job) l'
  /\ forall f, countRows f l' = countRows f l + Z.b2z (f (set job)) - Z.b2z (f job).
Proof.
  intros Hset Hnodup Hin Hid l'.
  assert (Hkeys : rowKey <$> l' = rowKey <$> l) by now apply rowKey_update.
  split; [now rewrite (ids_of_rowKeys _ _ Hkeys) |]. split; [exact Hkeys |]. split.
  - apply in_map_iff. exists job. split; [| exact Hin].
    assert (E : Db.has_id jobId job = true) by now apply has_id_true.
    now rewrite E.
  - intros f. pose proof (countRows_update f jobId set l job Hnodup Hin Hid) as H.
    fold l' in H. destruct (f job), (f (set job)); cbn [Z.b2z]; lia.
Qed.

(** A state that differs from [q] by the status update [set] of the row
    [job] and by the matching change of the in-flight counter. *)
Lemma restatus q q' job (set : Db.QueueJob -> Db.QueueJob) :
  wellFormed q -> In job (rows q) ->
  (forall r, rowKey (set r) = rowKey r) ->
  rows q' = List.map (fun r => if Db.has_id (Db.id job) r then set r else r) (rows q) ->
  Queue.activeRuns q'
  = Queue.activeRuns q + Z.b2z (Db.is_running (set job)) - Z.b2z (Db.is_running job) ->
  Db.usage_log (Queue.database q') = Db.usage_log (Queue.database q) ->
  Queue.configStore q' = Queue.configStore q ->
  Queue.paused q' = Queue.paused q ->
  Queue.concurrency q' = Queue.concurrency q ->
  Queue.clock q' = Queue.clock q ->
  Queue.drawn q' = Queue.drawn q ->
  wellFormed q' /\ sameFrame q q' /\ In (set job) (rows q')
  /\ Z.of_nat (pendingCount q')
     = Z.of_nat (pendingCount q) + Z.b2z (Db.is_pending (set job))
       - Z.b2z (Db.is_pending job).
Proof.
  intros [Hnodup Hcount] Hin Hset Hrows Hactive Hlog Hcfg Hpaused Hconc Hclock Hdrawn.
  destruct (mark_rows set (Db.id job) (rows q) job Hset Hnodup Hin eq_refl)
    as (Hnodup' & Hkeys & Hin' & Hcounts).
  rewrite <- Hrows in Hnodup', Hkeys, Hin', Hcounts.
  split; [split |]; [exact Hnodup' | | split; [| split]].
  - unfold runningCount in *. rewrite Hcounts, Hactive. lia.
  - unfold sameFrame. tauto.
  - exact Hin'.
  - rewrite !pendingCount_countRows. apply Hcounts.
Qed.

(** Marking a pending job running. *)
Lemma start_job q job :
  wellFormed q -> In job (rows q) -> Db.status job = pending ->
  let q3 := Queue.emit Queue.QueueChanged
              (Queue.with_database
                 (Db.markQueueJobRunning (Queue.clock q) (Db.id job) (Queue.database q))
                 (Queue.with_activeRuns (Queue.activeRuns q + 1) q)) in
  wellFormed q3 /\ sameFrame q q3
  /\ Queue.activeRuns q3 = Queue.activeRuns q + 1
  /\ (S (pendingCount q3) = pendingCount q)%nat
  /\ exists job', In job' (rows q3) /\ Db.id job' = Db.id job /\ Db.status job' = running
                  /\ Db.request job' = Db.request job.
Proof.
  intros Hwf Hin Hstatus q3.
  assert (Hr : Db.is_running job = false) by (unfold Db.is_running; now rewrite Hstatus).
  assert (Hp : Db.is_pending job = true) by (unfold Db.is_pending; now rewrite Hstatus).
  edestruct (restatus q q3 job) as (Hwf' & Hframe & Hin' & Hpend);
    [exact Hwf | exact Hin | | reflexivity | | reflexivity .. |].
  - reflexivity.
  - rewrite Hr. cbn. lia.
  - split; [exact Hwf' |]. split; [exact Hframe |]. split; [reflexivity |].
    split; [rewrite Hp in Hpend; cbn -[pendingCount] in Hpend; lia |].
    eexists. split; [exact Hin' |]. cbn. tauto.
Qed.

(** Marking a job that is not pending failed, and giving its slot back. *)
Lemma fail_job q job message :
  wellFormed q -> In job (rows q) -> Db.is_pending job = false ->
  let q5 := Queue.emit Queue.QueueChanged
              (Queue.with_activeRuns
                 (Z.max 0 (Queue.activeRuns q - Z.b2z (Db.is_running job)))
                 (Queue.runJob_catch job message q)) in
  wellFormed q5 /\ sameFrame q q5
  /\ Queue.activeRuns q5 = Queue.activeRuns q - Z.b2z (Db.is_running job)
  /\ pendingCount q5 = pendingCount q.
Proof.
  intros Hwf Hin Hp q5.
  assert (Hge : Z.b2z (Db.is_running job) <= Queue.activeRuns q).
  { destruct Hwf as [Hnodup <-]. unfold runningCount.
    apply List.in_split in Hin as (l1 & l2 & ->).
    rewrite countRows_app, countRows_cons.
    pose proof (countRows_nonneg Db.is_running l1).
    pose proof (countRows_nonneg Db.is_running l2).
    destruct (Db.is_running job); cbn; lia. }
  assert (H0 : 0 <= Z.b2z (Db.is_running job)) by (destruct (Db.is_running job); cbn; lia).
  edestruct (restatus q q5 job) as (Hwf' & Hframe & Hin' & Hpend);
    [exact Hwf | exact Hin | | reflexivity | | reflexivity .. |].
  - reflexivity.
  - cbn. lia.
  - split; [exact Hwf' |]. split; [exact Hframe |]. split; [cbn; lia |].
    rewrite Hp in Hpend. cbn -[pendingCount] in Hpend. lia.
Qed.
Lemma runJob_catch_id job job' message q :
  Db.id job = Db.id job' ->
  Queue.runJob_catch job message q = Queue.runJob_catch job' message q.
Proof. unfold Queue.runJob_catch. now intros ->. Qed.

Lemma runJob_dispatched (kick' : Queue.GenerationQueue -> Queue.GenerationQueue) job q :
  (forall q0, wellFormed q0 -> dispatched q0 (kick' q0)) ->
  wellFormed q -> Db.getNextPendingJob (Queue.database q) = Some job ->
  let q' := Queue.runJob P kick' job q in
  wellFormed q' /\ sameFrame q q'
  /\ Queue.activeRuns q' <= Z.max (Queue.activeRuns q + 1) (Queue.concurrency q)
  /\ (pendingCount q' < pendingCount q)%nat.
Proof.
  intros Hkick Hwf Hnext q'. subst q'.
  apply getNextPendingJob_In in Hnext as [Hin Hstatus].
  pose proof (start_job q job Hwf Hin Hstatus) as Hs. cbv zeta in Hs.
  unfold Queue.runJob. cbv zeta.
  set (q3 := Queue.emit Queue.QueueChanged _) in *.
  change (Queue.emit Queue.QueueChanged _) with q3 in Hs.
  destruct Hs as (Hwf3 & Hframe3 & Hact3 & Hpend3 & job' & Hin' & Hid' & Hst' & _).
  destruct (Queue.runJob_checks P job q3) as [message | cost].
  - rewrite (runJob_catch_id job job' message q3) by (symmetry; exact Hid').
    assert (Hp' : Db.is_pending job' = false)
      by (unfold Db.is_pending; now rewrite Hst').
    assert (Hr' : Db.is_running job' = true)
      by (unfold Db.is_running; now rewrite Hst').
    pose proof (fail_job q3 job' message Hwf3 Hin' Hp') as Hf. cbv zeta in Hf.
    rewrite Hr' in Hf. cbn [Z.b2z] in Hf.
    unfold Queue.runJob_finally.
    set (q5 := Queue.emit Queue.QueueChanged (Queue.with_activeRuns _ _)).
    change (Queue.emit Queue.QueueChanged (Queue.with_activeRuns _ _)) with q5 in Hf.
    destruct Hf as (Hwf5 & Hframe5 & Hact5 & Hpend5).
    destruct (Hkick q5 Hwf5) as (Hwf' & Hframe' & Hact' & Hpend').
    split; [exact Hwf' |]. split.
    + eapply sameFrame_trans; [exact Hframe3 |].
      eapply sameFrame_trans; [exact Hframe5 | exact Hframe'].
    + destruct Hframe3 as (_ & _ & _ & _ & Hc3 & _).
      destruct Hframe5 as (_ & _ & _ & _ & Hc5 & _).
      split; lia.
  - split; [exact Hwf3 |]. split; [exact Hframe3 |]. split; lia.
Qed.

Lemma kick_fuel_dispatched (fuel : nat) q :
  wellFormed q -> dispatched q (Queue.kick_fuel P fuel q).
Proof.
  revert q. induction fuel as [| fuel IH]; intros q Hwf.
  - cbn. unfold dispatched. split; [exact Hwf |]. split; [apply sameFrame_refl |]. lia.
  - assert (Hstay : dispatched q q).
    { unfold dispatched. split; [exact Hwf |]. split; [apply sameFrame_refl |]. lia. }
    cbn [Queue.kick_fuel]. destruct (Queue.paused q); [exact Hstay |].
    destruct (Queue.activeRuns q <? Queue.concurrency q) eqn:Hlt; [| exact Hstay].
    apply Z.ltb_lt in Hlt.
    destruct (Db.getNextPendingJob (Queue.database q)) as [job |] eqn:Hnext;
      [| exact Hstay].
    destruct (runJob_dispatched (Queue.kick_fuel P fuel) job q IH Hwf Hnext)
      as (Hwf1 & Hframe1 & Hact1 & Hpend1).
    destruct (IH _ Hwf1) as (Hwf2 & Hframe2 & Hact2 & Hpend2).
    split; [exact Hwf2 |]. split; [eapply sameFrame_trans; eassumption |].
    destruct Hframe1 as (_ & _ & _ & _ & Hc1 & _).
    split; lia.
Qed.

Lemma kick_dispatched q : wellFormed q -> dispatched q (Queue.kick P q).
Proof. apply kick_fuel_dispatched. Qed.

(** With more fuel than pending jobs the loop runs to its end. *)
Lemma kick_fuel_quiescent (fuel : nat) q :
  wellFormed q -> (pendingCount q < fuel)%nat -> quiescent (Queue.kick_fuel P fuel q).
Proof.
  revert q. induction fuel as [| fuel IH]; intros q Hwf Hfuel; [lia |].
  cbn [Queue.kick_fuel]. destruct (Queue.paused q) eqn:Hpaused; [now left |].
  destruct (Queue.activeRuns q <? Queue.concurrency q) eqn:Hlt;
    [| right; left; apply Z.ltb_ge in Hlt; exact Hlt].
  destruct (Db.getNextPendingJob (Queue.database q)) as [job |] eqn:Hnext;
    [| right; right; exact Hnext].
  destruct (runJob_dispatched (Queue.kick_fuel P fuel) job q
              (kick_fuel_dispatched fuel) Hwf Hnext) as (Hwf1 & _ & _ & Hpend1).
  apply IH; [exact Hwf1 | lia].
Qed.

Lemma kick_fuel_enough (n m : nat) q :
  wellFormed q -> (pendingCount q < n)%nat -> (pendingCount q < m)%nat ->
  Queue.kick_fuel P n q = Queue.kick_fuel P m q.
Proof.
  revert m q. induction n as [| n IH]; intros m q Hwf Hn Hm; [lia |].
  destruct m as [| m]; [lia |].
  cbn [Queue.kick_fuel]. destruct (Queue.paused q); [reflexivity |].
  destruct (Queue.activeRuns q <? Queue.concurrency q); [| reflexivity].
  destruct (Db.getNextPendingJob (Queue.database q)) as [job |] eqn:Hnext;
    [| reflexivity].
  destruct (runJob_dispatched (Queue.kick_fuel P m) job q
              (kick_fuel_dispatched m) Hwf Hnext) as (Hwf1 & _ & _ & Hpend1).
  assert (Hsame : Queue.runJob P (Queue.kick_fuel P n) job q
                  = Queue.runJob P (Queue.kick_fuel P m) job q).
  { apply getNextPendingJob_In in Hnext as [Hin Hstatus].
    pose proof (start_job q job Hwf Hin Hstatus) as Hs. cbv zeta in Hs.
    unfold Queue.runJob. cbv zeta.
    set (q3 := Queue.emit Queue.QueueChanged _) in *.
    change (Queue.emit Queue.QueueChanged _) with q3 in Hs.
    destruct Hs as (Hwf3 & _ & _ & Hpend3 & job' & Hin' & Hid' & Hst' & _).
    destruct (Queue.runJob_checks P job q3) as [message | cost]; [| reflexivity].
    rewrite (runJob_catch_id job job' message q3) by (symmetry; exact Hid').
    assert (Hp' : Db.is_pending job' = false)
      by (unfold Db.is_pending; now rewrite Hst').
    assert (Hr' : Db.is_running job' = true)
      by (unfold Db.is_running; now rewrite Hst').
    pose proof (fail_job q3 job' message Hwf3 Hin' Hp') as Hf. cbv zeta in Hf.
    rewrite Hr' in Hf. cbn [Z.b2z] in Hf.
    unfold Queue.runJob_finally.
    set (q5 := Queue.emit Queue.QueueChanged (Queue.with_activeRuns _ _)).
    change (Queue.emit Queue.QueueChanged (Queue.with_activeRuns _ _)) with q5 in Hf.
    destruct Hf as (Hwf5 & _ & _ & Hpend5).
    apply IH; [exact Hwf5 | lia | lia]. }
  rewrite Hsame. apply IH; [exact Hwf1 | lia | lia].
Qed.

Lemma pendingCount_le_rows q : (pendingCount q <= length (rows q))%nat.
Proof. unfold pendingCount. apply List.filter_length_le. Qed.

(** [kick] has fuel enough: more fuel changes nothing, and the state it
    returns leaves the loop nothing to do. *)
Lemma kick_total q :
  wellFormed q ->
  quiescent (Queue.kick P q)
  /\ forall fuel, (length (rows q) < fuel)%nat -> Queue.kick_fuel P fuel q = Queue.kick P q.
Proof.
  intros Hwf. pose proof (pendingCount_le_rows q) as Hle. split.
  - apply kick_fuel_quiescent; [exact Hwf |]. unfold rows in Hle. lia.
  - intros fuel Hfuel. apply kick_fuel_enough; [exact Hwf | lia |].
    unfold rows in Hle. lia.
Qed.

End KickFacts.

(** ** Inserting the jobs of a batch *)

Section EnqueueFacts.
Variable P : Platform.
Implicit Types (q : Queue.GenerationQueue) (job : Db.QueueJob).

Lemma existsb_has_id jobId (l : list Db.QueueJob) :
  existsb (Db.has_id jobId) l = false <-> jobId ∉ (Db.id <$> l).
Proof.
  induction l as [| r l IH]; cbn.
  - split; [intros _; apply not_elem_of_nil | reflexivity].
  - rewrite orb_false_iff, IH, not_elem_of_cons, has_id_false. intuition congruence.
Qed.

Lemma insert_pending q jobId request db :
  Db.insertQueueJob (Queue.clock q) jobId pending (with_batchCount request 1) 0
    (Queue.database q) = inr db ->
  (jobId ∉ (Db.id <$> rows q))
  /\ Db.queue_jobs db = rows q ++ [pendingJob (Queue.clock q) request jobId]
  /\ Db.usage_log db = Db.usage_log (Queue.database q).
Proof.
  unfold Db.insertQueueJob.
  destruct (existsb (Db.has_id jobId) (Db.queue_jobs (Queue.database q))) eqn:E;
    [discriminate |].
  intros [= <-]. split; [now apply existsb_has_id | split; reflexivity].
Qed.

Lemma wellFormed_insert q q' jobId request :
  wellFormed q -> jobId ∉ (Db.id <$> rows q) ->
  rows q' = rows q ++ [pendingJob (Queue.clock q) request jobId] ->
  Queue.activeRuns q' = Queue.activeRuns q ->
  wellFormed q'.
Proof.
  intros [Hnodup Hcount] Hfresh Hrows Hact. split.
  - rewrite Hrows, fmap_app. apply NoDup_app. split; [exact Hnodup |]. split.
    + intros x Hx Hx'. cbn in Hx'. apply list_elem_of_singleton in Hx'. now subst.
    + cbn. apply NoDup_singleton.
  - unfold runningCount. rewrite Hrows, countRows_app, Hact, <- Hcount.
    unfold runningCount. change (countRows Db.is_running [_]) with 0. lia.
Qed.

(** Whatever the identifiers, the loop keeps the table well formed and
    does not touch the scheduler's own fields. *)
Lemma enqueue_loop_wellFormed (n : nat) request ids q :
  wellFormed q ->
  let q' := snd (Queue.enqueue_loop P n request ids q) in
  wellFormed q'
  /\ Queue.activeRuns q' = Queue.activeRuns q
  /\ Queue.concurrency q' = Queue.concurrency q
  /\ Queue.paused q' = Queue.paused q.
Proof.
  revert ids q. induction n as [| n IH]; intros ids q Hwf; cbn [Queue.enqueue_loop].
  - cbn. tauto.
  - destruct (Db.insertQueueJob _ _ _ _ _ _) as [message | db] eqn:E; cbn [snd].
    + split; [| cbn; tauto]. destruct Hwf as [H1 H2]. split; [exact H1 | exact H2].
    + apply (insert_pending (Queue.draw q)) in E as (Hfresh & Hrows & _).
      set (q1 := Queue.with_database db (Queue.draw q)).
      assert (Hwf1 : wellFormed q1).
      { apply (wellFormed_insert q q1 (uuidv4 P (Queue.drawn q)) request);
          [exact Hwf | exact Hfresh | exact Hrows | reflexivity]. }
      destruct (IH (ids ++ [uuidv4 P (Queue.drawn q)]) q1 Hwf1) as (H1 & H2 & H3 & H4).
      cbn zeta in *. split; [exact H1 |]. cbn in *. repeat split; congruence.
Qed.

(** With fresh identifiers every insert succeeds. *)
Lemma enqueue_loop_fresh (n : nat) request ids q :
  NoDup (nextIds P q n) ->
  (forall x, x ∈ nextIds P q n -> x ∉ (Db.id <$> rows q)) ->
  let result := Queue.enqueue_loop P n request ids q in
  fst result = inr (ids ++ nextIds P q n)
  /\ rows (snd result)
     = rows q ++ (pendingJob (Queue.clock q) request <$> nextIds P q n)
  /\ Db.usage_log (Queue.database (snd result)) = Db.usage_log (Queue.database q)
  /\ Queue.drawn (snd result) = (Queue.drawn q + n)%nat
  /\ Queue.clock (snd result) = Queue.clock q
  /\ Queue.configStore (snd result) = Queue.configStore q
  /\ Queue.emitted (snd result) = Queue.emitted q.
Proof.
  revert ids q. induction n as [| n IH]; intros ids q Hnodup Hfresh;
    cbn [Queue.enqueue_loop].
  - cbn. rewrite !app_nil_r. repeat split; lia.
  - unfold nextIds in Hnodup, Hfresh. cbn [seq fmap list_fmap] in Hnodup, Hfresh.
    apply NoDup_cons in Hnodup as [Hhead Htail].
    set (jobId := uuidv4 P (Queue.drawn q)) in *.
    assert (Hnew : jobId ∉ (Db.id <$> rows q)) by (apply Hfresh; left).
    unfold Db.insertQueueJob. cbn [Queue.draw Queue.database Queue.clock].
    apply existsb_has_id in Hnew as Hex. unfold rows in Hex. rewrite Hex.
    set (q1 := Queue.with_database _ (Queue.draw q)).
    destruct (IH (ids ++ [jobId]) q1) as (H1 & H2 & H3 & H4 & H5 & H6 & H7).
    + exact Htail.
    + intros x Hx. unfold q1, rows. cbn. rewrite fmap_app, not_elem_of_app. split.
      * apply Hfresh. now right.
      * cbn. intros Hx'. apply list_elem_of_singleton in Hx'. subst x. contradiction.
    + cbn zeta in *. unfold nextIds in *. cbn [seq fmap list_fmap].
      change (Queue.drawn q1) with (S (Queue.drawn q)) in *.
      split; [rewrite H1, <- app_assoc; reflexivity |].
      split; [rewrite H2; unfold q1, rows; cbn; rewrite <- app_assoc; reflexivity |].
      split; [rewrite H3; reflexivity |].
      split; [lia |]. split; [rewrite H5; reflexivity |].
      split; [rewrite H6 | rewrite H7]; reflexivity.
Qed.
End EnqueueFacts.

Section FrameFacts.
Variable P : Platform.
Implicit Types (q : Queue.GenerationQueue) (job : Db.QueueJob).

Lemma sameFrame_mark q q' (matches : Db.QueueJob -> bool) (set : Db.QueueJob -> Db.QueueJob) :
  (forall r, rowKey (set r) = rowKey r) ->
  rows q' = List.map (fun r => if matches r then set r else r) (rows q) ->
  Db.usage_log (Queue.database q') = Db.usage_log (Queue.database q) ->
  Queue.configStore q' = Queue.configStore q ->
  Queue.paused q' = Queue.paused q ->
  Queue.concurrency q' = Queue.concurrency q ->
  Queue.clock q' = Queue.clock q ->
  Queue.drawn q' = Queue.drawn q ->
  sameFrame q q'.
Proof.
  intros Hset Hrows. unfold sameFrame. rewrite Hrows, rowKey_update by exact Hset. tauto.
Qed.

Lemma runJob_sameFrame (kick' : Queue.GenerationQueue -> Queue.GenerationQueue) job q :
  (forall q0, sameFrame q0 (kick' q0)) ->
  sameFrame q (Queue.runJob P kick' job q).
Proof.
  intros Hkick. unfold Queue.runJob. cbv zeta.
  set (q3 := Queue.emit Queue.QueueChanged _).
  assert (H3 : sameFrame q q3) by (eapply sameFrame_mark; cycle 1; reflexivity).
  destruct (Queue.runJob_checks P job q3) as [message | cost]; [| exact H3].
  unfold Queue.runJob_finally.
  set (q5 := Queue.emit Queue.QueueChanged (Queue.with_activeRuns _ _)).
  assert (H5 : sameFrame q3 q5) by (eapply sameFrame_mark; cycle 1; reflexivity).
  eapply sameFrame_trans; [exact H3 |]. eapply sameFrame_trans; [exact H5 | apply Hkick].
Qed.

Lemma kick_fuel_sameFrame (fuel : nat) q : sameFrame q (Queue.kick_fuel P fuel q).
Proof.
  revert q. induction fuel as [| fuel IH]; intros q; [apply sameFrame_refl |].
  cbn [Queue.kick_fuel]. destruct (Queue.paused q); [apply sameFrame_refl |].
  destruct (Queue.activeRuns q <? Queue.concurrency q); [| apply sameFrame_refl].
  destruct (Db.getNextPendingJob (Queue.database q)) as [job |]; [| apply sameFrame_refl].
  eapply sameFrame_trans; [apply (runJob_sameFrame _ job q IH) | apply IH].
Qed.

Lemma kick_sameFrame q : sameFrame q (Queue.kick P q).
Proof. apply kick_fuel_sameFrame. Qed.
End FrameFacts.

(** C7.  The batch count is normalised into 1..4.  When admission control
    lets the batch pass and [uuidv4] returns fresh identifiers, [enqueue]
    appends exactly that many rows to the table, each pending when it is
    inserted and each storing the request with [batchCount] set to 1, and
    returns their identifiers in the order of insertion; the dispatch that
    follows changes neither the number of rows nor what they store. *)
Theorem enqueue_creates_batch (P : Platform) (request : GenerationRequest)
    (q : Queue.GenerationQueue) :
  let batch := Z.min Queue.MAX_BATCH_COUNT (Z.max 1 (default 1 (batchCount request))) in
  let added := (Queue.estimateCost (resolution request) * inject_Z batch)%Q in
  let ids := nextIds P q (Z.to_nat batch) in
  1 <= batch <= 4
  /\ (forall n, batchCount request = Some n -> 1 <= n <= 4 -> batch = n)
  /\ (batchCount request = None -> batch = 1)
  /\ Z.of_nat (length ids) = batch
  /\ (Queue.assertSpendWithinLimits P added None q = inr tt ->
      NoDup ids ->
      (forall x, x ∈ ids -> x ∉ (Db.id <$> rows q)) ->
      exists q1,
        Queue.enqueue P request q
        = (inr ids, Queue.kick P (Queue.emit Queue.QueueChanged q1))
        /\ rows q1 = rows q ++ (pendingJob (Queue.clock q) request <$> ids)
        /\ (forall job, job ∈ (pendingJob (Queue.clock q) request <$> ids) ->
              Db.status job = pending
              /\ Db.request job = with_batchCount request 1
              /\ batchCount (Db.request job) = Some 1)
        /\ Db.id <$> (pendingJob (Queue.clock q) request <$> ids) = ids
        /\ rowKey <$> rows (snd (Queue.enqueue P request q))
           = rowKey <$> (rows q ++ (pendingJob (Queue.clock q) request <$> ids))
        /\ length (rows (snd (Queue.enqueue P request q)))
           = (length (rows q) + Z.to_nat batch)%nat).
Proof.
  cbn zeta.
  set (batch := Z.min Queue.MAX_BATCH_COUNT (Z.max 1 (default 1 (batchCount request)))).
  set (ids := nextIds P q (Z.to_nat batch)).
  assert (Hbatch : 1 <= batch <= 4) by (unfold batch, Queue.MAX_BATCH_COUNT; lia).
  assert (Hlen : length ids = Z.to_nat batch).
  { unfold ids, nextIds. now rewrite length_fmap, length_seq. }
  split; [exact Hbatch |]. split; [| split; [| split]].
  - intros n Hn Hrange. unfold batch, Queue.MAX_BATCH_COUNT. rewrite Hn. cbn. lia.
  - intros Hn. unfold batch. rewrite Hn. reflexivity.
  - rewrite Hlen. lia.
  - intros Hok Hnodup Hfresh.
    destruct (enqueue_loop_fresh P (Z.to_nat batch) request [] q Hnodup Hfresh)
      as (Hres & Hrows & _).
    cbn zeta in Hres, Hrows. fold ids in Hres, Hrows.
    destruct (Queue.enqueue_loop P (Z.to_nat batch) request [] q) as [res q1] eqn:Eloop.
    cbn [fst snd] in Hres, Hrows. subst res.
    assert (Henq : Queue.enqueue P request q
                   = (inr ids, Queue.kick P (Queue.emit Queue.QueueChanged q1))).
    { unfold Queue.enqueue. fold batch. rewrite Hok, Eloop. reflexivity. }
    assert (Hkeys : rowKey <$> rows (Queue.kick P (Queue.emit Queue.QueueChanged q1))
                    = rowKey <$> rows q1).
    { destruct (kick_sameFrame P (Queue.emit Queue.QueueChanged q1)) as [Hk _].
      exact Hk. }
    exists q1. split; [exact Henq |]. split; [exact Hrows |].
    split; [| split; [| split]].
    + intros job Hjob. apply list_elem_of_fmap in Hjob as (x & -> & _). cbn. tauto.
    + rewrite <- list_fmap_compose. cbn. apply list_fmap_id.
    + rewrite Henq. cbn [snd]. rewrite Hkeys, Hrows. reflexivity.
    + rewrite Henq. cbn [snd].
      rewrite <- (length_fmap rowKey), Hkeys, length_fmap, Hrows, length_app,
        length_fmap, Hlen.
      reflexivity.
Qed.

(** ** Completion of a job *)

Section SettleFacts.
Variable P : Platform.
Implicit Types (q : Queue.GenerationQueue) (job : Db.QueueJob).

(** A running job leaves the running state and gives its slot back. *)
Lemma finish_rows q q'' job (set : Db.QueueJob -> Db.QueueJob) :
  wellFormed q -> In job (rows q) -> Db.status job = running ->
  (forall r, rowKey (set r) = rowKey r) ->
  Db.is_running (set job) = false ->
  rows q'' = List.map (fun r => if Db.has_id (Db.id job) r then set r else r) (rows q) ->
  Queue.activeRuns q'' = Z.max 0 (Queue.activeRuns q - 1) ->
  wellFormed q'' /\ Queue.activeRuns q'' = Queue.activeRuns q - 1
  /\ In (set job) (rows q'') /\ 1 <= Queue.activeRuns q.
Proof.
  intros [Hnodup Hcount] Hin Hstatus Hset Hdone Hrows Hact.
  destruct (mark_rows set (Db.id job) (rows q) job Hset Hnodup Hin eq_refl)
    as (Hnodup' & _ & Hin' & Hcounts).
  rewrite <- Hrows in Hnodup', Hin', Hcounts.
  specialize (Hcounts Db.is_running). rewrite Hdone in Hcounts.
  assert (Hr : Db.is_running job = true) by (unfold Db.is_running; now rewrite Hstatus).
  rewrite Hr in Hcounts. cbn [Z.b2z] in Hcounts.
  pose proof (countRows_nonneg Db.is_running (rows q'')) as Hge.
  unfold runningCount in Hcount.
  split; [split; [exact Hnodup' | unfold runningCount; lia] |].
  split; [lia |]. split; [exact Hin' | lia].
Qed.

Lemma resume_job q job outcome :
  wellFormed q -> In job (rows q) -> Db.status job = running ->
  exists q'',
    Queue.runJob_resume P job outcome q = Queue.kick P q''
    /\ wellFormed q''
    /\ Queue.activeRuns q'' = Queue.activeRuns q - 1
    /\ Queue.concurrency q'' = Queue.concurrency q
    /\ Queue.paused q'' = Queue.paused q
    /\ 1 <= Queue.activeRuns q
    /\ exists job', In job' (rows q'') /\ Db.id job' = Db.id job
                    /\ (Db.status job' = completed \/ Db.status job' = failed).
Proof.
  intros Hwf Hin Hstatus. unfold Queue.runJob_resume, Queue.runJob_finally.
  eexists. split; [reflexivity |].
  set (q'' := Queue.emit Queue.QueueChanged (Queue.with_activeRuns _ _)).
  destruct outcome as [imageId usage | message].
  - destruct (Db.insertUsageLog _ _ _ _ _ _ _ _) as [message | db] eqn:Elog.
    + edestruct (finish_rows q q'' job
                   (fun row =>
                      {| Db.id := Db.id row; Db.status := failed;
                         Db.request := Db.request row; Db.resultId := Some imageId;
                         Db.error := Some message; Db.priority := Db.priority row;
                         Db.createdAt := Db.createdAt row;
                         Db.startedAt := Db.startedAt row;
                         Db.completedAt := Some (Queue.clock q) |}))
        as (Hwf'' & Hact & Hin' & Hge);
        [exact Hwf | exact Hin | exact Hstatus | reflexivity | reflexivity | | reflexivity |].
      * unfold q'', rows. cbn. rewrite List.map_map. apply List.map_ext.
        intros r. unfold Db.has_id. cbn.
        destruct (String.eqb (Db.id r) (Db.id job)) eqn:E; cbn; rewrite E; reflexivity.
      * repeat (split; [first [exact Hwf'' | exact Hact | exact Hge | reflexivity] |]).
        eexists. split; [exact Hin' |]. cbn. tauto.
    + unfold Db.insertUsageLog in Elog.
      destruct (existsb _ _) in Elog; [discriminate |]. injection Elog as <-.
      edestruct (finish_rows q q'' job) as (Hwf'' & Hact & Hin' & Hge);
        [exact Hwf | exact Hin | exact Hstatus | | |  reflexivity | reflexivity |];
        [reflexivity | reflexivity |].
      repeat (split; [first [exact Hwf'' | exact Hact | exact Hge | reflexivity] |]).
      eexists. split; [exact Hin' |]. cbn. tauto.
  - edestruct (finish_rows q q'' job) as (Hwf'' & Hact & Hin' & Hge);
      [exact Hwf | exact Hin | exact Hstatus | | | reflexivity | reflexivity |];
      [reflexivity | reflexivity |].
    repeat (split; [first [exact Hwf'' | exact Hact | exact Hge | reflexivity] |]).
    eexists. split; [exact Hin' |]. cbn. tauto.
Qed.
End SettleFacts.

(** ** Every event keeps the scheduler well formed *)

Section StepFacts.
Variable P : Platform.
Implicit Types (q : Queue.GenerationQueue) (job : Db.QueueJob).

Lemma countRows_update_same f (matches : Db.QueueJob -> bool)
    (set : Db.QueueJob -> Db.QueueJob) (l : list Db.QueueJob) :
  (forall r, matches r = true -> f (set r) = f r) ->
  countRows f (List.map (fun r => if matches r then set r else r) l) = countRows f l.
Proof.
  intros Hsame. induction l as [| r l IH]; [reflexivity |].
  cbn [List.map]. rewrite !countRows_cons, IH.
  destruct (matches r) eqn:E; [now rewrite Hsame | reflexivity].
Qed.

Lemma clampConcurrency_range (value : Q) : 1 <= Queue.clampConcurrency value <= 8.
Proof. unfold Queue.clampConcurrency. lia. Qed.

Lemma clampConcurrency_floor (value : Q) :
  (1 <= value)%Q -> (value <= 8)%Q ->
  Queue.clampConcurrency value = Qfloor value.
Proof.
  intros Hlo Hhi. unfold Queue.clampConcurrency.
  assert (1 <= Qfloor value).
  { change 1 with (Qfloor 1). now apply Qfloor_resp_le. }
  assert (Qfloor value <= 8).
  { change 8 with (Qfloor 8). now apply Qfloor_resp_le. }
  lia.
Qed.

Lemma cancel_wellFormed jobId q :
  wellFormed q ->
  wellFormed (snd (Queue.cancel jobId q))
  /\ Queue.activeRuns (snd (Queue.cancel jobId q)) = Queue.activeRuns q
  /\ Queue.concurrency (snd (Queue.cancel jobId q)) = Queue.concurrency q.
Proof.
  intros Hwf. unfold Queue.cancel.
  destruct (Db.getQueueJobById jobId (Queue.database q)) as [job |]; [| now cbn].
  destruct (Db.is_pending job); [| now cbn].
  cbn [snd]. split; [| split; reflexivity].
  destruct Hwf as [Hnodup Hcount]. split.
  - unfold rows. cbn.
    erewrite (ids_of_rowKeys _ (Db.queue_jobs (Queue.database q))); [exact Hnodup |].
    now apply rowKey_update.
  - unfold runningCount, rows. cbn. rewrite countRows_update_same; [exact Hcount |].
    intros r Hr. apply andb_true_iff in Hr as [_ Hp]. apply is_pending_iff in Hp.
    unfold Db.is_running. cbn. now rewrite Hp.
Qed.

Lemma setConcurrency_dispatched value q :
  wellFormed q ->
  wellFormed (Queue.setConcurrency P value q)
  /\ Queue.concurrency (Queue.setConcurrency P value q) = Queue.clampConcurrency value
  /\ Queue.activeRuns (Queue.setConcurrency P value q)
     <= Z.max (Queue.activeRuns q) (Queue.clampConcurrency value).
Proof.
  intros Hwf. unfold Queue.setConcurrency.
  destruct (kick_dispatched P (Queue.with_concurrency (Queue.clampConcurrency value) q))
    as (Hwf' & Hframe & Hact & _); [exact Hwf |].
  destruct Hframe as (_ & _ & _ & _ & Hc & _).
  split; [exact Hwf' |]. split; [exact Hc | exact Hact].
Qed.

Lemma settle_dispatched jobId outcome q :
  wellFormed q ->
  wellFormed (Queue.settle P jobId outcome q)
  /\ Queue.concurrency (Queue.settle P jobId outcome q) = Queue.concurrency q
  /\ Queue.activeRuns (Queue.settle P jobId outcome q)
     <= Z.max (Queue.activeRuns q) (Queue.concurrency q).
Proof.
  intros Hwf. unfold Queue.settle.
  destruct (Db.getQueueJobById jobId (Queue.database q)) as [job |] eqn:Hfind;
    [| split; [exact Hwf | split; [reflexivity | lia]]].
  destruct (Db.is_running job) eqn:Hrun;
    [| split; [exact Hwf | split; [reflexivity | lia]]].
  apply getQueueJobById_In in Hfind as [Hin _]. apply is_running_iff in Hrun.
  destruct (resume_job P q job outcome Hwf Hin Hrun)
    as (q'' & -> & Hwf'' & Hact & Hconc & _).
  destruct (kick_dispatched P q'' Hwf'') as (Hwf' & Hframe & Hact' & _).
  destruct Hframe as (_ & _ & _ & _ & Hc & _).
  split; [exact Hwf' |]. split; [congruence | lia].
Qed.

Lemma enqueue_dispatched request q :
  wellFormed q ->
  wellFormed (snd (Queue.enqueue P request q))
  /\ Queue.concurrency (snd (Queue.enqueue P request q)) = Queue.concurrency q
  /\ Queue.activeRuns (snd (Queue.enqueue P request q))
     <= Z.max (Queue.activeRuns q) (Queue.concurrency q).
Proof.
  intros Hwf. unfold Queue.enqueue.
  destruct (Queue.assertSpendWithinLimits P _ None q) as [message | []];
    [split; [exact Hwf | split; [reflexivity | cbn; lia]] |].
  pose proof (enqueue_loop_wellFormed P
                (Z.to_nat (Z.min Queue.MAX_BATCH_COUNT
                             (Z.max 1 (default 1 (batchCount request)))))
                request [] q Hwf) as Hloop.
  cbv zeta in Hloop.
  destruct (Queue.enqueue_loop P _ request [] q) as [[message | ids] q1];
    cbn [snd] in *; destruct Hloop as (Hwf1 & Hact1 & Hconc1 & _).
  - split; [exact Hwf1 | split; [exact Hconc1 | lia]].
  - destruct (kick_dispatched P (Queue.emit Queue.QueueChanged q1))
      as (Hwf' & Hframe & Hact' & _); [exact Hwf1 |].
    destruct Hframe as (_ & _ & _ & _ & Hc & _).
    cbn [Queue.emit Queue.activeRuns Queue.concurrency] in Hact', Hc.
    split; [exact Hwf' |]. split; [congruence | lia].
Qed.

(** One event: the state stays well formed, the limit stays within 1..8
    once it is, and the in-flight count does not pass the larger of its
    old value and the limit now in force. *)
Lemma step_dispatched (e : Queue.Event) q :
  wellFormed q ->
  wellFormed (Queue.step P e q)
  /\ Queue.activeRuns (Queue.step P e q)
     <= Z.max (Queue.activeRuns q) (Queue.concurrency (Queue.step P e q))
  /\ (1 <= Queue.concurrency q <= 8 -> 1 <= Queue.concurrency (Queue.step P e q) <= 8).
Proof.
  intros Hwf. destruct e as [request | | | jobId | value | jobId outcome | patch | key | s];
    cbn [Queue.step].
  - destruct (enqueue_dispatched request q Hwf) as (H1 & H2 & H3).
    rewrite H2. tauto.
  - split; [exact Hwf |]. cbn. split; [lia | tauto].
  - destruct (kick_dispatched P (Queue.emit Queue.QueueChanged (Queue.with_paused false q)))
      as (H1 & Hframe & H3 & _); [exact Hwf |].
    destruct Hframe as (_ & _ & _ & _ & Hc & _).
    cbn [Queue.emit Queue.with_paused Queue.concurrency Queue.activeRuns] in Hc, H3.
    unfold Queue.resume. rewrite Hc. tauto.
  - destruct (cancel_wellFormed jobId q Hwf) as (H1 & H2 & H3).
    rewrite H2, H3. split; [exact H1 |]. split; [lia | tauto].
  - destruct (setConcurrency_dispatched value q Hwf) as (H1 & H2 & H3).
    rewrite H2. split; [exact H1 |]. split; [exact H3 |].
    intros _. apply clampConcurrency_range.
  - destruct (settle_dispatched jobId outcome q Hwf) as (H1 & H2 & H3).
    rewrite H2. tauto.
  - destruct (Ipc.parseConfigPatch patch) as [message | validated];
      [split; [exact Hwf | split; [lia | tauto]] |].
    set (q1 := Queue.with_configStore _ q).
    destruct (setConcurrency_dispatched
                (inject_Z (Config.publicQueueConcurrency
                   (Config.getPublicConfig (decodeApiKey P)
                      (Config.updateConfig (Queue.configStore q) validated))))
                q1 Hwf) as (H1 & H2 & H3).
    rewrite H2. split; [exact H1 |]. split; [exact H3 |].
    intros _. apply clampConcurrency_range.
  - split; [exact Hwf |]. cbn. split; [lia | tauto].
  - split; [exact Hwf |]. cbn. split; [lia | tauto].
Qed.

Lemma requeue_no_running (l : list Db.QueueJob) :
  List.filter Db.is_running
    (List.map (fun row => if Db.is_running row then Db.requeued row else row) l) = [].
Proof.
  induction l as [| r l IH]; [reflexivity |].
  cbn. destruct (Db.is_running r) eqn:E; cbn; [exact IH |].
  rewrite E. exact IH.
Qed.

Lemma constructor_wellFormed db config value now :
  NoDup (Db.id <$> Db.queue_jobs db) ->
  let q0 := Queue.constructor P db config value now in
  wellFormed q0 /\ 1 <= Queue.concurrency q0 <= 8
  /\ Queue.activeRuns q0 <= Queue.concurrency q0.
Proof.
  intros Hnodup q0. unfold q0, Queue.constructor.
  set (init := {| Queue.database := snd (Db.requeueRunningJobs db) |}).
  assert (Hwf : wellFormed init).
  { split.
    - unfold init, rows. cbn.
      erewrite (ids_of_rowKeys _ (Db.queue_jobs db)); [exact Hnodup |].
      now apply rowKey_update.
    - unfold runningCount, init, rows. cbn. unfold countRows.
      now rewrite requeue_no_running. }
  destruct (kick_dispatched P init Hwf) as (Hwf' & Hframe & Hact & _).
  destruct Hframe as (_ & _ & _ & _ & Hc & _).
  pose proof (clampConcurrency_range value) as Hrange.
  cbn [init Queue.concurrency Queue.activeRuns] in Hc, Hact.
  split; [exact Hwf' |]. rewrite Hc. split; lia.
Qed.

Lemma run_dispatched (events : list Queue.Event) q :
  wellFormed q -> 1 <= Queue.concurrency q <= 8 -> Queue.activeRuns q <= 8 ->
  let q' := Queue.run P events q in
  wellFormed q' /\ 1 <= Queue.concurrency q' <= 8 /\ Queue.activeRuns q' <= 8
  /\ (Queue.activeRuns q <= Queue.concurrency q -> limitNeverLowered P events q ->
      Queue.activeRuns q' <= Queue.concurrency q').
Proof.
  revert q. induction events as [| e events IH]; intros q Hwf Hc Ha; cbn zeta.
  - cbn. tauto.
  - destruct (step_dispatched e q Hwf) as (Hwf1 & Hact1 & Hc1). specialize (Hc1 Hc).
    assert (Ha1 : Queue.activeRuns (Queue.step P e q) <= 8) by lia.
    destruct (IH _ Hwf1 Hc1 Ha1) as (H1 & H2 & H3 & H4). cbn zeta in *.
    change (Queue.run P (e :: events) q) with (Queue.run P events (Queue.step P e q)).
    split; [exact H1 |]. split; [exact H2 |]. split; [exact H3 |].
    intros Hle [Hkeep Hrest]. apply H4; [lia | exact Hrest].
Qed.
End StepFacts.

(** ** The concurrency bound *)

(** C3, as stated, fails: with three jobs in flight under a limit of 3,
    lowering the limit to 1 leaves three jobs running. *)
Lemma running_exceeds_lowered_limit :
  let q0 := Queue.constructor samplePlatform sampleDatabase (sampleConfig None None) 3 1000 in
  let q := Queue.run samplePlatform [Queue.SetConcurrency 1] q0 in
  runningCount q0 = 3 /\ Queue.concurrency q0 = 3
  /\ runningCount q = 3 /\ Queue.concurrency q = 1
  /\ ~ runningCount q <= Queue.concurrency q.
Proof.
  cbv zeta. repeat split; try (vm_compute; reflexivity).
  vm_compute. intros H. apply H. reflexivity.
Qed.

Lemma kick_at_limit (P : Platform) (q : Queue.GenerationQueue) :
  Queue.concurrency q <= Queue.activeRuns q -> Queue.kick P q = q.
Proof.
  intros Hfull. unfold Queue.kick. cbn [Queue.kick_fuel].
  destruct (Queue.paused q); [reflexivity |].
  apply Z.ltb_ge in Hfull. now rewrite Hfull.
Qed.

(** C3, amended.  In every state that a queue built on a table with
    unique job ids reaches, the number of running jobs equals the
    in-flight counter; the limit lies in 1..8 and so at most 8 jobs run;
    and as long as no event lowers the limit, the number of running jobs
    does not exceed it.  [setConcurrency] stores the floor of its argument
    clamped into 1..8.  [kick] starts nothing once the in-flight count has
    reached the limit, never raises that count above the larger of its old
    value and the limit, and stops only when paused, at the limit, or out
    of pending jobs.  When the awaited work of a running job settles, by an
    image or by an exception, the job becomes completed or failed, the
    in-flight count drops by one, and [kick] runs again. *)
Theorem scheduler_concurrency_bound (P : Platform) (db : Db.StudioDatabase)
    (config : Config.StudioConfigFile) (value : Q) (now : Z)
    (events : list Queue.Event) :
  NoDup (Db.id <$> Db.queue_jobs db) ->
  let q0 := Queue.constructor P db config value now in
  let q := Queue.run P events q0 in
  runningCount q = Queue.activeRuns q
  /\ 1 <= Queue.concurrency q <= 8
  /\ runningCount q <= 8
  /\ (limitNeverLowered P events q0 -> runningCount q <= Queue.concurrency q)
  /\ (forall v : Q,
        1 <= Queue.clampConcurrency v <= 8
        /\ Queue.concurrency (Queue.setConcurrency P v q) = Queue.clampConcurrency v
        /\ ((1 <= v)%Q -> (v <= 8)%Q -> Queue.clampConcurrency v = Qfloor v))
  /\ (Queue.concurrency q <= Queue.activeRuns q -> Queue.kick P q = q)
  /\ Queue.activeRuns (Queue.kick P q) <= Z.max (Queue.activeRuns q) (Queue.concurrency q)
  /\ quiescent (Queue.kick P q)
  /\ (forall jobId outcome job,
        Db.getQueueJobById jobId (Queue.database q) = Some job ->
        Db.status job = running ->
        exists q'',
          Queue.settle P jobId outcome q = Queue.kick P q''
          /\ Queue.activeRuns q'' = Queue.activeRuns q - 1
          /\ exists job', In job' (rows q'') /\ Db.id job' = jobId
                          /\ (Db.status job' = completed \/ Db.status job' = failed)).
Proof.
  intros Hnodup q0 q.
  destruct (constructor_wellFormed P db config value now Hnodup) as (Hwf0 & Hc0 & Ha0).
  fold q0 in Hwf0, Hc0, Ha0.
  destruct (run_dispatched P events q0 Hwf0 Hc0) as (Hwf & Hc & Ha & Hkeep); [lia |].
  fold q in Hwf, Hc, Ha, Hkeep.
  pose proof Hwf as [_ Hcount].
  split; [exact Hcount |]. split; [exact Hc |]. split; [lia |].
  split; [intros Hnever; rewrite Hcount; now apply Hkeep |].
  split; [| split; [apply kick_at_limit | split; [| split]]].
  - intros v. split; [apply clampConcurrency_range |].
    split; [apply (setConcurrency_dispatched P v q Hwf) | apply clampConcurrency_floor].
  - apply (kick_dispatched P q Hwf).
  - apply (kick_total P q Hwf).
  - intros jobId outcome job Hfind Hrun.
    apply getQueueJobById_In in Hfind as Hjob. destruct Hjob as [Hin Hid].
    destruct (resume_job P q job outcome Hwf Hin Hrun)
      as (q'' & Hres & _ & Hact & _ & _ & _ & job' & Hin' & Hid' & Hst').
    exists q''. split.
    + unfold Queue.settle. rewrite Hfind.
      apply is_running_iff in Hrun. now rewrite Hrun.
    + split; [exact Hact |]. exists job'. split; [exact Hin' |].
      split; [congruence | exact Hst'].
Qed.

Lemma scheduler_concurrency_bound_witness :
  let q := Queue.run samplePlatform
             [Queue.Settle "a" (Queue.Thrown "HTTP 400");
              Queue.SetConcurrency (5 # 2);
              Queue.Enqueue (sampleRequest (Some "4K") (Some 2))]
             (Queue.constructor samplePlatform sampleDatabase (sampleConfig None None)
                1 1000) in
  runningCount q = Queue.activeRuns q /\ runningCount q <= Queue.concurrency q.
Proof.
  cbv zeta.
  assert (Hnodup : NoDup (Db.id <$> Db.queue_jobs sampleDatabase)).
  { apply (bool_decide_unpack (NoDup _)). vm_compute. exact I. }
  pose proof (scheduler_concurrency_bound samplePlatform sampleDatabase
                (sampleConfig None None) 1 1000
                [Queue.Settle "a" (Queue.Thrown "HTTP 400");
                 Queue.SetConcurrency (5 # 2);
                 Queue.Enqueue (sampleRequest (Some "4K") (Some 2))] Hnodup) as H.
  cbv zeta in H. destruct H as (Hcount & _ & _ & Hbound & _).
  split; [exact Hcount |]. apply Hbound.
  vm_compute. repeat split; intros H; discriminate H.
Defined.

(** ** The statements at sample inputs *)

Lemma enqueue_admission_witness :
  let q := sampleQueue ceilingDatabase (sampleConfig None (Some (Num 0.938))) in
  (Db.getSessionCost (one_month_before samplePlatform) all (Queue.clock q) (Queue.database q)
   + Queue.getReservedQueueCost None q + 0.134 * 4 == 0.938)%Q
  /\ sum_rounds_up samplePlatform 0.402 0 0.536 = true
  /\ Queue.enqueue samplePlatform (sampleRequest (Some "1K") (Some 4)) q
     = (inl ("Gesamtlimit erreicht: Aktuell $0.402, reserviert $0.000, "
             +:+ "geplanter Auftrag $0.536, Limit $0.938. "
             +:+ "Passe das Limit in den Einstellungen an."), q).
Proof.
  cbv zeta. split; [vm_compute; reflexivity |]. split; [vm_compute; reflexivity |].
  pose proof (enqueue_admission samplePlatform (sampleRequest (Some "1K") (Some 4))
                (sampleQueue ceilingDatabase (sampleConfig None (Some (Num 0.938)))))
    as H.
  cbv zeta in H. destruct H as (_ & _ & _ & _ & Hreject & _).
  destruct (Hreject ("Gesamtlimit erreicht: Aktuell $0.402, reserviert $0.000, "
                     +:+ "geplanter Auftrag $0.536, Limit $0.938. "
                     +:+ "Passe das Limit in den Einstellungen an.")) as [Henq _];
    [vm_compute; reflexivity | exact Henq].
Defined.

Lemma normalizeSpendLimit_spec_witness :
  Config.normalizeSpendLimit (Some (Num 0)) = None
  /\ Config.normalizeSpendLimit (Some (Num (12345 # 10000))) = Some (1234 # 1000)%Q
  /\ Config.publicTotalSpendLimitUsd
       (Config.getPublicConfig (fun _ => None)
          {| Config.encryptedApiKey := None; Config.queueConcurrency := None;
             Config.monthlySpendLimitUsd := Some (Num 0);
             Config.totalSpendLimitUsd := Some (Num (12345 # 10000)) |})
     = Some (1234 # 1000)%Q
  /\ Config.publicMonthlySpendLimitUsd
       (Config.getPublicConfig (fun _ => None)
          {| Config.encryptedApiKey := None; Config.queueConcurrency := None;
             Config.monthlySpendLimitUsd := Some (Num 0);
             Config.totalSpendLimitUsd := Some (Num (12345 # 10000)) |}) = None.
Proof.
  destruct normalizeSpendLimit_spec as (_ & _ & Hneg & Hpos & Hpublic & _).
  assert (Hheld : (0 < binary64 (12345 # 10000))%Q) by (vm_compute; reflexivity).
  assert (Hrounded : toFixed3 (12345 # 10000) = (1234 # 1000)%Q)
    by (vm_compute; reflexivity).
  split; [apply (Hneg 0%Q); discriminate |].
  split; [destruct (Hpos (12345 # 10000)%Q Hheld) as [H _]; now rewrite H, Hrounded |].
  destruct (Hpublic (fun _ => None)
              {| Config.encryptedApiKey := None; Config.queueConcurrency := None;
                 Config.monthlySpendLimitUsd := Some (Num 0);
                 Config.totalSpendLimitUsd := Some (Num (12345 # 10000)) |})
    as [Hmonth Htotal].
  split.
  - destruct (Htotal (12345 # 10000)%Q eq_refl) as [_ H]. now rewrite (H Hheld), Hrounded.
  - destruct (Hmonth 0%Q eq_refl) as [H _]. apply H. discriminate.
Defined.

Lemma requeueRunningJobs_spec_witness :
  exists row',
    Db.queue_jobs (snd (Db.requeueRunningJobs sampleDatabase)) !! 2%nat = Some row'
    /\ Db.status row' = pending /\ Db.startedAt row' = None
    /\ Db.completedAt row' = None /\ Db.error row' = None.
Proof.
  pose proof (requeueRunningJobs_spec sampleDatabase) as H.
  cbv zeta in H. destruct H as (_ & _ & Hrows & _).
  destruct (Hrows 2%nat (sampleJob "c" running 5) eq_refl) as (row' & Hrow' & Hrun & _).
  exists row'. split; [exact Hrow' |].
  destruct (Hrun eq_refl) as (H1 & H2 & H3 & H4 & _). tauto.
Defined.

Lemma enqueue_creates_batch_witness :
  let q := sampleQueue sampleDatabase (sampleConfig None None) in
  fst (Queue.enqueue samplePlatform (sampleRequest (Some "2K") (Some 3)) q)
  = inr ["uuid-0"; "uuid-1"; "uuid-2"]
  /\ length (rows (snd (Queue.enqueue samplePlatform
                          (sampleRequest (Some "2K") (Some 3)) q))) = 6%nat.
Proof.
  cbv zeta.
  pose proof (enqueue_creates_batch samplePlatform (sampleRequest (Some "2K") (Some 3))
                (sampleQueue sampleDatabase (sampleConfig None None))) as H.
  cbv zeta in H. destruct H as (_ & _ & _ & _ & Hbatch).
  destruct Hbatch as (q1 & Henq & _ & _ & _ & _ & Hlen).
  - vm_compute. reflexivity.
  - apply (bool_decide_unpack (NoDup _)). vm_compute. exact I.
  - apply Forall_forall.
    apply (bool_decide_unpack (Forall _ _)). vm_compute. exact I.
  - split; [rewrite Henq; reflexivity | exact Hlen].
Defined.

Lemma cancel_spec_witness :
  let q := sampleQueue sampleDatabase (sampleConfig None None) in
  (exists job', Db.getQueueJobById "a" (Queue.database (snd (Queue.cancel "a" q)))
                = Some job'
                /\ Db.status job' = cancelled)
  /\ snd (Queue.cancel "c" q) = q.
Proof.
  cbv zeta.
  pose proof (cancel_spec "a" (sampleQueue sampleDatabase (sampleConfig None None))) as Ha.
  pose proof (cancel_spec "c" (sampleQueue sampleDatabase (sampleConfig None None))) as Hc.
  cbv zeta in Ha, Hc.
  destruct Ha as (_ & _ & Hmark & _). destruct Hc as (_ & Hsame & _).
  split.
  - destruct (Hmark (sampleJob "a" pending 10) eq_refl eq_refl) as (job' & Hjob' & Hst & _).
    exists job'. split; [exact Hjob' | exact Hst].
  - apply Hsame. reflexivity.
Defined.

(** ** Atomicity of the artifact store *)

Section StoreFacts.
Variable P : Platform.
Variable N : Node.
Variable paths : ImageStore.StudioPaths.
Variable fails : ImageStore.IoCall -> bool.
Variable torn : string -> option nat.
Implicit Types (w : ImageStore.World).

(** A torn write touches its own path only, and removes no file. *)
Lemma tornWrite_spec path bytes w :
  let w' := ImageStore.tornWrite torn path bytes w in
  (forall p, p <> path -> ImageStore.files w' !! p = ImageStore.files w !! p)
  /\ (forall p, ImageStore.files w !! p <> None -> ImageStore.files w' !! p <> None)
  /\ (torn path = None -> w' = w)
  /\ (torn path <> None -> ImageStore.files w' !! path <> None)
  /\ ImageStore.images w' = ImageStore.images w
  /\ ImageStore.reference_images w' = ImageStore.reference_images w
  /\ ImageStore.image_tags w' = ImageStore.image_tags w
  /\ ImageStore.drawn w' = ImageStore.drawn w.
Proof.
  unfold ImageStore.tornWrite. destruct (torn path) as [written |]; cbn.
  - split; [intros p Hp; now rewrite lookup_insert_ne |].
    split; [intros p Hp; rewrite lookup_insert; case_decide; [discriminate | exact Hp] |].
    split; [discriminate |].
    split; [intros _; rewrite lookup_insert_eq; discriminate | tauto].
  - repeat split; auto.
Qed.

(** The first part of the [try] block touches the two paths of the image
    and, when it succeeds, adds the one row of the image. *)
Lemma persistGeneratedImage_insert_spec input imageId orig relThumb thumb buffer w r w1 :
  ImageStore.persistGeneratedImage_insert N fails torn input imageId orig relThumb thumb
    buffer w = (r, w1) ->
  (forall p, p <> orig -> p <> thumb -> ImageStore.files w1 !! p = ImageStore.files w !! p)
  /\ ImageStore.reference_images w1 = ImageStore.reference_images w
  /\ ImageStore.image_tags w1 = ImageStore.image_tags w
  /\ ImageStore.drawn w1 = ImageStore.drawn w
  /\ match r with
     | inl _ => ImageStore.images w1 = ImageStore.images w
     | inr _ =>
         ImageStore.images w !! imageId = None
         /\ (exists row, ImageStore.images w1 = <[imageId := row]> (ImageStore.images w)
                         /\ Images.id row = imageId
                         /\ Images.filePath row = ImageStore.normalizeStudioPath N orig
                         /\ Images.deletedAt row = None)
         /\ ImageStore.files w1 !! orig <> None
         /\ ImageStore.files w1 !! thumb <> None
     end.
Proof.
  unfold ImageStore.persistGeneratedImage_insert, ImageStore.bind, ImageStore.mkdir,
    ImageStore.writeFile, ImageStore.metadata, ImageStore.thumbnailToFile,
    ImageStore.insertImage, ImageStore.ret, ImageStore.throw.
  destruct (fails (ImageStore.Mkdir (path_dirname N orig)));
    [intros [= <- <-]; tauto |].
  destruct (fails (ImageStore.Mkdir (path_dirname N thumb)));
    [intros [= <- <-]; cbn; tauto |].
  destruct (fails (ImageStore.WriteFile orig)).
  { intros [= <- <-].
    destruct (tornWrite_spec orig buffer
                (ImageStore.with_directories
                   ({[path_dirname N thumb]}
                    ∪ ImageStore.directories
                        (ImageStore.with_directories
                           ({[path_dirname N orig]} ∪ ImageStore.directories w) w))
                   (ImageStore.with_directories
                      ({[path_dirname N orig]} ∪ ImageStore.directories w) w)))
      as (Hf & _ & _ & _ & Hi & Hr & Ht & Hd).
    cbv zeta in *. cbn in Hf, Hi, Hr, Ht, Hd.
    split; [intros p Ho _; now apply Hf |]. tauto. }
  destruct (sharp_metadata N buffer) as [dimensions |]; cycle 1.
  { intros [= <- <-]; cbn. repeat split; try reflexivity.
    intros p Ho _. now rewrite lookup_insert_ne. }
  destruct (sharp_webp_thumbnail N buffer) as [thumbnail |]; cycle 1.
  { intros [= <- <-]; cbn. repeat split; try reflexivity.
    intros p Ho _. now rewrite lookup_insert_ne. }
  destruct (fails (ImageStore.ThumbnailToFile thumb)).
  { intros [= <- <-].
    set (w0 := ImageStore.with_files _ _).
    destruct (tornWrite_spec thumb thumbnail w0) as (Hf & _ & _ & _ & Hi & Hr & Ht & Hd).
    cbv zeta in *. subst w0. cbn in Hf, Hi, Hr, Ht, Hd.
    split; [| tauto].
    intros p Ho Hth. rewrite (Hf p Hth). now rewrite lookup_insert_ne. }
  cbn [Images.id]. destruct (fails (ImageStore.InsertImage imageId)).
  { intros [= <- <-]; cbn. repeat split; try reflexivity.
    intros p Ho Ht. now rewrite !lookup_insert_ne. }
  cbn [ImageStore.images ImageStore.with_files ImageStore.with_directories].
  destruct (ImageStore.images w !! imageId) eqn:Himg.
  { intros [= <- <-]; cbn. repeat split; try reflexivity.
    intros p Ho Ht. now rewrite !lookup_insert_ne. }
  intros [= <- <-]. cbn.
  split; [| split; [reflexivity | split; [reflexivity | split; [reflexivity |]]]].
  - intros p Ho Ht. now rewrite !lookup_insert_ne.
  - split; [reflexivity |]. split; [eexists; split; [reflexivity | cbn; tauto] |].
    split.
    + rewrite lookup_insert. case_decide; [discriminate |].
      rewrite lookup_insert_eq. discriminate.
    + rewrite lookup_insert_eq. discriminate.
Qed.

(** The loop over the reference images.  [leftover] is the path of the
    write that was torn, if one was: it is on neither rollback list. *)
Lemma persistReferenceImages_loop_spec (F I : string -> Prop) imageId
    (refs : list ReferenceImagePayload) (index : nat) inserted written w
    r inserted' written' w' :
  (forall (k : nat) ref, refs !! k = Some ref ->
     I (uuidv4 P (ImageStore.drawn w + k))
     /\ F (referencePath N paths (uuidv4 P (ImageStore.drawn w + k)) ref)) ->
  ImageStore.persistReferenceImages_loop P N paths fails torn imageId refs index
    inserted written w = (r, (inserted', written', w')) ->
  exists newIds newPaths (leftover : option string),
    inserted' = inserted ++ newIds /\ written' = written ++ newPaths
    /\ Forall I newIds /\ Forall F newPaths
    /\ (forall p, p ∉ newPaths -> Some p <> leftover ->
          ImageStore.files w' !! p = ImageStore.files w !! p)
    /\ (forall p, ImageStore.files w !! p <> None -> ImageStore.files w' !! p <> None)
    /\ (forall i, i ∉ newIds ->
          ImageStore.reference_images w' !! i = ImageStore.reference_images w !! i)
    /\ ImageStore.images w' = ImageStore.images w
    /\ ImageStore.image_tags w' = ImageStore.image_tags w
    /\ (forall p, leftover = Some p ->
          F p /\ fails (ImageStore.WriteFile p) = true /\ torn p <> None
          /\ exists message, r = inl message).
Proof.
  revert index inserted written w.
  induction refs as [| ref rest IH]; intros index inserted written w Hfresh;
    cbn [ImageStore.persistReferenceImages_loop].
  - intros [= <- <- <- <-]. exists [], [], None. rewrite !app_nil_r.
    repeat split; auto; discriminate.
  - set (refId := uuidv4 P (ImageStore.drawn w)).
    destruct (Hfresh 0%nat ref eq_refl) as [HI HF].
    rewrite Nat.add_0_r in HI, HF. fold refId in HI, HF.
    unfold referencePath in HF.
    set (path := path_join N (ImageStore.root paths) _) in *.
    assert (Hnone : exists newIds newPaths (leftover : option string),
              inserted = inserted ++ newIds /\ written = written ++ newPaths
              /\ Forall I newIds /\ Forall F newPaths
              /\ (forall p, p ∉ newPaths -> Some p <> leftover ->
                    ImageStore.files (ImageStore.draw w) !! p = ImageStore.files w !! p)
              /\ (forall p, ImageStore.files w !! p <> None ->
                    ImageStore.files (ImageStore.draw w) !! p <> None)
              /\ (forall i, i ∉ newIds ->
                    ImageStore.reference_images (ImageStore.draw w) !! i
                    = ImageStore.reference_images w !! i)
              /\ ImageStore.images (ImageStore.draw w) = ImageStore.images w
              /\ ImageStore.image_tags (ImageStore.draw w) = ImageStore.image_tags w
              /\ (forall p, leftover = Some p ->
                    F p /\ fails (ImageStore.WriteFile p) = true /\ torn p <> None
                    /\ exists message, @inl string unit "" = inl message)).
    { exists [], [], None. rewrite !app_nil_r. repeat split; auto; discriminate. }
    destruct (negb (ImageStore.isPathInsideRoot N path (ImageStore.root paths))).
    { intros [= <- <- <- <-].
      destruct Hnone as (a & b & c & H1 & H2 & H3 & H4 & H5 & H6 & H7 & H8 & H9 & _).
      exists [], [], None. rewrite !app_nil_r. repeat split; auto; discriminate. }
    destruct (ImageStore.decodeBase64Payload N _ _ _) as [message | bytes].
    { intros [= <- <- <- <-]. exists [], [], None. rewrite !app_nil_r.
      repeat split; auto; discriminate. }
    clear Hnone. unfold ImageStore.writeFile.
    destruct (fails (ImageStore.WriteFile path)) eqn:Hwrite.
    { intros [= <- <- <- <-].
      destruct (tornWrite_spec path bytes (ImageStore.draw w))
        as (Hf & Hkeep & Hwhole & _ & Hi & Hr & Ht & _).
      cbv zeta in *. cbn [ImageStore.draw ImageStore.files ImageStore.images
                           ImageStore.reference_images ImageStore.image_tags]
        in Hf, Hkeep, Hi, Hr, Ht.
      destruct (torn path) as [written0 |] eqn:Htorn.
      - exists [], [], (Some path). rewrite !app_nil_r.
        split; [reflexivity |]. split; [reflexivity |].
        split; [constructor |]. split; [constructor |].
        split; [intros p _ Hp; apply Hf; congruence |].
        split; [exact Hkeep |]. split; [intros i _; now rewrite Hr |].
        split; [exact Hi |]. split; [exact Ht |].
        intros p [= <-]. split; [exact HF |]. split; [exact Hwrite |].
        split; [congruence | eauto].
      - rewrite (Hwhole eq_refl). exists [], [], None. rewrite !app_nil_r.
        repeat split; auto; discriminate. }
    assert (Hwritten : forall wx message,
              ImageStore.files wx = <[path := bytes]> (ImageStore.files w) ->
              ImageStore.reference_images wx = ImageStore.reference_images w ->
              ImageStore.images wx = ImageStore.images w ->
              ImageStore.image_tags wx = ImageStore.image_tags w ->
              exists newIds newPaths (leftover : option string),
                inserted = inserted ++ newIds /\ written ++ [path] = written ++ newPaths
                /\ Forall I newIds /\ Forall F newPaths
                /\ (forall p, p ∉ newPaths -> Some p <> leftover ->
                      ImageStore.files wx !! p = ImageStore.files w !! p)
                /\ (forall p, ImageStore.files w !! p <> None ->
                      ImageStore.files wx !! p <> None)
                /\ (forall i, i ∉ newIds ->
                      ImageStore.reference_images wx !! i
                      = ImageStore.reference_images w !! i)
                /\ ImageStore.images wx = ImageStore.images w
                /\ ImageStore.image_tags wx = ImageStore.image_tags w
                /\ (forall p, leftover = Some p ->
                      F p /\ fails (ImageStore.WriteFile p) = true /\ torn p <> None
                      /\ exists message', @inl string unit message = inl message')).
    { intros wx message Hf Hr Hi Ht. exists [], [path], None.
      rewrite app_nil_r, Hf, Hr, Hi, Ht.
      repeat split; auto; try discriminate.
      - intros p Hp _. apply not_elem_of_cons in Hp as [Hp _]. now rewrite lookup_insert_ne.
      - intros p Hp. rewrite lookup_insert. case_decide; [discriminate | exact Hp]. }
    unfold ImageStore.insertReferenceImage. cbn [ReferenceImages.id ReferenceImages.imageId].
    destruct (fails (ImageStore.InsertReferenceImage refId));
      [intros [= <- <- <- <-]; now apply Hwritten |].
    cbn [ImageStore.reference_images ImageStore.images ImageStore.with_files ImageStore.draw].
    destruct (ImageStore.reference_images w !! refId);
      [intros [= <- <- <- <-]; now apply Hwritten |].
    destruct (ImageStore.images w !! imageId);
      [| intros [= <- <- <- <-]; now apply Hwritten].
    clear Hwritten. intros Hloop.
    apply IH in Hloop
      as (newIds & newPaths & leftover & -> & -> & HIs & HFs & Hfiles & Hkeep & Hrefs
          & Himg & Htags & Hleft).
    + exists (refId :: newIds), (path :: newPaths), leftover.
      rewrite <- !app_assoc. cbn [app].
      split; [reflexivity |]. split; [reflexivity |].
      split; [now constructor |]. split; [now constructor |].
      cbn in Hfiles, Hkeep, Hrefs, Himg, Htags.
      split; [| split; [| split; [| split; [exact Himg | split; [exact Htags | exact Hleft]]]]].
      * intros p Hp Hne. apply not_elem_of_cons in Hp as [Hne' Hp].
        rewrite (Hfiles p Hp Hne). now rewrite lookup_insert_ne.
      * intros p Hp. apply Hkeep. rewrite lookup_insert.
        case_decide; [discriminate | exact Hp].
      * intros i Hi. apply not_elem_of_cons in Hi as [Hne Hi].
        rewrite (Hrefs i Hi). now rewrite lookup_insert_ne.
    + intros k ref' Hk. cbn [ImageStore.drawn ImageStore.with_reference_images
                               ImageStore.with_files ImageStore.draw].
      rewrite Nat.add_succ_l, <- Nat.add_succ_r. apply Hfresh. exact Hk.
Qed.

Lemma fold_removeFileIfExists (l : list string) w :
  let w' := List.fold_left (fun w p => ImageStore.removeFileIfExists p w) l w in
  (forall p, p ∈ l -> ImageStore.files w' !! p = None)
  /\ (forall p, p ∉ l -> ImageStore.files w' !! p = ImageStore.files w !! p)
  /\ ImageStore.images w' = ImageStore.images w
  /\ ImageStore.reference_images w' = ImageStore.reference_images w
  /\ ImageStore.image_tags w' = ImageStore.image_tags w.
Proof.
  revert w. induction l as [| x l IH]; intros w; cbn [List.fold_left].
  - cbn. split; [intros p Hp; now apply elem_of_nil in Hp | tauto].
  - destruct (IH (ImageStore.removeFileIfExists x w)) as (H1 & H2 & H3 & H4 & H5).
    cbn zeta in *. split; [| split; [| split; [| split]; assumption]].
    + intros p Hp. destruct (decide (p ∈ l)) as [Hin | Hout]; [now apply H1 |].
      apply elem_of_cons in Hp as [-> | Hp]; [| contradiction].
      rewrite (H2 x Hout). cbn. apply lookup_delete_eq.
    + intros p Hp. apply not_elem_of_cons in Hp as [Hne Hp].
      rewrite (H2 p Hp). cbn. now apply lookup_delete_ne.
Qed.

Lemma fold_deleteReferenceImageById (l : list string) w :
  let w' := List.fold_left (fun w i => ImageStore.deleteReferenceImageById i w) l w in
  (forall i, i ∈ l -> ImageStore.reference_images w' !! i = None)
  /\ (forall i, i ∉ l ->
        ImageStore.reference_images w' !! i = ImageStore.reference_images w !! i)
  /\ ImageStore.images w' = ImageStore.images w
  /\ ImageStore.files w' = ImageStore.files w
  /\ ImageStore.image_tags w' = ImageStore.image_tags w.
Proof.
  revert w. induction l as [| x l IH]; intros w; cbn [List.fold_left].
  - cbn. split; [intros p Hp; now apply elem_of_nil in Hp | tauto].
  - destruct (IH (ImageStore.deleteReferenceImageById x w)) as (H1 & H2 & H3 & H4 & H5).
    cbn zeta in *. split; [| split; [| split; [| split]; assumption]].
    + intros p Hp. destruct (decide (p ∈ l)) as [Hin | Hout]; [now apply H1 |].
      apply elem_of_cons in Hp as [-> | Hp]; [| contradiction].
      rewrite (H2 x Hout). cbn. apply lookup_delete_eq.
    + intros p Hp. apply not_elem_of_cons in Hp as [Hne Hp].
      rewrite (H2 p Hp). cbn. now apply lookup_delete_ne.
Qed.

(** [persistReferenceImages] either keeps every file, or undoes the
    inserts and the writes on its two lists; the file of a torn write is
    on neither. *)
Lemma persistReferenceImages_spec (F I : string -> Prop) imageId request w r w' :
  (forall (k : nat) ref, default [] (referenceImages request) !! k = Some ref ->
     I (uuidv4 P (ImageStore.drawn w + k))
     /\ F (referencePath N paths (uuidv4 P (ImageStore.drawn w + k)) ref)) ->
  ImageStore.persistReferenceImages P N paths fails torn imageId request w = (r, w') ->
  ImageStore.images w' = ImageStore.images w
  /\ ImageStore.image_tags w' = ImageStore.image_tags w
  /\ match r with
     | inr _ =>
         forall p, ImageStore.files w !! p <> None -> ImageStore.files w' !! p <> None
     | inl _ =>
         exists newIds newPaths (leftover : option string),
           Forall I newIds /\ Forall F newPaths
           /\ (forall p, p ∈ newPaths -> ImageStore.files w' !! p = None)
           /\ (forall p, p ∉ newPaths -> Some p <> leftover ->
                 ImageStore.files w' !! p = ImageStore.files w !! p)
           /\ (forall i, i ∈ newIds -> ImageStore.reference_images w' !! i = None)
           /\ (forall i, i ∉ newIds ->
                 ImageStore.reference_images w' !! i
                 = ImageStore.reference_images w !! i)
           /\ (forall p, leftover = Some p ->
                 F p /\ fails (ImageStore.WriteFile p) = true /\ torn p <> None)
     end.
Proof.
  intros Hfresh. unfold ImageStore.persistReferenceImages.
  destruct (default [] (referenceImages request)) as [| ref rest] eqn:Hrefs.
  { intros [= <- <-]. auto. }
  destruct (ImageStore.persistReferenceImages_loop P N paths fails torn imageId
              (ref :: rest) 0 [] [] w) as [r1 [[inserted written] w1]] eqn:Hloop.
  apply (persistReferenceImages_loop_spec F I) in Hloop
    as (newIds & newPaths & leftover & -> & -> & HIs & HFs & Hfiles & Hkeep & Hrows
        & Himg & Htags & Hleft);
    [| exact Hfresh].
  cbn [app] in *. destruct r1 as [message | []].
  - intros [= <- <-].
    destruct (fold_deleteReferenceImageById newIds w1) as (D1 & D2 & D3 & D4 & D5).
    cbn zeta in *.
    set (w2 := List.fold_left _ newIds w1) in *.
    destruct (fold_removeFileIfExists newPaths w2) as (R1 & R2 & R3 & R4 & R5).
    cbn zeta in *.
    set (w3 := List.fold_left _ newPaths w2) in *.
    split; [congruence |]. split; [congruence |].
    exists newIds, newPaths, leftover. split; [exact HIs |]. split; [exact HFs |].
    split; [exact R1 |]. split; [| split; [| split]].
    + intros p Hp Hne. rewrite (R2 p Hp), D4. now apply Hfiles.
    + intros i Hi. rewrite R4. now apply D1.
    + intros i Hi. rewrite R4, (D2 i Hi). now apply Hrows.
    + intros p Hp. destruct (Hleft p Hp) as (H1 & H2 & H3 & _). tauto.
  - intros [= <- <-]. split; [exact Himg |]. split; [exact Htags | exact Hkeep].
Qed.

(** The [catch] block after the row of the image was inserted: with no
    tag on the image, the [DELETE] statements go through. *)
Lemma persistGeneratedImage_catch_inserted imageId orig thumb error w row :
  ImageStore.images w !! imageId = Some row ->
  ImageStore.tagsOf imageId w = [] ->
  let result := ImageStore.persistGeneratedImage_catch true imageId orig thumb error w in
  fst result = inl error
  /\ ImageStore.images (snd result) = delete imageId (ImageStore.images w)
  /\ ImageStore.reference_images (snd result)
     = filter (fun kv => ReferenceImages.imageId (snd kv) <> imageId)
         (ImageStore.reference_images w)
  /\ ImageStore.files (snd result) = delete thumb (delete orig (ImageStore.files w)).
Proof.
  intros Hrow Htags.
  unfold ImageStore.persistGeneratedImage_catch, ImageStore.bind, ImageStore.ret,
    ImageStore.modify, ImageStore.throw, ImageStore.deleteImageHard.
  change (ImageStore.images (ImageStore.deleteReferenceImagesByImageId imageId w))
    with (ImageStore.images w).
  rewrite Hrow.
  assert (Hnone : ImageStore.referencesOf imageId
                    (ImageStore.deleteReferenceImagesByImageId imageId w) = ∅).
  { unfold ImageStore.referencesOf, ImageStore.deleteReferenceImagesByImageId.
    cbn [ImageStore.reference_images ImageStore.with_reference_images].
    apply map_empty_filter_2. intros i x Hx. cbn.
    apply map_lookup_filter_Some in Hx as [_ Hx]. intros Hy. now apply Hx. }
  assert (Hnone' : ImageStore.tagsOf imageId
                     (ImageStore.deleteReferenceImagesByImageId imageId w) = [])
    by exact Htags.
  rewrite Hnone, Hnone', !bool_decide_eq_true_2 by reflexivity.
  cbn. auto.
Qed.
End StoreFacts.

(** C2.  Let the identifiers that [persistGeneratedImage] draws be new.
    If the call throws -- while decoding, writing the original, probing
    the dimensions, writing the thumbnail, inserting the image row, or
    decoding, writing or inserting a reference image -- then the [images]
    table and the [reference_images] table are what they were before the
    call, the lookup of the attempted image id finds nothing, and the
    files are what they were, with one exception: when the write of a
    reference image fails after it created its file, that file is left
    behind, because its path is put on the list of written paths only
    after the write has succeeded.  (The original and the thumbnail are
    removed whether their writes succeeded or not.)  When no write is
    torn, the files are exactly what they were.  If the call returns, it
    returns that id, the lookup finds the row with the path of the
    original, and the original and the thumbnail are on disk. *)
Theorem persistGeneratedImage_atomic (P : Platform) (N : Node)
    (paths : ImageStore.StudioPaths) (fails : ImageStore.IoCall -> bool)
    (torn : string -> option nat)
    (input : ImageStore.PersistGeneratedImageInput) (w : ImageStore.World) :
  freshIdentifiers P N paths input w ->
  let imageId := attemptedImageId P w in
  let orig := attemptedOriginalPath P N paths input w in
  let thumb := attemptedThumbPath P N paths w in
  let result := fst (ImageStore.persistGeneratedImage P N paths fails torn input w) in
  let w' := snd (ImageStore.persistGeneratedImage P N paths fails torn input w) in
  match result with
  | inl _ =>
      ImageStore.images w' = ImageStore.images w
      /\ ImageStore.reference_images w' = ImageStore.reference_images w
      /\ ImageStore.getImageById imageId w' = None
      /\ (exists leftover : option string,
            (forall p, Some p <> leftover ->
               ImageStore.files w' !! p = ImageStore.files w !! p)
            /\ (forall p, leftover = Some p ->
                  attemptedReferencePath P N paths input w p
                  /\ fails (ImageStore.WriteFile p) = true /\ torn p <> None))
      /\ ((forall p, attemptedReferencePath P N paths input w p -> torn p = None) ->
          ImageStore.files w' = ImageStore.files w)
  | inr returned =>
      returned = imageId
      /\ (exists row, ImageStore.getImageById imageId w' = Some row
                      /\ Images.id row = imageId
                      /\ Images.filePath row = ImageStore.normalizeStudioPath N orig)
      /\ ImageStore.files w' !! orig <> None
      /\ ImageStore.files w' !! thumb <> None
  end.
Proof.
  intros Hfresh. cbv zeta.
  unfold freshIdentifiers, attemptedOriginalPath, attemptedThumbPath,
    attemptedRelativeThumbPath, attemptedImageId in *.
  unfold ImageStore.persistGeneratedImage. cbv zeta.
  set (imageId := uuidv4 P (ImageStore.drawn w)) in *.
  set (orig := path_join N (ImageStore.resolveOriginalOutputDirectory N paths _ _) _) in *.
  set (relThumb := ImageStore.buildRelativePath N "images" "thumbnails" _) in *.
  set (thumb := path_join N (ImageStore.root paths) relThumb) in *.
  destruct Hfresh as (Himg & Hrefs & Htagged & Horig & Hthumb & Hnew).
  assert (Hlookup : ImageStore.getImageById imageId (ImageStore.draw w) = None).
  { unfold ImageStore.getImageById. cbn [ImageStore.images ImageStore.draw].
    now rewrite Himg. }
  assert (Hwhole : forall files' : gmap string (list Byte.byte),
            (exists leftover : option string,
               (forall p, Some p <> leftover -> files' !! p = ImageStore.files w !! p)
               /\ (forall p, leftover = Some p ->
                     attemptedReferencePath P N paths input w p
                     /\ fails (ImageStore.WriteFile p) = true /\ torn p <> None)) ->
            (forall p, attemptedReferencePath P N paths input w p -> torn p = None) ->
            files' = ImageStore.files w).
  { intros files' (leftover & Hsame & Hleft) Hnone. apply map_eq. intros p.
    apply Hsame. intros <-. destruct (Hleft p eq_refl) as (Hp & _ & Ht).
    apply Ht, Hnone, Hp. }
  destruct (ImageStore.decodeBase64Payload N _ _ None) as [message | buffer].
  { cbn. split; [reflexivity |]. split; [reflexivity |]. split; [exact Hlookup |].
    split; [| reflexivity]. exists None. split; [reflexivity | discriminate]. }
  destruct (ImageStore.persistGeneratedImage_insert N fails torn input imageId orig
              relThumb thumb buffer (ImageStore.draw w))
    as [r1 w1] eqn:Hinsert.
  apply persistGeneratedImage_insert_spec in Hinsert
    as (Hfiles1 & Hrefs1 & Htags1 & Hdrawn1 & Hr1).
  cbn [ImageStore.draw ImageStore.files ImageStore.reference_images ImageStore.images
       ImageStore.image_tags ImageStore.drawn] in Hfiles1, Hrefs1, Htags1, Hdrawn1, Hr1.
  destruct r1 as [message | []].
  - (* a step before the row was inserted failed *)
    unfold ImageStore.persistGeneratedImage_catch, ImageStore.bind, ImageStore.ret,
      ImageStore.modify, ImageStore.throw.
    cbn [fst snd ImageStore.removeFileIfExists ImageStore.files ImageStore.images
         ImageStore.reference_images ImageStore.with_files].
    assert (Hsame : forall p,
              delete thumb (delete orig (ImageStore.files w1)) !! p
              = ImageStore.files w !! p).
    { intros p.
      destruct (decide (p = thumb)) as [-> | Ht]; [now rewrite lookup_delete_eq |].
      rewrite lookup_delete_ne by congruence.
      destruct (decide (p = orig)) as [-> | Ho]; [now rewrite lookup_delete_eq |].
      rewrite lookup_delete_ne by congruence. now apply Hfiles1. }
    split; [exact Hr1 |]. split; [exact Hrefs1 |]. split.
    + unfold ImageStore.getImageById.
      cbn [ImageStore.images ImageStore.with_files ImageStore.removeFileIfExists].
      now rewrite Hr1, Himg.
    + split; [| intros _; now apply map_eq].
      exists None. split; [intros p _; apply Hsame | discriminate].
  - destruct Hr1 as (_ & (row & Hrow & Hid & Hpath & Hdel) & Ho1 & Ht1).
    destruct (ImageStore.persistReferenceImages P N paths fails torn imageId
                (ImageStore.request input) w1) as [r2 w2] eqn:Hreferences.
    apply (persistReferenceImages_spec P N paths fails torn
             (fun p => ImageStore.files w !! p = None
                       /\ attemptedReferencePath P N paths input w p)
             (fun i => ImageStore.reference_images w !! i = None)) in Hreferences
      as (Himg2 & Htags2 & Hr2); cycle 1.
    { intros k ref Hk. rewrite Hdrawn1. destruct (Hnew k ref Hk) as [Hrow' Hfile].
      split; [exact Hrow' |]. split; [exact Hfile |]. now exists k, ref. }
    destruct r2 as [message | []]; cbn [fst snd].
    + (* a reference image failed: both rollbacks have run *)
      destruct Hr2 as (newIds & newPaths & leftover & HIs & HFs & Hgone & Hkept & Hgone'
                       & Hkept' & Hleft).
      assert (Hrows2 : ImageStore.reference_images w2 = ImageStore.reference_images w).
      { apply map_eq. intros i. destruct (decide (i ∈ newIds)) as [Hin | Hout].
        - rewrite (Hgone' i Hin). symmetry.
          rewrite Forall_forall in HIs. now apply HIs.
        - rewrite (Hkept' i Hout). now rewrite Hrefs1. }
      assert (Hunreferenced :
                filter (fun kv => ReferenceImages.imageId (snd kv) <> imageId)
                  (ImageStore.reference_images w2) = ImageStore.reference_images w).
      { rewrite Hrows2. apply map_filter_id. intros i x Hx. cbn. now apply (Hrefs i). }
      destruct (persistGeneratedImage_catch_inserted imageId orig thumb message w2 row)
        as (Hthrown & Himages2 & Hrows3 & Hfiles3).
      { rewrite Himg2, Hrow. apply lookup_insert_eq. }
      { unfold ImageStore.tagsOf in *. now rewrite Htags2, Htags1. }
      cbv zeta in Hthrown, Himages2, Hrows3, Hfiles3.
      rewrite Hthrown, Himages2, Hrows3, Hfiles3, Hunreferenced, Himg2, Hrow.
      assert (Himages : delete imageId (<[imageId := row]> (ImageStore.images w))
                        = ImageStore.images w) by now apply delete_insert_id.
      assert (Hleftover :
                exists leftover : option string,
                  (forall p, Some p <> leftover ->
                     delete thumb (delete orig (ImageStore.files w2)) !! p
                     = ImageStore.files w !! p)
                  /\ (forall p, leftover = Some p ->
                        attemptedReferencePath P N paths input w p
                        /\ fails (ImageStore.WriteFile p) = true /\ torn p <> None)).
      { exists leftover. split.
        - intros p Hne.
          destruct (decide (p = thumb)) as [-> | Ht]; [now rewrite lookup_delete_eq |].
          rewrite lookup_delete_ne by congruence.
          destruct (decide (p = orig)) as [-> | Ho]; [now rewrite lookup_delete_eq |].
          rewrite lookup_delete_ne by congruence.
          destruct (decide (p ∈ newPaths)) as [Hin | Hout].
          + rewrite (Hgone p Hin). symmetry.
            rewrite Forall_forall in HFs. now apply HFs.
          + rewrite (Hkept p Hout Hne). now apply Hfiles1.
        - intros p Hp. destruct (Hleft p Hp) as ([_ H1] & H2 & H3). tauto. }
      split; [exact Himages |]. split; [reflexivity |]. split.
      * unfold ImageStore.getImageById. now rewrite Himages2, Himg2, Hrow, Himages, Himg.
      * split; [exact Hleftover | now apply Hwhole].
    + (* success *)
      split; [reflexivity |]. split; [| split; apply Hr2; assumption].
      exists row. unfold ImageStore.getImageById.
      rewrite Himg2, Hrow, lookup_insert_eq, Hdel. tauto.
Qed.

Lemma emptyWorld_fresh :
  freshIdentifiers samplePlatform sampleNode samplePaths sampleInput emptyWorld.
Proof.
  unfold freshIdentifiers. cbn [emptyWorld ImageStore.images ImageStore.files
                                 ImageStore.reference_images].
  repeat split; try apply lookup_empty.
  intros k row Hk. rewrite lookup_empty in Hk. discriminate.
Qed.

Lemma persistGeneratedImage_atomic_witness :
  fst (ImageStore.persistGeneratedImage samplePlatform sampleNode samplePaths
         referenceWriteFails oneByteWritten sampleInput emptyWorld)
  = inl "ENOSPC: no space left on device, write"
  /\ ImageStore.images
       (snd (ImageStore.persistGeneratedImage samplePlatform sampleNode samplePaths
               referenceWriteFails oneByteWritten sampleInput emptyWorld)) = ∅
  /\ ImageStore.reference_images
       (snd (ImageStore.persistGeneratedImage samplePlatform sampleNode samplePaths
               referenceWriteFails oneByteWritten sampleInput emptyWorld)) = ∅
  /\ ImageStore.files
       (snd (ImageStore.persistGeneratedImage samplePlatform sampleNode samplePaths
               referenceWriteFails oneByteWritten sampleInput emptyWorld))
     = {[ "/home/u/.benana/images/references/uuid-1.png" := [Byte.x68] ]}
  /\ ImageStore.files
       (snd (ImageStore.persistGeneratedImage samplePlatform sampleNode samplePaths
               referenceWriteFails wholeWrites sampleInput emptyWorld)) = ∅
  /\ fst (ImageStore.persistGeneratedImage samplePlatform sampleNode samplePaths
            nothingFails wholeWrites sampleInput emptyWorld) = inr "uuid-0".
Proof.
  assert (Hfailed : fst (ImageStore.persistGeneratedImage samplePlatform sampleNode
                           samplePaths referenceWriteFails oneByteWritten sampleInput
                           emptyWorld)
                    = inl "ENOSPC: no space left on device, write")
    by (vm_compute; reflexivity).
  pose proof (persistGeneratedImage_atomic samplePlatform sampleNode samplePaths
                referenceWriteFails oneByteWritten sampleInput emptyWorld emptyWorld_fresh)
    as Htorn.
  cbv zeta in Htorn. rewrite Hfailed in Htorn.
  destruct Htorn as (Himages & Hrows & _).
  assert (Hfailed' : fst (ImageStore.persistGeneratedImage samplePlatform sampleNode
                            samplePaths referenceWriteFails wholeWrites sampleInput
                            emptyWorld)
                     = inl "ENOSPC: no space left on device, write")
    by (vm_compute; reflexivity).
  pose proof (persistGeneratedImage_atomic samplePlatform sampleNode samplePaths
                referenceWriteFails wholeWrites sampleInput emptyWorld emptyWorld_fresh)
    as Hwhole.
  cbv zeta in Hwhole. rewrite Hfailed' in Hwhole.
  destruct Hwhole as (_ & _ & _ & _ & Hfiles).
  pose proof (persistGeneratedImage_atomic samplePlatform sampleNode samplePaths
                nothingFails wholeWrites sampleInput emptyWorld emptyWorld_fresh) as Hok.
  cbv zeta in Hok.
  destruct (fst (ImageStore.persistGeneratedImage samplePlatform sampleNode samplePaths
                   nothingFails wholeWrites sampleInput emptyWorld))
    as [message | returned] eqn:E;
    [vm_compute in E; discriminate E |].
  destruct Hok as (-> & _).
  split; [exact Hfailed |]. split; [exact Himages |]. split; [exact Hrows |].
  split; [vm_compute; reflexivity |]. split; [| reflexivity].
  apply Hfiles. reflexivity.
Defined.

(** A positive ceiling below half a thousandth rounds to zero, and the
    store's next normalisation turns that zero into "no limit". *)
Example tiny_limit_is_disabled :
  Config.normalizeSpendLimit (Some (Num (4 # 10000))) = Some (0 # 1000)%Q
  /\ Config.publicMonthlySpendLimitUsd
       (Config.getPublicConfig (fun _ => None)
          (Config.readConfigFile
             {| Config.encryptedApiKey := None; Config.queueConcurrency := None;
                Config.monthlySpendLimitUsd := Some (Num (4 # 10000));
                Config.totalSpendLimitUsd := None |})) = None.
Proof. split; reflexivity. Qed.

(** * Further properties of the same code *)

(** ** Queries and inserts of db.ts *)

#[local] Instance dispatch_order_total : Total Db.dispatch_order.
Proof. intros a b. unfold Db.dispatch_order. lia. Qed.

#[local] Instance dispatch_order_trans : Transitive Db.dispatch_order.
Proof. intros a b c. unfold Db.dispatch_order. lia. Qed.

#[local] Instance newest_first_total : Total Db.newest_first.
Proof. intros a b. unfold Db.newest_first. lia. Qed.

#[local] Instance newest_first_trans : Transitive Db.newest_first.
Proof. intros a b c. unfold Db.newest_first. lia. Qed.

(** X1.  [getNextPendingJob] returns nothing exactly when no row is
    pending; otherwise it returns a pending row of the table that no
    pending row beats: none has a higher priority, and none of the same
    priority was created earlier. *)
Theorem getNextPendingJob_first (db : Db.StudioDatabase) :
  (Db.getNextPendingJob db = None <->
     forall row, In row (Db.queue_jobs db) -> Db.status row <> pending)
  /\ (forall job, Db.getNextPendingJob db = Some job ->
        In job (Db.queue_jobs db) /\ Db.status job = pending
        /\ forall row, In row (Db.queue_jobs db) -> Db.status row = pending ->
             Db.priority row <= Db.priority job
             /\ (Db.priority row = Db.priority job ->
                 Db.createdAt job <= Db.createdAt row)).
Proof.
  split.
  - rewrite getNextPendingJob_None. split.
    + intros Hnone row Hin Hp.
      assert (Hf : In row (List.filter Db.is_pending (Db.queue_jobs db))).
      { apply List.filter_In. split; [exact Hin | now apply is_pending_iff]. }
      rewrite Hnone in Hf. destruct Hf.
    + intros Hall. destruct (List.filter Db.is_pending (Db.queue_jobs db)) as [| r l] eqn:E;
        [reflexivity |].
      assert (Hr : In r (List.filter Db.is_pending (Db.queue_jobs db)))
        by (rewrite E; now left).
      apply List.filter_In in Hr as [Hin Hp]. apply is_pending_iff in Hp.
      now destruct (Hall r Hin).
  - intros job Hnext. destruct (getNextPendingJob_In db job Hnext) as [Hin Hp].
    split; [exact Hin |]. split; [exact Hp |]. intros row Hrow Hrp.
    unfold Db.getNextPendingJob in Hnext.
    pose proof (StronglySorted_merge_sort Db.dispatch_order
                  (List.filter Db.is_pending (Db.queue_jobs db))) as Hsorted.
    assert (Hel : row ∈ merge_sort Db.dispatch_order
                          (List.filter Db.is_pending (Db.queue_jobs db))).
    { rewrite merge_sort_Permutation. apply list_elem_of_In, List.filter_In.
      split; [exact Hrow | now apply is_pending_iff]. }
    destruct (merge_sort _ _) as [| x l]; [discriminate |].
    injection Hnext as ->. apply StronglySorted_inv in Hsorted as [_ Hall].
    apply elem_of_cons in Hel as [-> | Hel]; [lia |].
    rewrite Forall_forall in Hall. specialize (Hall row Hel).
    unfold Db.dispatch_order in Hall. lia.
Qed.

Lemma getNextPendingJob_first_witness :
  exists job, Db.getNextPendingJob orderingDatabase = Some job /\ Db.id job = "C"
              /\ Db.status job = pending.
Proof.
  destruct (getNextPendingJob_first orderingDatabase) as [_ Hfirst].
  eexists. split; [reflexivity |]. split; [reflexivity |].
  destruct (Hfirst _ eq_refl) as (_ & Hp & _). exact Hp.
Defined.

(** X2.  [listOpenQueueJobs] returns exactly the pending and running rows
    of the table, each as often as it occurs, newest first. *)
Theorem listOpenQueueJobs_spec (db : Db.StudioDatabase) :
  Db.listOpenQueueJobs db ≡ₚ List.filter Db.is_open (Db.queue_jobs db)
  /\ (forall row, In row (Db.listOpenQueueJobs db) <->
        In row (Db.queue_jobs db)
        /\ (Db.status row = pending \/ Db.status row = running))
  /\ StronglySorted (fun a b => Db.createdAt b <= Db.createdAt a)
       (Db.listOpenQueueJobs db).
Proof.
  unfold Db.listOpenQueueJobs. split; [apply merge_sort_Permutation |]. split.
  - intros row. rewrite <- list_elem_of_In, merge_sort_Permutation, list_elem_of_In,
      List.filter_In.
    unfold Db.is_open. destruct (Db.status row); intuition congruence.
  - apply (StronglySorted_merge_sort Db.newest_first).
Qed.

(** X3.  Inserting a job whose id is not in the table succeeds, and the
    lookup of that id then returns the inserted row with no result, no
    error and no start or completion time; the lookup of every other id
    is unchanged.  Inserting an id that is in the table throws and there
    is no new table. *)
Theorem insertQueueJob_lookup (now : Z) (jobId : string) (st : QueueStatus)
    (req : GenerationRequest) (prio : Z) (db : Db.StudioDatabase) :
  (Db.getQueueJobById jobId db = None ->
     exists db',
       Db.insertQueueJob now jobId st req prio db = inr db'
       /\ Db.getQueueJobById jobId db'
          = Some {| Db.id := jobId; Db.status := st; Db.request := req;
                    Db.resultId := None; Db.error := None; Db.priority := prio;
                    Db.createdAt := now; Db.startedAt := None;
                    Db.completedAt := None |}
       /\ (forall other, other <> jobId ->
             Db.getQueueJobById other db' = Db.getQueueJobById other db)
       /\ length (Db.queue_jobs db') = S (length (Db.queue_jobs db))
       /\ Db.usage_log db' = Db.usage_log db)
  /\ (Db.getQueueJobById jobId db <> None ->
        Db.insertQueueJob now jobId st req prio db
        = inl "UNIQUE constraint failed: queue_jobs.id").
Proof.
  unfold Db.insertQueueJob, Db.getQueueJobById. split.
  - intros Hnone.
    assert (Hex : existsb (Db.has_id jobId) (Db.queue_jobs db) = false).
    { destruct (existsb _ _) eqn:E; [| reflexivity].
      apply List.existsb_exists in E as (x & Hx & Hid).
      pose proof (List.find_none _ _ Hnone x Hx). congruence. }
    rewrite Hex. eexists. split; [reflexivity |]. cbn [Db.queue_jobs Db.with_queue_jobs].
    split; [| split; [| split; [| reflexivity]]].
    + induction (Db.queue_jobs db) as [| r l IH]; cbn.
      * unfold Db.has_id. cbn. now rewrite String.eqb_refl.
      * cbn in Hnone, Hex. destruct (Db.has_id jobId r); [discriminate |].
        apply IH; assumption.
    + intros other Hne. clear Hnone Hex.
      induction (Db.queue_jobs db) as [| r l IH]; cbn.
      * unfold Db.has_id. cbn. apply String.eqb_neq in Hne.
        rewrite String.eqb_sym. now rewrite Hne.
      * destruct (Db.has_id other r); [reflexivity | exact IH].
    + rewrite length_app. cbn. lia.
  - intros Hsome. destruct (List.find _ _) as [row |] eqn:E; [| congruence].
    apply List.find_some in E as [Hin Hid].
    assert (Hex : existsb (Db.has_id jobId) (Db.queue_jobs db) = true).
    { apply List.existsb_exists. eauto. }
    now rewrite Hex.
Qed.

Lemma insertQueueJob_lookup_witness :
  (exists db', Db.insertQueueJob 20 "d" pending (sampleRequest None None) 0 sampleDatabase
               = inr db'
               /\ Db.status <$> Db.getQueueJobById "d" db' = Some pending)
  /\ Db.insertQueueJob 20 "a" pending (sampleRequest None None) 0 sampleDatabase
     = inl "UNIQUE constraint failed: queue_jobs.id".
Proof.
  destruct (insertQueueJob_lookup 20 "d" pending (sampleRequest None None) 0 sampleDatabase)
    as [Hnew _].
  destruct (insertQueueJob_lookup 20 "a" pending (sampleRequest None None) 0 sampleDatabase)
    as [_ Hold].
  split.
  - destruct (Hnew eq_refl) as (db' & Hins & Hget & _).
    exists db'. split; [exact Hins |]. now rewrite Hget.
  - apply Hold. discriminate.
Defined.

(** X4.  A usage entry that is recorded now counts towards the spend of
    every window from then on: the daily, the monthly and the total sum
    each grow by its cost estimate.  The job table is untouched. *)
Theorem insertUsageLog_getSessionCost (one_month_before : Z -> Z) (window : CostWindow)
    (now : Z) (logId model : string) (res : option string) (cost : Q)
    (tokensIn tokensOut : option number) (db db' : Db.StudioDatabase) :
  one_month_before now <= now ->
  Db.insertUsageLog now logId model res cost tokensIn tokensOut db = inr db' ->
  (Db.getSessionCost one_month_before window now db'
   == Db.getSessionCost one_month_before window now db + cost)%Q
  /\ Db.queue_jobs db' = Db.queue_jobs db
  /\ length (Db.usage_log db') = S (length (Db.usage_log db)).
Proof.
  intros Hmonth Hins. unfold Db.insertUsageLog in Hins.
  destruct (existsb _ _); [discriminate |]. injection Hins as <-.
  cbn [Db.queue_jobs Db.usage_log]. split; [| split; [reflexivity |]].
  - unfold Db.getSessionCost. cbn [Db.usage_log].
    rewrite List.filter_app, List.map_app.
    assert (Hin : Db.in_window one_month_before window now
                    {| Db.log_id := logId; Db.log_model := model; Db.log_resolution := res;
                       Db.cost_estimate := cost; Db.tokens_in := tokensIn;
                       Db.tokens_out := tokensOut; Db.created_at := now |} = true).
    { unfold Db.in_window, Db.SECONDS_PER_DAY. cbn [Db.created_at].
      destruct window; [apply Z.leb_le; lia | now apply Z.leb_le | reflexivity]. }
    cbn [List.filter]. rewrite Hin. cbn [List.map Db.cost_estimate].
    induction (List.map Db.cost_estimate
                 (List.filter (Db.in_window one_month_before window now) (Db.usage_log db)))
      as [| c l IH].
    + cbn [List.app List.fold_right]. ring.
    + cbn [List.app List.fold_right]. rewrite IH. ring.
  - rewrite length_app. cbn. lia.
Qed.

Lemma insertUsageLog_getSessionCost_witness :
  exists db',
    Db.insertUsageLog 1000 "u9" "gemini-3-pro-image-preview" (Some "4K") 0.24 None None
      spentDatabase = inr db'
    /\ (Db.getSessionCost (one_month_before samplePlatform) month 1000 db'
        == Db.getSessionCost (one_month_before samplePlatform) month 1000 spentDatabase
           + 0.24)%Q.
Proof.
  eexists. split; [reflexivity |].
  apply (insertUsageLog_getSessionCost (one_month_before samplePlatform) month 1000
           "u9" "gemini-3-pro-image-preview" (Some "4K") 0.24 None None spentDatabase).
  - cbn. lia.
  - reflexivity.
Defined.

(** ** The life cycle of a job *)

Lemma forward_refl s : forward s s = true.
Proof. now destruct s. Qed.

Lemma forward_trans s1 s2 s3 :
  forward s1 s2 = true -> forward s2 s3 = true -> forward s1 s3 = true.
Proof. destruct s1, s2, s3; cbn; congruence. Qed.

Lemma forward_antisym s1 s2 : forward s1 s2 = true -> forward s2 s1 = true -> s1 = s2.
Proof. destruct s1, s2; cbn; congruence. Qed.

Lemma advances_refl row : advances row row.
Proof. unfold advances. auto using forward_refl. Qed.

Lemma advances_trans r1 r2 r3 : advances r1 r2 -> advances r2 r3 -> advances r1 r3.
Proof.
  intros (Hk1 & Hf1 & He1) (Hk2 & Hf2 & He2). split; [congruence |].
  split; [eapply forward_trans; eassumption |]. intros Hs.
  assert (Hs12 : Db.status r2 = Db.status r1).
  { symmetry. apply forward_antisym; [exact Hf1 |]. now rewrite <- Hs. }
  rewrite (He2 (eq_trans Hs (eq_sym Hs12))). now apply He1.
Qed.

Lemma advancesRows_refl l : advancesRows l l.
Proof. intros i row H. eauto using advances_refl. Qed.

Lemma advancesRows_trans l1 l2 l3 :
  advancesRows l1 l2 -> advancesRows l2 l3 -> advancesRows l1 l3.
Proof.
  intros H12 H23 i row H. destruct (H12 i row H) as (row' & H' & Ha).
  destruct (H23 i row' H') as (row'' & H'' & Ha'). eauto using advances_trans.
Qed.

Lemma advancesRows_app l added : advancesRows l (l ++ added).
Proof.
  intros i row H. exists row. split; [| apply advances_refl].
  rewrite lookup_app_l; [exact H |]. now apply lookup_lt_Some in H.
Qed.

(** An update of the rows that match, where the update advances each of
    them. *)
Lemma advancesRows_update (matches : Db.QueueJob -> bool) (set : Db.QueueJob -> Db.QueueJob)
    (l : list Db.QueueJob) :
  (forall r, In r l -> matches r = true -> advances r (set r)) ->
  advancesRows l (List.map (fun r => if matches r then set r else r) l).
Proof.
  intros Hset i row H. change (List.map ?f l) with (f <$> l).
  rewrite list_lookup_fmap, H. cbn. eexists. split; [reflexivity |].
  destruct (matches row) eqn:E; [| apply advances_refl].
  apply Hset; [| exact E]. apply list_elem_of_In. eapply list_elem_of_lookup_2, H.
Qed.

Lemma NoDup_id_eq (l : list Db.QueueJob) r1 r2 :
  NoDup (Db.id <$> l) -> In r1 l -> In r2 l -> Db.id r1 = Db.id r2 -> r1 = r2.
Proof.
  intros Hnodup H1 H2 Hid. apply list_elem_of_In, list_elem_of_lookup in H1 as [i Hi].
  apply list_elem_of_In, list_elem_of_lookup in H2 as [j Hj].
  assert (i = j).
  { apply (NoDup_lookup (Db.id <$> l) i j (Db.id r1) Hnodup); rewrite list_lookup_fmap.
    - now rewrite Hi.
    - rewrite Hj. cbn. congruence. }
  congruence.
Qed.

Lemma startsNothing_refl l : startsNothing l l.
Proof. intros i row H _. exact H. Qed.

Lemma startsNothing_trans l1 l2 l3 :
  startsNothing l1 l2 -> startsNothing l2 l3 -> startsNothing l1 l3.
Proof. intros H12 H23 i row H Hr. eauto. Qed.

Lemma startsNothing_update (matches : Db.QueueJob -> bool) (set : Db.QueueJob -> Db.QueueJob)
    (l : list Db.QueueJob) :
  (forall r, matches r = true -> Db.status (set r) <> running) ->
  startsNothing l (List.map (fun r => if matches r then set r else r) l).
Proof.
  intros Hset i row'. change (List.map ?f l) with (f <$> l).
  rewrite list_lookup_fmap. destruct (l !! i) as [row |]; [| discriminate].
  cbn. intros [= <-] Hr. destruct (matches row) eqn:E; [| reflexivity].
  now destruct (Hset row E).
Qed.

Lemma startsNothing_app l added :
  Forall (fun r => Db.status r = pending) added -> startsNothing l (l ++ added).
Proof.
  intros Hadded i row' H Hr. apply lookup_app_Some in H as [H | [_ H]]; [exact H |].
  rewrite Forall_forall in Hadded.
  specialize (Hadded row' (list_elem_of_lookup_2 _ _ _ H)). congruence.
Qed.

Section Lifecycle.
Variable P : Platform.

Lemma kick_fuel_paused (fuel : nat) q : Queue.paused q = true -> Queue.kick_fuel P fuel q = q.
Proof. intros H. destruct fuel; cbn; [reflexivity | now rewrite H]. Qed.

Lemma kick_paused q : Queue.paused q = true -> Queue.kick P q = q.
Proof. apply kick_fuel_paused. Qed.

(** The rows that [enqueue]'s loop leaves behind, whether or not an
    insert throws. *)
Lemma enqueue_loop_rows (n : nat) request ids q :
  let q' := snd (Queue.enqueue_loop P n request ids q) in
  (exists added, rows q' = rows q ++ added
                 /\ Forall (fun r => Db.status r = pending) added)
  /\ Queue.paused q' = Queue.paused q.
Proof.
  revert ids q. induction n as [| n IH]; intros ids q; cbn [Queue.enqueue_loop].
  - cbn. split; [| reflexivity]. exists []. now rewrite app_nil_r.
  - destruct (Db.insertQueueJob _ _ _ _ _ _) as [message | db] eqn:E.
    + cbn. split; [| reflexivity]. exists []. now rewrite app_nil_r.
    + apply (insert_pending (Queue.draw q)) in E as (_ & Hrows & _).
      destruct (IH (ids ++ [uuidv4 P (Queue.drawn q)])
                  (Queue.with_database db (Queue.draw q))) as [(added & Hadded & Hp) Hpaused].
      cbv zeta. split; [| exact Hpaused]. rewrite Hadded.
      change (rows (Queue.with_database db (Queue.draw q))) with (Db.queue_jobs db).
      rewrite Hrows. change (rows (Queue.draw q)) with (rows q).
      rewrite <- app_assoc. eexists. split; [reflexivity |].
      constructor; [reflexivity | exact Hp].
Qed.

Lemma runJob_advances (kick' : Queue.GenerationQueue -> Queue.GenerationQueue) job q :
  (forall q0, wellFormed q0 -> advancesRows (rows q0) (rows (kick' q0))) ->
  wellFormed q -> Db.getNextPendingJob (Queue.database q) = Some job ->
  advancesRows (rows q) (rows (Queue.runJob P kick' job q)).
Proof.
  intros Hkick Hwf Hnext.
  apply getNextPendingJob_In in Hnext as [Hin Hstatus].
  pose proof (start_job q job Hwf Hin Hstatus) as Hs. cbv zeta in Hs.
  unfold Queue.runJob. cbv zeta.
  set (q3 := Queue.emit Queue.QueueChanged _) in *.
  change (Queue.emit Queue.QueueChanged _) with q3 in Hs.
  destruct Hs as (Hwf3 & _ & _ & _ & job' & Hin' & Hid' & Hst' & _).
  assert (H3 : advancesRows (rows q) (rows q3)).
  { apply advancesRows_update. intros r Hr Hm. apply has_id_true in Hm.
    rewrite (NoDup_id_eq _ r job (proj1 Hwf) Hr Hin Hm).
    split; [reflexivity |]. cbn. rewrite Hstatus. split; [reflexivity | discriminate]. }
  destruct (Queue.runJob_checks P job q3) as [message | cost]; [| exact H3].
  rewrite (runJob_catch_id job job' message q3) by (symmetry; exact Hid').
  assert (Hp' : Db.is_pending job' = false) by (unfold Db.is_pending; now rewrite Hst').
  pose proof (fail_job q3 job' message Hwf3 Hin' Hp') as Hf. cbv zeta in Hf.
  assert (Hr' : Db.is_running job' = true) by (unfold Db.is_running; now rewrite Hst').
  rewrite Hr' in Hf. cbn [Z.b2z] in Hf.
  unfold Queue.runJob_finally.
  set (q5 := Queue.emit Queue.QueueChanged (Queue.with_activeRuns _ _)).
  change (Queue.emit Queue.QueueChanged (Queue.with_activeRuns _ _)) with q5 in Hf.
  destruct Hf as (Hwf5 & _).
  eapply advancesRows_trans; [exact H3 |].
  eapply advancesRows_trans; [| exact (Hkick q5 Hwf5)].
  apply advancesRows_update. intros r Hr Hm. apply has_id_true in Hm.
  rewrite (NoDup_id_eq _ r job' (proj1 Hwf3) Hr Hin' Hm).
  split; [reflexivity |]. cbn. rewrite Hst'. split; [reflexivity | discriminate].
Qed.

Lemma kick_fuel_advances (fuel : nat) q :
  wellFormed q -> advancesRows (rows q) (rows (Queue.kick_fuel P fuel q)).
Proof.
  revert q. induction fuel as [| fuel IH]; intros q Hwf; [apply advancesRows_refl |].
  cbn [Queue.kick_fuel]. destruct (Queue.paused q); [apply advancesRows_refl |].
  destruct (Queue.activeRuns q <? Queue.concurrency q); [| apply advancesRows_refl].
  destruct (Db.getNextPendingJob (Queue.database q)) as [job |] eqn:Hnext;
    [| apply advancesRows_refl].
  destruct (runJob_dispatched P (Queue.kick_fuel P fuel) job q
              (kick_fuel_dispatched P fuel) Hwf Hnext) as (Hwf1 & _).
  eapply advancesRows_trans; [| exact (IH _ Hwf1)].
  now apply runJob_advances.
Qed.

Lemma kick_advances q : wellFormed q -> advancesRows (rows q) (rows (Queue.kick P q)).
Proof. apply kick_fuel_advances. Qed.

(** What the continuation of a job does to the table before it calls
    [kick]: it rewrites the rows that bear the job's id, to completed or
    to failed. *)
Lemma resume_rows job outcome q :
  exists q'' (set : Db.QueueJob -> Db.QueueJob),
    Queue.runJob_resume P job outcome q = Queue.kick P q''
    /\ rows q'' = List.map (fun r => if Db.has_id (Db.id job) r then set r else r) (rows q)
    /\ (forall r, rowKey (set r) = rowKey r
                  /\ (Db.status (set r) = completed \/ Db.status (set r) = failed))
    /\ Queue.paused q'' = Queue.paused q
    /\ Queue.activeRuns q'' = Z.max 0 (Queue.activeRuns q - 1).
Proof.
  unfold Queue.runJob_resume, Queue.runJob_finally. destruct outcome as [imageId usage | message].
  - cbv zeta. destruct (Db.insertUsageLog _ _ _ _ _ _ _ _) as [message | db] eqn:E.
    + eexists. eexists (fun r => _ (_ r)). split; [reflexivity |].
      split; [| split; [| split; reflexivity]].
      * unfold rows. cbn [Queue.database Queue.emit Queue.with_activeRuns Queue.runJob_catch
                            Queue.with_database Queue.draw].
        unfold Db.markQueueJobFailed, Db.markQueueJobCompleted, Db.update_queue_jobs.
        cbn [Db.queue_jobs Db.with_queue_jobs]. rewrite List.map_map.
        apply List.map_ext. intros r. unfold Db.has_id. destruct (String.eqb (Db.id r) _) eqn:Er.
        -- cbn [Db.id]. rewrite Er. reflexivity.
        -- rewrite Er. reflexivity.
      * intros r. cbn. split; [reflexivity | now right].
    + unfold Db.insertUsageLog in E. destruct (existsb _ _); [discriminate |].
      injection E as <-.
      eexists. eexists. split; [reflexivity |]. split; [reflexivity |].
      split; [| split; reflexivity]. intros r. cbn. split; [reflexivity | now left].
  - eexists. eexists. split; [reflexivity |]. split; [reflexivity |].
    split; [| split; reflexivity]. intros r. cbn. split; [reflexivity | now right].
Qed.

Lemma settle_advances jobId outcome q :
  wellFormed q -> advancesRows (rows q) (rows (Queue.settle P jobId outcome q)).
Proof.
  intros Hwf. unfold Queue.settle.
  destruct (Db.getQueueJobById jobId (Queue.database q)) as [job |] eqn:Hget;
    [| apply advancesRows_refl].
  destruct (Db.is_running job) eqn:Hr; [| apply advancesRows_refl].
  apply getQueueJobById_In in Hget as [Hin _]. apply is_running_iff in Hr.
  destruct (resume_rows job outcome q) as (q'' & set & -> & Hrows & Hset & _ & Hact).
  assert (Hnr : Db.is_running (set job) = false).
  { unfold Db.is_running. destruct (Hset job) as [_ [-> | ->]]; reflexivity. }
  destruct (finish_rows q q'' job set Hwf Hin Hr (fun r => proj1 (Hset r)) Hnr Hrows Hact)
    as (Hwf'' & _).
  eapply advancesRows_trans; [| exact (kick_advances q'' Hwf'')].
  rewrite Hrows. apply advancesRows_update. intros r Hin' Hm. apply has_id_true in Hm.
  rewrite (NoDup_id_eq _ r job (proj1 Hwf) Hin' Hin Hm).
  destruct (Hset job) as [Hkey Hst]. split; [exact Hkey |]. rewrite Hr.
  destruct Hst as [-> | ->]; (split; [reflexivity | discriminate]).
Qed.

Lemma cancel_rows jobId q :
  rows (snd (Queue.cancel jobId q)) = rows q
  \/ rows (snd (Queue.cancel jobId q))
     = List.map (fun r => if Db.has_id jobId r && Db.is_pending r
                          then {| Db.id := Db.id r; Db.status := cancelled;
                                  Db.request := Db.request r; Db.resultId := Db.resultId r;
                                  Db.error := Db.error r; Db.priority := Db.priority r;
                                  Db.createdAt := Db.createdAt r;
                                  Db.startedAt := Db.startedAt r;
                                  Db.completedAt := Some (Queue.clock q) |}
                          else r) (rows q).
Proof.
  unfold Queue.cancel. destruct (Db.getQueueJobById jobId (Queue.database q)) as [job |];
    [| now left].
  destruct (Db.is_pending job); [now right | now left].
Qed.

Lemma step_advances (e : Queue.Event) q :
  wellFormed q -> advancesRows (rows q) (rows (Queue.step P e q)).
Proof.
  intros Hwf. destruct e as [request | | | jobId | value | jobId outcome | patch | key | t];
    cbn [Queue.step].
  - unfold Queue.enqueue. cbv zeta.
    destruct (Queue.assertSpendWithinLimits P _ None q); [apply advancesRows_refl |].
    pose proof (enqueue_loop_rows
                  (Z.to_nat (Z.min Queue.MAX_BATCH_COUNT
                               (Z.max 1 (default 1 (batchCount request))))) request [] q)
      as [(added & Hrows & _) _].
    pose proof (enqueue_loop_wellFormed P
                  (Z.to_nat (Z.min Queue.MAX_BATCH_COUNT
                               (Z.max 1 (default 1 (batchCount request))))) request [] q Hwf)
      as (Hwf1 & _).
    destruct (Queue.enqueue_loop P _ request [] q) as [[message | ids] q1];
      cbn [snd] in *.
    + rewrite Hrows. apply advancesRows_app.
    + eapply advancesRows_trans;
        [| apply (kick_advances (Queue.emit Queue.QueueChanged q1)); exact Hwf1].
      change (rows (Queue.emit Queue.QueueChanged q1)) with (rows q1).
      rewrite Hrows. apply advancesRows_app.
  - apply advancesRows_refl.
  - apply (kick_advances (Queue.emit Queue.QueueChanged (Queue.with_paused false q))).
    exact Hwf.
  - destruct (cancel_rows jobId q) as [-> | ->]; [apply advancesRows_refl |].
    apply advancesRows_update. intros r _ Hm. apply andb_true_iff in Hm as [_ Hp].
    apply is_pending_iff in Hp. split; [reflexivity |]. cbn. rewrite Hp.
    split; [reflexivity | discriminate].
  - apply (kick_advances (Queue.with_concurrency (Queue.clampConcurrency value) q)).
    exact Hwf.
  - now apply settle_advances.
  - destruct (Ipc.parseConfigPatch patch) as [message | validated];
      [apply advancesRows_refl |].
    apply (kick_advances
             (Queue.with_concurrency _ (Queue.with_configStore _ q))).
    exact Hwf.
  - apply advancesRows_refl.
  - apply advancesRows_refl.
Qed.

Lemma step_startsNothing (e : Queue.Event) q :
  Queue.paused q = true -> e <> Queue.Resume ->
  Queue.paused (Queue.step P e q) = true
  /\ startsNothing (rows q) (rows (Queue.step P e q)).
Proof.
  intros Hp Hne. destruct e as [request | | | jobId | value | jobId outcome | patch | key | t];
    cbn [Queue.step].
  - unfold Queue.enqueue. cbv zeta.
    destruct (Queue.assertSpendWithinLimits P _ None q);
      [split; [exact Hp | apply startsNothing_refl] |].
    pose proof (enqueue_loop_rows
                  (Z.to_nat (Z.min Queue.MAX_BATCH_COUNT
                               (Z.max 1 (default 1 (batchCount request))))) request [] q)
      as [(added & Hrows & Hadded) Hpaused].
    destruct (Queue.enqueue_loop P _ request [] q) as [[message | ids] q1];
      cbn [snd] in *.
    + split; [congruence |]. rewrite Hrows. now apply startsNothing_app.
    + rewrite kick_paused by (cbn; congruence). split; [cbn; congruence |].
      change (rows (Queue.emit Queue.QueueChanged q1)) with (rows q1).
      rewrite Hrows. now apply startsNothing_app.
  - split; [reflexivity | apply startsNothing_refl].
  - congruence.
  - split.
    + unfold Queue.cancel. destruct (Db.getQueueJobById jobId (Queue.database q)) as [job |];
        [| exact Hp].
      destruct (Db.is_pending job); exact Hp.
    + destruct (cancel_rows jobId q) as [-> | ->]; [apply startsNothing_refl |].
      apply startsNothing_update. intros r _. discriminate.
  - unfold Queue.setConcurrency. rewrite kick_paused by exact Hp.
    split; [exact Hp | apply startsNothing_refl].
  - unfold Queue.settle.
    destruct (Db.getQueueJobById jobId (Queue.database q)) as [job |];
      [| split; [exact Hp | apply startsNothing_refl]].
    destruct (Db.is_running job); [| split; [exact Hp | apply startsNothing_refl]].
    destruct (resume_rows job outcome q) as (q'' & set & -> & Hrows & Hset & Hpaused & _).
    rewrite kick_paused by congruence. split; [congruence |].
    rewrite Hrows. apply startsNothing_update. intros r _.
    destruct (Hset r) as [_ [-> | ->]]; discriminate.
  - destruct (Ipc.parseConfigPatch patch) as [message | validated];
      [split; [exact Hp | apply startsNothing_refl] |].
    unfold Queue.setConcurrency. rewrite kick_paused by exact Hp.
    split; [exact Hp | apply startsNothing_refl].
  - split; [exact Hp | apply startsNothing_refl].
  - split; [exact Hp | apply startsNothing_refl].
Qed.
End Lifecycle.

(** X5.  In every run of the scheduler from a consistent state, a job row
    keeps its place, its id, its request, its priority and its creation
    time, and its status only moves forward: pending to running, failed or
    cancelled, running to completed or failed.  A row whose status did not
    change did not change at all, so a completed, failed or cancelled job
    is final, and no row is ever removed. *)
Theorem queue_rows_only_advance (P : Platform) (events : list Queue.Event)
    (q : Queue.GenerationQueue) :
  wellFormed q ->
  (forall (i : nat) row, rows q !! i = Some row ->
     exists row', rows (Queue.run P events q) !! i = Some row'
       /\ rowKey row' = rowKey row
       /\ forward (Db.status row) (Db.status row') = true
       /\ (Db.status row' = Db.status row -> row' = row)
       /\ (Db.status row = completed \/ Db.status row = failed
           \/ Db.status row = cancelled -> row' = row))
  /\ (length (rows q) <= length (rows (Queue.run P events q)))%nat.
Proof.
  intros Hwf.
  assert (H : advancesRows (rows q) (rows (Queue.run P events q))).
  { revert q Hwf. unfold Queue.run.
    induction events as [| e events IH]; intros q Hwf; [apply advancesRows_refl |].
    cbn [List.fold_left]. eapply advancesRows_trans; [now apply (step_advances P e) |].
    apply IH. now apply step_dispatched. }
  split.
  - intros i row Hrow. destruct (H i row Hrow) as (row' & Hrow' & Hkey & Hfw & Hsame).
    exists row'. repeat (split; [assumption |]). intros Hterminal. apply Hsame.
    destruct (Db.status row), (Db.status row'); cbn in Hfw; try congruence;
      destruct Hterminal as [? | [? | ?]]; discriminate.
  - destruct (decide (length (rows q) = 0%nat)) as [-> | Hne]; [lia |].
    destruct (lookup_lt_is_Some_2 (rows q) (length (rows q) - 1)) as [row Hrow]; [lia |].
    destruct (H _ _ Hrow) as (row' & Hrow' & _). apply lookup_lt_Some in Hrow'. lia.
Qed.

Lemma queue_rows_only_advance_witness :
  exists row',
    rows (Queue.run samplePlatform
            [Queue.Settle "c" (Queue.Thrown "HTTP 400"); Queue.Resume; Queue.Cancel "c"]
            (sampleQueue (snd (Db.requeueRunningJobs sampleDatabase))
               (sampleConfig None None))) !! 0%nat = Some row'
    /\ rowKey row' = rowKey (sampleJob "a" pending 10)
    /\ forward pending (Db.status row') = true.
Proof.
  destruct (queue_rows_only_advance samplePlatform
              [Queue.Settle "c" (Queue.Thrown "HTTP 400"); Queue.Resume; Queue.Cancel "c"]
              (sampleQueue (snd (Db.requeueRunningJobs sampleDatabase))
                 (sampleConfig None None))) as [Hrows _].
  - split; [apply (bool_decide_unpack (NoDup _)); vm_compute; exact I | reflexivity].
  - destruct (Hrows 0%nat (sampleJob "a" pending 10) eq_refl)
      as (row' & Hrow' & Hkey & Hfw & _).
    exists row'. auto.
Defined.

(** X6.  A paused queue starts nothing: while no [resume] arrives, the
    queue stays paused whatever else happens (enqueue, cancel, a running
    job settling, a new concurrency limit, a configuration update), and
    every row that is running afterwards was running before, unchanged.
    New and waiting jobs stay pending. *)
Theorem paused_queue_starts_nothing (P : Platform) (events : list Queue.Event)
    (q : Queue.GenerationQueue) :
  Queue.paused q = true ->
  Forall (fun e => e <> Queue.Resume) events ->
  Queue.paused (Queue.run P events q) = true
  /\ (forall (i : nat) row', rows (Queue.run P events q) !! i = Some row' ->
        Db.status row' = running -> rows q !! i = Some row')
  /\ Queue.kick P q = q
  /\ Queue.paused (Queue.pause q) = true /\ rows (Queue.pause q) = rows q.
Proof.
  intros Hp Hevents. split; [| split; [| split; [now apply kick_paused | now split]]].
  - revert q Hp. unfold Queue.run.
    induction Hevents as [| e events He _ IH]; intros q Hp; [exact Hp |].
    cbn [List.fold_left]. apply IH. now apply step_startsNothing.
  - change (startsNothing (rows q) (rows (Queue.run P events q))).
    revert q Hp. unfold Queue.run.
    induction Hevents as [| e events He _ IH]; intros q Hp; [apply startsNothing_refl |].
    cbn [List.fold_left]. destruct (step_startsNothing P e q Hp He) as [Hp' Hs].
    eapply startsNothing_trans; [exact Hs | now apply IH].
Qed.

Lemma paused_queue_starts_nothing_witness :
  let q := Queue.run samplePlatform
             [Queue.Enqueue (sampleRequest (Some "1K") (Some 2)); Queue.SetConcurrency 8]
             (sampleQueue sampleDatabase (sampleConfig None None)) in
  Queue.paused q = true
  /\ forall (i : nat) row', rows q !! i = Some row' -> Db.status row' = running ->
       Db.queue_jobs sampleDatabase !! i = Some row'.
Proof.
  destruct (paused_queue_starts_nothing samplePlatform
              [Queue.Enqueue (sampleRequest (Some "1K") (Some 2)); Queue.SetConcurrency 8]
              (sampleQueue sampleDatabase (sampleConfig None None)))
    as (Hp & Hrows & _).
  - reflexivity.
  - repeat constructor; discriminate.
  - split; [exact Hp | exact Hrows].
Defined.

(** ** What a settled job leaves behind *)

Lemma advancesRows_cons_inv r l l' :
  advancesRows (r :: l) l' ->
  exists r' l'', l' = r' :: l'' /\ advances r r' /\ advancesRows l l''.
Proof.
  intros H. destruct (H 0%nat r eq_refl) as (r' & Hr' & Ha).
  destruct l' as [| r0 l'']; [discriminate |]. injection Hr' as ->.
  exists r', l''. split; [reflexivity |]. split; [exact Ha |].
  intros i row Hi. apply (H (S i) row Hi).
Qed.

Lemma find_advancesRows jobId l l' row :
  advancesRows l l' -> List.find (Db.has_id jobId) l = Some row ->
  exists row', List.find (Db.has_id jobId) l' = Some row' /\ advances row row'.
Proof.
  revert l'. induction l as [| r l IH]; intros l' H Hfind; [discriminate |].
  apply advancesRows_cons_inv in H as (r' & l'' & -> & Ha & Hrest).
  assert (Hid : Db.has_id jobId r' = Db.has_id jobId r).
  { destruct Ha as (Hkey & _). unfold Db.has_id. unfold rowKey in Hkey. congruence. }
  cbn [List.find] in *. rewrite Hid. destruct (Db.has_id jobId r).
  - injection Hfind as <-. eauto.
  - now apply IH.
Qed.

Lemma sumQ_snoc (l : list Q) (c : Q) : (sumQ (l ++ [c]) == sumQ l + c)%Q.
Proof.
  unfold sumQ. induction l as [| x l IH]; cbn [List.app List.fold_right]; [ring |].
  rewrite IH. ring.
Qed.

Lemma getSessionCost_all (one_month_before : Z -> Z) (now : Z) (db : Db.StudioDatabase) :
  Db.getSessionCost one_month_before all now db
  = sumQ (List.map Db.cost_estimate (Db.usage_log db)).
Proof.
  unfold Db.getSessionCost, sumQ.
  rewrite (List.filter_ext _ (fun _ => true)) by reflexivity.
  now rewrite List.filter_true.
Qed.

Section Settled.
Variable P : Platform.

(** A job that is neither pending nor running is out of [kick]'s reach. *)
Lemma kick_keeps_finished q jobId row :
  wellFormed q -> Db.getQueueJobById jobId (Queue.database q) = Some row ->
  Db.status row <> pending -> Db.status row <> running ->
  Db.getQueueJobById jobId (Queue.database (Queue.kick P q)) = Some row.
Proof.
  intros Hwf Hget Hnp Hnr. unfold Db.getQueueJobById in *.
  destruct (find_advancesRows jobId _ _ row (kick_advances P q Hwf) Hget)
    as (row' & Hfind & _ & Hfw & Hsame).
  unfold rows in Hfind. rewrite Hfind. f_equal. apply Hsame.
  destruct (Db.status row), (Db.status row'); cbn in Hfw; congruence.
Qed.

(** The state in which the continuation of a running job calls [kick]
    is consistent. *)
Lemma before_kick_wellFormed q q'' job (set : Db.QueueJob -> Db.QueueJob) :
  wellFormed q -> Db.getQueueJobById (Db.id job) (Queue.database q) = Some job ->
  Db.status job = running ->
  (forall r, rowKey (set r) = rowKey r) -> Db.status (set job) <> running ->
  rows q'' = List.map (fun r => if Db.has_id (Db.id job) r then set r else r) (rows q) ->
  Queue.activeRuns q'' = Z.max 0 (Queue.activeRuns q - 1) ->
  wellFormed q''
  /\ Db.getQueueJobById (Db.id job) (Queue.database q'') = Some (set job).
Proof.
  intros Hwf Hget Hr Hset Hnr Hrows Hact.
  destruct (getQueueJobById_In _ _ _ Hget) as [Hin _].
  assert (Hnr' : Db.is_running (set job) = false).
  { unfold Db.is_running. destruct (Db.status (set job)); congruence. }
  destruct (finish_rows q q'' job set Hwf Hin Hr Hset Hnr' Hrows Hact) as (Hwf'' & _).
  split; [exact Hwf'' |]. unfold Db.getQueueJobById in *. fold (rows q'') (rows q) in *.
  rewrite Hrows.
  rewrite (find_update_keeps_id (Db.id job) (Db.has_id (Db.id job)) set (rows q) job);
    [| intros r; pose proof (Hset r) as Hk; unfold rowKey in Hk; congruence | exact Hget].
  assert (E : Db.has_id (Db.id job) job = true) by now apply has_id_true.
  now rewrite E.
Qed.
End Settled.

(** X7.  When the awaited work of a running job has delivered an image,
    the job row becomes completed with the image as its result, and one
    usage entry with the job's cost estimate is appended, so the total
    spend grows by that estimate.  When the work throws, the row becomes
    failed with the error message and no usage is recorded.  When the
    usage entry cannot be inserted, the row that was just completed is
    marked failed: it keeps the image as its result, and no usage is
    recorded for the image. *)
Theorem settle_accounting (P : Platform) (jobId : string) (q : Queue.GenerationQueue)
    (job : Db.QueueJob) :
  wellFormed q ->
  Db.getQueueJobById jobId (Queue.database q) = Some job ->
  Db.status job = running ->
  let logId := uuidv4 P (Queue.drawn q) in
  let cost := Queue.estimateCost (resolution (Db.request job)) in
  let known := existsb (fun entry => String.eqb (Db.log_id entry) logId)
                 (Db.usage_log (Queue.database q)) in
  let finished st result message :=
    {| Db.id := Db.id job; Db.status := st; Db.request := Db.request job;
       Db.resultId := result; Db.error := message; Db.priority := Db.priority job;
       Db.createdAt := Db.createdAt job; Db.startedAt := Db.startedAt job;
       Db.completedAt := Some (Queue.clock q) |} in
  (forall imageId usage, known = false ->
     let q' := Queue.settle P jobId (Queue.Generated imageId usage) q in
     Db.usage_log (Queue.database q')
     = Db.usage_log (Queue.database q)
       ++ [{| Db.log_id := logId; Db.log_model := model (Db.request job);
              Db.log_resolution := resolution (Db.request job);
              Db.cost_estimate := cost;
              Db.tokens_in := Gemini.inputTokens <$> usage;
              Db.tokens_out := Gemini.outputTokens <$> usage;
              Db.created_at := Queue.clock q |}]
     /\ (Db.getSessionCost (one_month_before P) all (Queue.clock q') (Queue.database q')
         == Db.getSessionCost (one_month_before P) all (Queue.clock q) (Queue.database q)
            + cost)%Q
     /\ Db.getQueueJobById jobId (Queue.database q')
        = Some (finished completed (Some imageId) (Db.error job)))
  /\ (forall message,
        let q' := Queue.settle P jobId (Queue.Thrown message) q in
        Db.usage_log (Queue.database q') = Db.usage_log (Queue.database q)
        /\ Db.getQueueJobById jobId (Queue.database q')
           = Some (finished failed (Db.resultId job) (Some message)))
  /\ (forall imageId usage, known = true ->
        let q' := Queue.settle P jobId (Queue.Generated imageId usage) q in
        Db.usage_log (Queue.database q') = Db.usage_log (Queue.database q)
        /\ Db.getQueueJobById jobId (Queue.database q')
           = Some (finished failed (Some imageId)
                     (Some "UNIQUE constraint failed: usage_log.id"))).
Proof.
  intros Hwf Hget Hr logId cost known finished.
  destruct (getQueueJobById_In _ _ _ Hget) as [_ Hid]. subst jobId.
  assert (Hrun : Db.is_running job = true) by now apply is_running_iff.
  split; [| split].
  - intros imageId usage Hknown q'. subst q'. unfold Queue.settle.
    rewrite Hget, Hrun. unfold Queue.runJob_resume, Queue.runJob_finally. cbv zeta.
    unfold Db.insertUsageLog.
    cbn [Queue.database Queue.with_database Queue.draw Queue.drawn Queue.clock
           Db.usage_log Db.markQueueJobCompleted Db.update_queue_jobs Db.with_queue_jobs].
    fold logId. fold known. rewrite Hknown.
    set (q'' := Queue.emit Queue.QueueChanged _).
    destruct (before_kick_wellFormed q q'' job
                (fun r => {| Db.id := Db.id r; Db.status := completed;
                             Db.request := Db.request r; Db.resultId := Some imageId;
                             Db.error := Db.error r; Db.priority := Db.priority r;
                             Db.createdAt := Db.createdAt r; Db.startedAt := Db.startedAt r;
                             Db.completedAt := Some (Queue.clock q) |}) Hwf Hget Hr)
      as [Hwf'' Hget'']; [reflexivity | discriminate | reflexivity | reflexivity |].
    destruct (kick_sameFrame P q'') as (_ & Hlog & _ & _ & _ & Hclock & _).
    assert (Hlog' : Db.usage_log (Queue.database (Queue.kick P q''))
                    = Db.usage_log (Queue.database q)
                      ++ [{| Db.log_id := logId; Db.log_model := model (Db.request job);
                             Db.log_resolution := resolution (Db.request job);
                             Db.cost_estimate := cost;
                             Db.tokens_in := Gemini.inputTokens <$> usage;
                             Db.tokens_out := Gemini.outputTokens <$> usage;
                             Db.created_at := Queue.clock q |}]) by (rewrite Hlog; reflexivity).
    split; [exact Hlog' |]. split.
    + rewrite !getSessionCost_all, Hlog', List.map_app. apply sumQ_snoc.
    + apply kick_keeps_finished; [exact Hwf'' | exact Hget'' | discriminate | discriminate].
  - intros message q'. subst q'. unfold Queue.settle.
    rewrite Hget, Hrun. unfold Queue.runJob_resume, Queue.runJob_finally, Queue.runJob_catch.
    set (q'' := Queue.emit Queue.QueueChanged _).
    destruct (before_kick_wellFormed q q'' job
                (fun r => {| Db.id := Db.id r; Db.status := failed;
                             Db.request := Db.request r; Db.resultId := Db.resultId r;
                             Db.error := Some message; Db.priority := Db.priority r;
                             Db.createdAt := Db.createdAt r; Db.startedAt := Db.startedAt r;
                             Db.completedAt := Some (Queue.clock q) |}) Hwf Hget Hr)
      as [Hwf'' Hget'']; [reflexivity | discriminate | reflexivity | reflexivity |].
    destruct (kick_sameFrame P q'') as (_ & Hlog & _).
    split; [rewrite Hlog; reflexivity |].
    apply kick_keeps_finished; [exact Hwf'' | exact Hget'' | discriminate | discriminate].
  - intros imageId usage Hknown q'. subst q'. unfold Queue.settle.
    rewrite Hget, Hrun. unfold Queue.runJob_resume, Queue.runJob_finally. cbv zeta.
    unfold Db.insertUsageLog.
    cbn [Queue.database Queue.with_database Queue.draw Queue.drawn Queue.clock
           Db.usage_log Db.markQueueJobCompleted Db.update_queue_jobs Db.with_queue_jobs].
    fold logId. fold known. rewrite Hknown. unfold Queue.runJob_catch.
    set (q'' := Queue.emit Queue.QueueChanged _).
    destruct (before_kick_wellFormed q q'' job
                (fun r => {| Db.id := Db.id r; Db.status := failed;
                             Db.request := Db.request r; Db.resultId := Some imageId;
                             Db.error := Some "UNIQUE constraint failed: usage_log.id";
                             Db.priority := Db.priority r;
                             Db.createdAt := Db.createdAt r; Db.startedAt := Db.startedAt r;
                             Db.completedAt := Some (Queue.clock q) |}) Hwf Hget Hr)
      as [Hwf'' Hget'']; [reflexivity | discriminate | | reflexivity |].
    + unfold rows. subst q''.
      cbn [Queue.database Queue.emit Queue.with_activeRuns Queue.with_database Queue.draw
             Queue.clock].
      unfold Db.markQueueJobFailed, Db.markQueueJobCompleted, Db.update_queue_jobs.
      cbn [Db.queue_jobs Db.with_queue_jobs]. rewrite List.map_map.
      apply List.map_ext. intros r. unfold Db.has_id.
      destruct (String.eqb (Db.id r) (Db.id job)) eqn:Er.
      * cbn [Db.id]. rewrite Er. reflexivity.
      * rewrite Er. reflexivity.
    + destruct (kick_sameFrame P q'') as (_ & Hlog & _).
      split; [rewrite Hlog; reflexivity |].
      apply kick_keeps_finished; [exact Hwf'' | exact Hget'' | discriminate | discriminate].
Qed.

Lemma settle_accounting_witness :
  let q := Queue.with_activeRuns 1 (sampleQueue sampleDatabase (sampleConfig None None)) in
  let q' := Queue.settle samplePlatform "c" (Queue.Generated "img-1" None) q in
  Db.status <$> Db.getQueueJobById "c" (Queue.database q') = Some completed
  /\ Db.cost_estimate <$> Db.usage_log (Queue.database q') = [0.134%Q].
Proof.
  intros q q'.
  destruct (settle_accounting samplePlatform "c" q (sampleJob "c" running 5)) as (Hgen & _).
  - split; [apply (bool_decide_unpack (NoDup _)); vm_compute; exact I | reflexivity].
  - reflexivity.
  - reflexivity.
  - destruct (Hgen "img-1" None eq_refl) as (Hlog & _ & Hjob).
    subst q'. rewrite Hjob, Hlog. split; reflexivity.
Defined.

(** ** The cost reserved by the open jobs *)

Lemma reserved_fold (excluded : Db.QueueJob -> bool) (l : list Db.QueueJob) (acc : Q) :
  (List.fold_left
     (fun sum job =>
        if excluded job then sum
        else (sum + Queue.estimateCost (resolution (Db.request job)))%Q) l acc
   == acc + sumQ (List.map (fun job => Queue.estimateCost (resolution (Db.request job)))
                    (List.filter (fun job => negb (excluded job)) l)))%Q.
Proof.
  revert acc. induction l as [| x l IH]; intros acc; cbn [List.fold_left List.filter].
  - unfold sumQ. cbn [List.map List.fold_right]. ring.
  - rewrite IH. destruct (excluded x); cbn [negb]; [reflexivity |].
    unfold sumQ. cbn [List.map List.fold_right]. ring.
Qed.

Lemma NoDup_ids_filter (f : Db.QueueJob -> bool) (l : list Db.QueueJob) :
  NoDup (Db.id <$> l) -> NoDup (Db.id <$> List.filter f l).
Proof.
  induction l as [| r l IH]; cbn [List.filter]; [auto |].
  rewrite fmap_cons, NoDup_cons. intros [Hnotin Hnodup].
  destruct (f r); [| auto]. rewrite fmap_cons, NoDup_cons. split; [| auto].
  intros Hin. apply Hnotin. apply list_elem_of_fmap in Hin as (r' & -> & Hin).
  apply list_elem_of_fmap. exists r'. split; [reflexivity |].
  apply list_elem_of_In. apply list_elem_of_In, List.filter_In in Hin. tauto.
Qed.

Lemma filter_keeps_all (f : Db.QueueJob -> bool) (l : list Db.QueueJob) :
  (forall r, In r l -> f r = true) -> List.filter f l = l.
Proof.
  induction l as [| r l IH]; intros H; cbn [List.filter]; [reflexivity |].
  rewrite (H r) by now left. f_equal. apply IH. intros r' Hr'. apply H. now right.
Qed.

(** Leaving out the one row that bears an id lowers the sum by that
    row's cost. *)
Lemma sum_without_job (x : string) (l : list Db.QueueJob) (job : Db.QueueJob) :
  NoDup (Db.id <$> l) -> In job l -> Db.id job = x ->
  (sumQ (List.map (fun job => Queue.estimateCost (resolution (Db.request job)))
           (List.filter (fun r => negb (String.eqb (Db.id r) x)) l))
   + Queue.estimateCost (resolution (Db.request job))
   == sumQ (List.map (fun job => Queue.estimateCost (resolution (Db.request job))) l))%Q.
Proof.
  intros Hnodup Hin Hid. induction l as [| r l IH]; [destruct Hin |].
  rewrite fmap_cons, NoDup_cons in Hnodup. destruct Hnodup as [Hnotin Hnodup].
  cbn [List.filter]. destruct Hin as [-> | Hin].
  - rewrite Hid, String.eqb_refl. cbn [negb].
    rewrite filter_keeps_all.
    + unfold sumQ. cbn [List.map List.fold_right]. ring.
    + intros r Hr. apply negb_true_iff, String.eqb_neq. intros E. apply Hnotin.
      apply list_elem_of_fmap. exists r. split; [congruence | now apply list_elem_of_In].
  - assert (Hne : String.eqb (Db.id r) x = false).
    { apply String.eqb_neq. intros E. apply Hnotin. apply list_elem_of_fmap.
      exists job. split; [congruence | now apply list_elem_of_In]. }
    rewrite Hne. cbn [negb]. unfold sumQ in *. cbn [List.map List.fold_right].
    rewrite <- (IH Hnodup Hin). ring.
Qed.

(** X8.  The cost that [getReservedQueueCost] reserves with a job
    excluded is the cost of all open jobs less the estimate of that job,
    when the job is open; excluding a job that is not open, an id that no
    job bears, or the empty id excludes nothing. *)
Theorem getReservedQueueCost_excludes (jobId : string) (q : Queue.GenerationQueue) :
  NoDup (Db.id <$> rows q) ->
  (forall job, Db.getQueueJobById jobId (Queue.database q) = Some job ->
     jobId <> EmptyString ->
     Db.status job = pending \/ Db.status job = running ->
     (Queue.getReservedQueueCost (Some jobId) q
      + Queue.estimateCost (resolution (Db.request job))
      == Queue.getReservedQueueCost None q)%Q)
  /\ (jobId = EmptyString
      \/ (forall job, Db.getQueueJobById jobId (Queue.database q) = Some job ->
            Db.status job <> pending /\ Db.status job <> running) ->
      (Queue.getReservedQueueCost (Some jobId) q == Queue.getReservedQueueCost None q)%Q).
Proof.
  intros Hnodup. unfold Queue.getReservedQueueCost.
  split.
  - intros job Hget Hne Hopen. rewrite reserved_fold. cbv beta iota.
    rewrite fold_left_cost.
    destruct jobId as [| c s]; [congruence |]. cbn [truthy andb].
    destruct (getQueueJobById_In _ _ _ Hget) as [Hin Hid].
    rewrite <- (sum_without_job (String c s) (Db.listOpenQueueJobs (Queue.database q)) job).
    + ring.
    + unfold Db.listOpenQueueJobs. rewrite merge_sort_Permutation.
      now apply NoDup_ids_filter.
    + apply list_elem_of_In. unfold Db.listOpenQueueJobs. rewrite merge_sort_Permutation.
      apply list_elem_of_In, List.filter_In. split; [exact Hin |].
      unfold Db.is_open. destruct Hopen as [-> | ->]; reflexivity.
    + exact Hid.
  - intros Hnone. rewrite reserved_fold. cbv beta iota. rewrite fold_left_cost.
    rewrite filter_keeps_all; [reflexivity |].
    intros r Hr. apply negb_true_iff.
    destruct jobId as [| c s]; [reflexivity |]. cbn [truthy andb].
    destruct Hnone as [Hempty | Hclosed]; [discriminate |].
    apply String.eqb_neq. intros Hid.
    apply list_elem_of_In in Hr. unfold Db.listOpenQueueJobs in Hr.
    rewrite merge_sort_Permutation in Hr. apply list_elem_of_In, List.filter_In in Hr.
    destruct Hr as [Hin Hopen].
    assert (Hget : Db.getQueueJobById (String c s) (Queue.database q) = Some r).
    { unfold Db.getQueueJobById.
      destruct (List.find (Db.has_id (String c s)) (Db.queue_jobs (Queue.database q)))
        as [r' |] eqn:E.
      - apply List.find_some in E as [Hin' Hid']. apply has_id_true in Hid'.
        f_equal. apply (NoDup_id_eq (rows q)); [exact Hnodup | exact Hin' | exact Hin |].
        congruence.
      - pose proof (List.find_none _ _ E r Hin) as Hno. apply has_id_false in Hno.
        contradiction. }
    destruct (Hclosed r Hget) as [Hnp Hnr]. unfold Db.is_open in Hopen.
    destruct (Db.status r); congruence.
Qed.

Lemma getReservedQueueCost_excludes_witness :
  let q := sampleQueue sampleDatabase (sampleConfig None None) in
  (Queue.getReservedQueueCost (Some "c") q + 0.134 == Queue.getReservedQueueCost None q)%Q
  /\ (Queue.getReservedQueueCost (Some "z") q == Queue.getReservedQueueCost None q)%Q.
Proof.
  intros q.
  destruct (getReservedQueueCost_excludes "c" q) as [Hopen _];
    [apply (bool_decide_unpack (NoDup _)); vm_compute; exact I |].
  destruct (getReservedQueueCost_excludes "z" q) as [_ Hnone];
    [apply (bool_decide_unpack (NoDup _)); vm_compute; exact I |].
  split.
  - apply (Hopen (sampleJob "c" running 5)); [reflexivity | discriminate | now right].
  - apply Hnone. right. intros job Hget. discriminate.
Defined.

(** ** How a generation call fails *)

(** X9.  A call whose every request times out is retried to the end: it
    sends three requests, sleeps 800 ms and 1600 ms between them and
    throws the timeout as an HTTP error with status 504.  A transport
    failure of the first request and a successful response without a JSON
    body are thrown at once, after one request and no sleep.  A result
    that is returned carries the number of requests sent as [attempts]. *)
Theorem generate_failure_modes (Number_of_string : string -> number)
    (network : nat -> Gemini.json -> Gemini.NetOutcome) (request : GenerationRequest) :
  let result := fst (Gemini.generate Number_of_string network request) in
  let t := snd (Gemini.generate Number_of_string network request) in
  let payload := Gemini.buildGeminiPayload request in
  ((forall k, (k < 3)%nat -> network k payload = Gemini.NetAbort) ->
     result = inl (Gemini.GeminiHttpError
                     "Gemini API request timed out after 120 seconds." 504)
     /\ Gemini.requests t = 3%nat /\ Gemini.sleeps t = [800; 1600])
  /\ (forall message, network 0%nat payload = Gemini.NetFailure message ->
        result = inl (Gemini.Error message)
        /\ Gemini.requests t = 1%nat /\ Gemini.sleeps t = [])
  /\ (forall status, network 0%nat payload = Gemini.NetResponse status None ->
        Gemini.response_ok status = true ->
        (exists message, result = inl (Gemini.Error message))
        /\ Gemini.requests t = 1%nat /\ Gemini.sleeps t = [])
  /\ (forall r, result = inr r ->
        Gemini.attempts r = Z.of_nat (Gemini.requests t)
        /\ 1 <= Gemini.attempts r <= Gemini.MAX_RETRIES).
Proof.
  intros result t payload. subst result t.
  pose proof (generate_cases Number_of_string network request) as Hcases.
  unfold attempt in Hcases. fold payload in Hcases.
  split; [| split; [| split]].
  - intros Habort.
    rewrite !Habort in Hcases by lia.
    destruct Hcases as [[Hr _] | [(_ & Hr & _) | (_ & _ & ->)]];
      [discriminate Hr | discriminate Hr |].
    repeat split; reflexivity.
  - intros message Hfail. rewrite Hfail in Hcases.
    destruct Hcases as [[_ ->] | [(Hr & _) | (Hr & _)]];
      [| discriminate Hr | discriminate Hr].
    repeat split; reflexivity.
  - intros status Hnet Hok. rewrite Hnet in Hcases.
    assert (E : Gemini.generateOnce Number_of_string (Gemini.NetResponse status None)
                = inl (Gemini.Error "Unexpected token in JSON")).
    { unfold Gemini.generateOnce. cbn [Gemini.fetchWithTimeout]. now rewrite Hok. }
    rewrite E in Hcases.
    destruct Hcases as [[_ ->] | [(Hr & _) | (Hr & _)]];
      [| discriminate Hr | discriminate Hr].
    split; [eexists; reflexivity | split; reflexivity].
  - intros r Hr. unfold Gemini.MAX_RETRIES.
    destruct Hcases as [[_ E] | [(_ & _ & E) | (_ & _ & E)]]; rewrite E in Hr |- *;
      cbn [fst snd Gemini.requests] in *;
      match type of Hr with
      | finishWith ?a _ = _ => destruct a as [e | r0]; [discriminate Hr |]
      end;
      injection Hr as <-; cbn; lia.
Qed.

Lemma generate_failure_modes_witness :
  Gemini.requests
    (snd (Gemini.generate no_Number (fun _ _ => Gemini.NetAbort)
            (request_4K "gemini-3-pro-image-preview"))) = 3%nat
  /\ fst (Gemini.generate no_Number (fun _ _ => Gemini.NetFailure "ECONNRESET")
            (request_4K "gemini-3-pro-image-preview"))
     = inl (Gemini.Error "ECONNRESET").
Proof.
  destruct (generate_failure_modes no_Number (fun _ _ => Gemini.NetAbort)
              (request_4K "gemini-3-pro-image-preview")) as (Habort & _).
  destruct (generate_failure_modes no_Number (fun _ _ => Gemini.NetFailure "ECONNRESET")
              (request_4K "gemini-3-pro-image-preview")) as (_ & Hfail & _).
  split.
  - now destruct Habort as (_ & H & _).
  - now destruct (Hfail "ECONNRESET" eq_refl) as (H & _).
Defined.

(** ** Token counts *)

Lemma numberFromRecord_not_NaN (Number_of_string : string -> number)
    (record : Gemini.json) (keys : list string) :
  Gemini.numberFromRecord Number_of_string record keys <> NaN.
Proof.
  induction keys as [| key rest IH]; cbn [Gemini.numberFromRecord]; [discriminate |].
  destruct (Gemini.get record key) as [[| b | n | s | items | fields] |];
    try exact IH.
  - destruct (isFinite n); [discriminate | exact IH].
  - destruct (truthy (trim s)); [| exact IH].
    destruct (Number_of_string s) eqn:E; [exact IH | discriminate].
Qed.

(** X10.  The token counts of a generation result are never NaN, whatever
    the response holds under the usage keys.  A count is the finite
    number under its first key, or the number that a text under that key
    holds; when the key is missing, or holds a number beyond the range of
    a double, a blank text, a text that is no number, or anything else,
    the count is read under the alternative key in the same way, and is 0
    when that fails too.  A response with usage metadata gives a result
    with both counts, one without gives a result without token usage. *)
Theorem token_counts_are_numbers (Number_of_string : string -> number)
    (o : Gemini.NetOutcome) (result : Gemini.GeminiGenerationResult) :
  Gemini.generateOnce Number_of_string o = inr result ->
  let count := Gemini.numberFromRecord Number_of_string in
  (forall usage, Gemini.tokenUsage result = Some usage ->
     Gemini.inputTokens usage <> NaN /\ Gemini.outputTokens usage <> NaN)
  /\ (forall record, count record [] = Num 0)
  /\ (forall record key rest n,
        Gemini.get record key = Some (Gemini.JNumber n) ->
        count record (key :: rest) = if isFinite n then Num n else count record rest)
  /\ (forall record key rest s,
        Gemini.get record key = Some (Gemini.JString s) ->
        (trim s = EmptyString \/ Number_of_string s = NaN ->
           count record (key :: rest) = count record rest)
        /\ (trim s <> EmptyString -> Number_of_string s <> NaN ->
              count record (key :: rest) = Number_of_string s))
  /\ (forall record key rest,
        match Gemini.get record key with
        | Some (Gemini.JNumber _) | Some (Gemini.JString _) => False
        | _ => True
        end ->
        count record (key :: rest) = count record rest)
  /\ (forall status parsed,
        o = Gemini.NetResponse status (Some parsed) ->
        match Gemini.extractUsageMetadata
                (default (Gemini.JObject []) (Gemini.asRecord (Some parsed))) with
        | None => Gemini.tokenUsage result = None
        | Some record =>
            Gemini.tokenUsage result
            = Some {| Gemini.inputTokens :=
                        count record ["promptTokenCount"; "prompt_token_count"];
                      Gemini.outputTokens :=
                        count record ["candidatesTokenCount"; "candidates_token_count"] |}
        end).
Proof.
  intros Hgen count. subst count.
  assert (Husage : forall status parsed,
            o = Gemini.NetResponse status (Some parsed) ->
            match Gemini.extractUsageMetadata
                    (default (Gemini.JObject []) (Gemini.asRecord (Some parsed))) with
            | None => Gemini.tokenUsage result = None
            | Some record =>
                Gemini.tokenUsage result
                = Some {| Gemini.inputTokens :=
                            Gemini.numberFromRecord Number_of_string record
                              ["promptTokenCount"; "prompt_token_count"];
                          Gemini.outputTokens :=
                            Gemini.numberFromRecord Number_of_string record
                              ["candidatesTokenCount"; "candidates_token_count"] |}
            end).
  { intros status parsed ->. unfold Gemini.generateOnce in Hgen.
    cbn [Gemini.fetchWithTimeout] in Hgen.
    destruct (negb (Gemini.response_ok status)); [discriminate |].
    cbv zeta in Hgen. destruct (omap Gemini.extractInlineData _); [discriminate |].
    destruct result as [imgs text tokens n]. unfold Gemini.tokenUsage.
    destruct (Gemini.extractUsageMetadata _) as [record |]; congruence. }
  split; [| split; [| split; [| split; [| split; [| exact Husage]]]]].
  - intros usage Htokens. unfold Gemini.generateOnce in Hgen.
    destruct o as [| m | status body]; cbn [Gemini.fetchWithTimeout] in Hgen;
      try discriminate.
    destruct (negb (Gemini.response_ok status)); [discriminate |].
    destruct body as [parsed |]; [| discriminate].
    specialize (Husage status parsed eq_refl).
    destruct (Gemini.extractUsageMetadata _) as [record |]; [| congruence].
    set (tokensIn := Gemini.numberFromRecord _ _ ["promptTokenCount"; _]) in Husage.
    set (tokensOut := Gemini.numberFromRecord _ _ ["candidatesTokenCount"; _]) in Husage.
    assert (E : usage = {| Gemini.inputTokens := tokensIn;
                           Gemini.outputTokens := tokensOut |}) by congruence.
    rewrite E. subst tokensIn tokensOut.
    split; apply (numberFromRecord_not_NaN Number_of_string).
  - reflexivity.
  - intros record key rest n Hkey. cbn [Gemini.numberFromRecord]. now rewrite Hkey.
  - intros record key rest s Hkey. cbn [Gemini.numberFromRecord]. rewrite Hkey. split.
    + intros [Hblank | Hnan].
      * rewrite Hblank. reflexivity.
      * rewrite Hnan. now destruct (truthy (trim s)).
    + intros Hblank Hnumber. destruct (trim s); [congruence |]. cbn [truthy].
      destruct (Number_of_string s); [congruence | reflexivity].
  - intros record key rest Hkey. cbn [Gemini.numberFromRecord].
    destruct (Gemini.get record key) as [[| b | n | s | items | fields] |];
      try reflexivity; contradiction.
Qed.

Lemma token_counts_are_numbers_witness :
  exists result,
    Gemini.generateOnce no_Number (Gemini.NetResponse 200 (Some body_with_usage)) = inr result
    /\ Gemini.tokenUsage result
       = Some {| Gemini.inputTokens := Num 12; Gemini.outputTokens := Num 7 |}.
Proof.
  eexists. split; [reflexivity |].
  destruct (token_counts_are_numbers no_Number
              (Gemini.NetResponse 200 (Some body_with_usage)) _ eq_refl)
    as (_ & _ & _ & _ & _ & Husage).
  specialize (Husage 200 body_with_usage eq_refl).
  etransitivity; [exact Husage |]. vm_compute. reflexivity.
Defined.

(** ** The configured concurrency *)

Lemma normalizeConcurrency_range (value : option number) :
  1 <= Config.normalizeConcurrency value <= 8.
Proof.
  unfold Config.normalizeConcurrency, Config.DEFAULT_queueConcurrency.
  destruct value as [[| v] |]; try lia. destruct (Qeq_bool v 0); lia.
Qed.

Lemma clampConcurrency_normalized (value : option number) :
  Queue.clampConcurrency (inject_Z (Config.normalizeConcurrency value))
  = Config.normalizeConcurrency value.
Proof.
  unfold Queue.clampConcurrency. rewrite Qfloor_Z.
  pose proof (normalizeConcurrency_range value). lia.
Qed.

Lemma normalizeConcurrency_stored (value : option number) :
  Config.normalizeConcurrency (Some (Num (inject_Z (Config.normalizeConcurrency value))))
  = Config.normalizeConcurrency value.
Proof.
  pose proof (normalizeConcurrency_range value) as Hrange.
  unfold Config.normalizeConcurrency at 1.
  destruct (Qeq_bool (inject_Z (Config.normalizeConcurrency value)) 0) eqn:E.
  - apply Qeq_bool_iff in E. unfold Qeq in E. cbn in E. lia.
  - rewrite Qfloor_Z. lia.
Qed.

(** What [parseConfigPatch] lets through under [queueConcurrency]: no
    such key, or a whole number. *)
Lemma parseConfigPatch_queueConcurrency (patch : Ipc.value) validated :
  Ipc.parseConfigPatch patch = inr validated ->
  (Ipc.hasOwnProperty patch "queueConcurrency" = false
   /\ Config.patch_queueConcurrency validated = None)
  \/ (Ipc.hasOwnProperty patch "queueConcurrency" = true
      /\ exists v, Ipc.prop patch "queueConcurrency" = Ipc.VNumber (Num v)
                   /\ isFinite v = true
                   /\ Ipc.isInteger v = true
                   /\ Config.patch_queueConcurrency validated = Some (Num v)).
Proof.
  unfold Ipc.parseConfigPatch. destruct patch as [| | | | | | | fields |]; try discriminate.
  destruct (List.find _ fields); [discriminate |].
  destruct (_ && _); [discriminate |]. destruct (_ && _); [discriminate |].
  destruct (_ && _); [discriminate |]. unfold Ipc.bind.
  destruct (Ipc.hasOwnProperty (Ipc.VObject fields) "queueConcurrency").
  - destruct (Ipc.prop (Ipc.VObject fields) "queueConcurrency")
      as [| | | [| v] | | | | |]; try discriminate.
    destruct (isFinite v) eqn:Hfinite; [| discriminate].
    destruct (Ipc.isInteger v) eqn:Hint; [| discriminate]. cbn [andb].
    destruct (if Ipc.hasOwnProperty _ "monthlySpendLimitUsd" then _ else _);
      [discriminate |].
    destruct (if Ipc.hasOwnProperty _ "totalSpendLimitUsd" then _ else _);
      [discriminate |].
    intros [= <-]. right. split; [reflexivity |]. exists v. now repeat split.
  - destruct (if Ipc.hasOwnProperty _ "monthlySpendLimitUsd" then _ else _);
      [discriminate |].
    destruct (if Ipc.hasOwnProperty _ "totalSpendLimitUsd" then _ else _);
      [discriminate |].
    intros [= <-]. left. now split.
Qed.

Lemma parseConfigPatch_refuses (patch : Ipc.value) :
  Ipc.hasOwnProperty patch "queueConcurrency" = true ->
  match Ipc.prop patch "queueConcurrency" with
  | Ipc.VNumber (Num v) => isFinite v = false \/ Ipc.isInteger v = false
  | _ => True
  end ->
  exists message, Ipc.parseConfigPatch patch = inl message.
Proof.
  intros Hown Hbad.
  destruct (Ipc.parseConfigPatch patch) as [message | validated] eqn:E; [eauto |].
  apply parseConfigPatch_queueConcurrency in E
    as [[Hnone _] | (_ & v & Hv & Hfinite & Hint & _)].
  - congruence.
  - rewrite Hv in Hbad. destruct Hbad; congruence.
Qed.

(** X11.  A configuration update that [parseConfigPatch] refuses changes
    nothing: that is so for every patch whose [queueConcurrency] is not a
    finite whole number (a text, [NaN], 2.5, a number beyond the range of
    a double).  After an update that
    is let through, the scheduler's limit is the configured concurrency:
    the value that the store holds and publishes, between 1 and 8.  A
    patch without the key keeps the configured value; a patch of 0 selects
    the default of 2, not the minimum; any other whole number is clamped
    to 1..8. *)
Theorem config_update_sets_concurrency (P : Platform) (patch : Ipc.value)
    (q : Queue.GenerationQueue) :
  let q' := Queue.step P (Queue.ConfigUpdate patch) q in
  (forall message, Ipc.parseConfigPatch patch = inl message -> q' = q)
  /\ (Ipc.hasOwnProperty patch "queueConcurrency" = true ->
      match Ipc.prop patch "queueConcurrency" with
      | Ipc.VNumber (Num v) => isFinite v = false \/ Ipc.isInteger v = false
      | _ => True
      end ->
      q' = q)
  /\ (forall n : Z,
        isFinite (inject_Z n) = true ->
        Ipc.parseConfigPatch
          (Ipc.VObject [("queueConcurrency", Ipc.VNumber (Num (inject_Z n)))])
        = inr {| Config.patch_queueConcurrency := Some (Num (inject_Z n));
                 Config.patch_monthlySpendLimitUsd := None;
                 Config.patch_totalSpendLimitUsd := None |})
  /\ (forall validated, Ipc.parseConfigPatch patch = inr validated ->
        Queue.concurrency q'
        = Config.publicQueueConcurrency
            (Config.getPublicConfig (decodeApiKey P) (Queue.configStore q'))
        /\ Config.queueConcurrency (Queue.configStore q')
           = Some (Num (inject_Z (Queue.concurrency q')))
        /\ 1 <= Queue.concurrency q' <= 8
        /\ (Ipc.hasOwnProperty patch "queueConcurrency" = false ->
              Queue.concurrency q'
              = Config.normalizeConcurrency
                  (Config.queueConcurrency (Queue.configStore q)))
        /\ (Ipc.hasOwnProperty patch "queueConcurrency" = true ->
              exists v, Ipc.prop patch "queueConcurrency" = Ipc.VNumber (Num v)
                        /\ isFinite v = true
                        /\ (inject_Z (Qfloor v) == v)%Q
                        /\ ((v == 0)%Q -> Queue.concurrency q' = 2)
                        /\ (~ (v == 0)%Q ->
                              Queue.concurrency q' = Z.min 8 (Z.max 1 (Qfloor v))))).
Proof.
  intros q'. subst q'. cbn [Queue.step].
  assert (Hrefused : forall message, Ipc.parseConfigPatch patch = inl message ->
                       match Ipc.parseConfigPatch patch with
                       | inl _ => q
                       | inr validatedPatch =>
                           Queue.setConcurrency P
                             (inject_Z
                                (Config.publicQueueConcurrency
                                   (Config.getPublicConfig (decodeApiKey P)
                                      (Config.updateConfig (Queue.configStore q)
                                         validatedPatch))))
                             (Queue.with_configStore
                                (Config.updateConfig (Queue.configStore q) validatedPatch)
                                q)
                       end = q) by (intros message ->; reflexivity).
  split; [exact Hrefused |]. split; [| split].
  - intros Hown Hbad. destruct (parseConfigPatch_refuses patch Hown Hbad) as [message E].
    now apply (Hrefused message).
  - intros n Hfinite. unfold Ipc.parseConfigPatch.
    cbn [List.find fst Ipc.has Ipc.ALLOWED_CONFIG_PATCH_KEYS existsb String.eqb Ascii.eqb
           Bool.eqb negb orb andb Ipc.hasOwnProperty Ipc.prop snd Ipc.bind].
    rewrite Hfinite. unfold Ipc.isInteger. rewrite Qfloor_Z.
    now rewrite (proj2 (Qeq_bool_iff _ _) (Qeq_refl _)).
  - intros validated E. rewrite E. unfold Queue.setConcurrency.
    set (updated := Config.updateConfig (Queue.configStore q) validated).
    set (q1 := Queue.with_concurrency _ _).
    destruct (kick_sameFrame P q1) as (_ & _ & -> & _ & -> & _).
    subst q1. cbn [Queue.concurrency Queue.with_concurrency Queue.configStore
                     Queue.with_configStore Config.getPublicConfig
                     Config.publicQueueConcurrency].
    subst updated. unfold Config.updateConfig. cbn [Config.queueConcurrency].
    set (value := match Config.patch_queueConcurrency validated with
                  | Some v => Some v
                  | None => Config.queueConcurrency (Queue.configStore q)
                  end).
    rewrite normalizeConcurrency_stored, clampConcurrency_normalized.
    split; [reflexivity |]. split; [reflexivity |].
    split; [apply normalizeConcurrency_range |].
    subst value.
    destruct (parseConfigPatch_queueConcurrency patch validated E)
      as [[Hown ->] | (Hown & v & Hv & Hfinite & Hint & ->)]; rewrite Hown.
    + split; [reflexivity | discriminate].
    + split; [discriminate |]. intros _. exists v. split; [exact Hv |].
      split; [exact Hfinite |]. split; [now apply Qeq_bool_iff |].
      unfold Config.normalizeConcurrency, Config.DEFAULT_queueConcurrency. split.
      * intros Hz. apply Qeq_bool_iff in Hz. now rewrite Hz.
      * intros Hnz. destruct (Qeq_bool v 0) eqn:Ez; [| reflexivity].
        apply Qeq_bool_iff in Ez. contradiction.
Qed.

Lemma config_update_sets_concurrency_witness :
  Queue.concurrency
    (Queue.step samplePlatform
       (Queue.ConfigUpdate (Ipc.VObject [("queueConcurrency", Ipc.VNumber (Num 0))]))
       (sampleQueue sampleDatabase (sampleConfig None None))) = 2
  /\ Queue.step samplePlatform
       (Queue.ConfigUpdate (Ipc.VObject [("queueConcurrency", Ipc.VNumber NaN)]))
       (sampleQueue sampleDatabase (sampleConfig None None))
     = sampleQueue sampleDatabase (sampleConfig None None)
  /\ Queue.step samplePlatform
       (Queue.ConfigUpdate (Ipc.VObject [("queueConcurrency", Ipc.VNumber (Num 2.5))]))
       (sampleQueue sampleDatabase (sampleConfig None None))
     = sampleQueue sampleDatabase (sampleConfig None None)
  /\ Queue.step samplePlatform
       (Queue.ConfigUpdate
          (Ipc.VObject [("queueConcurrency", Ipc.VNumber (Num (inject_Z (10 ^ 400))))]))
       (sampleQueue sampleDatabase (sampleConfig None None))
     = sampleQueue sampleDatabase (sampleConfig None None).
Proof.
  split; [| split; [| split]].
  - destruct (config_update_sets_concurrency samplePlatform
                (Ipc.VObject [("queueConcurrency", Ipc.VNumber (Num 0))])
                (sampleQueue sampleDatabase (sampleConfig None None)))
      as (_ & _ & Hparse & Haccepted).
    destruct (Haccepted _ (Hparse 0 eq_refl)) as (_ & _ & _ & _ & Hown).
    destruct (Hown eq_refl) as (v & [= <-] & _ & _ & Hzero & _). apply Hzero. reflexivity.
  - apply (config_update_sets_concurrency samplePlatform
             (Ipc.VObject [("queueConcurrency", Ipc.VNumber NaN)])
             (sampleQueue sampleDatabase (sampleConfig None None)));
      [reflexivity | exact I].
  - apply (config_update_sets_concurrency samplePlatform
             (Ipc.VObject [("queueConcurrency", Ipc.VNumber (Num 2.5))])
             (sampleQueue sampleDatabase (sampleConfig None None)));
      [reflexivity | right; reflexivity].
  - apply (config_update_sets_concurrency samplePlatform
             (Ipc.VObject [("queueConcurrency", Ipc.VNumber (Num (inject_Z (10 ^ 400))))])
             (sampleQueue sampleDatabase (sampleConfig None None)));
      [reflexivity | left; vm_compute; reflexivity].
Defined.

(** ** Decoding and naming of image files *)

(** X12.  [decodeBase64Payload] never returns an empty buffer nor one
    above the limit: what it returns is the decoding of the text with all
    white space removed, that text passed the format check, and both the
    estimated and the decoded size are within the limit when one is
    given.  A text of white space only is rejected as empty.  White
    space is that of JavaScript: a no-break space or a byte-order mark
    in front of the text is removed like a blank. *)
Theorem decodeBase64Payload_guard (N : Node) (value label : string) (maxBytes : option Z) :
  (forall bytes, ImageStore.decodeBase64Payload N value label maxBytes = inr bytes ->
     bytes <> []
     /\ bytes = Buffer_from_base64 N (removeWhitespace value)
     /\ ImageStore.isLikelyBase64 (removeWhitespace value) = true
     /\ (forall limit, maxBytes = Some limit ->
           Z.of_nat (length bytes) <= limit
           /\ ImageStore.estimateBase64Bytes (removeWhitespace value) <= limit))
  /\ (removeWhitespace value = EmptyString ->
        ImageStore.decodeBase64Payload N value label maxBytes = inl (label +:+ " ist leer."))
  /\ (ImageStore.isLikelyBase64 (removeWhitespace value) = false ->
        exists message, ImageStore.decodeBase64Payload N value label maxBytes = inl message)
  /\ ImageStore.decodeBase64Payload N (String " " value) label maxBytes
     = ImageStore.decodeBase64Payload N value label maxBytes
  /\ ImageStore.decodeBase64Payload N (String "194" (String "160" value)) label maxBytes
     = ImageStore.decodeBase64Payload N value label maxBytes
  /\ ImageStore.decodeBase64Payload N
       (String "239" (String "187" (String "191" value))) label maxBytes
     = ImageStore.decodeBase64Payload N value label maxBytes.
Proof.
  unfold ImageStore.decodeBase64Payload. cbv zeta.
  split; [| split; [| split; [| split; [reflexivity | split; reflexivity]]]].
  - intros bytes H.
    destruct (negb (truthy (removeWhitespace value))); [discriminate |].
    destruct (ImageStore.isLikelyBase64 (removeWhitespace value)); [| discriminate].
    cbn [negb] in H.
    destruct (match maxBytes with
              | Some limit => limit <? ImageStore.estimateBase64Bytes (removeWhitespace value)
              | None => false
              end) eqn:Hest; [discriminate |].
    destruct (Buffer_from_base64 N (removeWhitespace value)) as [| b rest] eqn:Hbuf;
      [discriminate |].
    destruct (match maxBytes with
              | Some limit => limit <? Z.of_nat (length (b :: rest))
              | None => false
              end) eqn:Hlen; [discriminate |].
    injection H as <-. split; [discriminate |]. split; [reflexivity |].
    split; [reflexivity |]. intros limit ->.
    apply Z.ltb_ge in Hest, Hlen. split; assumption.
  - intros ->. reflexivity.
  - intros ->. cbn [negb]. destruct (negb (truthy (removeWhitespace value))); eauto.
Qed.

Lemma decodeBase64Payload_guard_witness :
  ImageStore.decodeBase64Payload sampleNode (String "010" "  ") "Referenzbild 1" (Some 10)
  = inl "Referenzbild 1 ist leer."
  /\ ImageStore.decodeBase64Payload sampleNode nbsp "Referenzbild 1" (Some 10)
     = inl "Referenzbild 1 ist leer."
  /\ ImageStore.decodeBase64Payload sampleNode ("aGk=" +:+ nbsp) "Referenzbild 1" (Some 10)
     = inr [Byte.x68; Byte.x69].
Proof.
  split; [| split].
  - destruct (decodeBase64Payload_guard sampleNode (String "010" "  ") "Referenzbild 1"
                (Some 10)) as (_ & Hempty & _).
    apply Hempty. reflexivity.
  - destruct (decodeBase64Payload_guard sampleNode nbsp "Referenzbild 1" (Some 10))
      as (_ & Hempty & _).
    apply Hempty. reflexivity.
  - destruct (ImageStore.decodeBase64Payload sampleNode ("aGk=" +:+ nbsp) "Referenzbild 1"
                (Some 10)) as [message | bytes] eqn:E; [vm_compute in E; discriminate E |].
    destruct (decodeBase64Payload_guard sampleNode ("aGk=" +:+ nbsp) "Referenzbild 1"
                (Some 10)) as [Hbytes _].
    destruct (Hbytes bytes E) as (_ & -> & _). reflexivity.
Defined.

Lemma toLowerCase_ascii_idem (c : ascii) :
  toLowerCase_ascii (toLowerCase_ascii c) = toLowerCase_ascii c.
Proof. destruct c as [[] [] [] [] [] [] [] []]; reflexivity. Qed.

Lemma toLowerCase_idem (s : string) : toLowerCase (toLowerCase s) = toLowerCase s.
Proof.
  induction s as [| c s IH]; cbn [toLowerCase]; [reflexivity |].
  now rewrite toLowerCase_ascii_idem, IH.
Qed.

(** X13.  Whatever the MIME type, the file extension that is chosen is
    one of jpg, webp, gif and png, so that a stored file name is the
    identifier, a dot and one of these four; the choice does not depend
    on the case of the letters of the MIME type. *)
Theorem extensionFromMimeType_range (mimeType : string) :
  In (ImageStore.extensionFromMimeType mimeType) ["jpg"; "webp"; "gif"; "png"]
  /\ ImageStore.extensionFromMimeType (toLowerCase mimeType)
     = ImageStore.extensionFromMimeType mimeType
  /\ (forall other, toLowerCase other = toLowerCase mimeType ->
        ImageStore.extensionFromMimeType other = ImageStore.extensionFromMimeType mimeType).
Proof.
  split; [| split].
  - unfold ImageStore.extensionFromMimeType. cbv zeta.
    destruct (_ || _); [cbn; tauto |].
    destruct (includes _ "webp"); [cbn; tauto |].
    destruct (includes _ "gif"); cbn; tauto.
  - unfold ImageStore.extensionFromMimeType. now rewrite toLowerCase_idem.
  - intros other H. unfold ImageStore.extensionFromMimeType. now rewrite H.
Qed.

Lemma extensionFromMimeType_range_witness :
  ImageStore.extensionFromMimeType "IMAGE/JPEG" = ImageStore.extensionFromMimeType "image/jpeg".
Proof.
  apply (extensionFromMimeType_range "image/jpeg"). reflexivity.
Defined.

(** ** Stored paths *)

Lemma stripLeadingSlashes_no_slash (s : string) :
  String.prefix "/" (stripLeadingSlashes s) = false.
Proof.
  induction s as [| c s IH]; [reflexivity |].
  cbn [stripLeadingSlashes].
  destruct c as [[] [] [] [] [] [] [] []]; try reflexivity. exact IH.
Qed.

Lemma stripLeadingSlashes_In (c : ascii) (s : string) :
  In c (list_ascii_of_string (stripLeadingSlashes s)) -> In c (list_ascii_of_string s).
Proof.
  induction s as [| a s IH]; [auto |]. cbn [stripLeadingSlashes].
  destruct a as [[] [] [] [] [] [] [] []]; auto.
  intros H. right. now apply IH.
Qed.

Lemma backslashesToSlashes_slashesOnly (s : string) : slashesOnly (backslashesToSlashes s).
Proof.
  unfold slashesOnly. induction s as [| c s IH]; [auto |].
  cbn [backslashesToSlashes list_ascii_of_string]. intros [H | H]; [| auto].
  destruct (Ascii.eqb c "\") eqn:E; [discriminate |].
  apply Ascii.eqb_neq in E. congruence.
Qed.

Lemma normalizeStudioPath_slashesOnly (N : Node) (p : string) :
  slashesOnly (ImageStore.normalizeStudioPath N p).
Proof.
  unfold ImageStore.normalizeStudioPath. cbv zeta.
  destruct (ImageStore.isAbsoluteStudioPath N _);
    [apply backslashesToSlashes_slashesOnly |].
  intros H. apply stripLeadingSlashes_In in H.
  now apply (backslashesToSlashes_slashesOnly (trim p)).
Qed.

(** X14.  A normalised relative path never begins with a slash and
    holds no backslash, and a normalised studio path holds no backslash,
    on every platform.  Hence every row that [insertReferenceImage]
    stores has such a relative path, and every row that [insertImage]
    stores has a path without backslashes. *)
Theorem stored_paths_are_normalized (N : Node) (fails : ImageStore.IoCall -> bool) :
  (forall p, String.prefix "/" (ImageStore.normalizeRelativePath N p) = false
             /\ slashesOnly (ImageStore.normalizeRelativePath N p)
             /\ slashesOnly (ImageStore.normalizeStudioPath N p))
  /\ (forall a b c, String.prefix "/" (ImageStore.buildRelativePath N a b c) = false)
  /\ (forall input w w',
        ImageStore.insertReferenceImage N fails input w = (inr tt, w') ->
        exists row,
          ImageStore.reference_images w' !! ReferenceImages.id input = Some row
          /\ String.prefix "/" (ReferenceImages.filePath row) = false
          /\ slashesOnly (ReferenceImages.filePath row))
  /\ (forall input w w',
        ImageStore.insertImage N fails input w = (inr tt, w') ->
        exists row,
          ImageStore.images w' !! Images.id input = Some row
          /\ slashesOnly (Images.filePath row)).
Proof.
  assert (Hrel : forall p, String.prefix "/" (ImageStore.normalizeRelativePath N p) = false
                           /\ slashesOnly (ImageStore.normalizeRelativePath N p)).
  { intros p. unfold ImageStore.normalizeRelativePath.
    split; [apply stripLeadingSlashes_no_slash |].
    intros H. apply stripLeadingSlashes_In in H.
    now apply (normalizeStudioPath_slashesOnly N p). }
  split; [| split; [| split]].
  - intros p. destruct (Hrel p). auto using normalizeStudioPath_slashesOnly.
  - intros a b c. apply Hrel.
  - intros input w w' H. unfold ImageStore.insertReferenceImage in H.
    destruct (fails _); [discriminate |].
    destruct (ImageStore.reference_images w !! _); [discriminate |].
    destruct (ImageStore.images w !! _); [| discriminate].
    injection H as <-. eexists. cbn [ImageStore.reference_images ImageStore.with_reference_images].
    rewrite lookup_insert_eq. split; [reflexivity |]. apply Hrel.
  - intros input w w' H. unfold ImageStore.insertImage in H.
    destruct (fails _); [discriminate |].
    destruct (ImageStore.images w !! _); [discriminate |].
    injection H as <-. eexists. cbn [ImageStore.images ImageStore.with_images].
    rewrite lookup_insert_eq. split; [reflexivity |].
    apply normalizeStudioPath_slashesOnly.
Qed.

Lemma stored_paths_are_normalized_witness :
  exists row,
    ImageStore.images
      (snd (ImageStore.insertImage sampleNode nothingFails sampleImage emptyWorld))
      !! "img-1" = Some row
    /\ slashesOnly (Images.filePath row).
Proof.
  destruct (stored_paths_are_normalized sampleNode nothingFails) as (_ & _ & _ & Himage).
  apply (Himage sampleImage emptyWorld). reflexivity.
Defined.

(** ** The reference images of a stored image *)

Section ReferenceRows.
Variable P : Platform.
Variable N : Node.
Variable paths : ImageStore.StudioPaths.
Variable fails : ImageStore.IoCall -> bool.
Variable torn : string -> option nat.

Lemma persistReferenceImages_loop_success imageId
    (refs : list ReferenceImagePayload) (index : nat) inserted written w
    inserted' written' w' :
  ImageStore.persistReferenceImages_loop P N paths fails torn imageId refs index
    inserted written w = (inr tt, (inserted', written', w')) ->
  ImageStore.images w' = ImageStore.images w
  /\ ImageStore.drawn w' = (ImageStore.drawn w + length refs)%nat
  /\ (forall i row, ImageStore.reference_images w !! i = Some row ->
        ImageStore.reference_images w' !! i = Some row)
  /\ (forall p, ImageStore.files w !! p <> None -> ImageStore.files w' !! p <> None)
  /\ (refs <> [] -> ImageStore.images w !! imageId <> None)
  /\ (forall (k : nat) ref, refs !! k = Some ref ->
        let refId := uuidv4 P (ImageStore.drawn w + k) in
        let relativePath :=
          ImageStore.buildRelativePath N "images" "references"
            (refId +:+ "." +:+ ImageStore.extensionFromMimeType (ref_mimeType ref)) in
        ImageStore.reference_images w !! refId = None
        /\ ImageStore.reference_images w' !! refId
           = Some {| ReferenceImages.id := refId; ReferenceImages.imageId := imageId;
                     ReferenceImages.filePath :=
                       ImageStore.normalizeRelativePath N relativePath;
                     ReferenceImages.label := ref_label ref;
                     ReferenceImages.position := Z.of_nat (index + k) |}
        /\ ImageStore.files w' !! referencePath N paths refId ref <> None
        /\ ImageStore.isPathInsideRoot N (referencePath N paths refId ref)
             (ImageStore.root paths) = true
        /\ exists bytes,
             ImageStore.decodeBase64Payload N (ref_dataBase64 ref)
               ("Referenzbild " +:+ pretty (Z.of_nat (index + k) + 1))
               (Some ImageStore.MAX_REFERENCE_IMAGE_BYTES) = inr bytes).
Proof.
  revert index inserted written w.
  induction refs as [| ref rest IH]; intros index inserted written w;
    cbn [ImageStore.persistReferenceImages_loop].
  - intros [= <- <- <-]. rewrite Nat.add_0_r.
    do 5 (split; [auto; fail |]). intros k ref Hk. discriminate.
  - set (refId := uuidv4 P (ImageStore.drawn w)).
    set (path := path_join N (ImageStore.root paths) _).
    destruct (negb (ImageStore.isPathInsideRoot N path (ImageStore.root paths))) eqn:Hinside;
      [discriminate |].
    apply negb_false_iff in Hinside.
    destruct (ImageStore.decodeBase64Payload N _ _ _) as [message | bytes] eqn:Hdecode;
      [discriminate |].
    unfold ImageStore.writeFile.
    destruct (fails (ImageStore.WriteFile path)); [discriminate |].
    unfold ImageStore.insertReferenceImage. cbn [ReferenceImages.id ReferenceImages.imageId].
    destruct (fails (ImageStore.InsertReferenceImage refId)); [discriminate |].
    cbn [ImageStore.reference_images ImageStore.images ImageStore.with_files ImageStore.draw].
    destruct (ImageStore.reference_images w !! refId) eqn:Hnew; [discriminate |].
    destruct (ImageStore.images w !! imageId) eqn:Himage; [| discriminate].
    intros Hloop.
    apply IH in Hloop as (Himg & Hdrawn & Hkeep & Hfiles & _ & Hrows).
    cbn [ImageStore.reference_images ImageStore.images ImageStore.files ImageStore.drawn
           ImageStore.with_reference_images ImageStore.with_files ImageStore.draw]
      in Himg, Hdrawn, Hkeep, Hfiles, Hrows.
    assert (Hkeep0 : forall i row, ImageStore.reference_images w !! i = Some row ->
                       ImageStore.reference_images w' !! i = Some row).
    { intros i row Hi. apply Hkeep. rewrite lookup_insert_ne; [exact Hi |]. congruence. }
    split; [exact Himg |]. split; [cbn [length]; lia |]. split; [exact Hkeep0 |].
    split.
    { intros p Hp. apply Hfiles. rewrite lookup_insert. case_decide; [discriminate | exact Hp]. }
    split; [intros _; discriminate |].
    intros [| k] ref' Hk; cbv zeta.
    + injection Hk as <-. rewrite !Nat.add_0_r. fold refId.
      split; [exact Hnew |]. split; [apply Hkeep, lookup_insert_eq |].
      split; [apply Hfiles; unfold referencePath; fold path; rewrite lookup_insert_eq;
              discriminate |].
      split; [exact Hinside |]. eexists. exact Hdecode.
    + change ((ref :: rest) !! S k) with (rest !! k) in Hk.
      specialize (Hrows k ref' Hk). cbv zeta in Hrows.
      replace (S (ImageStore.drawn w) + k)%nat with (ImageStore.drawn w + S k)%nat
        in Hrows by lia.
      replace (S index + k)%nat with (index + S k)%nat in Hrows by lia.
      destruct Hrows as (Hnone & Hrow & Hfile & Hin & Hdec).
      split; [| tauto].
      destruct (ImageStore.reference_images w !! uuidv4 P (ImageStore.drawn w + S k))
        as [row |] eqn:E; [| reflexivity].
      destruct (decide (uuidv4 P (ImageStore.drawn w + S k) = refId)) as [Heq | Hne].
      * rewrite Heq, lookup_insert_eq in Hnone. discriminate.
      * rewrite lookup_insert_ne, E in Hnone by congruence. discriminate.
Qed.
End ReferenceRows.

(** X15.  When [persistReferenceImages] returns, every reference image
    of the request has its row and its file: the row bears the image's
    id, the position of the reference in the request, its label and a
    normalised path, under an identifier that was new; its data decoded
    to a buffer of at most 20 MB and its file lies inside the studio
    root.  The image row that the references point to exists, and no
    earlier row or file was lost. *)
Theorem persistReferenceImages_rows (P : Platform) (N : Node)
    (paths : ImageStore.StudioPaths) (fails : ImageStore.IoCall -> bool)
    (torn : string -> option nat)
    (imageId : string) (request : GenerationRequest) (w w' : ImageStore.World) :
  ImageStore.persistReferenceImages P N paths fails torn imageId request w = (inr tt, w') ->
  let refs := default [] (referenceImages request) in
  ImageStore.images w' = ImageStore.images w
  /\ ImageStore.drawn w' = (ImageStore.drawn w + length refs)%nat
  /\ (refs <> [] -> ImageStore.images w !! imageId <> None)
  /\ (forall i row, ImageStore.reference_images w !! i = Some row ->
        ImageStore.reference_images w' !! i = Some row)
  /\ (forall p, ImageStore.files w !! p <> None -> ImageStore.files w' !! p <> None)
  /\ (forall (k : nat) ref, refs !! k = Some ref ->
        let refId := uuidv4 P (ImageStore.drawn w + k) in
        ImageStore.reference_images w !! refId = None
        /\ (exists row,
              ImageStore.reference_images w' !! refId = Some row
              /\ ReferenceImages.id row = refId
              /\ ReferenceImages.imageId row = imageId
              /\ ReferenceImages.position row = Z.of_nat k
              /\ ReferenceImages.label row = ref_label ref
              /\ String.prefix "/" (ReferenceImages.filePath row) = false)
        /\ ImageStore.files w' !! referencePath N paths refId ref <> None
        /\ ImageStore.isPathInsideRoot N (referencePath N paths refId ref)
             (ImageStore.root paths) = true
        /\ exists bytes,
             ImageStore.decodeBase64Payload N (ref_dataBase64 ref)
               ("Referenzbild " +:+ pretty (Z.of_nat k + 1))
               (Some ImageStore.MAX_REFERENCE_IMAGE_BYTES) = inr bytes
             /\ Z.of_nat (length bytes) <= ImageStore.MAX_REFERENCE_IMAGE_BYTES).
Proof.
  intros H refs. subst refs. unfold ImageStore.persistReferenceImages in H.
  destruct (default [] (referenceImages request)) as [| ref rest] eqn:Hrefs.
  - injection H as <-. rewrite Nat.add_0_r.
    do 5 (split; [auto; fail |]). intros k ref Hk. discriminate.
  - destruct (ImageStore.persistReferenceImages_loop P N paths fails torn imageId
                (ref :: rest) 0 [] [] w) as [[message | []] [[inserted written] w1]] eqn:Hloop;
      [discriminate |].
    injection H as <-.
    apply persistReferenceImages_loop_success in Hloop
      as (Himg & Hdrawn & Hkeep & Hfiles & Hfk & Hrows).
    split; [exact Himg |]. split; [exact Hdrawn |]. split; [exact Hfk |].
    split; [exact Hkeep |]. split; [exact Hfiles |].
    intros k ref' Hk. specialize (Hrows k ref' Hk). cbv zeta in Hrows |- *.
    rewrite Nat.add_0_l in Hrows.
    destruct Hrows as (Hnone & Hrow & Hfile & Hinside & bytes & Hdecode).
    split; [exact Hnone |]. split.
    + eexists. split; [exact Hrow |]. cbn. repeat split.
      unfold ImageStore.normalizeRelativePath. apply stripLeadingSlashes_no_slash.
    + split; [exact Hfile |]. split; [exact Hinside |]. exists bytes.
      split; [exact Hdecode |].
      unfold ImageStore.decodeBase64Payload in Hdecode. cbv zeta in Hdecode.
      destruct (negb (truthy _)); [discriminate |].
      destruct (negb (ImageStore.isLikelyBase64 _)); [discriminate |].
      destruct (_ <? ImageStore.estimateBase64Bytes _); [discriminate |].
      destruct (Buffer_from_base64 N _) as [| b l]; [discriminate |].
      destruct (_ <? Z.of_nat (length (b :: l))) eqn:E; [discriminate |].
      injection Hdecode as <-. now apply Z.ltb_ge in E.
Qed.

Lemma persistReferenceImages_rows_witness :
  let w := ImageStore.with_images {[ "img-1" := sampleImage ]} emptyWorld in
  let w' := snd (ImageStore.persistReferenceImages samplePlatform sampleNode samplePaths
                   nothingFails wholeWrites "img-1" (ImageStore.request sampleInput) w) in
  exists row, ImageStore.reference_images w' !! "uuid-0" = Some row
              /\ ReferenceImages.imageId row = "img-1"
              /\ ReferenceImages.position row = 0
              /\ ReferenceImages.label row = Some "style".
Proof.
  intros w w'.
  destruct (persistReferenceImages_rows samplePlatform sampleNode samplePaths nothingFails
              wholeWrites "img-1" (ImageStore.request sampleInput) w w') as (_ & _ & _ & _ & _ & Hrows).
  - reflexivity.
  - destruct (Hrows 0%nat _ eq_refl) as (_ & (row & Hrow & _ & Himage & Hpos & Hlabel & _) & _).
    exists row. auto.
Defined.

(** ** The validation of requests *)

Lemma has_In (set : list string) (x : string) : Ipc.has set x = true <-> In x set.
Proof.
  unfold Ipc.has. rewrite List.existsb_exists. split.
  - intros (y & Hy & E). apply String.eqb_eq in E. now subst.
  - intros H. exists x. split; [exact H | apply String.eqb_refl].
Qed.

Lemma bind_inr {A B} (m : string + A) (k : A -> string + B) (b : B) :
  Ipc.bind m k = inr b -> exists a, m = inr a /\ k a = inr b.
Proof. destruct m as [e | a]; [discriminate | eauto]. Qed.

Lemma dedupe_fold (items seen : list string) :
  NoDup seen ->
  let result :=
    List.fold_left (fun seen x => if Ipc.has seen x then seen else seen ++ [x]) items seen in
  NoDup result /\ (forall x, In x result <-> In x seen \/ In x items)
  /\ (NoDup (seen ++ items) -> result = seen ++ items).
Proof.
  revert seen. induction items as [| x items IH]; intros seen Hseen; cbn [List.fold_left].
  - split; [exact Hseen |]. split; [intros x; cbn; tauto |]. intros _. now rewrite app_nil_r.
  - destruct (Ipc.has seen x) eqn:E.
    + apply has_In in E. destruct (IH seen Hseen) as (Hnodup & Hin & _).
      split; [exact Hnodup |]. split.
      * intros y. rewrite Hin. cbn. intuition congruence.
      * intros Hall. apply NoDup_app in Hall as (_ & Hdisjoint & _).
        destruct (Hdisjoint x); [now apply list_elem_of_In | left].
    + assert (Hnew : ~ In x seen) by (rewrite <- has_In; congruence).
      assert (Hseen' : NoDup (seen ++ [x])).
      { apply NoDup_app. split; [exact Hseen |]. split; [| apply NoDup_singleton].
        intros y Hy Hx. apply list_elem_of_singleton in Hx. subst y.
        now apply Hnew, list_elem_of_In. }
      destruct (IH (seen ++ [x]) Hseen') as (Hnodup & Hin & Heq).
      split; [exact Hnodup |]. split.
      * intros y. rewrite Hin, List.in_app_iff. cbn. tauto.
      * intros Hall. rewrite Heq; rewrite <- app_assoc; [reflexivity | exact Hall].
Qed.

Lemma dedupe_spec (items : list string) :
  NoDup (Ipc.dedupe items) /\ (forall x, In x (Ipc.dedupe items) <-> In x items)
  /\ (NoDup items -> Ipc.dedupe items = items).
Proof.
  destruct (dedupe_fold items [] (NoDup_nil_2)) as (Hnodup & Hin & Heq).
  split; [exact Hnodup |]. split; [| exact Heq].
  intros x. unfold Ipc.dedupe. rewrite Hin. cbn. tauto.
Qed.

Lemma parseReferenceImagePayload_valid (v : Ipc.value) (index : nat) ref :
  Ipc.parseReferenceImagePayload v index = inr ref -> validReference ref.
Proof.
  unfold Ipc.parseReferenceImagePayload. cbv zeta.
  destruct (negb (Ipc.isRecord v)); [discriminate |]. intros H.
  apply bind_inr in H as (name & Hname & H).
  apply bind_inr in H as (mime & Hmime & H).
  apply bind_inr in H as (data & Hdata & H).
  destruct (Ipc.prop v "name") as [| | | | | n | | |]; try discriminate.
  destruct (truthy (trim n)) eqn:En; [| discriminate]. injection Hname as ->.
  destruct (Ipc.prop v "mimeType") as [| | | | | m | | |]; try discriminate.
  destruct (truthy (trim m)) eqn:Em; [| discriminate]. injection Hmime as ->.
  destruct (Ipc.prop v "dataBase64") as [| | | | | d | | |]; try discriminate.
  destruct (truthy (trim d)) eqn:Ed; [| discriminate]. injection Hdata as ->.
  destruct (Ipc.hasOwnProperty v "label" && _ && _) eqn:Elabel; [discriminate |].
  injection H as <-. unfold validReference. cbn [ref_name ref_mimeType ref_dataBase64 ref_label].
  repeat (split; [assumption |]). intros label Hlabel.
  destruct (Ipc.prop v "label") as [| | | | | l | | |] eqn:Ep; try discriminate.
  injection Hlabel as ->. cbn [Ipc.nullish negb andb] in Elabel. rewrite andb_true_r in Elabel.
  apply andb_false_iff in Elabel as [Eown | Ehas].
  - unfold Ipc.hasOwnProperty, Ipc.prop in *. destruct v as [| | | | | | | fields |];
      try discriminate.
    destruct (List.find _ fields) as [kv |] eqn:Efind; [| discriminate].
    apply List.find_some in Efind as [Hin Hkey].
    assert (existsb (fun kv => String.eqb (fst kv) "label") fields = true)
      by (apply List.existsb_exists; eauto).
    congruence.
  - apply negb_false_iff in Ehas. now apply has_In.
Qed.

Lemma parseReferenceImages_valid (items : list Ipc.value) (index : nat) refs :
  Ipc.parseReferenceImages items index = inr refs ->
  length refs = length items /\ Forall validReference refs.
Proof.
  revert index refs. induction items as [| item items IH]; intros index refs;
    cbn [Ipc.parseReferenceImages].
  - intros [= <-]. split; [reflexivity | constructor].
  - intros H. apply bind_inr in H as (ref & Href & H).
    apply bind_inr in H as (rest & Hrest & H). injection H as <-.
    apply IH in Hrest as [Hlen Hvalid]. split; [cbn; lia |].
    constructor; [| exact Hvalid]. eapply parseReferenceImagePayload_valid, Href.
Qed.

Lemma parseModalities_valid (items : list Ipc.value) modalities :
  Ipc.parseModalities items = inr modalities ->
  length modalities = length items
  /\ Forall (fun m => In m Ipc.ALLOWED_RESPONSE_MODALITIES) modalities.
Proof.
  revert modalities. induction items as [| item items IH]; intros modalities;
    cbn [Ipc.parseModalities].
  - intros [= <-]. split; [reflexivity | constructor].
  - destruct item as [| | | | | m | | |]; try discriminate.
    destruct (Ipc.has Ipc.ALLOWED_RESPONSE_MODALITIES m) eqn:E; [| discriminate].
    intros H. apply bind_inr in H as (rest & Hrest & H). injection H as <-.
    apply IH in Hrest as [Hlen Hvalid]. split; [cbn; lia |].
    constructor; [now apply has_In | exact Hvalid].
Qed.

(** X16.  A request that [parseGenerationRequestInput] lets through is
    valid: its model is one of the four known models and its prompt is
    not blank; it has at most 14 reference images, each with a name, a
    MIME type and data that are not blank and with a known label or none;
    its aspect ratio, resolution and thinking level are known values or
    absent; its response modalities, when given, are a non-empty list of
    known modalities without repetition; and its batch count, when
    given, is a whole number from 1 to 4.  A value that is no record is
    rejected. *)
Theorem parseGenerationRequestInput_valid (v : Ipc.value) (request : GenerationRequest) :
  Ipc.parseGenerationRequestInput v = inr request ->
  validRequest request /\ Ipc.isRecord v = true.
Proof.
  unfold Ipc.parseGenerationRequestInput.
  destruct (Ipc.isRecord v); [| discriminate]. cbn [negb]. intros H.
  split; [| reflexivity].
  apply bind_inr in H as (m & Hmodel & H).
  apply bind_inr in H as (p & Hprompt & H).
  apply bind_inr in H as (sp & _ & H).
  apply bind_inr in H as (refs & Hrefs & H).
  apply bind_inr in H as (ratio & Hratio & H).
  apply bind_inr in H as (tier & Htier & H).
  apply bind_inr in H as (level & Hlevel & H).
  apply bind_inr in H as (search & _ & H).
  apply bind_inr in H as (modalities & Hmodalities & H).
  apply bind_inr in H as (count & Hcount & H).
  apply bind_inr in H as (parent & _ & H).
  apply bind_inr in H as (project & _ & H).
  injection H as <-. unfold validRequest.
  cbn [model prompt referenceImages aspectRatio resolution thinkingLevel
         responseModalities batchCount].
  split; [| split; [| split; [| split; [| split; [| split; [| split]]]]]].
  - destruct (Ipc.prop v "model") as [| | | | | s | | |]; try discriminate.
    destruct (Ipc.has ALLOWED_MODELS s) eqn:E; [| discriminate].
    injection Hmodel as <-. now apply has_In.
  - destruct (Ipc.prop v "prompt") as [| | | | | s | | |]; try discriminate.
    destruct (truthy (trim s)) eqn:E; [| discriminate]. now injection Hprompt as <-.
  - intros l ->. destruct (Ipc.hasOwnProperty v "referenceImages"); [| discriminate].
    destruct (Ipc.prop v "referenceImages") as [| | | | | | items | |]; try discriminate.
    destruct (Ipc.MAX_REFERENCE_IMAGES <? Z.of_nat (length items)) eqn:E; [discriminate |].
    apply Z.ltb_ge in E. apply bind_inr in Hrefs as (l' & Hl' & Hrefs).
    injection Hrefs as <-. apply parseReferenceImages_valid in Hl' as [Hlen Hvalid].
    split; [rewrite Hlen; exact E | exact Hvalid].
  - intros a ->. destruct (Ipc.hasOwnProperty v "aspectRatio"); [| discriminate].
    destruct (Ipc.prop v "aspectRatio") as [| | | | | s | | |]; try discriminate.
    destruct (Ipc.has Ipc.ALLOWED_ASPECT_RATIOS s) eqn:E; [| discriminate].
    injection Hratio as <-. now apply has_In.
  - intros a ->. destruct (Ipc.hasOwnProperty v "resolution"); [| discriminate].
    destruct (Ipc.prop v "resolution") as [| | | | | s | | |]; try discriminate.
    destruct (Ipc.has ALLOWED_RESOLUTIONS s) eqn:E; [| discriminate].
    injection Htier as <-. now apply has_In.
  - intros a ->. destruct (Ipc.hasOwnProperty v "thinkingLevel"); [| discriminate].
    destruct (Ipc.prop v "thinkingLevel") as [| | | | | s | | |]; try discriminate.
    destruct (Ipc.has Ipc.ALLOWED_THINKING_LEVELS s) eqn:E; [| discriminate].
    injection Hlevel as <-. now apply has_In.
  - intros l ->. destruct (Ipc.hasOwnProperty v "responseModalities"); [| discriminate].
    destruct (Ipc.prop v "responseModalities") as [| | | | | | items | |]; try discriminate.
    destruct items as [| item items]; [discriminate |].
    apply bind_inr in Hmodalities as (l' & Hl' & Hmodalities).
    injection Hmodalities as <-. apply parseModalities_valid in Hl' as [Hlen Hvalid].
    destruct (dedupe_spec l') as (Hnodup & Hin & _).
    split; [| split; [exact Hnodup |]].
    + destruct l' as [| x l']; [discriminate Hlen |].
      intros Hempty. assert (Hx : In x (Ipc.dedupe (x :: l'))) by (apply Hin; now left).
      rewrite Hempty in Hx. destruct Hx.
    + rewrite List.Forall_forall in *. intros x Hx. apply Hvalid, Hin, Hx.
  - intros n ->. destruct (Ipc.hasOwnProperty v "batchCount"); [| discriminate].
    destruct (Ipc.prop v "batchCount") as [| | | [| q] | | | | |]; try discriminate.
    destruct (Ipc.isInteger q && Qle_bool 1 q && Qle_bool q 4) eqn:E; [| discriminate].
    injection Hcount as <-.
    apply andb_true_iff in E as [E E4]. apply andb_true_iff in E as [Eint E1].
    apply Qle_bool_iff in E1, E4.
    split.
    + apply (Qfloor_resp_le 1 q) in E1. exact E1.
    + apply (Qfloor_resp_le q 4) in E4. exact E4.
Qed.

Lemma bind_ret {A B} (m : string + A) (a : A) (k : A -> string + B) :
  m = inr a -> Ipc.bind m k = k a.
Proof. now intros ->. Qed.

Ltac own_property b :=
  lazymatch goal with
  | |- (if ?c then _ else _) = _ => replace c with b by reflexivity; cbv iota
  end.

Ltac property_value x :=
  lazymatch goal with
  | |- match ?p with _ => _ end = _ => replace p with x by reflexivity
  end.

Lemma parseReferenceImagePayload_encode (ref : ReferenceImagePayload) (index : nat) :
  validReference ref ->
  Ipc.parseReferenceImagePayload (encodeReference ref) index = inr ref.
Proof.
  intros (Hname & Hmime & Hdata & Hlabel).
  destruct ref as [id name mime data label]. cbn [ref_name ref_mimeType ref_dataBase64
                                                      ref_label] in *.
  unfold Ipc.parseReferenceImagePayload. cbv zeta.
  change (negb (Ipc.isRecord (encodeReference _))) with false. cbv iota.
  rewrite (bind_ret _ name) by (property_value (Ipc.VString name); now rewrite Hname).
  cbv beta.
  rewrite (bind_ret _ mime) by (property_value (Ipc.VString mime); now rewrite Hmime).
  cbv beta.
  rewrite (bind_ret _ data) by (property_value (Ipc.VString data); now rewrite Hdata).
  cbv beta.
  change (Ipc.hasOwnProperty (encodeReference _) "label") with true.
  change (Ipc.prop (encodeReference _) "label") with (encodeOption Ipc.VString label).
  change (Ipc.prop (encodeReference _) "id") with (encodeOption Ipc.VString id).
  destruct label as [l |]; cbn [encodeOption Ipc.nullish negb andb].
  - rewrite (proj2 (has_In _ _) (Hlabel l eq_refl)). cbn [negb]. now destruct id.
  - now destruct id.
Qed.

Lemma parseReferenceImages_encode (refs : list ReferenceImagePayload) (index : nat) :
  Forall validReference refs ->
  Ipc.parseReferenceImages (encodeReference <$> refs) index = inr refs.
Proof.
  intros Hvalid. revert index. induction Hvalid as [| ref refs Href _ IH]; intros index;
    [reflexivity |].
  rewrite fmap_cons. cbn [Ipc.parseReferenceImages].
  rewrite (bind_ret _ ref) by now apply parseReferenceImagePayload_encode.
  now rewrite (bind_ret _ refs) by apply IH.
Qed.

Lemma parseModalities_encode (modalities : list string) :
  Forall (fun m => In m Ipc.ALLOWED_RESPONSE_MODALITIES) modalities ->
  Ipc.parseModalities (Ipc.VString <$> modalities) = inr modalities.
Proof.
  induction 1 as [| m modalities Hm _ IH]; [reflexivity |].
  rewrite fmap_cons. cbn [Ipc.parseModalities].
  rewrite (proj2 (has_In _ _) Hm). now rewrite (bind_ret _ modalities) by exact IH.
Qed.

(** X17.  The validation accepts every valid request that is sent field
    by field, and hands it to the queue unchanged.  A prompt is valid
    when something other than white space is in it: a request for an
    allowed model whose prompt is blank, be it of no-break spaces only,
    is refused for its prompt. *)
Theorem parseGenerationRequestInput_accepts (request : GenerationRequest) :
  (validRequest request ->
   Ipc.parseGenerationRequestInput (encodeRequest request) = inr request)
  /\ (In (model request) ALLOWED_MODELS -> trim (prompt request) = EmptyString ->
      Ipc.parseGenerationRequestInput (encodeRequest request)
      = inl "Prompt ist erforderlich.")
  /\ (forall text, trim (String "194" (String "160" text)) = trim text).
Proof.
  split; cycle 1.
  { split; [| intros text; unfold trim, trimStart; reflexivity].
    intros Hmodel Hblank. unfold Ipc.parseGenerationRequestInput.
    set (v := encodeRequest _).
    change (negb (Ipc.isRecord v)) with false. cbv iota.
    rewrite (bind_ret _ (model request))
      by (property_value (Ipc.VString (model request));
          now rewrite (proj2 (has_In _ _) Hmodel)).
    cbv beta.
    assert (Hvalue : Ipc.prop v "prompt" = Ipc.VString (prompt request)) by reflexivity.
    rewrite Hvalue, Hblank. reflexivity. }
  intros (Hmodel & Hprompt & Hrefs & Hratio & Htier & Hlevel & Hmods & Hcount).
  destruct request as [m p sp refs ratio tier level search mods count parent project].
  cbn [model prompt referenceImages aspectRatio resolution thinkingLevel
         responseModalities batchCount] in *.
  unfold Ipc.parseGenerationRequestInput.
  set (v := encodeRequest _).
  change (negb (Ipc.isRecord v)) with false. cbv iota.
  rewrite (bind_ret _ m)
    by (property_value (Ipc.VString m); now rewrite (proj2 (has_In _ _) Hmodel)).
  cbv beta.
  rewrite (bind_ret _ p) by (property_value (Ipc.VString p); now rewrite Hprompt).
  cbv beta.
  rewrite (bind_ret _ sp)
    by (own_property true; property_value (encodeOption Ipc.VString sp); now destruct sp).
  cbv beta.
  rewrite (bind_ret _ refs).
  2:{ subst v. destruct refs as [l |], mods as [ms |].
      1-2: own_property true; property_value (Ipc.VArray (encodeReference <$> l));
        destruct (Hrefs l eq_refl) as [Hlen Hvalid];
        rewrite length_fmap, (proj2 (Z.ltb_ge _ _) Hlen);
        now rewrite (bind_ret _ l) by (now apply parseReferenceImages_encode).
      all: now own_property false. }
  cbv beta.
  rewrite (bind_ret _ ratio).
  2:{ own_property true. property_value (encodeOption Ipc.VString ratio).
      destruct ratio as [a |]; [| reflexivity]. cbn [encodeOption].
      now rewrite (proj2 (has_In _ _) (Hratio a eq_refl)). }
  cbv beta.
  rewrite (bind_ret _ tier).
  2:{ own_property true. property_value (encodeOption Ipc.VString tier).
      destruct tier as [a |]; [| reflexivity]. cbn [encodeOption].
      now rewrite (proj2 (has_In _ _) (Htier a eq_refl)). }
  cbv beta.
  rewrite (bind_ret _ level).
  2:{ own_property true. property_value (encodeOption Ipc.VString level).
      destruct level as [a |]; [| reflexivity]. cbn [encodeOption].
      now rewrite (proj2 (has_In _ _) (Hlevel a eq_refl)). }
  cbv beta.
  rewrite (bind_ret _ search)
    by (own_property true; property_value (encodeOption Ipc.VBool search);
        now destruct search).
  cbv beta.
  rewrite (bind_ret _ mods).
  2:{ subst v. destruct mods as [ms |], refs as [l |].
      1-2: own_property true; property_value (Ipc.VArray (Ipc.VString <$> ms));
        destruct (Hmods ms eq_refl) as (Hne & Hnodup & Hallowed);
        destruct ms as [| x ms]; [congruence |]; rewrite fmap_cons;
        rewrite <- fmap_cons;
        rewrite (bind_ret _ (x :: ms)) by (now apply parseModalities_encode);
        cbv beta; now rewrite (proj2 (proj2 (dedupe_spec (x :: ms))) Hnodup).
      all: now own_property false. }
  cbv beta.
  rewrite (bind_ret _ count).
  2:{ own_property true.
      property_value (encodeOption (fun n => Ipc.VNumber (Num (inject_Z n))) count).
      destruct count as [n |]; [| reflexivity]. cbn [encodeOption].
      destruct (Hcount n eq_refl) as [H1 H4].
      assert (Eint : Ipc.isInteger (inject_Z n) = true).
      { unfold Ipc.isInteger. rewrite Qfloor_Z. now apply Qeq_bool_iff. }
      assert (E1 : Qle_bool 1 (inject_Z n) = true).
      { apply Qle_bool_iff. change (inject_Z 1 <= inject_Z n)%Q. now rewrite <- Zle_Qle. }
      assert (E4 : Qle_bool (inject_Z n) 4 = true).
      { apply Qle_bool_iff. change (inject_Z n <= inject_Z 4)%Q. now rewrite <- Zle_Qle. }
      rewrite Eint, E1, E4. cbn [andb]. now rewrite Qfloor_Z. }
  cbv beta.
  rewrite (bind_ret _ parent)
    by (own_property true; property_value (encodeOption Ipc.VString parent);
        now destruct parent).
  cbv beta.
  rewrite (bind_ret _ project)
    by (own_property true; property_value (encodeOption Ipc.VString project);
        now destruct project).
  reflexivity.
Qed.

Lemma parseGenerationRequestInput_valid_witness :
  validRequest (ImageStore.request sampleInput).
Proof.
  apply (parseGenerationRequestInput_valid (encodeRequest (ImageStore.request sampleInput))).
  reflexivity.
Defined.

Lemma parseGenerationRequestInput_accepts_witness :
  Ipc.parseGenerationRequestInput (encodeRequest (request_4K "gemini-3-pro-image-preview"))
  = inr (request_4K "gemini-3-pro-image-preview")
  /\ Ipc.parseGenerationRequestInput (encodeRequest blankRequest)
     = inl "Prompt ist erforderlich.".
Proof.
  split.
  - apply parseGenerationRequestInput_accepts. unfold validRequest, request_4K.
    cbn [model prompt referenceImages aspectRatio resolution thinkingLevel
           responseModalities batchCount].
    split; [cbn; tauto |]. split; [reflexivity |].
    split; [discriminate |]. split; [discriminate |].
    split; [intros tier [= <-]; cbn; tauto |]. split; [discriminate |].
    split; [discriminate |]. intros count [= <-]. lia.
  - apply parseGenerationRequestInput_accepts; [cbn; tauto | reflexivity].
Defined.

(** ** The request that is sent for a job *)


Lemma prefix_app (x y : string) : String.prefix x (x +:+ y) = true.
Proof.
  induction x as [| c x IH]; [now destruct y |].
  change (String c x +:+ y) with (String c (x +:+ y)). cbn [String.prefix].
  destruct (ascii_dec c c); [exact IH | congruence].
Qed.

Lemma append_cons (c : ascii) (x y : string) : String c x +:+ y = String c (x +:+ y).
Proof. reflexivity. Qed.

Lemma append_empty_r (x : string) : x +:+ EmptyString = x.
Proof. induction x as [| c x IH]; [reflexivity |]. now rewrite append_cons, IH. Qed.

Lemma append_assoc (x y z : string) : (x +:+ y) +:+ z = x +:+ y +:+ z.
Proof. induction x as [| c x IH]; [reflexivity |]. now rewrite !append_cons, IH. Qed.

Lemma concat_cons (sep x : string) (l : list string) :
  exists rest, String.concat sep (x :: l) = x +:+ rest.
Proof.
  destruct l as [| y l]; cbn [String.concat]; [| eauto].
  exists EmptyString. now rewrite append_empty_r.
Qed.

Lemma concat_snoc (sep x : string) (l : list string) :
  exists before, String.concat sep (l ++ [x]) = before +:+ x.
Proof.
  induction l as [| y l IH]; [now exists EmptyString |].
  destruct IH as [before IH]. cbn [app].
  destruct (l ++ [x]) as [| z l'] eqn:E; [now destruct l |].
  change (String.concat sep (y :: z :: l'))
    with (y +:+ sep +:+ String.concat sep (z :: l')).
  rewrite IH. exists (y +:+ sep +:+ before).
  now rewrite !append_assoc.
Qed.

Lemma truthy_app (x y : string) : truthy x = true -> truthy (x +:+ y) = true.
Proof. now destruct x. Qed.

Section Context.
Variable N : Node.
Variable paths : ImageStore.StudioPaths.
Variable Buffer_toString_base64 : list Byte.byte -> string.
Variable tables : Projects.Tables.
Variable files : gmap string (list Byte.byte).

End Context.



Lemma pushProjectContextFragments_spec (fragments : list string)
    (project : option Projects.StudioProject) (direct : option string) :
  exists extra,
    JobContext.pushProjectContextFragments fragments project direct = fragments ++ extra
    /\ Forall (fun s => truthy s = true) extra
    /\ (project = None -> extra = [])
    /\ (forall p, project = Some p -> Projects.brandStrictMode p = true ->
          exists before, extra = before ++ [JobContext.STRICT_MODE_FRAGMENT])
    /\ (forall p, project = Some p -> trim <$> Projects.systemPrompt p = direct ->
          Projects.brandGuidelines p = None -> Projects.brandStrictMode p = false ->
          extra = []).
Proof.
  destruct project as [p |]; cbn [JobContext.pushProjectContextFragments].
  2:{ exists []. rewrite app_nil_r. repeat split; auto; discriminate. }
  cbv zeta.
  set (own := match trim <$> Projects.systemPrompt p with
              | Some text =>
                  if truthy text
                     && negb (bool_decide (trim <$> Projects.systemPrompt p = direct))
                  then [text] else []
              | None => []
              end).
  set (guide := match trim <$> Projects.brandGuidelines p with
                | Some text =>
                    if truthy text
                    then ["Markenidentitaet und Brand-Richtlinien:" +:+ String "010" text]
                    else []
                | None => []
                end).
  set (strict := if Projects.brandStrictMode p then [JobContext.STRICT_MODE_FRAGMENT]
                 else []).
  exists (own ++ guide ++ strict). split; [| split; [| split; [| split]]].
  - subst own guide strict.
    destruct (trim <$> Projects.systemPrompt p) as [text |];
      [destruct (truthy text && _) |];
      (destruct (trim <$> Projects.brandGuidelines p) as [text' |];
       [destruct (truthy text') |]);
      destruct (Projects.brandStrictMode p);
      cbn [app]; rewrite <- ?app_assoc, ?app_nil_r; reflexivity.
  - subst own guide strict. rewrite !Forall_app. split; [| split].
    + destruct (trim <$> Projects.systemPrompt p) as [text |]; [| constructor].
      destruct (truthy text) eqn:E; cbn [andb]; [| constructor].
      destruct (negb _); repeat constructor. exact E.
    + destruct (trim <$> Projects.brandGuidelines p) as [text |]; [| constructor].
      destruct (truthy text); repeat constructor.
    + destruct (Projects.brandStrictMode p); repeat constructor.
  - discriminate.
  - intros p' [= <-] Hstrict. subst strict. rewrite Hstrict.
    exists (own ++ guide). now rewrite app_assoc.
  - intros p' [= <-] Hsame Hguide Hstrict. subst own guide strict.
    rewrite Hguide, Hstrict. cbn [fmap option_fmap option_map].
    destruct (trim <$> Projects.systemPrompt p) as [text |]; [| reflexivity].
    rewrite bool_decide_eq_true_2 by exact Hsame. cbn [negb]. now rewrite andb_false_r.
Qed.

(** X19.  The system prompt that is resolved for a job is never an empty
    text.  It begins with the request's own system prompt when that is
    not blank; without a project it is that prompt or nothing; with a
    project in strict mode it ends with the strict-mode instruction; and
    a project prompt that equals the request's own is not repeated.  The
    request that is sent carries the resolved prompt whenever there is
    one, and the prompt of the request otherwise. *)
Theorem resolveSystemPrompt_spec (N : Node) (tables : Projects.Tables)
    (request : GenerationRequest) :
  let result := JobContext.resolveSystemPrompt N tables request in
  (forall text, result = Some text -> truthy text = true)
  /\ (forall direct, directPrompt request = Some direct ->
        exists rest, result = Some (direct +:+ rest))
  /\ (projectOf N tables request = None -> result = directPrompt request)
  /\ (forall project, projectOf N tables request = Some project ->
        Projects.brandStrictMode project = true ->
        exists before, result = Some (before +:+ JobContext.STRICT_MODE_FRAGMENT))
  /\ (forall project direct, projectOf N tables request = Some project ->
        directPrompt request = Some direct ->
        trim <$> Projects.systemPrompt project = Some direct ->
        Projects.brandGuidelines project = None ->
        Projects.brandStrictMode project = false ->
        result = Some direct)
  /\ (forall paths Buffer_toString_base64 files,
        systemPrompt (JobContext.requestForGeneration N paths Buffer_toString_base64
                        tables files request)
        = match result with
          | Some text => Some text
          | None => systemPrompt request
          end).
Proof.
  intros result.
  assert (Hshape : exists extra,
            result = match match directPrompt request with
                           | Some direct => [direct] | None => []
                           end ++ extra with
                     | [] => None
                     | fragments =>
                         Some (String.concat (String "010" (String "010" "")) fragments)
                     end
            /\ Forall (fun s => truthy s = true) extra
            /\ (projectOf N tables request = None -> extra = [])
            /\ (forall p, projectOf N tables request = Some p ->
                  Projects.brandStrictMode p = true ->
                  exists before, extra = before ++ [JobContext.STRICT_MODE_FRAGMENT])
            /\ (forall p, projectOf N tables request = Some p ->
                  trim <$> Projects.systemPrompt p = trim <$> systemPrompt request ->
                  Projects.brandGuidelines p = None ->
                  Projects.brandStrictMode p = false -> extra = [])).
  { subst result. unfold JobContext.resolveSystemPrompt. cbv zeta.
    fold (projectOf N tables request).
    destruct (pushProjectContextFragments_spec
                match trim <$> systemPrompt request with
                | Some text => if truthy text then [text] else []
                | None => []
                end (projectOf N tables request) (trim <$> systemPrompt request))
      as (extra & -> & Htruthy & Hnone & Hstrict & Hsame).
    exists extra. split; [| auto].
    unfold directPrompt. destruct (trim <$> systemPrompt request) as [text |];
      [destruct (truthy text) |]; reflexivity. }
  destruct Hshape as (extra & Hresult & Htruthy & Hnone & Hstrict & Hsame).
  assert (Htext : forall text, result = Some text -> truthy text = true).
  { intros text. rewrite Hresult.
    assert (Hdirect : forall d, directPrompt request = Some d -> truthy d = true).
    { unfold directPrompt. intros d. destruct (trim <$> systemPrompt request) as [t |];
        [| discriminate].
      destruct (truthy t) eqn:E; [| discriminate]. now intros [= <-]. }
    destruct (directPrompt request) as [d |] eqn:Ed; cbn [app].
    - cbv beta iota.
      destruct (concat_cons (String "010" (String "010" "")) d extra) as [rest ->].
      intros [= <-]. apply truthy_app. now apply Hdirect.
    - destruct extra as [| x extra]; [discriminate |]. cbv beta iota.
      destruct (concat_cons (String "010" (String "010" "")) x extra) as [rest ->].
      intros [= <-]. apply truthy_app. now inversion Htruthy. }
  split; [exact Htext |]. split; [| split; [| split; [| split]]].
  - intros direct Hd. rewrite Hresult, Hd. cbn [app]. cbv beta iota.
    destruct (concat_cons (String "010" (String "010" "")) direct extra) as [rest ->].
    eauto.
  - intros Hno. rewrite Hresult, (Hnone Hno), app_nil_r.
    now destruct (directPrompt request).
  - intros project Hproject Hmode. destruct (Hstrict project Hproject Hmode) as [before ->].
    rewrite Hresult, app_assoc.
    destruct (concat_snoc (String "010" (String "010" "")) JobContext.STRICT_MODE_FRAGMENT
                (match directPrompt request with Some direct => [direct] | None => [] end
                 ++ before)) as [text Htext'].
    destruct ((match directPrompt request with Some direct => [direct] | None => [] end
               ++ before) ++ [JobContext.STRICT_MODE_FRAGMENT]) as [| x l] eqn:E.
    + destruct (List.app_cons_not_nil _ _ _ (eq_sym E)).
    + cbv beta iota. rewrite Htext'. eauto.
  - intros project direct Hproject Hd Hown Hguide Hmode.
    rewrite Hresult, Hd.
    rewrite (Hsame project Hproject); [reflexivity | | exact Hguide | exact Hmode].
    rewrite Hown. unfold directPrompt in Hd.
    destruct (trim <$> systemPrompt request) as [t |]; [| discriminate].
    destruct (truthy t); [| discriminate]. now injection Hd as ->.
  - intros paths toBase64 files. cbn [JobContext.requestForGeneration systemPrompt].
    fold result. destruct result as [text |] eqn:E; [| reflexivity].
    now rewrite (Htext text eq_refl).
Qed.

Lemma resolveSystemPrompt_spec_witness :
  (exists rest,
     JobContext.resolveSystemPrompt sampleNode sampleTables projectRequest
     = Some ("Flat illustration." +:+ rest))
  /\ JobContext.resolveSystemPrompt sampleNode sampleTables paddedRequest
     = Some "Flat illustration.".
Proof.
  split.
  - destruct (resolveSystemPrompt_spec sampleNode sampleTables projectRequest)
      as (_ & Hdirect & _).
    apply Hdirect. reflexivity.
  - destruct (resolveSystemPrompt_spec sampleNode sampleTables paddedRequest)
      as (_ & _ & Hplain & _).
    cbv zeta in Hplain. rewrite Hplain; reflexivity.
Defined.

(** ** The total spend limit holds *)

Local Open Scope Q_scope.

Lemma openJobCosts_cons (row : Db.QueueJob) (l : list Db.QueueJob) :
  sumQ (openJobCosts (row :: l))
  == (if Db.is_open row then Queue.estimateCost (resolution (Db.request row)) else 0)
     + sumQ (openJobCosts l).
Proof.
  unfold openJobCosts, sumQ. cbn [List.filter].
  destruct (Db.is_open row); cbn [List.map List.fold_right]; ring.
Qed.

Lemma openJobCosts_app (l1 l2 : list Db.QueueJob) :
  sumQ (openJobCosts (l1 ++ l2)) == sumQ (openJobCosts l1) + sumQ (openJobCosts l2).
Proof.
  induction l1 as [| r l1 IH]; cbn [app].
  - unfold openJobCosts at 2. unfold sumQ at 2. cbn. ring.
  - rewrite !openJobCosts_cons, IH. ring.
Qed.

Lemma openJobCosts_nonneg (l : list Db.QueueJob) : 0 <= sumQ (openJobCosts l).
Proof.
  induction l as [| r l IH]; [unfold openJobCosts, sumQ; cbn; lra |].
  rewrite openJobCosts_cons. pose proof (estimateCost_pos (resolution (Db.request r))).
  destruct (Db.is_open r); lra.
Qed.

(** A row that advanced reserves no more than before. *)
Lemma advances_cost (row row' : Db.QueueJob) :
  advances row row' ->
  (if Db.is_open row' then Queue.estimateCost (resolution (Db.request row')) else 0)
  <= (if Db.is_open row then Queue.estimateCost (resolution (Db.request row)) else 0).
Proof.
  intros (Hkey & Hfw & _). assert (Hreq : Db.request row' = Db.request row).
  { unfold rowKey in Hkey. congruence. }
  rewrite Hreq. pose proof (estimateCost_pos (resolution (Db.request row))).
  unfold Db.is_open. destruct (Db.status row), (Db.status row'); cbn in Hfw;
    try discriminate; lra.
Qed.

Lemma advancesRows_cost (l l' : list Db.QueueJob) :
  advancesRows l l' -> length l' = length l ->
  sumQ (openJobCosts l') <= sumQ (openJobCosts l).
Proof.
  revert l'. induction l as [| r l IH]; intros l' Hadv Hlen.
  - destruct l'; [lra | discriminate].
  - apply advancesRows_cons_inv in Hadv as (r' & l'' & -> & Ha & Hrest).
    rewrite !openJobCosts_cons. pose proof (advances_cost r r' Ha).
    assert (sumQ (openJobCosts l'') <= sumQ (openJobCosts l))
      by (apply IH; [exact Hrest | cbn in Hlen; lia]).
    lra.
Qed.

(** An update that closes the rows it touches, one of which is the open
    row [job], releases at least the estimate of [job]. *)
Lemma closing_update_cost (matches : Db.QueueJob -> bool) (set : Db.QueueJob -> Db.QueueJob)
    (l : list Db.QueueJob) :
  (forall r, matches r = true -> Db.is_open (set r) = false) ->
  sumQ (openJobCosts (List.map (fun r => if matches r then set r else r) l))
  <= sumQ (openJobCosts l)
  /\ (forall job, In job l -> matches job = true -> Db.is_open job = true ->
        sumQ (openJobCosts (List.map (fun r => if matches r then set r else r) l))
        + Queue.estimateCost (resolution (Db.request job))
        <= sumQ (openJobCosts l)).
Proof.
  intros Hset. induction l as [| r l [IHle IHjob]]; cbn [List.map].
  - split; [lra | intros job []].
  - rewrite !openJobCosts_cons.
    pose proof (estimateCost_pos (resolution (Db.request r))) as Hpos.
    assert (Hhead : (if Db.is_open (if matches r then set r else r)
                     then Queue.estimateCost
                            (resolution (Db.request (if matches r then set r else r)))
                     else 0)
                    <= (if Db.is_open r
                        then Queue.estimateCost (resolution (Db.request r)) else 0)).
    { destruct (matches r) eqn:E; [rewrite (Hset r E); destruct (Db.is_open r); lra | lra]. }
    split; [lra |]. intros job [-> | Hin] Hm Hopen; rewrite !openJobCosts_cons.
    + rewrite Hm. cbv iota. rewrite (Hset job Hm), Hopen. lra.
    + specialize (IHjob job Hin Hm Hopen). lra.
Qed.

Section SpendLimit.
Variable P : Platform.

Lemma kick_spend q :
  wellFormed q ->
  projectedSpend (Queue.database (Queue.kick P q)) <= projectedSpend (Queue.database q)
  /\ Queue.configStore (Queue.kick P q) = Queue.configStore q.
Proof.
  intros Hwf. destruct (kick_sameFrame P q) as (Hkeys & Hlog & Hconfig & _).
  split; [| exact Hconfig]. unfold projectedSpend. rewrite Hlog.
  assert (sumQ (openJobCosts (rows (Queue.kick P q))) <= sumQ (openJobCosts (rows q))).
  { apply advancesRows_cost; [now apply kick_advances |].
    apply (f_equal length) in Hkeys. now rewrite !length_fmap in Hkeys. }
  unfold rows in *. lra.
Qed.

(** The rows that the loop of [enqueue] adds: at most [n], each pending
    with the resolution of the request. *)
Lemma enqueue_loop_added (n : nat) request ids q :
  let q' := snd (Queue.enqueue_loop P n request ids q) in
  wellFormed q -> wellFormed q'
  /\ Db.usage_log (Queue.database q') = Db.usage_log (Queue.database q)
  /\ Queue.configStore q' = Queue.configStore q
  /\ exists added,
       rows q' = rows q ++ added
       /\ sumQ (openJobCosts added)
          <= Queue.estimateCost (resolution request) * inject_Z (Z.of_nat n).
Proof.
  revert ids q. induction n as [| n IH]; intros ids q; cbn [Queue.enqueue_loop].
  - cbn. intros Hwf. split; [exact Hwf |]. split; [reflexivity |]. split; [reflexivity |].
    exists []. rewrite app_nil_r. split; [reflexivity |].
    unfold openJobCosts, sumQ. cbn [List.filter List.map List.fold_right].
    change (inject_Z (Z.of_nat 0)) with 0. lra.
  - intros Hwf.
    pose proof (estimateCost_pos (resolution request)) as Hpos.
    assert (Hn : 0 <= inject_Z (Z.of_nat n)).
    { change 0 with (inject_Z 0). rewrite <- Zle_Qle. lia. }
    assert (HS : inject_Z (Z.of_nat (S n)) == inject_Z (Z.of_nat n) + 1).
    { rewrite Nat2Z.inj_succ. unfold Z.succ. rewrite inject_Z_plus. reflexivity. }
    destruct (Db.insertQueueJob _ _ _ _ _ _) as [message | db] eqn:E.
    + cbn. split; [exact Hwf |]. split; [reflexivity |]. split; [reflexivity |].
      exists []. rewrite app_nil_r. split; [reflexivity |].
      unfold openJobCosts, sumQ. cbn [List.filter List.map List.fold_right].
      rewrite HS. nra.
    + apply (insert_pending (Queue.draw q)) in E as (Hfresh & Hrows & Hlog).
      assert (Hwf1 : wellFormed (Queue.with_database db (Queue.draw q))).
      { apply (wellFormed_insert (Queue.draw q) _ (uuidv4 P (Queue.drawn q)) request);
          [exact Hwf | exact Hfresh | exact Hrows | reflexivity]. }
      destruct (IH (ids ++ [uuidv4 P (Queue.drawn q)])
                  (Queue.with_database db (Queue.draw q)) Hwf1)
        as (Hwf' & Hlog' & Hconfig' & added & Hadded & Hcost).
      cbv zeta. split; [exact Hwf' |]. split; [rewrite Hlog'; exact Hlog |].
      split; [exact Hconfig' |].
      exists (pendingJob (Queue.clock q) request (uuidv4 P (Queue.drawn q)) :: added).
      split.
      * rewrite Hadded.
        change (rows (Queue.with_database db (Queue.draw q))) with (Db.queue_jobs db).
        rewrite Hrows. change (rows (Queue.draw q)) with (rows q).
        change (Queue.clock (Queue.draw q)) with (Queue.clock q).
        now rewrite <- app_assoc.
      * rewrite openJobCosts_cons, HS.
        change (Db.is_open (pendingJob _ _ _)) with true. cbv iota.
        change (resolution (Db.request (pendingJob (Queue.clock q) request
                                          (uuidv4 P (Queue.drawn q)))))
          with (resolution request).
        nra.
Qed.
End SpendLimit.

Section SpendLimitRun.
Variable P : Platform.

(** The state in which the continuation of a running job calls [kick]:
    the job's reservation is released, and at most its estimate is
    logged as spent. *)
Lemma resume_spend job outcome q :
  wellFormed q -> In job (rows q) -> Db.status job = running ->
  exists q'',
    Queue.runJob_resume P job outcome q = Queue.kick P q''
    /\ wellFormed q''
    /\ projectedSpend (Queue.database q'') <= projectedSpend (Queue.database q)
    /\ Queue.configStore q'' = Queue.configStore q.
Proof.
  intros Hwf Hin Hr.
  assert (Hopen : Db.is_open job = true) by (unfold Db.is_open; now rewrite Hr).
  assert (Hid : Db.has_id (Db.id job) job = true) by now apply has_id_true.
  assert (Hfinish : forall q'' (set : Db.QueueJob -> Db.QueueJob),
            (forall r, rowKey (set r) = rowKey r) ->
            (forall r, Db.is_open (set r) = false) ->
            rows q'' = List.map (fun r => if Db.has_id (Db.id job) r then set r else r)
                         (rows q) ->
            Queue.activeRuns q'' = Z.max 0 (Queue.activeRuns q - 1) ->
            wellFormed q''
            /\ sumQ (openJobCosts (rows q''))
               + Queue.estimateCost (resolution (Db.request job))
               <= sumQ (openJobCosts (rows q))).
  { intros q'' set Hkey Hclosed Hrows Hact. split.
    - apply (finish_rows q q'' job set Hwf Hin Hr Hkey); [| exact Hrows | exact Hact].
      specialize (Hclosed job). unfold Db.is_open, Db.is_running in *.
      destruct (Db.status (set job)); congruence.
    - rewrite Hrows.
      apply (closing_update_cost (Db.has_id (Db.id job)) set (rows q)
               (fun r _ => Hclosed r)); assumption. }
  pose proof (estimateCost_pos (resolution (Db.request job))) as Hpos.
  unfold Queue.runJob_resume, Queue.runJob_finally.
  destruct outcome as [imageId usage | message].
  - cbv zeta. destruct (Db.insertUsageLog _ _ _ _ _ _ _ _) as [message | db] eqn:E.
    + set (q'' := Queue.emit Queue.QueueChanged _). exists q''.
      split; [reflexivity |].
      destruct (Hfinish q''
                  (fun r => {| Db.id := Db.id r; Db.status := failed;
                               Db.request := Db.request r; Db.resultId := Some imageId;
                               Db.error := Some message; Db.priority := Db.priority r;
                               Db.createdAt := Db.createdAt r;
                               Db.startedAt := Db.startedAt r;
                               Db.completedAt := Some (Queue.clock q) |}))
        as [Hwf'' Hcost]; [reflexivity | reflexivity | | reflexivity |].
      * unfold rows. subst q''.
        cbn [Queue.database Queue.emit Queue.with_activeRuns Queue.runJob_catch
               Queue.with_database Queue.draw Queue.clock].
        unfold Db.markQueueJobFailed, Db.markQueueJobCompleted, Db.update_queue_jobs.
        cbn [Db.queue_jobs Db.with_queue_jobs]. rewrite List.map_map.
        apply List.map_ext. intros r. unfold Db.has_id.
        destruct (String.eqb (Db.id r) (Db.id job)) eqn:Er.
        -- cbn [Db.id]. rewrite Er. reflexivity.
        -- rewrite Er. reflexivity.
      * split; [exact Hwf'' |]. split; [| reflexivity]. unfold projectedSpend.
        unfold rows in Hcost.
        change (Db.usage_log (Queue.database q''))
          with (Db.usage_log (Queue.database q)).
        lra.
    + unfold Db.insertUsageLog in E. destruct (existsb _ _); [discriminate |].
      injection E as <-.
      set (q'' := Queue.emit Queue.QueueChanged _). exists q''.
      split; [reflexivity |].
      destruct (Hfinish q''
                  (fun r => {| Db.id := Db.id r; Db.status := completed;
                               Db.request := Db.request r; Db.resultId := Some imageId;
                               Db.error := Db.error r; Db.priority := Db.priority r;
                               Db.createdAt := Db.createdAt r;
                               Db.startedAt := Db.startedAt r;
                               Db.completedAt := Some (Queue.clock q) |}))
        as [Hwf'' Hcost]; [reflexivity | reflexivity | reflexivity | reflexivity |].
      split; [exact Hwf'' |]. split; [| reflexivity]. unfold projectedSpend.
      unfold rows in Hcost.
      change (Db.usage_log (Queue.database q''))
        with (Db.usage_log (Queue.database q)
              ++ [{| Db.log_id := uuidv4 P (Queue.drawn q);
                     Db.log_model := model (Db.request job);
                     Db.log_resolution := resolution (Db.request job);
                     Db.cost_estimate := Queue.estimateCost (resolution (Db.request job));
                     Db.tokens_in := Gemini.inputTokens <$> usage;
                     Db.tokens_out := Gemini.outputTokens <$> usage;
                     Db.created_at := Queue.clock q |}]).
      rewrite List.map_app. cbn [List.map Db.cost_estimate]. rewrite sumQ_snoc. lra.
  - set (q'' := Queue.emit Queue.QueueChanged _). exists q''.
    split; [reflexivity |].
    destruct (Hfinish q''
                (fun r => {| Db.id := Db.id r; Db.status := failed;
                             Db.request := Db.request r; Db.resultId := Db.resultId r;
                             Db.error := Some message; Db.priority := Db.priority r;
                             Db.createdAt := Db.createdAt r;
                             Db.startedAt := Db.startedAt r;
                             Db.completedAt := Some (Queue.clock q) |}))
      as [Hwf'' Hcost]; [reflexivity | reflexivity | reflexivity | reflexivity |].
    split; [exact Hwf'' |]. split; [| reflexivity]. unfold projectedSpend.
    unfold rows in Hcost.
    change (Db.usage_log (Queue.database q'')) with (Db.usage_log (Queue.database q)).
    lra.
Qed.

Lemma admitted_within_limit (added : Q) q (L : Q) :
  0 < added -> Queue.assertSpendWithinLimits P added None q = inr tt ->
  totalLimit P q = Some L ->
  projectedSpend (Queue.database q) + added <= L.
Proof.
  intros Hpos Hpass Hlimit. unfold Queue.assertSpendWithinLimits in Hpass.
  assert (E : Qle_bool added 0 = false) by now apply Qle_bool_false.
  rewrite E in Hpass. cbv zeta in Hpass.
  destruct (Queue.assertSingleLimit P "Monatslimit" _ _ _ _) as [message | []];
    [discriminate |].
  pose proof (assertSingleLimit_within _ _ _ _ _ _ Hpass L Hlimit) as H.
  rewrite getSessionCost_all, getReservedQueueCost_all in H.
  unfold projectedSpend. lra.
Qed.

Lemma step_spend (e : Queue.Event) q (L : Q) :
  wellFormed q -> (forall patch, e <> Queue.ConfigUpdate patch) ->
  totalLimit P q = Some L -> projectedSpend (Queue.database q) <= L ->
  projectedSpend (Queue.database (Queue.step P e q)) <= L
  /\ totalLimit P (Queue.step P e q) = Some L.
Proof.
  intros Hwf Hne Hlimit Hspend. unfold totalLimit in *.
  destruct e as [request | | | jobId | value | jobId outcome | patch | key | t];
    cbn [Queue.step].
  - unfold Queue.enqueue. cbv zeta.
    set (batch := Z.min Queue.MAX_BATCH_COUNT
                    (Z.max 1 (default 1%Z (batchCount request)))).
    destruct (Queue.assertSpendWithinLimits P _ None q) as [message | []] eqn:Hcheck;
      [now split |].
    apply admitted_within_limit with (L := L) in Hcheck;
      [| apply estimatedBatchCost_pos | exact Hlimit].
    destruct (enqueue_loop_added P (Z.to_nat batch) request [] q Hwf)
      as (Hwf1 & Hlog1 & Hconfig1 & added & Hrows1 & Hcost1).
    assert (Hbatch : inject_Z (Z.of_nat (Z.to_nat batch)) == inject_Z batch).
    { rewrite Z2Nat.id; [reflexivity |]. subst batch. unfold Queue.MAX_BATCH_COUNT. lia. }
    rewrite Hbatch in Hcost1.
    assert (Hspend1 : projectedSpend
                        (Queue.database (snd (Queue.enqueue_loop P (Z.to_nat batch)
                                                request [] q))) <= L).
    { unfold projectedSpend. rewrite Hlog1. unfold rows in Hrows1. rewrite Hrows1.
      rewrite openJobCosts_app. unfold projectedSpend in Hcheck. lra. }
    destruct (Queue.enqueue_loop P (Z.to_nat batch) request [] q) as [[message | ids] q1];
      cbn [snd] in *.
    + split; [exact Hspend1 | now rewrite Hconfig1].
    + destruct (kick_spend P (Queue.emit Queue.QueueChanged q1) Hwf1) as [Hle Hc].
      cbn [Queue.database Queue.emit Queue.configStore] in Hle, Hc.
      split; [lra | now rewrite Hc, Hconfig1].
  - now split.
  - destruct (kick_spend P (Queue.emit Queue.QueueChanged (Queue.with_paused false q)) Hwf)
      as [Hle Hc].
    cbn [Queue.database Queue.emit Queue.with_paused Queue.configStore] in Hle, Hc.
    unfold Queue.resume. split; [lra | now rewrite Hc].
  - assert (Hrest : Db.usage_log (Queue.database (snd (Queue.cancel jobId q)))
                    = Db.usage_log (Queue.database q)
                    /\ Queue.configStore (snd (Queue.cancel jobId q)) = Queue.configStore q).
    { unfold Queue.cancel.
      destruct (Db.getQueueJobById jobId (Queue.database q)) as [job |]; [| now split].
      destruct (Db.is_pending job); now split. }
    destruct Hrest as [Hlog Hc]. split; [| now rewrite Hc].
    unfold projectedSpend. rewrite Hlog.
    assert (sumQ (openJobCosts (rows (snd (Queue.cancel jobId q))))
            <= sumQ (openJobCosts (rows q))).
    { destruct (cancel_rows jobId q) as [-> | ->]; [lra |].
      apply closing_update_cost. reflexivity. }
    unfold projectedSpend, rows in *. lra.
  - destruct (kick_spend P (Queue.with_concurrency (Queue.clampConcurrency value) q) Hwf)
      as [Hle Hc].
    cbn [Queue.database Queue.with_concurrency Queue.configStore] in Hle, Hc.
    unfold Queue.setConcurrency. split; [lra | now rewrite Hc].
  - unfold Queue.settle.
    destruct (Db.getQueueJobById jobId (Queue.database q)) as [job |] eqn:Hget;
      [| now split].
    destruct (Db.is_running job) eqn:Hr; [| now split].
    apply getQueueJobById_In in Hget as [Hin _]. apply is_running_iff in Hr.
    destruct (resume_spend job outcome q Hwf Hin Hr) as (q'' & -> & Hwf'' & Hle'' & Hc'').
    destruct (kick_spend P q'' Hwf'') as [Hle Hc].
    split; [lra | now rewrite Hc, Hc''].
  - destruct (Hne patch eq_refl).
  - now split.
  - now split.
Qed.
End SpendLimitRun.

(** X20.  The total spend limit holds.  While the configured total limit
    is not changed, the cost of the generations logged so far together
    with the estimates of the open jobs never passes it, once it is
    within it: enqueueing is admitted only within the limit, a completed
    job moves its estimate from reserved to spent, and a failed or
    cancelled job releases it.  In particular the logged spend itself
    stays within the limit. *)
Theorem total_spend_within_limit (P : Platform) (events : list Queue.Event)
    (q : Queue.GenerationQueue) (L : Q) :
  wellFormed q ->
  Forall (fun e => forall patch, e <> Queue.ConfigUpdate patch) events ->
  totalLimit P q = Some L ->
  projectedSpend (Queue.database q) <= L ->
  let q' := Queue.run P events q in
  Db.getSessionCost (one_month_before P) all (Queue.clock q') (Queue.database q')
  + Queue.getReservedQueueCost None q' <= L
  /\ Db.getSessionCost (one_month_before P) all (Queue.clock q') (Queue.database q') <= L
  /\ totalLimit P q' = Some L.
Proof.
  intros Hwf Hevents Hlimit Hspend q'.
  assert (H : wellFormed q' /\ projectedSpend (Queue.database q') <= L
              /\ totalLimit P q' = Some L).
  { subst q'. revert q Hwf Hlimit Hspend. unfold Queue.run.
    induction Hevents as [| e events He _ IH]; intros q Hwf Hlimit Hspend; [auto |].
    cbn [List.fold_left].
    destruct (step_spend P e q L Hwf He Hlimit Hspend) as [Hspend' Hlimit'].
    apply IH; [now apply step_dispatched | exact Hlimit' | exact Hspend']. }
  destruct H as (_ & Hspend' & Hlimit').
  rewrite getSessionCost_all, getReservedQueueCost_all.
  pose proof (openJobCosts_nonneg (Db.queue_jobs (Queue.database q'))).
  unfold projectedSpend in Hspend'. repeat split; [lra | lra | exact Hlimit'].
Qed.

Lemma total_spend_within_limit_witness :
  let q := Queue.run samplePlatform
             [Queue.Resume; Queue.Settle "a" (Queue.Generated "img-1" None);
              Queue.Enqueue (sampleRequest (Some "1K") (Some 4%Z))]
             (sampleQueue spentDatabase (sampleConfig None (Some (Num 1)))) in
  Db.getSessionCost (one_month_before samplePlatform) all (Queue.clock q) (Queue.database q)
  <= 1000 # 1000.
Proof.
  intros q.
  apply (total_spend_within_limit samplePlatform
           [Queue.Resume; Queue.Settle "a" (Queue.Generated "img-1" None);
            Queue.Enqueue (sampleRequest (Some "1K") (Some 4%Z))]
           (sampleQueue spentDatabase (sampleConfig None (Some (Num 1)))) (1000 # 1000)).
  - split; [apply (bool_decide_unpack (NoDup _)); vm_compute; exact I | reflexivity].
  - repeat constructor; discriminate.
  - reflexivity.
  - vm_compute. discriminate.
Defined.

Local Close Scope Q_scope.

(** ** Dispatch runs to completion *)

Lemma kick_fuel_at_rest (P : Platform) (fuel : nat) q :
  quiescent q -> Queue.kick_fuel P fuel q = q.
Proof.
  intros Hq. destruct fuel as [| fuel]; [reflexivity |]. cbn [Queue.kick_fuel].
  destruct (Queue.paused q) eqn:Hp; [reflexivity |].
  destruct Hq as [Hq | [Hq | Hq]]; [congruence | |].
  - apply Z.ltb_ge in Hq. now rewrite Hq.
  - rewrite Hq. now destruct (_ <? _).
Qed.

Lemma startsRows_refl l : startsRows l l.
Proof. intros i row H. exists row. split; [exact H | now left]. Qed.

Lemma startsRows_trans l1 l2 l3 : startsRows l1 l2 -> startsRows l2 l3 -> startsRows l1 l3.
Proof.
  intros H12 H23 i row H. destruct (H12 i row H) as (row' & H' & Hs).
  destruct (H23 i row' H') as (row'' & H'' & Hs'). exists row''. split; [exact H'' |].
  destruct Hs as [-> | (Hp & Hst & Hkey)]; [exact Hs' |].
  destruct Hs' as [-> | (Hp' & _)]; [right; auto |].
  destruct Hst as [Hst | Hst]; congruence.
Qed.

Lemma startsRows_update (jobId : string) (set : Db.QueueJob -> Db.QueueJob)
    (l : list Db.QueueJob) :
  (forall r, In r l -> Db.id r = jobId -> starts r (set r)) ->
  startsRows l (List.map (fun r => if Db.has_id jobId r then set r else r) l).
Proof.
  intros Hset i row H. change (List.map ?f l) with (f <$> l).
  rewrite list_lookup_fmap, H. cbn. eexists. split; [reflexivity |].
  destruct (Db.has_id jobId row) eqn:E; [| now left].
  apply Hset; [| now apply has_id_true].
  apply list_elem_of_In. eapply list_elem_of_lookup_2, H.
Qed.

Section Dispatch.
Variable P : Platform.

Lemma runJob_starts (kick' : Queue.GenerationQueue -> Queue.GenerationQueue) job q :
  (forall q0, wellFormed q0 -> startsRows (rows q0) (rows (kick' q0))) ->
  wellFormed q -> Db.getNextPendingJob (Queue.database q) = Some job ->
  startsRows (rows q) (rows (Queue.runJob P kick' job q)).
Proof.
  intros Hkick Hwf Hnext.
  apply getNextPendingJob_In in Hnext as [Hin Hstatus].
  pose proof (start_job q job Hwf Hin Hstatus) as Hs. cbv zeta in Hs.
  unfold Queue.runJob. cbv zeta.
  set (q3 := Queue.emit Queue.QueueChanged _) in *.
  change (Queue.emit Queue.QueueChanged _) with q3 in Hs.
  destruct Hs as (Hwf3 & _ & _ & _ & job' & Hin' & Hid' & Hst' & _).
  destruct (Queue.runJob_checks P job q3) as [message | cost].
  - rewrite (runJob_catch_id job job' message q3) by (symmetry; exact Hid').
    assert (Hp' : Db.is_pending job' = false) by (unfold Db.is_pending; now rewrite Hst').
    pose proof (fail_job q3 job' message Hwf3 Hin' Hp') as Hf. cbv zeta in Hf.
    assert (Hr' : Db.is_running job' = true) by (unfold Db.is_running; now rewrite Hst').
    rewrite Hr' in Hf. cbn [Z.b2z] in Hf.
    unfold Queue.runJob_finally.
    set (q5 := Queue.emit Queue.QueueChanged (Queue.with_activeRuns _ _)).
    change (Queue.emit Queue.QueueChanged (Queue.with_activeRuns _ _)) with q5 in Hf.
    destruct Hf as (Hwf5 & _).
    eapply startsRows_trans; [| exact (Hkick q5 Hwf5)].
    assert (Hrows5 : rows q5
                     = List.map
                         (fun r => if Db.has_id (Db.id job) r
                                   then {| Db.id := Db.id r; Db.status := failed;
                                           Db.request := Db.request r;
                                           Db.resultId := Db.resultId r;
                                           Db.error := Some message;
                                           Db.priority := Db.priority r;
                                           Db.createdAt := Db.createdAt r;
                                           Db.startedAt := Some (Queue.clock q);
                                           Db.completedAt := Some (Queue.clock q) |}
                                   else r) (rows q)).
    { unfold rows. subst q5 q3.
      cbn [Queue.database Queue.emit Queue.with_activeRuns Queue.runJob_catch
             Queue.with_database Queue.clock].
      unfold Db.markQueueJobFailed, Db.markQueueJobRunning, Db.update_queue_jobs.
      cbn [Db.queue_jobs Db.with_queue_jobs]. rewrite List.map_map, Hid'.
      apply List.map_ext. intros r. unfold Db.has_id.
      destruct (String.eqb (Db.id r) (Db.id job)) eqn:Er.
      - cbn [Db.id]. rewrite Er. reflexivity.
      - rewrite Er. reflexivity. }
    rewrite Hrows5. apply (startsRows_update (Db.id job)). intros r Hr Hidr.
    rewrite (NoDup_id_eq _ r job (proj1 Hwf) Hr Hin Hidr).
    right. split; [exact Hstatus |]. split; [right; reflexivity | reflexivity].
  - apply (startsRows_update (Db.id job)). intros r Hr Hidr.
    rewrite (NoDup_id_eq _ r job (proj1 Hwf) Hr Hin Hidr).
    right. split; [exact Hstatus |]. split; [left; reflexivity | reflexivity].
Qed.

Lemma kick_fuel_starts (fuel : nat) q :
  wellFormed q -> startsRows (rows q) (rows (Queue.kick_fuel P fuel q)).
Proof.
  revert q. induction fuel as [| fuel IH]; intros q Hwf; [apply startsRows_refl |].
  cbn [Queue.kick_fuel]. destruct (Queue.paused q); [apply startsRows_refl |].
  destruct (Queue.activeRuns q <? Queue.concurrency q); [| apply startsRows_refl].
  destruct (Db.getNextPendingJob (Queue.database q)) as [job |] eqn:Hnext;
    [| apply startsRows_refl].
  destruct (runJob_dispatched P (Queue.kick_fuel P fuel) job q
              (kick_fuel_dispatched P fuel) Hwf Hnext) as (Hwf1 & _).
  eapply startsRows_trans; [| exact (IH _ Hwf1)].
  now apply runJob_starts.
Qed.
End Dispatch.

(** X21.  [kick] leaves nothing to do: when it returns, the queue is
    paused, or as many jobs are in flight as the limit allows, or no job
    is pending; a second [kick] right after changes nothing.  Every row
    it touched was pending before, and is running afterwards, or failed
    when a check before the generation threw. *)
Theorem kick_idempotent (P : Platform) (q : Queue.GenerationQueue) :
  wellFormed q ->
  Queue.kick P (Queue.kick P q) = Queue.kick P q
  /\ (Queue.paused (Queue.kick P q) = true
      \/ Queue.concurrency (Queue.kick P q) <= Queue.activeRuns (Queue.kick P q)
      \/ forall row, In row (rows (Queue.kick P q)) -> Db.status row <> pending)
  /\ (forall (i : nat) row, rows q !! i = Some row ->
        exists row', rows (Queue.kick P q) !! i = Some row'
          /\ (row' = row
              \/ (Db.status row = pending
                  /\ (Db.status row' = running \/ Db.status row' = failed)
                  /\ rowKey row' = rowKey row))).
Proof.
  intros Hwf. destruct (kick_total P q Hwf) as [Hrest _]. split; [| split].
  - now apply kick_fuel_at_rest.
  - destruct Hrest as [Hp | [Hc | Hn]]; [now left | right; now left | right; right].
    intros row Hin Hpending. apply getNextPendingJob_None in Hn.
    assert (Hf : In row (List.filter Db.is_pending
                           (Db.queue_jobs (Queue.database (Queue.kick P q)))))
      by (apply List.filter_In; split; [exact Hin | now apply is_pending_iff]).
    rewrite Hn in Hf. destruct Hf.
  - apply (kick_fuel_starts P _ q Hwf).
Qed.

Lemma kick_idempotent_witness :
  let q := Queue.with_paused false
             (sampleQueue (snd (Db.requeueRunningJobs sampleDatabase))
                (sampleConfig None None)) in
  Queue.kick samplePlatform (Queue.kick samplePlatform q) = Queue.kick samplePlatform q.
Proof.
  intros q. apply (kick_idempotent samplePlatform q).
  split; [apply (bool_decide_unpack (NoDup _)); vm_compute; exact I |].
  reflexivity.
Defined.

(** ** Deleted images *)

(** X22.  A soft-deleted image can no longer be read, but its row stays:
    the reads of all other images, the reference rows, the tags and the
    files are untouched, no row appears or disappears, and an insert
    under the same identifier still fails.  Only the hard delete frees
    the identifier, and only when no reference row and no tag points to
    the image: then it removes that one row.  Otherwise the foreign key
    refuses the [DELETE], which throws and changes nothing. *)
Theorem softDeleteImage_hides (N : Node) (fails : ImageStore.IoCall -> bool)
    (now : Z) (imageId : string) (w : ImageStore.World) :
  let w' := ImageTable.softDeleteImage now imageId w in
  ImageStore.getImageById imageId w' = None
  /\ (forall other, other <> imageId ->
        ImageStore.getImageById other w' = ImageStore.getImageById other w)
  /\ (forall i, ImageStore.images w' !! i = None <-> ImageStore.images w !! i = None)
  /\ ImageStore.reference_images w' = ImageStore.reference_images w
  /\ ImageStore.image_tags w' = ImageStore.image_tags w
  /\ ImageStore.files w' = ImageStore.files w
  /\ (forall input, ImageStore.images w !! imageId <> None -> Images.id input = imageId ->
        exists message, ImageStore.insertImage N fails input w' = (inl message, w'))
  /\ (ImageStore.referencesOf imageId w = ∅ -> ImageStore.tagsOf imageId w = [] ->
        fst (ImageStore.deleteImageHard imageId w') = inr tt
        /\ ImageStore.images (snd (ImageStore.deleteImageHard imageId w'))
           = delete imageId (ImageStore.images w')
        /\ ImageStore.images (snd (ImageStore.deleteImageHard imageId w')) !! imageId = None)
  /\ (ImageStore.images w !! imageId <> None ->
      ImageStore.referencesOf imageId w <> ∅ \/ ImageStore.tagsOf imageId w <> [] ->
        ImageStore.deleteImageHard imageId w'
        = (inl "FOREIGN KEY constraint failed", w')).
Proof.
  intros w'.
  assert (Hrow : ImageStore.images w' !! imageId = None
                 <-> ImageStore.images w !! imageId = None).
  { subst w'. unfold ImageTable.softDeleteImage. cbn [ImageStore.images ImageStore.with_images].
    rewrite lookup_alter_eq. now destruct (ImageStore.images w !! imageId). }
  assert (Hrefs : ImageStore.referencesOf imageId w' = ImageStore.referencesOf imageId w)
    by reflexivity.
  assert (Htags : ImageStore.tagsOf imageId w' = ImageStore.tagsOf imageId w)
    by reflexivity.
  split; [| split; [| split; [| split; [| split; [| split; [| split; [| split]]]]]]].
  - subst w'. unfold ImageTable.softDeleteImage, ImageStore.getImageById.
    cbn [ImageStore.images ImageStore.with_images].
    rewrite lookup_alter_eq. now destruct (ImageStore.images w !! imageId).
  - intros other Hne. subst w'. unfold ImageTable.softDeleteImage, ImageStore.getImageById.
    cbn [ImageStore.images ImageStore.with_images].
    now rewrite lookup_alter_ne by congruence.
  - intros i. destruct (decide (imageId = i)) as [<- | Hne]; [exact Hrow |].
    subst w'. unfold ImageTable.softDeleteImage.
    cbn [ImageStore.images ImageStore.with_images]. now rewrite lookup_alter_ne.
  - reflexivity.
  - reflexivity.
  - reflexivity.
  - intros input Hsome Hid. unfold ImageStore.insertImage.
    destruct (fails _); [eauto |]. rewrite Hid.
    destruct (ImageStore.images w' !! imageId) eqn:E; [eauto |].
    exfalso. apply Hsome. now apply Hrow.
  - intros Hnone Hnone'. unfold ImageStore.deleteImageHard.
    destruct (ImageStore.images w' !! imageId) eqn:E.
    + rewrite Hrefs, Htags, Hnone, Hnone', !bool_decide_eq_true_2 by reflexivity.
      cbn [andb fst snd ImageStore.images ImageStore.with_images].
      split; [reflexivity |]. split; [reflexivity | apply lookup_delete_eq].
    + cbn [fst snd]. split; [reflexivity |]. split; [| exact E].
      symmetry. now apply delete_id.
  - intros Hsome Hpointed. unfold ImageStore.deleteImageHard.
    destruct (ImageStore.images w' !! imageId) eqn:E;
      [| exfalso; apply Hsome; now apply Hrow].
    rewrite Hrefs, Htags. destruct Hpointed as [Hp | Hp].
    + now rewrite (bool_decide_eq_false_2 _ Hp).
    + rewrite (bool_decide_eq_false_2 _ Hp). now rewrite andb_false_r.
Qed.

Lemma softDeleteImage_hides_witness :
  let w := ImageStore.with_images {[ "img-1" := sampleImage ]} emptyWorld in
  let referenced :=
    ImageStore.with_reference_images
      {[ "ref-1" := {| ReferenceImages.id := "ref-1"; ReferenceImages.imageId := "img-1";
                       ReferenceImages.filePath := "images/references/ref-1.png";
                       ReferenceImages.label := None; ReferenceImages.position := 0 |} ]} w in
  (exists message,
     ImageStore.insertImage sampleNode nothingFails sampleImage
       (ImageTable.softDeleteImage 99 "img-1" w)
     = (inl message, ImageTable.softDeleteImage 99 "img-1" w))
  /\ ImageStore.images
       (snd (ImageStore.deleteImageHard "img-1" (ImageTable.softDeleteImage 99 "img-1" w)))
     !! "img-1" = None
  /\ ImageStore.deleteImageHard "img-1" (ImageTable.softDeleteImage 99 "img-1" referenced)
     = (inl "FOREIGN KEY constraint failed", ImageTable.softDeleteImage 99 "img-1" referenced).
Proof.
  intros w referenced.
  destruct (softDeleteImage_hides sampleNode nothingFails 99 "img-1" w)
    as (_ & _ & _ & _ & _ & _ & Hinsert & Hfree & _).
  destruct (softDeleteImage_hides sampleNode nothingFails 99 "img-1" referenced)
    as (_ & _ & _ & _ & _ & _ & _ & _ & Hrefused).
  split; [apply Hinsert; [vm_compute; discriminate | reflexivity] |].
  split; [apply Hfree; vm_compute; reflexivity |].
  apply Hrefused; [vm_compute; discriminate |].
  left. intros Hempty.
  assert (Hlookup : ImageStore.referencesOf "img-1" referenced !! "ref-1" = None)
    by (rewrite Hempty; apply lookup_empty).
  vm_compute in Hlookup. discriminate Hlookup.
Defined.

(** ** The spend check at the start of a job *)

Lemma reserved_without_own (q : Queue.GenerationQueue) (job : Db.QueueJob) :
  NoDup (Db.id <$> rows q) -> In job (rows q) -> Db.id job <> EmptyString ->
  Db.is_open job = true ->
  (Queue.getReservedQueueCost (Some (Db.id job)) q
   + Queue.estimateCost (resolution (Db.request job))
   == Queue.getReservedQueueCost None q)%Q.
Proof.
  intros Hnodup Hin Hne Hopen. unfold Queue.getReservedQueueCost.
  rewrite reserved_fold. cbv beta iota. rewrite fold_left_cost.
  destruct (Db.id job) as [| c s] eqn:Hid; [congruence |]. cbn [truthy andb].
  rewrite <- (sum_without_job (String c s) (Db.listOpenQueueJobs (Queue.database q)) job).
  - ring.
  - unfold Db.listOpenQueueJobs. rewrite merge_sort_Permutation.
    now apply NoDup_ids_filter.
  - apply list_elem_of_In. unfold Db.listOpenQueueJobs. rewrite merge_sort_Permutation.
    apply list_elem_of_In, List.filter_In. split; [exact Hin | exact Hopen].
  - exact Hid.
Qed.

(** X23.  The spend check at the start of a job counts the job's own
    estimate once.  With an API key configured, a job that has been marked
    running passes the check when, for the monthly and for the total limit
    that are configured, the spend of that window and the estimates of all
    open jobs, the job itself among them, are below the limit, and it
    fails with the message of the limit when they are above one.  When
    they equal a limit the job passes unless the floating-point sum of the
    machine comes out above the limit.  Without an API key the job fails
    before the check. *)
Theorem runJob_checks_spec (P : Platform) (job : Db.QueueJob) (q : Queue.GenerationQueue) :
  NoDup (Db.id <$> rows q) -> In job (rows q) -> Db.id job <> EmptyString ->
  Db.status job = running ->
  let config := Config.getPublicConfig (decodeApiKey P) (Queue.configStore q) in
  let spent w :=
    Db.getSessionCost (one_month_before P) w (Queue.clock q) (Queue.database q) in
  let key := Config.getApiKey (decodeApiKey P) (Queue.configStore q) in
  let own := Queue.estimateCost (resolution (Db.request job)) in
  let others := Queue.getReservedQueueCost (Some (Db.id job)) q in
  let projected w := (spent w + Queue.getReservedQueueCost None q)%Q in
  let within l w :=
    (projected w < l)%Q
    \/ ((projected w == l)%Q /\ sum_rounds_up P (spent w) others own = false) in
  let monthly := Config.publicMonthlySpendLimitUsd config in
  let total := Config.publicTotalSpendLimitUsd config in
  (others + own == Queue.getReservedQueueCost None q)%Q
  /\ (key = None \/ key = Some EmptyString ->
        exists message, Queue.runJob_checks P job q = inl message)
  /\ (forall c k, key = Some (String c k) ->
        (Queue.runJob_checks P job q = inr own
         <-> (forall l, monthly = Some l -> within l month)
             /\ (forall l, total = Some l -> within l all))
        /\ ((exists l, monthly = Some l /\ (l < projected month)%Q)
            \/ (exists l, total = Some l /\ (l < projected all)%Q) ->
            exists message, Queue.runJob_checks P job q = inl message)
        /\ ((forall l, monthly = Some l -> (projected month < l)%Q) ->
            (forall l, total = Some l -> (projected all < l)%Q) ->
            Queue.runJob_checks P job q = inr own)
        /\ (forall message, Queue.runJob_checks P job q = inl message ->
              exists label l w,
                message = Queue.spendLimitMessage label l (spent w) others own
                /\ (l <= projected w)%Q
                /\ ((label = "Monatslimit" /\ w = month /\ monthly = Some l)
                    \/ (label = "Gesamtlimit" /\ w = all /\ total = Some l)))).
Proof.
  intros Hnodup Hin Hne Hr config spent key own others projected within monthly total.
  assert (Hopen : Db.is_open job = true) by (unfold Db.is_open; now rewrite Hr).
  pose proof (reserved_without_own q job Hnodup Hin Hne Hopen) as Hown.
  fold own others in Hown.
  pose proof (estimateCost_pos (resolution (Db.request job))) as Hpos. fold own in Hpos.
  split; [exact Hown |]. unfold Queue.runJob_checks. fold key own. split.
  - intros [-> | ->]; eauto.
  - intros c k ->.
    rewrite (assertSpendWithinLimits_unfold P own (Some (Db.id job)) q Hpos).
    fold config others. fold (spent month) (spent all). fold monthly total.
    assert (Hm : forall message,
              Queue.assertSingleLimit P "Monatslimit" monthly (spent month) others own
              = inl message <->
              exists l, monthly = Some l
                        /\ ((l < projected month)%Q
                            \/ ((projected month == l)%Q
                                /\ sum_rounds_up P (spent month) others own = true))
                        /\ message = Queue.spendLimitMessage "Monatslimit" l
                                       (spent month) others own).
    { intros message. rewrite assertSingleLimit_throws. unfold projected.
      split; intros (l & Hl & Hcase & Hmsg); exists l; (split; [exact Hl |]);
        (split; [| exact Hmsg]); destruct Hcase as [H | [H H']];
        [left; lra | right; split; [lra | exact H'] | left; lra
         | right; split; [lra | exact H']]. }
    assert (Ht : forall message,
              Queue.assertSingleLimit P "Gesamtlimit" total (spent all) others own
              = inl message <->
              exists l, total = Some l
                        /\ ((l < projected all)%Q
                            \/ ((projected all == l)%Q
                                /\ sum_rounds_up P (spent all) others own = true))
                        /\ message = Queue.spendLimitMessage "Gesamtlimit" l
                                       (spent all) others own).
    { intros message. rewrite assertSingleLimit_throws. unfold projected.
      split; intros (l & Hl & Hcase & Hmsg); exists l; (split; [exact Hl |]);
        (split; [| exact Hmsg]); destruct Hcase as [H | [H H']];
        [left; lra | right; split; [lra | exact H'] | left; lra
         | right; split; [lra | exact H']]. }
    assert (Hmp : Queue.assertSingleLimit P "Monatslimit" monthly (spent month) others own
                  = inr tt <-> forall l, monthly = Some l -> within l month).
    { rewrite assertSingleLimit_passes. unfold within, projected.
      split; intros H l Hl; destruct (H l Hl) as [H1 | [H1 H2]];
        [left; lra | right; split; [lra | exact H2] | left; lra
         | right; split; [lra | exact H2]]. }
    assert (Htp : Queue.assertSingleLimit P "Gesamtlimit" total (spent all) others own
                  = inr tt <-> forall l, total = Some l -> within l all).
    { rewrite assertSingleLimit_passes. unfold within, projected.
      split; intros H l Hl; destruct (H l Hl) as [H1 | [H1 H2]];
        [left; lra | right; split; [lra | exact H2] | left; lra
         | right; split; [lra | exact H2]]. }
    destruct (Queue.assertSingleLimit P "Monatslimit" monthly (spent month) others own)
      as [message | []].
    + destruct (proj1 (Hm message) eq_refl) as (l & Hl & Hcase & ->).
      split; [| split; [| split]].
      * split; [discriminate |]. intros [Hmonth _].
        destruct (Hmonth l Hl) as [H | [H H']]; destruct Hcase as [Hc | [Hc Hc']];
          try lra; congruence.
      * eauto.
      * intros Hmonth _. specialize (Hmonth l Hl).
        destruct Hcase as [Hc | [Hc _]]; lra.
      * intros message [= <-]. exists "Monatslimit", l, month.
        split; [reflexivity |]. split; [destruct Hcase as [Hc | [Hc _]]; lra | tauto].
    + assert (Hmonth : forall l, monthly = Some l -> within l month)
        by exact (proj1 Hmp eq_refl).
      destruct (Queue.assertSingleLimit P "Gesamtlimit" total (spent all) others own)
        as [message | []].
      * destruct (proj1 (Ht message) eq_refl) as (l & Hl & Hcase & ->).
        split; [| split; [| split]].
        -- split; [discriminate |]. intros [_ Htotal].
           destruct (Htotal l Hl) as [H | [H H']]; destruct Hcase as [Hc | [Hc Hc']];
             try lra; congruence.
        -- eauto.
        -- intros _ Htotal. specialize (Htotal l Hl).
           destruct Hcase as [Hc | [Hc _]]; lra.
        -- intros message [= <-]. exists "Gesamtlimit", l, all.
           split; [reflexivity |]. split; [destruct Hcase as [Hc | [Hc _]]; lra | tauto].
      * assert (Htotal : forall l, total = Some l -> within l all)
          by exact (proj1 Htp eq_refl).
        split; [| split; [| split]].
        -- split; [intros _; now split | reflexivity].
        -- intros [(l & Hl & Habove) | (l & Hl & Habove)]; exfalso.
           ++ destruct (Hmonth l Hl) as [H | [H _]]; lra.
           ++ destruct (Htotal l Hl) as [H | [H _]]; lra.
        -- reflexivity.
        -- discriminate.
Qed.

Lemma runJob_checks_spec_witness :
  Queue.runJob_checks samplePlatform (sampleJob "c" running 5)
    (sampleQueue sampleDatabase (sampleConfig None None))
  = inr 0.134%Q
  /\ (Db.getSessionCost (one_month_before samplePlatform) all 1000 spentDatabase
      + 0.134 == 0.938)%Q
  /\ Queue.runJob_checks samplePlatform (sampleJob "a" running 10)
       (sampleQueue startedDatabase
          (sampleConfig None (Some (Num 0.938))))
     <> inr 0.134%Q.
Proof.
  split; [| split; [vm_compute; reflexivity |]].
  - destruct (runJob_checks_spec samplePlatform (sampleJob "c" running 5)
                (sampleQueue sampleDatabase (sampleConfig None None)))
      as (_ & _ & Hkey).
    + apply (bool_decide_unpack (NoDup _)). vm_compute. exact I.
    + cbn. tauto.
    + discriminate.
    + reflexivity.
    + destruct (Hkey "v"%char "1:secret" eq_refl) as (_ & _ & Hbelow & _).
      apply Hbelow; intros l Hl; discriminate Hl.
  - destruct (runJob_checks_spec samplePlatform (sampleJob "a" running 10)
                (sampleQueue startedDatabase
                   (sampleConfig None (Some (Num 0.938)))))
      as (_ & _ & Hkey).
    + apply (bool_decide_unpack (NoDup _)). vm_compute. exact I.
    + cbn. tauto.
    + discriminate.
    + reflexivity.
    + destruct (Hkey "v"%char "1:secret" eq_refl) as (Hiff & _).
      intros Hpass. apply Hiff in Hpass as [_ Htotal].
      destruct (Htotal (938 # 1000)%Q) as [H | [_ H]].
      * vm_compute. reflexivity.
      * vm_compute in H. discriminate H.
      * vm_compute in H. discriminate H.
Defined.

(** ** The events of the queue *)

Lemma emits_trans q1 q2 q3 more more' :
  emits q1 q2 more -> emits q2 q3 more' -> emits q1 q3 (more ++ more').
Proof. unfold emits. intros H1 H2. now rewrite H2, H1, app_assoc. Qed.

Section Events.
Variable P : Platform.

Lemma runJob_emits (kick' : Queue.GenerationQueue -> Queue.GenerationQueue) job q :
  (forall q0, exists more, emits q0 (kick' q0) more) ->
  exists more, emits q (Queue.runJob P kick' job q) (Queue.QueueChanged :: more).
Proof.
  intros Hkick. unfold Queue.runJob. cbv zeta.
  destruct (Queue.runJob_checks P job _) as [message | cost].
  - unfold Queue.runJob_finally.
    set (q5 := Queue.emit Queue.QueueChanged (Queue.with_activeRuns _ _)).
    destruct (Hkick q5) as [more Hmore].
    exists ([Queue.JobFailed (Db.id job) message; Queue.QueueChanged] ++ more).
    unfold emits in *. rewrite Hmore. subst q5.
    cbn [Queue.emitted Queue.emit Queue.with_activeRuns Queue.runJob_catch
           Queue.with_database].
    now rewrite <- !app_assoc.
  - exists []. reflexivity.
Qed.

Lemma kick_fuel_emits (fuel : nat) q :
  exists more, emits q (Queue.kick_fuel P fuel q) more.
Proof.
  revert q. induction fuel as [| fuel IH]; intros q.
  - exists []. unfold emits. now rewrite app_nil_r.
  - assert (Hstay : exists more, emits q q more)
      by (exists []; unfold emits; now rewrite app_nil_r).
    cbn [Queue.kick_fuel]. destruct (Queue.paused q); [exact Hstay |].
    destruct (Queue.activeRuns q <? Queue.concurrency q); [| exact Hstay].
    destruct (Db.getNextPendingJob (Queue.database q)) as [job |]; [| exact Hstay].
    destruct (runJob_emits (Queue.kick_fuel P fuel) job q IH) as [more Hmore].
    destruct (IH (Queue.runJob P (Queue.kick_fuel P fuel) job q)) as [more' Hmore'].
    eexists. eapply emits_trans; eassumption.
Qed.

Lemma enqueue_loop_emitted (n : nat) request ids q :
  Queue.emitted (snd (Queue.enqueue_loop P n request ids q)) = Queue.emitted q.
Proof.
  revert ids q. induction n as [| n IH]; intros ids q; cbn [Queue.enqueue_loop];
    [reflexivity |].
  destruct (Db.insertQueueJob _ _ _ _ _ _) as [message | db]; [reflexivity |].
  now rewrite IH.
Qed.
End Events.

(** X24.  The events of the queue are only ever appended.  When a
    running job settles with an image, the queue emits job-completed with
    the job and the image and then queue-changed; when it settles with an
    error, it emits job-failed with the job and the message and then
    queue-changed; it never emits job-completed for a job that threw.
    Pausing emits queue-changed, and a cancel that is refused emits
    nothing. *)
Theorem settle_emits (P : Platform) (jobId : string) (q : Queue.GenerationQueue)
    (job : Db.QueueJob) :
  Db.getQueueJobById jobId (Queue.database q) = Some job ->
  Db.status job = running ->
  (forall message, exists more,
     emits q (Queue.settle P jobId (Queue.Thrown message) q)
       ([Queue.JobFailed jobId message; Queue.QueueChanged] ++ more))
  /\ (forall imageId usage,
        existsb (fun entry => String.eqb (Db.log_id entry) (uuidv4 P (Queue.drawn q)))
          (Db.usage_log (Queue.database q)) = false ->
        exists more,
          emits q (Queue.settle P jobId (Queue.Generated imageId usage) q)
            ([Queue.JobCompleted jobId imageId; Queue.QueueChanged] ++ more))
  /\ (forall e, exists more, emits q (Queue.step P e q) more)
  /\ emits q (Queue.pause q) [Queue.QueueChanged]
  /\ emits q (snd (Queue.cancel jobId q)) [].
Proof.
  intros Hget Hr. destruct (getQueueJobById_In _ _ _ Hget) as [_ Hid].
  assert (Hrun : Db.is_running job = true) by now apply is_running_iff.
  assert (Hp : Db.is_pending job = false) by (unfold Db.is_pending; now rewrite Hr).
  split; [| split; [| split; [| split]]].
  - intros message. unfold Queue.settle. rewrite Hget, Hrun.
    unfold Queue.runJob_resume, Queue.runJob_finally.
    set (q'' := Queue.emit Queue.QueueChanged _).
    destruct (kick_fuel_emits P (S (length (Db.queue_jobs (Queue.database q'')))) q'')
      as [more Hmore].
    exists more. unfold emits in *. unfold Queue.kick. rewrite Hmore. subst q''.
    cbn [Queue.emitted Queue.emit Queue.with_activeRuns Queue.runJob_catch
           Queue.with_database].
    rewrite Hid. now rewrite <- !app_assoc.
  - intros imageId usage Hnew. unfold Queue.settle. rewrite Hget, Hrun.
    unfold Queue.runJob_resume, Queue.runJob_finally. cbv zeta.
    unfold Db.insertUsageLog.
    cbn [Queue.database Queue.with_database Queue.draw Queue.drawn Queue.clock
           Db.usage_log Db.markQueueJobCompleted Db.update_queue_jobs Db.with_queue_jobs].
    rewrite Hnew.
    set (q'' := Queue.emit Queue.QueueChanged _).
    destruct (kick_fuel_emits P (S (length (Db.queue_jobs (Queue.database q'')))) q'')
      as [more Hmore].
    exists more. unfold emits in *. unfold Queue.kick. rewrite Hmore. subst q''.
    cbn [Queue.emitted Queue.emit Queue.with_activeRuns Queue.with_database Queue.draw].
    rewrite Hid. now rewrite <- !app_assoc.
  - assert (Hkick : forall q0, exists more, emits q0 (Queue.kick P q0) more)
      by (intros q0; apply kick_fuel_emits).
    assert (Hstay : forall q0, exists more, emits q0 q0 more)
      by (intros q0; exists []; unfold emits; now rewrite app_nil_r).
    intros [request | | | jobId' | value | jobId' outcome | patch | key | t];
      cbn [Queue.step].
    + unfold Queue.enqueue. cbv zeta.
      destruct (Queue.assertSpendWithinLimits P _ None q); [apply Hstay |].
      pose proof (enqueue_loop_emitted P
                    (Z.to_nat (Z.min Queue.MAX_BATCH_COUNT
                                 (Z.max 1 (default 1 (batchCount request)))))
                    request [] q) as Hloop.
      destruct (Queue.enqueue_loop P _ request [] q) as [[message | ids] q1];
        cbn [snd] in *.
      * exists []. unfold emits. now rewrite Hloop, app_nil_r.
      * destruct (Hkick (Queue.emit Queue.QueueChanged q1)) as [more Hmore].
        exists (Queue.QueueChanged :: more). unfold emits in *. rewrite Hmore.
        cbn [Queue.emitted Queue.emit]. now rewrite Hloop, <- app_assoc.
    + exists [Queue.QueueChanged]. reflexivity.
    + destruct (Hkick (Queue.emit Queue.QueueChanged (Queue.with_paused false q)))
        as [more Hmore].
      exists (Queue.QueueChanged :: more). unfold emits, Queue.resume in *. rewrite Hmore.
      cbn [Queue.emitted Queue.emit Queue.with_paused]. now rewrite <- app_assoc.
    + unfold Queue.cancel.
      destruct (Db.getQueueJobById jobId' (Queue.database q)) as [job' |]; [| apply Hstay].
      destruct (Db.is_pending job'); [| apply Hstay].
      exists [Queue.QueueChanged]. reflexivity.
    + apply (Hkick (Queue.with_concurrency (Queue.clampConcurrency value) q)).
    + unfold Queue.settle.
      destruct (Db.getQueueJobById jobId' (Queue.database q)) as [job' |]; [| apply Hstay].
      destruct (Db.is_running job'); [| apply Hstay].
      unfold Queue.runJob_resume, Queue.runJob_finally.
      set (q'' := Queue.emit Queue.QueueChanged _).
      destruct (Hkick q'') as [more Hmore].
      assert (Hq'' : exists before, emits q q'' before).
      { subst q''. unfold emits. destruct outcome as [imageId usage | message].
        - cbv zeta. destruct (Db.insertUsageLog _ _ _ _ _ _ _ _); eexists;
            cbn [Queue.emitted Queue.emit Queue.with_activeRuns Queue.runJob_catch
                   Queue.with_database Queue.draw];
            rewrite <- ?app_assoc; reflexivity.
        - eexists.
          cbn [Queue.emitted Queue.emit Queue.with_activeRuns Queue.runJob_catch
                 Queue.with_database].
          rewrite <- ?app_assoc. reflexivity. }
      destruct Hq'' as [before Hbefore]. eexists. eapply emits_trans; eassumption.
    + destruct (Ipc.parseConfigPatch patch) as [message | validated]; [apply Hstay |].
      apply (Hkick (Queue.with_concurrency _ (Queue.with_configStore _ q))).
    + apply (Hstay q).
    + apply (Hstay q).
  - reflexivity.
  - unfold Queue.cancel. rewrite Hget, Hp. unfold emits. now rewrite app_nil_r.
Qed.

Lemma settle_emits_witness :
  let q := Queue.with_activeRuns 1 (sampleQueue sampleDatabase (sampleConfig None None)) in
  exists more,
    Queue.emitted (Queue.settle samplePlatform "c" (Queue.Thrown "HTTP 400") q)
    = [Queue.JobFailed "c" "HTTP 400"; Queue.QueueChanged] ++ more.
Proof.
  intros q.
  destruct (settle_emits samplePlatform "c" q (sampleJob "c" running 5) eq_refl eq_refl)
    as (Hthrown & _).
  destruct (Hthrown "HTTP 400") as [more Hmore]. exists more. exact Hmore.
Defined.
